(** * Drizzle-Generator: column codec, entity generators, source reader,
      schema change detector.

    A shallow embedding of the TypeScript sources.  JavaScript strings are
    modelled as [string] (sequences of 8-bit characters); the case
    conversions and the regular-expression classes [\w], [\d], [\s] act on
    the ASCII range, every other character is left as it is.  JavaScript
    numbers occurring in definitions (lengths, numeric defaults) are
    modelled as integers [Z] and printed in decimal.  *)

From Stdlib Require Import String Ascii List ZArith Lia Bool Arith Permutation.
From Stdlib Require Import DecimalString Sorted DecimalPos DecimalZ.
Import ListNotations.
Local Open Scope list_scope.
Local Open Scope string_scope.

(* ================================================================== *)
(** ** JavaScript string primitives                                    *)
(* ================================================================== *)

Module Js.

Definition code (c : ascii) : nat := nat_of_ascii c.

Definition between (lo hi : nat) (c : ascii) : bool :=
  Nat.leb lo (code c) && Nat.leb (code c) hi.

Definition is_upper (c : ascii) : bool := between 65 90 c.
Definition is_lower (c : ascii) : bool := between 97 122 c.
Definition is_digit (c : ascii) : bool := between 48 57 c.
Definition is_alpha (c : ascii) : bool := is_upper c || is_lower c.

(** [\w] *)
Definition is_word (c : ascii) : bool :=
  is_upper c || is_lower c || is_digit c || Nat.eqb (code c) 95.

(** [\s] and the characters removed by [trim], in the ASCII range: the
    space and the codes 9 to 13.  JavaScript also counts U+00A0, U+FEFF,
    U+2028 and the other Unicode blanks, which are not modelled; on a
    string of ASCII characters the two agree. *)
Definition is_space (c : ascii) : bool :=
  Nat.eqb (code c) 32 || between 9 13 c.

Definition any_char (_ : ascii) : bool := true.
Definition not_char (a : ascii) (c : ascii) : bool := negb (Ascii.eqb a c).

Definition lower_char (c : ascii) : ascii :=
  if is_upper c then ascii_of_nat (code c + 32) else c.
Definition upper_char (c : ascii) : ascii :=
  if is_lower c then ascii_of_nat (code c - 32) else c.

Fixpoint smap (f : ascii -> ascii) (s : string) : string :=
  match s with
  | EmptyString => EmptyString
  | String c s' => String (f c) (smap f s')
  end.

Definition toLowerCase (s : string) : string := smap lower_char s.

(** Truthiness of a string: only the empty string is falsy. *)
Definition truthy (s : string) : bool :=
  match s with EmptyString => false | _ => true end.

(** Truthiness of an optional string property ([undefined] is falsy). *)
Definition truthy_opt (o : option string) : bool :=
  match o with Some s => truthy s | None => false end.

Definition truthy_bool (o : option bool) : bool :=
  match o with Some b => b | None => false end.

(** Truthiness of an optional number: [undefined] and [0] are falsy. *)
Definition truthy_num (o : option Z) : bool :=
  match o with Some z => negb (Z.eqb z 0) | None => false end.

Fixpoint startsWith (s p : string) : bool :=
  match p, s with
  | EmptyString, _ => true
  | String a p', String b s' => Ascii.eqb a b && startsWith s' p'
  | String _ _, EmptyString => false
  end.

Fixpoint includes (s p : string) : bool :=
  startsWith s p ||
  match s with
  | EmptyString => false
  | String _ s' => includes s' p
  end.

Fixpoint drop (n : nat) (s : string) : string :=
  match n, s with
  | O, _ => s
  | S n', String _ s' => drop n' s'
  | S _, EmptyString => EmptyString
  end.

Fixpoint take (n : nat) (s : string) : string :=
  match n, s with
  | O, _ => EmptyString
  | S n', String c s' => String c (take n' s')
  | S _, EmptyString => EmptyString
  end.

(** [s.replace(p, "")] with a string pattern: the first occurrence of
    [p] is removed. *)
Fixpoint remove_first (p s : string) : string :=
  if startsWith s p then drop (String.length p) s
  else match s with
       | EmptyString => EmptyString
       | String c s' => String c (remove_first p s')
       end.

(** [arr.join(sep)] *)
Fixpoint join (sep : string) (l : list string) : string :=
  match l with
  | [] => ""
  | [x] => x
  | x :: rest => x ++ sep ++ join sep rest
  end.

Definition cons_head (c : ascii) (l : list string) : list string :=
  match l with
  | [] => [String c ""]
  | w :: ws => String c w :: ws
  end.

(** [s.split(sep)] for a one-character separator string. *)
Fixpoint split_char (sep : ascii) (s : string) : list string :=
  match s with
  | EmptyString => [""]
  | String c s' =>
      if Ascii.eqb c sep then "" :: split_char sep s'
      else cons_head c (split_char sep s')
  end.

(** [s.split(/[p]+/)]: a maximal run of separator characters is one
    separator. [in_sep] tells that the previous character was one. *)
Fixpoint split_runs (p : ascii -> bool) (in_sep : bool) (s : string) : list string :=
  match s with
  | EmptyString => [""]
  | String c s' =>
      if p c then
        if in_sep then split_runs p true s' else "" :: split_runs p true s'
      else cons_head c (split_runs p false s')
  end.

(** [s.trim()], for the ASCII blanks of [is_space]: it is
    [String.prototype.trim] on strings of ASCII characters. *)
Fixpoint trimStart (s : string) : string :=
  match s with
  | String c s' => if is_space c then trimStart s' else s
  | EmptyString => EmptyString
  end.

(** Characters are kept from the right as long as something that is not
    a space follows. *)
Fixpoint trimEnd (s : string) : string :=
  match s with
  | EmptyString => EmptyString
  | String c s' =>
      match trimEnd s' with
      | EmptyString => if is_space c then EmptyString else String c EmptyString
      | t => String c t
      end
  end.

Definition trim (s : string) : string := trimEnd (trimStart s).

(** [s.replace(/,$/, "")] *)
Fixpoint strip_one_trailing_comma (s : string) : string :=
  match s with
  | EmptyString => EmptyString
  | String c EmptyString => if Ascii.eqb c "," then EmptyString else s
  | String c s' => String c (strip_one_trailing_comma s')
  end.

(** [s.replace(/,+$/, "")] *)
Fixpoint strip_trailing_commas (s : string) : string :=
  match s with
  | EmptyString => EmptyString
  | String c s' =>
      match strip_trailing_commas s' with
      | EmptyString => if Ascii.eqb c "," then EmptyString else String c EmptyString
      | t => String c t
      end
  end.

(** [s.replace(/'/g, "")] *)
Fixpoint remove_quotes (s : string) : string :=
  match s with
  | EmptyString => EmptyString
  | String c s' =>
      if Ascii.eqb c "'" then remove_quotes s' else String c (remove_quotes s')
  end.

(** Template-literal rendering of an integer number: its decimal digits.
    This is what JavaScript prints for an integer up to
    [Number.MAX_SAFE_INTEGER] in magnitude; from [10^21] on it prints an
    exponent instead. *)
Definition num_to_string (z : Z) : string := NilZero.string_of_int (Z.to_int z).

Definition digit_val (c : ascii) : Z := Z.of_nat (code c - 48).

(** [parseInt] on a string of decimal digits: the integer they denote.
    JavaScript returns this number exactly as long as it does not exceed
    [Number.MAX_SAFE_INTEGER], and the nearest double beyond. *)
Definition parseInt (s : string) : Z :=
  fold_left (fun acc c => (10 * acc + digit_val c)%Z) (list_ascii_of_string s) 0%Z.

Definition bool_to_string (b : bool) : string := if b then "true" else "false".

(** Rendering of an optional string in a template literal. *)
Definition str_or_undefined (o : option string) : string :=
  match o with Some s => s | None => "undefined" end.

(** An object or a [Map] with string keys: the entries in insertion order,
    one per key; setting an existing key replaces its value in place. *)
Fixpoint map_set {V : Type} (m : list (string * V)) (k : string) (v : V) : list (string * V) :=
  match m with
  | [] => [(k, v)]
  | (k', v') :: rest =>
      if String.eqb k' k then (k', v) :: rest else (k', v') :: map_set rest k v
  end.

Fixpoint map_get {V : Type} (m : list (string * V)) (k : string) : option V :=
  match m with
  | [] => None
  | (k', v') :: rest => if String.eqb k' k then Some v' else map_get rest k
  end.

Definition map_has {V : Type} (m : list (string * V)) (k : string) : bool :=
  match map_get m k with Some _ => true | None => false end.

(** [arr.push(x)] *)
Definition push {A : Type} (l : list A) (x : A) : list A := (l ++ [x])%list.

(** [arr.includes(x)] on an array of strings. *)
Definition arr_includes (l : list string) (x : string) : bool :=
  existsb (String.eqb x) l.

(** [[...new Set(arr)]]: first occurrences, in order. *)
Fixpoint set_of_aux (seen : list string) (l : list string) : list string :=
  match l with
  | [] => seen
  | x :: rest =>
      set_of_aux (if arr_includes seen x then seen else push seen x) rest
  end.
Definition set_of (l : list string) : list string := set_of_aux [] l.

(** [arr.sort()] on an array of strings: ascending in the order of the
    character codes. *)
Fixpoint sort_insert (x : string) (l : list string) : list string :=
  match l with
  | [] => [x]
  | y :: rest => if String.leb x y then x :: l else y :: sort_insert x rest
  end.
Definition sort (l : list string) : list string := fold_right sort_insert [] l.

End Js.

(* ================================================================== *)
(** ** Regular expressions                                             *)
(* ================================================================== *)

(** A backtracking matcher for the fragment of the regular-expression
    language the sources use: literals, character classes, greedy and lazy
    repetition of a character class, a greedy optional group, capturing
    groups (never nested) and the end anchor. *)
Module Regex.

Inductive regex : Type :=
| RChar (c : ascii)
| RClass (p : ascii -> bool)
| REps
| RSeq (r1 r2 : regex)
| RStar (p : ascii -> bool)
| RPlus (p : ascii -> bool)
| RLazyStar (p : ascii -> bool)
| ROpt (r : regex)
| RGroup (r : regex)
| REnd.

Fixpoint RLit (s : string) : regex :=
  match s with
  | EmptyString => REps
  | String c s' => RSeq (RChar c) (RLit s')
  end.

Fixpoint RCat (l : list regex) : regex :=
  match l with
  | [] => REps
  | r :: rest => RSeq r (RCat rest)
  end.

Section Matcher.
Context {A : Type}.

Definition or_else (x : option A) (y : option A) : option A :=
  match x with Some _ => x | None => y end.

(** Greedy [p*]: the longest run first, then shorter ones. *)
Fixpoint star_greedy (p : ascii -> bool) (s : string) (k : string -> option A) : option A :=
  match s with
  | String c s' => if p c then or_else (star_greedy p s' k) (k s) else k s
  | EmptyString => k s
  end.

(** Lazy [p*?]: the shortest run first. *)
Fixpoint star_lazy (p : ascii -> bool) (s : string) (k : string -> option A) : option A :=
  match k s with
  | Some r => Some r
  | None =>
      match s with
      | String c s' => if p c then star_lazy p s' k else None
      | EmptyString => None
      end
  end.

(** The text consumed between [s] and its suffix [s']. *)
Definition consumed (s s' : string) : string :=
  Js.take (String.length s - String.length s') s.

Fixpoint rmatch (r : regex) (s : string) (caps : list string)
         (k : string -> list string -> option A) : option A :=
  match r with
  | RChar c =>
      match s with
      | String c' s' => if Ascii.eqb c c' then k s' caps else None
      | EmptyString => None
      end
  | RClass p =>
      match s with
      | String c' s' => if p c' then k s' caps else None
      | EmptyString => None
      end
  | REps => k s caps
  | RSeq r1 r2 => rmatch r1 s caps (fun s1 caps1 => rmatch r2 s1 caps1 k)
  | RStar p => star_greedy p s (fun s' => k s' caps)
  | RPlus p =>
      match s with
      | String c' s' => if p c' then star_greedy p s' (fun s'' => k s'' caps) else None
      | EmptyString => None
      end
  | RLazyStar p => star_lazy p s (fun s' => k s' caps)
  | ROpt r1 => or_else (rmatch r1 s caps k) (k s caps)
  | RGroup r1 => rmatch r1 s caps (fun s' caps' => k s' (Js.push caps' (consumed s s')))
  | REnd =>
      match s with
      | EmptyString => k s caps
      | String _ _ => None
      end
  end.
End Matcher.

(** A match: the matched text, the captured groups, the rest of the
    input after the match. *)
Record match_result : Type := mkMatch {
  matched : string;
  groups : list string;
  rest : string
}.

Definition match_here (r : regex) (s : string) : option match_result :=
  rmatch r s [] (fun s' caps => Some (mkMatch (consumed s s') caps s')).

(** Leftmost match, as [String.prototype.match] without the [g] flag. *)
Fixpoint search (r : regex) (s : string) : option match_result :=
  match match_here r s with
  | Some m => Some m
  | None =>
      match s with
      | String _ s' => search r s'
      | EmptyString => None
      end
  end.

(** Group [i] of a match ([i >= 1]); a missing group reads as the empty
    string. *)
Definition group (m : match_result) (i : nat) : string :=
  nth (i - 1) (groups m) "".

(** [s.match(/^.../)]: only a match at the start of the input counts. *)
Definition match_start (r : regex) (s : string) : option match_result :=
  match_here r s.

(** [s.match(/.../g)]: the texts of the successive matches; after an
    empty match the scan moves on by one character. *)
Fixpoint match_all_fuel (fuel : nat) (r : regex) (s : string) : list string :=
  match fuel with
  | O => []
  | S fuel' =>
      match search r s with
      | None => []
      | Some m =>
          matched m ::
          match matched m, rest m with
          | EmptyString, String _ s' => match_all_fuel fuel' r s'
          | EmptyString, EmptyString => []
          | _, s' => match_all_fuel fuel' r s'
          end
      end
  end.

Definition match_all (r : regex) (s : string) : option (list string) :=
  match match_all_fuel (S (String.length s)) r s with
  | [] => None
  | l => Some l
  end.

End Regex.

(* ================================================================== *)
(** ** Definitions (src/definitions)                                   *)
(* ================================================================== *)

Definition nl : string := String (ascii_of_nat 10) "".

(** [ReferenceDefinition] *)
Record ReferenceDefinition : Type := mkReference {
  ref_table : string;
  ref_column : string
}.

(** The type [string | number | boolean] of [ColumnOptions.default]. *)
Inductive DefaultValue : Type :=
| DString (s : string)
| DNumber (z : Z)
| DBool (b : bool).

(** [ColumnOptions]: every property is optional. *)
Record ColumnOptions : Type := mkOptions {
  notNull : option bool;
  primaryKey : option bool;
  default : option DefaultValue;
  length : option Z;
  enumValues : option string;
  references : option ReferenceDefinition
}.

(** The empty object [{}]. *)
Definition no_options : ColumnOptions := mkOptions None None None None None None.

(** [ColumnDefinition] *)
Record ColumnDefinition : Type := mkColumn {
  col_name : string;
  col_type : option string;
  col_options : option ColumnOptions
}.

(** [EnumDefinition] *)
Record EnumDefinition : Type := mkEnum {
  enum_name : string;
  enum_values : list string
}.

(** [HelperDefinition] *)
Record HelperDefinition : Type := mkHelper {
  helper_name : string;
  helper_columns : list ColumnDefinition
}.

(** [TableDefinition] *)
Record TableDefinition : Type := mkTable {
  table_name : string;
  dbName : option string;
  table_columns : list ColumnDefinition;
  helperReferences : option (list string);
  compositePrimaryKey : option (list string)
}.

(** [ProjectGeneratorConfig] *)
Record ProjectGeneratorConfig : Type := mkConfig {
  outputDir : string;
  enums : option (list EnumDefinition);
  helpers : option (list HelperDefinition);
  tables : option (list TableDefinition);
  overwrite : option bool
}.

(** [ImportMap]: an object from import path to the names imported from
    it; property order is insertion order. *)
Definition ImportMap : Type := list (string * list string).

Record ColumnGeneratorResult : Type := mkColumnResult {
  column : string;
  column_imports : ImportMap;
  column_tables : list string;
  column_error : option string
}.

Record HelperGeneratorResult : Type := mkHelperResult {
  helperCode : string;
  helper_imports : ImportMap;
  helper_tables : list string;
  helper_error : option string
}.

Record EnumGeneratorResult : Type := mkEnumResult {
  enumCode : string;
  enum_imports : ImportMap;
  enum_error : option string
}.

Record TableGeneratorResult : Type := mkTableResult {
  tableCode : string;
  table_imports : ImportMap;
  table_tables : list string;
  table_error : option string
}.

(* ================================================================== *)
(** ** Utilities (src/utils)                                           *)
(* ================================================================== *)

(** The callback replacement [s.replace(/([A-Z])/g, (match, p1, offset) =>
    (offset > 0 ? "_" : "") + p1.toLowerCase())]; [offset] is the index of
    the current character in the input. *)
Fixpoint replace_upper (offset : nat) (s : string) : string :=
  match s with
  | EmptyString => EmptyString
  | String c s' =>
      if Js.is_upper c then
        (if Nat.ltb 0 offset then "_" else "")
          ++ String (Js.lower_char c) (replace_upper (S offset) s')
      else String c (replace_upper (S offset) s')
  end.

(** [SnakeCase] (src/utils/SnakeCase.ts) *)
Definition SnakeCase (str : string) : string :=
  if negb (Js.truthy str) then "" else replace_upper 0 str.

(** [w.charAt(0).toUpperCase() + w.slice(1).toLowerCase()] *)
Definition capitalize (w : string) : string :=
  match w with
  | EmptyString => EmptyString
  | String c w' => String (Js.upper_char c) (Js.toLowerCase w')
  end.

Definition is_sep (c : ascii) : bool := Ascii.eqb c "_" || Ascii.eqb c "-".

(** [PascalCase] *)
Definition PascalCase (value : string) : string :=
  Js.join ""
    (map (fun word => Js.join " " (map capitalize (Js.split_char " " word)))
         (Js.split_runs is_sep false value)).

(** Property lookup in an object literal with string values. *)
Fixpoint own_property (o : list (string * string)) (key : string) : option string :=
  match o with
  | [] => None
  | (k, v) :: rest => if String.eqb k key then Some v else own_property rest key
  end.

(** The members every object literal inherits from [Object.prototype]. A
    lookup of one of these names in [TypeMap] yields a function (or, for
    [__proto__], an object), which is truthy; it is represented by the
    text it turns into when concatenated to a string. *)
Definition Object_prototype : list (string * string) :=
  [ ("constructor", "function Object() { [native code] }");
    ("__defineGetter__", "function __defineGetter__() { [native code] }");
    ("__defineSetter__", "function __defineSetter__() { [native code] }");
    ("hasOwnProperty", "function hasOwnProperty() { [native code] }");
    ("__lookupGetter__", "function __lookupGetter__() { [native code] }");
    ("__lookupSetter__", "function __lookupSetter__() { [native code] }");
    ("isPrototypeOf", "function isPrototypeOf() { [native code] }");
    ("propertyIsEnumerable", "function propertyIsEnumerable() { [native code] }");
    ("toString", "function toString() { [native code] }");
    ("valueOf", "function valueOf() { [native code] }");
    ("__proto__", "[object Object]");
    ("toLocaleString", "function toLocaleString() { [native code] }") ].

(** [o[key]] for an object literal [o]. *)
Definition property (o : list (string * string)) (key : string) : option string :=
  match own_property o key with
  | Some v => Some v
  | None => own_property Object_prototype key
  end.

(** [TypeMap] *)
Definition TypeMap : list (string * string) :=
  [ ("serial", "serial"); ("string", "varchar"); ("text", "text");
    ("number", "integer"); ("bigint", "bigint"); ("boolean", "boolean");
    ("date", "timestamp"); ("json", "jsonb"); ("uuid", "uuid");
    ("enum", "pgEnum") ].

(** [addImportToMap] (and [ImportManager.addImport], which has the same
    body on the manager's own map). *)
Definition addImportToMap (imports : ImportMap) (importPath importName : string) : ImportMap :=
  let imports1 :=
    match Js.map_get imports importPath with
    | None => Js.map_set imports importPath []
    | Some _ => imports
    end in
  match Js.map_get imports1 importPath with
  | Some names =>
      if Js.arr_includes names importName then imports1
      else Js.map_set imports1 importPath (Js.push names importName)
  | None => imports1
  end.

(** [ImportManager]: the state of an instance is its [imports] map. *)
Module ImportManager.
Definition t : Type := ImportMap.
Definition new : t := [].
Definition addImport (m : t) (importPath importName : string) : t :=
  addImportToMap m importPath importName.
Definition addImports (m : t) (importPath : string) (importNames : list string) : t :=
  fold_left (fun acc name => addImport acc importPath name) importNames m.
Definition merge (m : t) (otherImports : ImportMap) : t :=
  fold_left (fun acc entry => addImports acc (fst entry) (snd entry)) otherImports m.
Definition getImports (m : t) : ImportMap := m.
Definition clear (m : t) : t := [].
Definition hasImport (m : t) (importPath : string) (importName : option string) : bool :=
  match Js.map_get m importPath with
  | None => false
  | Some names =>
      match importName with
      | Some name => if Js.truthy name then Js.arr_includes names name else true
      | None => true
      end
  end.
Definition generateImportStatements (m : t) : list string :=
  map (fun entry =>
         let uniqueNames := Js.sort (Js.set_of (snd entry)) in
         "import { " ++ Js.join ", " uniqueNames ++ " } from '" ++ fst entry ++ "';")
      (filter (fun entry => Nat.ltb 0 (List.length (snd entry))) m).
Definition toString (m : t) : string :=
  Js.join nl (generateImportStatements m).
End ImportManager.

(** [mergeImportMaps] *)
Definition mergeImportMaps (target source : ImportMap) : ImportMap :=
  fold_left (fun acc entry =>
               fold_left (fun acc name => addImportToMap acc (fst entry) name) (snd entry) acc)
            source target.

(* ================================================================== *)
(** ** Column generator (src/generators/ColumnGenerator.ts)            *)
(* ================================================================== *)

Definition quoted (s : string) : string := "'" ++ s ++ "'".

(** [/^sql\.(\w+)\(\)$/] *)
Definition re_sql_call : Regex.regex :=
  Regex.RCat [Regex.RLit "sql."; Regex.RGroup (Regex.RPlus Js.is_word);
              Regex.RLit "()"; Regex.REnd].

(** The rendering of [options.default] and whether [sql] is imported. *)
Definition render_default (is_enum_type : bool) (d : DefaultValue) : string * bool :=
  match d with
  | DString defaultValue =>
      if String.eqb defaultValue "sql.now()" then ("sql`now()`", true)
      else if Js.startsWith defaultValue "sql." then
        (match Regex.match_start re_sql_call defaultValue with
         | Some m => "sql`" ++ Regex.group m 1 ++ "()`"
         | None => defaultValue
         end, true)
      else if negb (Js.includes defaultValue "(") && negb (Js.includes defaultValue ".")
              && negb (Js.includes defaultValue "`") then
        (if is_enum_type then quoted (PascalCase defaultValue) else quoted defaultValue, false)
      else (defaultValue, false)
  | DNumber z => (Js.num_to_string z, false)
  | DBool b => (Js.bool_to_string b, false)
  end.

Definition ColumnGenerator (definition : ColumnDefinition) : ColumnGeneratorResult :=
  let name := col_name definition in
  let type := col_type definition in
  let options := match col_options definition with Some o => o | None => no_options end in
  let inferred : option string :=
    if Js.truthy_opt type then type
    else if Js.truthy_opt (enumValues options) then Some "enum"
    else None in
  match inferred with
  | None =>
      mkColumnResult "" [] []
        (Some ("Type is required for column '" ++ name
               ++ "'. Provide either 'type' property or 'enumValues' in options."))
  | Some inferredType =>
      match property TypeMap (Js.toLowerCase inferredType) with
      | None =>
          mkColumnResult "" [] []
            (Some ("Unsupported type '" ++ inferredType ++ "' for column '" ++ name ++ "'."))
      | Some drizzleFunc =>
          let is_enum_type := String.eqb (Js.toLowerCase inferredType) "enum" in
          let enum_name_ := match enumValues options with Some e => e | None => "" end in
          let is_enum := is_enum_type && Js.truthy_opt (enumValues options) in
          let imports1 :=
            if negb is_enum_type
            then addImportToMap [] "drizzle-orm/pg-core" drizzleFunc
            else [] in
          (* type-specific configuration: the varchar length, else the enum call *)
          let with_length := String.eqb drizzleFunc "varchar" && Js.truthy_num (length options) in
          let enum_call := negb with_length && is_enum in
          let functionArgs :=
            if with_length then
              Js.push [quoted name]
                ("{ length: " ++ Js.num_to_string
                    (match length options with Some n => n | None => 255%Z end) ++ " }")
            else [quoted name] in
          let columnCode1 :=
            if enum_call then name ++ ": " ++ enum_name_ ++ "(" else name ++ ": " in
          let imports2 :=
            if enum_call then addImportToMap imports1 "../enums/index.js" enum_name_
            else imports1 in
          (* function call *)
          let columnCode2 :=
            if is_enum then columnCode1 ++ Js.join ", " functionArgs
            else columnCode1 ++ drizzleFunc ++ "(" ++ Js.join ", " functionArgs in
          let columnCode3 := columnCode2 ++ ")" in
          (* chainable options *)
          let columnCode4 :=
            if Js.truthy_bool (primaryKey options) then columnCode3 ++ ".primaryKey()"
            else columnCode3 in
          let columnCode5 :=
            if Js.truthy_bool (notNull options) then columnCode4 ++ ".notNull()"
            else columnCode4 in
          let rendered := option_map (render_default is_enum_type) (default options) in
          let columnCode6 :=
            match rendered with
            | Some r => columnCode5 ++ ".default(" ++ fst r ++ ")"
            | None => columnCode5
            end in
          let imports3 :=
            match rendered with
            | Some r => if snd r then addImportToMap imports2 "drizzle-orm" "sql" else imports2
            | None => imports2
            end in
          (* foreign key reference *)
          let columnCode7 :=
            match references options with
            | Some r =>
                columnCode6 ++ ".references(() => " ++ ref_table r ++ "." ++ ref_column r ++ ")"
            | None => columnCode6
            end in
          let imports4 :=
            match references options with
            | Some r => addImportToMap imports3 "../tables/index.js" (ref_table r)
            | None => imports3
            end in
          let tables1 :=
            match references options with
            | Some r => Js.push [] (ref_table r)
            | None => []
            end in
          mkColumnResult (columnCode7 ++ ",") imports4 (Js.set_of tables1) None
      end
  end.

(* ================================================================== *)
(** ** Enum and helper generators (src/generators/HelperGenerator.ts)  *)
(* ================================================================== *)

(** [EnumGenerator] *)
Definition EnumGenerator (definition : EnumDefinition) : EnumGeneratorResult :=
  let name := enum_name definition in
  let values := enum_values definition in
  if negb (Js.truthy name) || Nat.eqb (List.length values) 0 then
    mkEnumResult "" [] (Some "Enum name and values are mandatory.")
  else
    let formattedValues := Js.join ", " (map (fun v => quoted (PascalCase v)) values) in
    mkEnumResult
      ("export const " ++ name ++ " = pgEnum('" ++ SnakeCase name ++ "', ["
         ++ formattedValues ++ "] as const);")
      [("drizzle-orm/pg-core", ["pgEnum"])]
      None.

(** State of the column loop of [HelperGenerator] and [TableGenerator]. *)
Record loop_state : Type := mkLoop {
  importManager : ImportManager.t;
  allTables : list string;
  columnCodes : list string;
  (** the definitions handed to [ColumnGenerator] so far *)
  encoded : list ColumnDefinition
}.

(** The [for (const columnDef of columns)] loop; [clean] removes the
    trailing comma(s) of a column fragment. An error ends the loop and
    is returned with the state reached. *)
Fixpoint column_loop (clean : string -> string) (columns : list ColumnDefinition)
         (st : loop_state) : loop_state * option string :=
  match columns with
  | [] => (st, None)
  | columnDef :: rest =>
      let columnResult := ColumnGenerator columnDef in
      let handed := Js.push (encoded st) columnDef in
      if Js.truthy_opt (column_error columnResult) then
        (mkLoop (importManager st) (allTables st) (columnCodes st) handed,
         Some ("Error in column '" ++ col_name columnDef ++ "': "
               ++ Js.str_or_undefined (column_error columnResult)))
      else
        let cleanColumnCode := clean (column columnResult) in
        column_loop clean rest
          (mkLoop (ImportManager.merge (importManager st) (column_imports columnResult))
                  (allTables st ++ column_tables columnResult)%list
                  (Js.push (columnCodes st) ("    " ++ cleanColumnCode))
                  handed)
  end.

(** [HelperGenerator], together with the definitions it handed to
    [ColumnGenerator]. *)
Definition HelperGenerator_run (definition : HelperDefinition)
  : HelperGeneratorResult * list ColumnDefinition :=
  let name := helper_name definition in
  let columns := helper_columns definition in
  if negb (Js.truthy name) || negb (Js.truthy (Js.trim name)) then
    (mkHelperResult "" [] [] (Some "Helper name is required."), [])
  else if Nat.eqb (List.length columns) 0 then
    (mkHelperResult "" [] [] (Some "At least one column is required for a helper."), [])
  else
    match column_loop Js.strip_one_trailing_comma columns (mkLoop ImportManager.new [] [] []) with
    | (st, Some e) => (mkHelperResult "" [] [] (Some e), encoded st)
    | (st, None) =>
        (mkHelperResult
           ("export const " ++ name ++ " = {" ++ nl
              ++ Js.join ("," ++ nl) (columnCodes st) ++ nl ++ "};")
           (ImportManager.getImports (importManager st))
           (Js.set_of (allTables st))
           None,
         encoded st)
    end.

Definition HelperGenerator (definition : HelperDefinition) : HelperGeneratorResult :=
  fst (HelperGenerator_run definition).

(* ================================================================== *)
(** ** Table generator                                                 *)
(* ================================================================== *)

Definition TableGenerator (definition : TableDefinition) : TableGeneratorResult :=
  let name := table_name definition in
  let columns := table_columns definition in
  let helperRefs := match helperReferences definition with Some l => l | None => [] end in
  if negb (Js.truthy name) || negb (Js.truthy (Js.trim name)) then
    mkTableResult "" [] [] (Some "Table name is required.")
  else if Nat.eqb (List.length columns) 0 && Nat.eqb (List.length helperRefs) 0 then
    mkTableResult "" [] [] (Some "Table must have at least one column or helper reference.")
  else
    let im0 := ImportManager.addImport ImportManager.new "drizzle-orm/pg-core" "pgTable" in
    match column_loop Js.strip_trailing_commas columns (mkLoop im0 [] [] []) with
    | (_, Some e) => mkTableResult "" [] [] (Some e)
    | (st, None) =>
        (* helper references *)
        let '(im1, helperSpreads) :=
          if Nat.ltb 0 (List.length helperRefs) then
            (ImportManager.addImports (importManager st) "../helpers/index.js" helperRefs,
             map (fun helper => "    ..." ++ helper) helperRefs)
          else (importManager st, []) in
        let tableName :=
          if Js.truthy_opt (dbName definition)
          then match dbName definition with Some d => d | None => "" end
          else SnakeCase name in
        let allColumnEntries := (columnCodes st ++ helperSpreads)%list in
        let tableStructure :=
          if Nat.ltb 0 (List.length allColumnEntries)
          then "{" ++ nl ++ Js.join ("," ++ nl) allColumnEntries ++ nl ++ "}"
          else "{}" in
        (* composite primary key *)
        let '(im2, compositePKCode) :=
          match compositePrimaryKey definition with
          | Some pk =>
              if Nat.ltb 1 (List.length pk) then
                let tableVarName := Js.toLowerCase name in
                let pkColumns := Js.join ", " (map (fun c => tableVarName ++ "." ++ c) pk) in
                (ImportManager.addImport im1 "drizzle-orm/pg-core" "primaryKey",
                 ", (" ++ tableVarName ++ ") => ({" ++ nl
                   ++ "    compositePK: primaryKey({ columns: [" ++ pkColumns ++ "] })"
                   ++ nl ++ "})")
              else (im1, "")
          | None => (im1, "")
          end in
        let tableVarName := Js.toLowerCase name in
        mkTableResult
          ("export const " ++ tableVarName ++ " = pgTable('" ++ tableName ++ "', "
             ++ tableStructure ++ compositePKCode ++ ");")
          (ImportManager.getImports im2)
          (Js.set_of (allTables st))
          None
    end.

(* ================================================================== *)
(** ** Schema reader (SchemaReader)                                    *)
(* ================================================================== *)

Module SchemaReader.
Import Regex.

(** [.] : every character but a line terminator. *)
Definition dot (c : ascii) : bool :=
  negb (Nat.eqb (Js.code c) 10 || Nat.eqb (Js.code c) 13).

(** [/export const (\w+) = pgEnum\('([^']+)', \[([^\]]+)\] as const\);/] *)
Definition re_enum : regex :=
  RCat [RLit "export const "; RGroup (RPlus Js.is_word); RLit " = pgEnum('";
        RGroup (RPlus (Js.not_char "'")); RLit "', [";
        RGroup (RPlus (Js.not_char "]")); RLit "] as const);"].

(** [/'([^']+)'/g] *)
Definition re_enum_value : regex :=
  RCat [RLit "'"; RGroup (RPlus (Js.not_char "'")); RLit "'"].

(** [/export const (\w+) = \{([\s\S]*?)\};/] *)
Definition re_helper : regex :=
  RCat [RLit "export const "; RGroup (RPlus Js.is_word); RLit " = {";
        RGroup (RLazyStar Js.any_char); RLit "};"].

(** [[^,\n}]] *)
Definition helper_column_char (c : ascii) : bool :=
  negb (Ascii.eqb c "," || Nat.eqb (Js.code c) 10 || Ascii.eqb c "}").

(** [/(\w+):\s*([^,\n}]+)/g] *)
Definition re_helper_column : regex :=
  RCat [RGroup (RPlus Js.is_word); RLit ":"; RStar Js.is_space;
        RGroup (RPlus helper_column_char)].

(** [/export const (\w+) = pgTable\('([^']+)', \{([\s\S]*?)\}(?:, \([^)]+\) => \(\{[\s\S]*?\}\))?\);/] *)
Definition re_table : regex :=
  RCat [RLit "export const "; RGroup (RPlus Js.is_word); RLit " = pgTable('";
        RGroup (RPlus (Js.not_char "'")); RLit "', {";
        RGroup (RLazyStar Js.any_char); RLit "}";
        ROpt (RCat [RLit ", ("; RPlus (Js.not_char ")"); RLit ") => ({";
                    RLazyStar Js.any_char; RLit "})"]);
        RLit ");"].

(** [/\.\.\.(\w+)/] *)
Definition re_spread : regex := RCat [RLit "..."; RGroup (RPlus Js.is_word)].

(** [/(\w+):\s*(.+)/] *)
Definition re_column : regex :=
  RCat [RGroup (RPlus Js.is_word); RLit ":"; RStar Js.is_space; RGroup (RPlus dot)].

(** [/^(\w+)\(/] *)
Definition re_leading_call : regex := RCat [RGroup (RPlus Js.is_word); RLit "("].

(** [/\.default\('([^']+)'\)/] *)
Definition re_enum_default : regex :=
  RCat [RLit ".default('"; RGroup (RPlus (Js.not_char "'")); RLit "')"].

(** [/\{ length: (\d+) \}/] *)
Definition re_length : regex :=
  RCat [RLit "{ length: "; RGroup (RPlus Js.is_digit); RLit " }"].

(** [/\.default\(([^)]+)\)/] *)
Definition re_default : regex :=
  RCat [RLit ".default("; RGroup (RPlus (Js.not_char ")")); RLit ")"].

(** [/^\d+$/] *)
Definition re_digits : regex := RCat [RPlus Js.is_digit; REnd].

(** [/sql`([^`]+)`/] *)
Definition re_sql_template : regex :=
  RCat [RLit "sql`"; RGroup (RPlus (Js.not_char "`")); RLit "`"].

(** [/\.references\(\(\) => (\w+)\.(\w+)\)/] *)
Definition re_references : regex :=
  RCat [RLit ".references(() => "; RGroup (RPlus Js.is_word); RLit ".";
        RGroup (RPlus Js.is_word); RLit ")"].

(** [/primaryKey\(\{ columns: \[([^\]]+)\] \}\)/] *)
Definition re_composite_pk : regex :=
  RCat [RLit "primaryKey({ columns: ["; RGroup (RPlus (Js.not_char "]")); RLit "] })"].

(** [/\w+\.(\w+)/g] *)
Definition re_pk_column : regex :=
  RCat [RPlus Js.is_word; RLit "."; RGroup (RPlus Js.is_word)].

(** The reverse type map local to [parseColumnType]. *)
Definition typeMap : list (string * string) :=
  [ ("serial", "serial"); ("varchar", "string"); ("text", "text");
    ("integer", "number"); ("bigint", "bigint"); ("boolean", "boolean");
    ("timestamp", "date"); ("jsonb", "json"); ("uuid", "uuid") ].

(** The reader's result and its instance-scoped list of errors. *)
Definition reading (A : Type) : Type := option A * list string.

(** [parseEnumContent] *)
Definition parseEnumContent (content filename : string) (errors : list string)
  : reading EnumDefinition :=
  match search re_enum content with
  | None => (None, Js.push errors ("Could not parse enum in " ++ filename))
  | Some enumMatch =>
      let name := group enumMatch 1 in
      let valuesString := group enumMatch 3 in
      match match_all re_enum_value valuesString with
      | None => (None, Js.push errors ("Could not parse enum values in " ++ filename))
      | Some valuesMatch =>
          let values :=
            map (fun v => let cleaned := Js.remove_quotes v in replace_upper 0 cleaned)
                valuesMatch in
          (Some (mkEnum name values), errors)
      end
  end.

(** The first entry of the reverse map whose constructor, followed by an
    opening parenthesis, starts the definition. *)
Fixpoint first_type (entries : list (string * string)) (definition : string) : option string :=
  match entries with
  | [] => None
  | (drizzleType, ourType) :: rest =>
      if Js.startsWith definition (drizzleType ++ "(") then Some ourType
      else first_type rest definition
  end.

(** [parseColumnType] *)
Definition parseColumnType (definition : string) : option string * ColumnOptions :=
  let enum_case :=
    match match_start re_leading_call definition with
    | Some enumMatch =>
        match property typeMap (group enumMatch 1) with
        | Some _ => None
        | None => Some (group enumMatch 1)
        end
    | None => None
    end in
  match enum_case with
  | Some enumName =>
      let default_ :=
        if Js.includes definition ".default(" then
          match search re_enum_default definition with
          | Some defaultMatch => Some (DString (Js.toLowerCase (group defaultMatch 1)))
          | None => None
          end
        else None in
      let notNull_ := if Js.includes definition ".notNull()" then Some true else None in
      (None, mkOptions notNull_ None default_ None (Some enumName) None)
  | None =>
      let type := first_type typeMap definition in
      let length_ :=
        if Js.includes definition "{ length:" then
          match search re_length definition with
          | Some lengthMatch => Some (Js.parseInt (group lengthMatch 1))
          | None => None
          end
        else None in
      let primaryKey_ := if Js.includes definition ".primaryKey()" then Some true else None in
      let notNull_ := if Js.includes definition ".notNull()" then Some true else None in
      let default_ :=
        if Js.includes definition ".default(" then
          match search re_default definition with
          | Some defaultMatch =>
              let defaultValue := group defaultMatch 1 in
              if String.eqb defaultValue "true" || String.eqb defaultValue "false" then
                Some (DBool (String.eqb defaultValue "true"))
              else if match match_start re_digits defaultValue with
                      | Some _ => true | None => false end then
                Some (DNumber (Js.parseInt defaultValue))
              else if Js.includes defaultValue "sql`" then
                match search re_sql_template defaultValue with
                | Some sqlMatch => Some (DString ("sql." ++ group sqlMatch 1 ++ "()"))
                | None => None
                end
              else Some (DString (Js.remove_quotes defaultValue))
          | None => None
          end
        else None in
      let references_ :=
        if Js.includes definition ".references(" then
          match search re_references definition with
          | Some refMatch => Some (mkReference (group refMatch 1) (group refMatch 2))
          | None => None
          end
        else None in
      (type, mkOptions notNull_ primaryKey_ default_ length_ None references_)
  end.

(** [Object.keys(options).length > 0] *)
Definition has_keys (o : ColumnOptions) : bool :=
  match notNull o, primaryKey o, default o, length o, enumValues o, references o with
  | None, None, None, None, None, None => false
  | _, _, _, _, _, _ => true
  end.

(** [parseColumnDefinition]; none of the operations in its [try] block
    throws, so the [catch] branch adds no error. *)
Definition parseColumnDefinition (line filename : string) : option ColumnDefinition :=
  let cleanLine := Js.strip_one_trailing_comma line in
  match search re_column cleanLine with
  | None => None
  | Some columnMatch =>
      let name := group columnMatch 1 in
      let definition := group columnMatch 2 in
      let typeResult := parseColumnType definition in
      Some (mkColumn name
              (if Js.truthy_opt (fst typeResult) then fst typeResult else None)
              (if has_keys (snd typeResult) then Some (snd typeResult) else None))
  end.

Definition filter_some {A : Type} (l : list (option A)) : list A :=
  flat_map (fun o => match o with Some x => [x] | None => [] end) l.

(** [parseHelperColumns] *)
Definition parseHelperColumns (bodyContent filename : string) (errors : list string)
  : list ColumnDefinition * list string :=
  match match_all re_helper_column bodyContent with
  | None => ([], Js.push errors ("Could not parse helper columns in " ++ filename))
  | Some columnMatches =>
      (filter_some (map (fun m => parseColumnDefinition m filename) columnMatches), errors)
  end.

(** [parseHelperContent] *)
Definition parseHelperContent (content filename : string) (errors : list string)
  : reading HelperDefinition :=
  match search re_helper content with
  | None => (None, Js.push errors ("Could not parse helper in " ++ filename))
  | Some helperMatch =>
      let name := group helperMatch 1 in
      let bodyContent := group helperMatch 2 in
      let '(columns, errors1) := parseHelperColumns bodyContent filename errors in
      (Some (mkHelper name columns), errors1)
  end.

(** [parseTableBody]: the loop over the trimmed, non-empty lines. *)
Fixpoint parseTableBody_loop (lines : list string) (filename : string)
         (columns : list ColumnDefinition) (helperRefs : list string)
  : list ColumnDefinition * list string :=
  match lines with
  | [] => (columns, helperRefs)
  | line :: rest =>
      if Js.startsWith line "..." then
        match search re_spread line with
        | Some helperMatch =>
            parseTableBody_loop rest filename columns (Js.push helperRefs (group helperMatch 1))
        | None => parseTableBody_loop rest filename columns helperRefs
        end
      else if Js.includes line ":" then
        match parseColumnDefinition line filename with
        | Some column_ => parseTableBody_loop rest filename (Js.push columns column_) helperRefs
        | None => parseTableBody_loop rest filename columns helperRefs
        end
      else parseTableBody_loop rest filename columns helperRefs
  end.

Definition parseTableBody (bodyContent filename : string)
  : list ColumnDefinition * list string :=
  let lines := filter Js.truthy (map Js.trim (Js.split_char (ascii_of_nat 10) bodyContent)) in
  parseTableBody_loop lines filename [] [].

(** [match.split(".")[1]] *)
Definition second_part (m : string) : string := nth 1 (Js.split_char "." m) "".

(** [parseCompositePrimaryKey] *)
Definition parseCompositePrimaryKey (content : string) : list string :=
  match search re_composite_pk content with
  | None => []
  | Some compositePKMatch =>
      let columnsString := group compositePKMatch 1 in
      match match_all re_pk_column columnsString with
      | None => []
      | Some columnMatches => map second_part columnMatches
      end
  end.

(** [parseTableContent] *)
Definition parseTableContent (content filename : string) (errors : list string)
  : reading TableDefinition :=
  match search re_table content with
  | None => (None, Js.push errors ("Could not parse table in " ++ filename))
  | Some tableMatch =>
      let variableName := group tableMatch 1 in
      let dbName_ := group tableMatch 2 in
      let bodyContent := group tableMatch 3 in
      let name := Js.remove_first ".ts" filename in
      let '(columns, helperRefs) := parseTableBody bodyContent filename in
      let compositePK := parseCompositePrimaryKey content in
      (Some (mkTable name
               (if negb (String.eqb dbName_ (Js.toLowerCase name)) then Some dbName_ else None)
               columns
               (if Nat.ltb 0 (List.length helperRefs) then Some helperRefs else None)
               (if Nat.ltb 0 (List.length compositePK) then Some compositePK else None)),
       errors)
  end.

End SchemaReader.

(* ================================================================== *)
(** ** Schema change detector (SchemaChangeDetector)                   *)
(* ================================================================== *)

Module SchemaChangeCategory.
Definition ADDITION : string := "addition".
Definition MODIFICATION : string := "modification".
Definition REMOVAL : string := "removal".
(** [Object.values(SchemaChangeCategory)] *)
Definition values : list string := [ADDITION; MODIFICATION; REMOVAL].
End SchemaChangeCategory.

Module SchemaChangeImpact.
Definition SAFE : string := "safe".
Definition WARNING : string := "warning".
Definition BREAKING : string := "breaking".
(** [Object.values(SchemaChangeImpact)] *)
Definition values : list string := [SAFE; WARNING; BREAKING].
End SchemaChangeImpact.

(** [SchemaChange.target] *)
Record Target : Type := mkTarget {
  target_type : string;
  target_name : string;
  target_column : option string
}.

(** The shapes the detector gives to [SchemaChange.details]. *)
Inductive Details : Type :=
| DetailValues (values : list string)
| DetailValue (value : string)
| DetailTypeChange (from to : option string)
| DetailDefaultChange (from to : option DefaultValue)
| DetailHelperReference (helperReference : string)
| DetailKeyChange (from to : list string).

(** [SchemaChange]; [impact], an enum with string values in the source,
    is kept as the string it is at run time. *)
Record SchemaChange : Type := mkChange {
  change_type : string;
  category : string;
  impact : string;
  description : string;
  target : Target;
  details : option Details
}.

Record Summary : Type := mkSummary {
  totalChanges : nat;
  byCategory : list (string * nat);
  byImpact : list (string * nat);
  byType : list (string * nat)
}.

Record CanApply : Type := mkCanApply {
  can_safe : bool;
  withWarnings : bool;
  withBreaking : bool
}.

(** [SchemaComparison] *)
Record SchemaComparison : Type := mkComparison {
  changes : list SchemaChange;
  summary : Summary;
  recommendations : list string;
  canApply : CanApply
}.

Record UpdateMetadata : Type := mkUpdateMetadata {
  meta_totalChanges : nat;
  appliedCount : nat;
  rejectedCount : nat;
  meta_dryRun : bool
}.

(** [SchemaUpdateResult] *)
Record SchemaUpdateResult : Type := mkUpdateResult {
  applied : list SchemaChange;
  rejected : list SchemaChange;
  metadata : UpdateMetadata
}.

(** The options object of [applySafeChanges]. *)
Record ApplyOptions : Type := mkApplyOptions {
  allowBreaking : option bool;
  allowWarning : option bool;
  dryRun : option bool
}.

Module SchemaChangeDetector.

Definition nat_to_string (n : nat) : string := Js.num_to_string (Z.of_nat n).

(** [new Map(columns.map((c) => [c.name, c]))] *)
Definition column_map (columns : list ColumnDefinition) : list (string * ColumnDefinition) :=
  fold_left (fun m c => Js.map_set m (col_name c) c) columns [].

(** [arr.find((e) => name_of(e) === name)] *)
Definition find_by_name {E : Type} (name_of : E -> string) (l : list E) (name : string)
  : option E :=
  find (fun e => String.eqb (name_of e) name) l.

(** [compareEnumValues] *)
Definition compareEnumValues (currentEnum newEnum : EnumDefinition) : list SchemaChange :=
  let currentValues := Js.set_of (enum_values currentEnum) in
  let newValues := Js.set_of (enum_values newEnum) in
  let added :=
    flat_map (fun value =>
      if negb (Js.arr_includes currentValues value) then
        [mkChange "enum_value_added" SchemaChangeCategory.ADDITION SchemaChangeImpact.SAFE
           ("Added value '" ++ value ++ "' to enum '" ++ enum_name newEnum ++ "'")
           (mkTarget "enum" (enum_name newEnum) None)
           (Some (DetailValue value))]
      else []) (enum_values newEnum) in
  let removed :=
    flat_map (fun value =>
      if negb (Js.arr_includes newValues value) then
        [mkChange "enum_value_removed" SchemaChangeCategory.REMOVAL SchemaChangeImpact.BREAKING
           ("Removed value '" ++ value ++ "' from enum '" ++ enum_name newEnum ++ "'")
           (mkTarget "enum" (enum_name newEnum) None)
           (Some (DetailValue value))]
      else []) (enum_values currentEnum) in
  (added ++ removed)%list.

(** [compareEnums] *)
Definition compareEnums (currentEnums newEnums : list EnumDefinition) : list SchemaChange :=
  let currentEnumNames := Js.set_of (map enum_name currentEnums) in
  let newEnumNames := Js.set_of (map enum_name newEnums) in
  let added :=
    flat_map (fun newEnum =>
      if negb (Js.arr_includes currentEnumNames (enum_name newEnum)) then
        [mkChange "enum_added" SchemaChangeCategory.ADDITION SchemaChangeImpact.SAFE
           ("Added enum '" ++ enum_name newEnum ++ "' with values: "
              ++ Js.join ", " (enum_values newEnum))
           (mkTarget "enum" (enum_name newEnum) None)
           (Some (DetailValues (enum_values newEnum)))]
      else []) newEnums in
  let removed :=
    flat_map (fun currentEnum =>
      if negb (Js.arr_includes newEnumNames (enum_name currentEnum)) then
        [mkChange "enum_removed" SchemaChangeCategory.REMOVAL SchemaChangeImpact.BREAKING
           ("Removed enum '" ++ enum_name currentEnum ++ "'")
           (mkTarget "enum" (enum_name currentEnum) None)
           None]
      else []) currentEnums in
  let modified :=
    flat_map (fun newEnum =>
      match find_by_name enum_name currentEnums (enum_name newEnum) with
      | Some currentEnum => compareEnumValues currentEnum newEnum
      | None => []
      end) newEnums in
  (added ++ removed ++ modified)%list.

Definition hex_digit (n : nat) : ascii :=
  ascii_of_nat (if Nat.ltb n 10 then 48 + n else 87 + n).

(** The escape of one character inside a JSON string. *)
Definition json_escape_char (c : ascii) : string :=
  let n := Js.code c in
  if Nat.eqb n 34 then String "\" (String c "")
  else if Nat.eqb n 92 then "\\"
  else if Nat.eqb n 8 then "\b"
  else if Nat.eqb n 9 then "\t"
  else if Nat.eqb n 10 then "\n"
  else if Nat.eqb n 12 then "\f"
  else if Nat.eqb n 13 then "\r"
  else if Nat.ltb n 32 then
    "\u00" ++ String (hex_digit (n / 16)) (String (hex_digit (n mod 16)) "")
  else String c "".

Fixpoint json_escape (s : string) : string :=
  match s with
  | EmptyString => EmptyString
  | String c s' => json_escape_char c ++ json_escape s'
  end.

(** [JSON.stringify] on a value of type [string | number | boolean |
    undefined]; [undefined] gives [undefined]. *)
Definition JSON_stringify (v : option DefaultValue) : option string :=
  match v with
  | None => None
  | Some (DString s) => Some (String (ascii_of_nat 34) (json_escape s ++ String (ascii_of_nat 34) ""))
  | Some (DNumber z) => Some (Js.num_to_string z)
  | Some (DBool b) => Some (Js.bool_to_string b)
  end.

Definition opt_string_eqb (a b : option string) : bool :=
  match a, b with
  | Some x, Some y => String.eqb x y
  | None, None => true
  | _, _ => false
  end.

Definition opt_bool_eqb (a b : option bool) : bool :=
  match a, b with
  | Some x, Some y => Bool.eqb x y
  | None, None => true
  | _, _ => false
  end.

(** [compareColumnDefinitions] *)
Definition compareColumnDefinitions (currentColumn newColumn : ColumnDefinition)
           (targetType targetName : string) : list SchemaChange :=
  let tgt := mkTarget targetType targetName (Some (col_name newColumn)) in
  let type_change :=
    if negb (opt_string_eqb (col_type currentColumn) (col_type newColumn)) then
      [mkChange "column_type_changed" SchemaChangeCategory.MODIFICATION
         SchemaChangeImpact.BREAKING
         ("Changed column '" ++ col_name newColumn ++ "' type from '"
            ++ Js.str_or_undefined (col_type currentColumn) ++ "' to '"
            ++ Js.str_or_undefined (col_type newColumn) ++ "' in "
            ++ targetType ++ " '" ++ targetName ++ "'")
         tgt
         (Some (DetailTypeChange (col_type currentColumn) (col_type newColumn)))]
    else [] in
  let currentOptions :=
    match col_options currentColumn with Some o => o | None => no_options end in
  let newOptions :=
    match col_options newColumn with Some o => o | None => no_options end in
  let pk_change :=
    if negb (opt_bool_eqb (primaryKey currentOptions) (primaryKey newOptions)) then
      [mkChange "column_primary_key_changed" SchemaChangeCategory.MODIFICATION
         SchemaChangeImpact.BREAKING
         ((if Js.truthy_bool (primaryKey newOptions) then "Added" else "Removed")
            ++ " primary key on column '" ++ col_name newColumn ++ "' in "
            ++ targetType ++ " '" ++ targetName ++ "'")
         tgt None]
    else [] in
  let not_null_change :=
    if negb (opt_bool_eqb (notNull currentOptions) (notNull newOptions)) then
      let impact_ :=
        if Js.truthy_bool (notNull newOptions)
        then SchemaChangeImpact.WARNING else SchemaChangeImpact.SAFE in
      [mkChange "column_not_null_changed" SchemaChangeCategory.MODIFICATION impact_
         ((if Js.truthy_bool (notNull newOptions)
           then "Added NOT NULL constraint" else "Removed NOT NULL constraint")
            ++ " on column '" ++ col_name newColumn ++ "' in "
            ++ targetType ++ " '" ++ targetName ++ "'")
         tgt None]
    else [] in
  let default_change :=
    if negb (opt_string_eqb (JSON_stringify (default currentOptions))
                            (JSON_stringify (default newOptions))) then
      [mkChange "column_default_changed" SchemaChangeCategory.MODIFICATION
         SchemaChangeImpact.SAFE
         ("Changed default value for column '" ++ col_name newColumn ++ "' in "
            ++ targetType ++ " '" ++ targetName ++ "'")
         tgt
         (Some (DetailDefaultChange (default currentOptions) (default newOptions)))]
    else [] in
  (type_change ++ pk_change ++ not_null_change ++ default_change)%list.

(** [compareHelperColumns] *)
Definition compareHelperColumns (currentHelper newHelper : HelperDefinition)
  : list SchemaChange :=
  let currentColumns := column_map (helper_columns currentHelper) in
  let newColumns := column_map (helper_columns newHelper) in
  let added :=
    flat_map (fun entry : string * ColumnDefinition =>
      let name := fst entry in
      if negb (Js.map_has currentColumns name) then
        [mkChange "helper_column_added" SchemaChangeCategory.ADDITION SchemaChangeImpact.SAFE
           ("Added column '" ++ name ++ "' to helper '" ++ helper_name newHelper ++ "'")
           (mkTarget "helper" (helper_name newHelper) (Some name))
           None]
      else []) newColumns in
  let removed :=
    flat_map (fun entry : string * ColumnDefinition =>
      let name := fst entry in
      if negb (Js.map_has newColumns name) then
        [mkChange "helper_column_removed" SchemaChangeCategory.REMOVAL
           SchemaChangeImpact.WARNING
           ("Removed column '" ++ name ++ "' from helper '" ++ helper_name newHelper ++ "'")
           (mkTarget "helper" (helper_name newHelper) (Some name))
           None]
      else []) currentColumns in
  let modified :=
    flat_map (fun entry : string * ColumnDefinition =>
      match Js.map_get currentColumns (fst entry) with
      | Some currentColumn =>
          compareColumnDefinitions currentColumn (snd entry) "helper" (helper_name newHelper)
      | None => []
      end) newColumns in
  (added ++ removed ++ modified)%list.

(** [compareHelpers] *)
Definition compareHelpers (currentHelpers newHelpers : list HelperDefinition)
  : list SchemaChange :=
  let currentHelperNames := Js.set_of (map helper_name currentHelpers) in
  let newHelperNames := Js.set_of (map helper_name newHelpers) in
  let added :=
    flat_map (fun newHelper =>
      if negb (Js.arr_includes currentHelperNames (helper_name newHelper)) then
        [mkChange "helper_added" SchemaChangeCategory.ADDITION SchemaChangeImpact.SAFE
           ("Added helper '" ++ helper_name newHelper ++ "' with "
              ++ nat_to_string (List.length (helper_columns newHelper)) ++ " columns")
           (mkTarget "helper" (helper_name newHelper) None)
           None]
      else []) newHelpers in
  let removed :=
    flat_map (fun currentHelper =>
      if negb (Js.arr_includes newHelperNames (helper_name currentHelper)) then
        [mkChange "helper_removed" SchemaChangeCategory.REMOVAL SchemaChangeImpact.WARNING
           ("Removed helper '" ++ helper_name currentHelper ++ "'")
           (mkTarget "helper" (helper_name currentHelper) None)
           None]
      else []) currentHelpers in
  let modified :=
    flat_map (fun newHelper =>
      match find_by_name helper_name currentHelpers (helper_name newHelper) with
      | Some currentHelper => compareHelperColumns currentHelper newHelper
      | None => []
      end) newHelpers in
  (added ++ removed ++ modified)%list.

(** [col.options?.notNull], as a condition. *)
Definition column_notNull (col : ColumnDefinition) : bool :=
  match col_options col with
  | Some o => Js.truthy_bool (notNull o)
  | None => false
  end.

(** The change pushed by [compareTableColumns] for an added column. *)
Definition column_added_change (tableName name : string) (col : ColumnDefinition)
  : SchemaChange :=
  let impact_ :=
    if column_notNull col then SchemaChangeImpact.WARNING else SchemaChangeImpact.SAFE in
  mkChange "table_column_added" SchemaChangeCategory.ADDITION impact_
    ("Added column '" ++ name ++ "' to table '" ++ tableName ++ "'"
       ++ (if column_notNull col
           then " (NOT NULL - requires default or data migration)" else ""))
    (mkTarget "table" tableName (Some name))
    None.

(** [compareTableColumns] *)
Definition compareTableColumns (currentTable newTable : TableDefinition)
  : list SchemaChange :=
  let currentColumns := column_map (table_columns currentTable) in
  let newColumns := column_map (table_columns newTable) in
  let added :=
    flat_map (fun entry : string * ColumnDefinition =>
      if negb (Js.map_has currentColumns (fst entry)) then
        [column_added_change (table_name newTable) (fst entry) (snd entry)]
      else []) newColumns in
  let removed :=
    flat_map (fun entry : string * ColumnDefinition =>
      let name := fst entry in
      if negb (Js.map_has newColumns name) then
        [mkChange "table_column_removed" SchemaChangeCategory.REMOVAL
           SchemaChangeImpact.BREAKING
           ("Removed column '" ++ name ++ "' from table '" ++ table_name newTable ++ "'")
           (mkTarget "table" (table_name newTable) (Some name))
           None]
      else []) currentColumns in
  let modified :=
    flat_map (fun entry : string * ColumnDefinition =>
      match Js.map_get currentColumns (fst entry) with
      | Some currentColumn =>
          compareColumnDefinitions currentColumn (snd entry) "table" (table_name newTable)
      | None => []
      end) newColumns in
  (added ++ removed ++ modified)%list.

Definition or_empty (o : option (list string)) : list string :=
  match o with Some l => l | None => [] end.

(** [compareHelperReferences] *)
Definition compareHelperReferences (currentTable newTable : TableDefinition)
  : list SchemaChange :=
  let currentRefs := Js.set_of (or_empty (helperReferences currentTable)) in
  let newRefs := Js.set_of (or_empty (helperReferences newTable)) in
  let added :=
    flat_map (fun ref =>
      if negb (Js.arr_includes currentRefs ref) then
        [mkChange "table_helper_reference_added" SchemaChangeCategory.ADDITION
           SchemaChangeImpact.SAFE
           ("Added helper reference '" ++ ref ++ "' to table '" ++ table_name newTable ++ "'")
           (mkTarget "table" (table_name newTable) None)
           (Some (DetailHelperReference ref))]
      else []) newRefs in
  let removed :=
    flat_map (fun ref =>
      if negb (Js.arr_includes newRefs ref) then
        [mkChange "table_helper_reference_removed" SchemaChangeCategory.REMOVAL
           SchemaChangeImpact.WARNING
           ("Removed helper reference '" ++ ref ++ "' from table '"
              ++ table_name newTable ++ "'")
           (mkTarget "table" (table_name newTable) None)
           (Some (DetailHelperReference ref))]
      else []) currentRefs in
  (added ++ removed)%list.

(** [compareCompositePrimaryKeys] *)
Definition compareCompositePrimaryKeys (currentTable newTable : TableDefinition)
  : list SchemaChange :=
  let currentPK := Js.set_of (or_empty (compositePrimaryKey currentTable)) in
  let newPK := Js.set_of (or_empty (compositePrimaryKey newTable)) in
  if negb (Nat.eqb (List.length currentPK) (List.length newPK))
     || existsb (fun col => negb (Js.arr_includes newPK col)) currentPK then
    [mkChange "table_composite_primary_key_changed" SchemaChangeCategory.MODIFICATION
       SchemaChangeImpact.BREAKING
       ("Changed composite primary key for table '" ++ table_name newTable ++ "'")
       (mkTarget "table" (table_name newTable) None)
       (Some (DetailKeyChange currentPK newPK))]
  else [].

(** [compareTableStructure]; [columns] is an array in both tables, so
    the guard on the two column lists holds. *)
Definition compareTableStructure (currentTable newTable : TableDefinition)
  : list SchemaChange :=
  (compareTableColumns currentTable newTable
     ++ compareHelperReferences currentTable newTable
     ++ compareCompositePrimaryKeys currentTable newTable)%list.

(** [compareTables] *)
Definition compareTables (currentTables newTables : list TableDefinition)
  : list SchemaChange :=
  let currentTableNames := Js.set_of (map table_name currentTables) in
  let newTableNames := Js.set_of (map table_name newTables) in
  let added :=
    flat_map (fun newTable =>
      if negb (Js.arr_includes currentTableNames (table_name newTable)) then
        [mkChange "table_added" SchemaChangeCategory.ADDITION SchemaChangeImpact.SAFE
           ("Added table '" ++ table_name newTable ++ "' with "
              ++ nat_to_string (List.length (table_columns newTable)) ++ " columns")
           (mkTarget "table" (table_name newTable) None)
           None]
      else []) newTables in
  let removed :=
    flat_map (fun currentTable =>
      if negb (Js.arr_includes newTableNames (table_name currentTable)) then
        [mkChange "table_removed" SchemaChangeCategory.REMOVAL SchemaChangeImpact.BREAKING
           ("Removed table '" ++ table_name currentTable ++ "'")
           (mkTarget "table" (table_name currentTable) None)
           None]
      else []) currentTables in
  let modified :=
    flat_map (fun newTable =>
      match find_by_name table_name currentTables (table_name newTable) with
      | Some currentTable => compareTableStructure currentTable newTable
      | None => []
      end) newTables in
  (added ++ removed ++ modified)%list.

Definition count_where (p : SchemaChange -> bool) (l : list SchemaChange) : nat :=
  List.length (filter p l).

(** [summary.byType[change.type] = (summary.byType[change.type] || 0) + 1] *)
Definition count_type (m : list (string * nat)) (ty : string) : list (string * nat) :=
  Js.map_set m ty (match Js.map_get m ty with Some n => n | None => 0 end + 1).

(** [generateSummary] *)
Definition generateSummary (chs : list SchemaChange) : Summary :=
  mkSummary
    (List.length chs)
    (map (fun cat => (cat, count_where (fun c => String.eqb (category c) cat) chs))
         SchemaChangeCategory.values)
    (map (fun imp => (imp, count_where (fun c => String.eqb (impact c) imp) chs))
         SchemaChangeImpact.values)
    (fold_left (fun m c => count_type m (change_type c)) chs []).

Definition msg_breaking_mark : string := "âš ï¸  ".
Definition msg_backup : string := "ðŸ“‹ Back up data for removed tables before applying changes.".
Definition msg_migration : string := "ðŸ”„ Plan data migration for removed columns.".
Definition msg_warning_mark : string := "âš¡ ".
Definition msg_defaults : string := "ðŸ”§ Add default values or populate data for new NOT NULL columns.".
Definition msg_safe_mark : string := "âœ… ".
Definition msg_no_changes : string := "ðŸŽ‰ No changes detected. Schemas are identical.".

(** [generateRecommendations] *)
Definition generateRecommendations (chs : list SchemaChange) : list string :=
  let breakingChanges :=
    filter (fun c => String.eqb (impact c) SchemaChangeImpact.BREAKING) chs in
  let warningChanges :=
    filter (fun c => String.eqb (impact c) SchemaChangeImpact.WARNING) chs in
  let r1 :=
    if Nat.ltb 0 (List.length breakingChanges) then
      let tableRemovals :=
        filter (fun c => String.eqb (change_type c) "table_removed") breakingChanges in
      let columnRemovals :=
        filter (fun c => Js.includes (change_type c) "column_removed") breakingChanges in
      let headline :=
        msg_breaking_mark ++ nat_to_string (List.length breakingChanges)
          ++ " breaking changes detected. Consider creating a migration plan." in
      (headline
         :: (if Nat.ltb 0 (List.length tableRemovals) then [msg_backup] else [])
         ++ (if Nat.ltb 0 (List.length columnRemovals) then [msg_migration] else []))%list
    else [] in
  let r2 :=
    if Nat.ltb 0 (List.length warningChanges) then
      let notNullAdditions :=
        filter (fun c => Js.includes (description c) "NOT NULL") warningChanges in
      let headline :=
        msg_warning_mark ++ nat_to_string (List.length warningChanges)
          ++ " changes require attention. Review before applying." in
      (headline
         :: (if Nat.ltb 0 (List.length notNullAdditions) then [msg_defaults] else []))%list
    else [] in
  let safeChanges :=
    filter (fun c => String.eqb (impact c) SchemaChangeImpact.SAFE) chs in
  let r3 :=
    if Nat.ltb 0 (List.length safeChanges) then
      [msg_safe_mark ++ nat_to_string (List.length safeChanges)
         ++ " safe changes can be applied automatically."]
    else [] in
  let r4 := if Nat.eqb (List.length chs) 0 then [msg_no_changes] else [] in
  (r1 ++ r2 ++ r3 ++ r4)%list.

Definition or_nil {E : Type} (o : option (list E)) : list E :=
  match o with Some l => l | None => [] end.

(** [compareSchemas] *)
Definition compareSchemas (currentSchema newSchema : ProjectGeneratorConfig)
  : SchemaComparison :=
  let enumChanges := compareEnums (or_nil (enums currentSchema)) (or_nil (enums newSchema)) in
  let helperChanges :=
    compareHelpers (or_nil (helpers currentSchema)) (or_nil (helpers newSchema)) in
  let tableChanges :=
    compareTables (or_nil (tables currentSchema)) (or_nil (tables newSchema)) in
  let chs := (enumChanges ++ helperChanges ++ tableChanges)%list in
  mkComparison chs
    (generateSummary chs)
    (generateRecommendations chs)
    (mkCanApply
       (existsb (fun c => String.eqb (impact c) SchemaChangeImpact.SAFE) chs)
       (existsb (fun c => String.eqb (impact c) SchemaChangeImpact.WARNING) chs)
       (existsb (fun c => String.eqb (impact c) SchemaChangeImpact.BREAKING) chs)).

(** [shouldApplyChange] *)
Definition shouldApplyChange (change : SchemaChange) (allowBreaking_ allowWarning_ : bool)
  : bool :=
  if String.eqb (impact change) SchemaChangeImpact.SAFE then true
  else if String.eqb (impact change) SchemaChangeImpact.WARNING then allowWarning_
  else if String.eqb (impact change) SchemaChangeImpact.BREAKING then allowBreaking_
  else false.

(** [applyChangesToFiles]: a placeholder in the source; its only effect
    is one line on the console. *)
Definition applyChangesToFiles (projectPath : string) (chs : list SchemaChange)
  : list string :=
  ["Would apply " ++ nat_to_string (List.length chs) ++ " changes to " ++ projectPath].

Definition or_default (o : option bool) (d : bool) : bool :=
  match o with Some b => b | None => d end.

(** [applySafeChanges]: the result and the lines written to the
    console. *)
Definition applySafeChanges (projectPath : string) (comparison : SchemaComparison)
           (options : ApplyOptions) : SchemaUpdateResult * list string :=
  let allowBreaking_ := or_default (allowBreaking options) false in
  let allowWarning_ := or_default (allowWarning options) true in
  let dryRun_ := or_default (dryRun options) false in
  let '(applied_, rejected_) :=
    fold_left
      (fun (acc : list SchemaChange * list SchemaChange) change =>
         if shouldApplyChange change allowBreaking_ allowWarning_
         then (Js.push (fst acc) change, snd acc)
         else (fst acc, Js.push (snd acc) change))
      (changes comparison) ([], []) in
  let console :=
    if negb dryRun_ && Nat.ltb 0 (List.length applied_)
    then applyChangesToFiles projectPath applied_ else [] in
  (mkUpdateResult applied_ rejected_
     (mkUpdateMetadata (List.length (changes comparison)) (List.length applied_)
        (List.length rejected_) dryRun_),
   console).

End SchemaChangeDetector.

(* ================================================================== *)
(** ** Auxiliary notions used in the statements                        *)
(* ================================================================== *)

(** No entry of the import map [m] for [path] lists the name [bad]. *)
Definition lacks (path bad : string) (m : ImportMap) : Prop :=
  forall p names, In (p, names) m -> p = path -> ~ In bad names.

(** The table definition with its [compositePrimaryKey] left out. *)
Definition without_key (d : TableDefinition) : TableDefinition :=
  mkTable (table_name d) (dbName d) (table_columns d) (helperReferences d) None.

(** The column options with [enumValues] left out. *)
Definition without_enum (o : ColumnOptions) : ColumnOptions :=
  mkOptions (notNull o) (primaryKey o) (default o) (length o) None (references o).

(** The chained qualifiers of an enum column, in the order the generator
    appends them. *)
Definition enum_chain (o : ColumnOptions) : string :=
  (if Js.truthy_bool (primaryKey o) then ".primaryKey()" else "")
    ++ (if Js.truthy_bool (notNull o) then ".notNull()" else "")
    ++ match default o with
       | Some d => ".default(" ++ fst (render_default true d) ++ ")"
       | None => ""
       end
    ++ match references o with
       | Some r => ".references(() => " ++ ref_table r ++ "." ++ ref_column r ++ ")"
       | None => ""
       end.

(** An identifier: one or more [\w] characters. *)
Definition identifier (s : string) : bool :=
  Js.truthy s && forallb Js.is_word (list_ascii_of_string s).

(** Every character of [s] is an ASCII character.  On such a string
    [Js.trim] removes what [String.prototype.trim] removes. *)
Definition ascii_text (s : string) : bool :=
  forallb (fun c => Nat.ltb (Js.code c) 128) (list_ascii_of_string s).

(** [Number.MAX_SAFE_INTEGER], [2^53 - 1]: up to it an integer is a
    number of its own, printed with its decimal digits and read back from
    them exactly. *)
Definition MAX_SAFE_INTEGER : Z := 9007199254740991.

Definition is_alnum (c : ascii) : bool := Js.is_alpha c || Js.is_digit c.

(** A word of a snake-case token: a letter, then letters and digits. *)
Definition snake_word (w : string) : bool :=
  match w with
  | EmptyString => false
  | String c w' => Js.is_alpha c && forallb is_alnum (list_ascii_of_string w')
  end.

(** A snake-case token in any letter case: words joined by single
    underscores. *)
Definition snake_token (v : string) : bool :=
  forallb snake_word (Js.split_char "_" v).

(** The enum definition read back from the source generated for [e]. *)
Definition enum_round_trip (e : EnumDefinition) (filename : string)
  : option EnumDefinition :=
  fst (SchemaReader.parseEnumContent (enumCode (EnumGenerator e)) filename []).

(** The next character of [s], if any, is outside the class [p]. *)
Definition stops (p : ascii -> bool) (s : string) : Prop :=
  match s with
  | EmptyString => True
  | String c _ => p c = false
  end.

(** Every character of [s] is in the class [p]. *)
Definition all_chars (p : ascii -> bool) (s : string) : bool :=
  forallb p (list_ascii_of_string s).

(** [w] put in front of the first element of [l]. *)
Definition prepend_head (w : string) (l : list string) : list string :=
  match l with
  | [] => [w]
  | h :: t => (w ++ h) :: t
  end.

(** [s'] is what remains of [s] after some prefix. *)
Definition suffix (s' s : string) : Prop := exists p, s = p ++ s'.

(** The category the detector gives to the changes of each type, and the
    impacts it gives them. *)
Definition classification : list (string * (string * list string)) :=
  [ ("enum_added", ("addition", ["safe"]));
    ("enum_removed", ("removal", ["breaking"]));
    ("enum_value_added", ("addition", ["safe"]));
    ("enum_value_removed", ("removal", ["breaking"]));
    ("helper_added", ("addition", ["safe"]));
    ("helper_removed", ("removal", ["warning"]));
    ("helper_column_added", ("addition", ["safe"]));
    ("helper_column_removed", ("removal", ["warning"]));
    ("table_added", ("addition", ["safe"]));
    ("table_removed", ("removal", ["breaking"]));
    ("table_column_added", ("addition", ["safe"; "warning"]));
    ("table_column_removed", ("removal", ["breaking"]));
    ("table_helper_reference_added", ("addition", ["safe"]));
    ("table_helper_reference_removed", ("removal", ["warning"]));
    ("table_composite_primary_key_changed", ("modification", ["breaking"]));
    ("column_type_changed", ("modification", ["breaking"]));
    ("column_primary_key_changed", ("modification", ["breaking"]));
    ("column_not_null_changed", ("modification", ["safe"; "warning"]));
    ("column_default_changed", ("modification", ["safe"])) ].

(** The change has a type of the table above, with the category and one
    of the impacts listed for it. *)
Definition classified (c : SchemaChange) : bool :=
  match Js.map_get classification (change_type c) with
  | Some (cat, imps) => String.eqb (category c) cat && Js.arr_includes imps (impact c)
  | None => false
  end.

(** The number of changes of type [ty]. *)
Definition changes_of_type (ty : string) (chs : list SchemaChange) : nat :=
  List.length (filter (fun c => String.eqb (change_type c) ty) chs).

(** The names of the targets of the changes of type [ty]. *)
Definition targets_of_type (ty : string) (chs : list SchemaChange) : list string :=
  map (fun c => target_name (target c)) (filter (fun c => String.eqb (change_type c) ty) chs).

(** The sum of the counters of a summary table. *)
Definition total (m : list (string * nat)) : nat := list_sum (map snd m).

(** Two arrays with the same elements, whatever their order and
    repetitions. *)
Definition same_elements (a b : list string) : Prop := forall x, In x a <-> In x b.

(** The column [c] with its [length], [enumValues] and [references]
    replaced by those of [u]; its name, type, [notNull], [primaryKey]
    and [default] are kept. *)
Definition retouch_column (u : ColumnOptions) (c : ColumnDefinition) : ColumnDefinition :=
  let o := match col_options c with Some o => o | None => no_options end in
  mkColumn (col_name c) (col_type c)
    (Some (mkOptions (notNull o) (primaryKey o) (default o)
                     (length u) (enumValues u) (references u))).

(** The helper [h] with every column retouched as [g] tells. *)
Definition retouch_helper (g : ColumnDefinition -> ColumnOptions) (h : HelperDefinition)
  : HelperDefinition :=
  mkHelper (helper_name h) (map (fun c => retouch_column (g c) c) (helper_columns h)).

(** The table [t] with every column retouched as [g] tells and its
    [dbName] replaced. *)
Definition retouch_table (g : ColumnDefinition -> ColumnOptions)
           (db : TableDefinition -> option string) (t : TableDefinition) : TableDefinition :=
  mkTable (table_name t) (db t)
          (map (fun c => retouch_column (g c) c) (table_columns t))
          (helperReferences t) (compositePrimaryKey t).

(** The change has one of the types [tys]. *)
Definition type_in (tys : list string) (c : SchemaChange) : bool :=
  Js.arr_includes tys (change_type c).

(** The names of [new] that are not names of [current], in the order of
    [new]. *)
Definition names_missing_from (current new : list string) : list string :=
  filter (fun n => negb (Js.arr_includes current n)) new.

(** The change types of a comparison of two columns, and of two versions
    of a table. *)
Definition column_types : list string :=
  ["column_type_changed"; "column_primary_key_changed";
   "column_not_null_changed"; "column_default_changed"].

Definition structure_types : list string :=
  "table_column_added" :: "table_column_removed" :: "table_helper_reference_added"
    :: "table_helper_reference_removed" :: "table_composite_primary_key_changed"
    :: column_types.


(* ================================================================== *)
(** ** Batch generators                                                *)
(* ================================================================== *)

(** State of the loop of [generateMultipleHelpers] and
    [generateMultipleTables]. *)
Record batch_state : Type := mkBatch {
  batch_imports : ImportManager.t;
  batch_tables : list string;
  batch_codes : list string;
  batch_errors : list string
}.

(** The object returned by [generateMultipleHelpers],
    [generateMultipleTables] (where [codes] is named [helperCodes],
    [tableCodes]) and [generateCompleteSchema]. *)
Record BatchResult : Type := mkBatchResult {
  codes : list string;
  batch_result_imports : ImportMap;
  importStatements : string;
  batch_result_tables : list string;
  errors : option (list string);
  fullFile : string
}.

Definition batch_result (st : batch_state) : BatchResult :=
  mkBatchResult
    (batch_codes st)
    (ImportManager.getImports (batch_imports st))
    (ImportManager.toString (batch_imports st))
    (Js.set_of (batch_tables st))
    (if Nat.ltb 0 (List.length (batch_errors st)) then Some (batch_errors st) else None)
    (ImportManager.toString (batch_imports st) ++ nl ++ nl
       ++ Js.join (nl ++ nl) (batch_codes st)).

(** [generateMultipleHelpers] (src/generators/HelperGenerator.ts) *)
Definition generateMultipleHelpers (definitions : list HelperDefinition) : BatchResult :=
  batch_result
    (fold_left
       (fun st definition =>
          let result := HelperGenerator definition in
          if Js.truthy_opt (helper_error result) then
            mkBatch (batch_imports st) (batch_tables st) (batch_codes st)
              (Js.push (batch_errors st)
                 ("Error in helper '" ++ helper_name definition ++ "': "
                    ++ Js.str_or_undefined (helper_error result)))
          else
            mkBatch (ImportManager.merge (batch_imports st) (helper_imports result))
              (batch_tables st ++ helper_tables result)%list
              (Js.push (batch_codes st) (helperCode result))
              (batch_errors st))
       definitions (mkBatch ImportManager.new [] [] [])).

(** [generateMultipleTables] *)
Definition generateMultipleTables (definitions : list TableDefinition) : BatchResult :=
  batch_result
    (fold_left
       (fun st definition =>
          let result := TableGenerator definition in
          if Js.truthy_opt (table_error result) then
            mkBatch (batch_imports st) (batch_tables st) (batch_codes st)
              (Js.push (batch_errors st)
                 ("Error in table '" ++ table_name definition ++ "': "
                    ++ Js.str_or_undefined (table_error result)))
          else
            mkBatch (ImportManager.merge (batch_imports st) (table_imports result))
              (batch_tables st ++ table_tables result)%list
              (Js.push (batch_codes st) (tableCode result))
              (batch_errors st))
       definitions (mkBatch ImportManager.new [] [] [])).

Definition fileHeader : string :=
  "// Generated schema file" ++ nl
    ++ "// This file contains all table definitions for the database" ++ nl.

(** [generateCompleteSchema]; [additionalImports] defaults to the empty
    object. *)
Definition generateCompleteSchema (tableDefinitions : list TableDefinition)
           (additionalImports : option ImportMap) : BatchResult :=
  let result := generateMultipleTables tableDefinitions in
  let importManager := ImportManager.merge ImportManager.new (batch_result_imports result) in
  let importManager :=
    fold_left (fun m entry => ImportManager.addImports m (fst entry) (snd entry))
              (match additionalImports with Some a => a | None => [] end) importManager in
  mkBatchResult
    (codes result)
    (batch_result_imports result)
    (ImportManager.toString importManager)
    (batch_result_tables result)
    (errors result)
    (fileHeader ++ nl ++ ImportManager.toString importManager ++ nl ++ nl
       ++ Js.join (nl ++ nl) (codes result)).

(** The name is the name of a member that every object inherits from
    [Object.prototype]; the import maps are used with paths that are
    not. *)
Definition inherited (key : string) : bool :=
  match own_property Object_prototype key with Some _ => true | None => false end.

(** The names listed for [path] in an import map. *)
Definition names_at (m : ImportMap) (path : string) : list string :=
  match Js.map_get m path with Some names => names | None => [] end.

(** The import map is as [ImportManager] builds it: one entry per path,
    no name twice in an entry. *)
Definition well_formed (m : ImportMap) : Prop :=
  NoDup (map fst m) /\ forall p names, In (p, names) m -> NoDup names.


(** Two entries of an import map with the same path and the same names,
    whatever the order and the repetitions of the names. *)
Definition same_entry (e e' : string * list string) : Prop :=
  fst e = fst e' /\ same_elements (snd e) (snd e').

(** Strictly ascending in the order of the character codes. *)
Definition ascending (l : list string) : Prop :=
  StronglySorted (fun a b => String.ltb a b = true) l.


(** The definition is accepted by its generator. *)
Definition helper_ok (d : HelperDefinition) : bool :=
  match helper_error (HelperGenerator d) with None => true | Some _ => false end.

Definition table_ok (d : TableDefinition) : bool :=
  match table_error (TableGenerator d) with None => true | Some _ => false end.

(** The batch result [r] with its [errors] replaced. *)
Definition with_errors (r : BatchResult) (e : option (list string)) : BatchResult :=
  mkBatchResult (codes r) (batch_result_imports r) (importStatements r)
                (batch_result_tables r) e (fullFile r).

(** No entry of the import map has an empty list of names. *)
Definition populated (m : ImportMap) : Prop :=
  forall p names, In (p, names) m -> names <> [].


(** The column definition is accepted by [ColumnGenerator]. *)
Definition column_ok (c : ColumnDefinition) : bool :=
  match column_error (ColumnGenerator c) with None => true | Some _ => false end.

(** The imports of the accepted columns, merged in order into [m]. *)
Definition merged_imports (m : ImportMap) (columns : list ColumnDefinition) : ImportMap :=
  fold_left (fun acc c => ImportManager.merge acc (column_imports (ColumnGenerator c)))
            columns m.


(** The type [ColumnGenerator] works with: the given [type], else
    [enum] when [options.enumValues] is set. *)
Definition inferred_type (d : ColumnDefinition) : option string :=
  if Js.truthy_opt (col_type d) then col_type d
  else match col_options d with
       | Some o => if Js.truthy_opt (enumValues o) then Some "enum" else None
       | None => None
       end.

(** The lower-case type names for which the lookup in [TypeMap] gives
    something: its ten keys, and the two lower-case names every object
    inherits. *)
Definition accepted_types : list string :=
  (map fst TypeMap ++ ["constructor"; "__proto__"])%list.

(** No capital letter. *)
Definition no_upper (c : ascii) : bool := negb (Js.is_upper c).


(** Neither an underscore nor a hyphen. *)
Definition no_sep (c : ascii) : bool := negb (is_sep c).

(** The number of capital letters of [s]. *)
Definition capitals (s : string) : nat :=
  List.length (filter Js.is_upper (list_ascii_of_string s)).


(* ================================================================== *)
(** ** Generated text as a sequence of segments                        *)
(* ================================================================== *)

(** A generated fragment is a sequence of literal pieces and of
    identifiers taken from the definition. The functions below evaluate
    the reader's string tests on such a sequence without looking into
    the identifiers; they answer [None] where the answer would depend on
    them. *)
Inductive segment : Type :=
| Lit (s : string)
| Word (w : string).

Definition seg_text (g : segment) : string :=
  match g with Lit s => s | Word w => w end.

Fixpoint text (l : list segment) : string :=
  match l with
  | [] => ""
  | g :: l' => seg_text g ++ text l'
  end.

(** Every [Word] of the sequence is an identifier. *)
Definition words_ok (l : list segment) : Prop :=
  Forall (fun g => match g with Word w => identifier w = true | Lit _ => True end) l.

(** The longest prefix of [\w] characters of [p], and what follows. *)
Fixpoint word_prefix (p : string) : string * string :=
  match p with
  | String c p' =>
      if Js.is_word c then (String c (fst (word_prefix p')), snd (word_prefix p'))
      else ("", p)
  | EmptyString => ("", "")
  end.

(** The text of the sequence is empty or starts with a character that
    is not a [\w] character, as far as its literals tell. *)
Fixpoint stops_word (l : list segment) : bool :=
  match l with
  | [] => true
  | Lit EmptyString :: l' => stops_word l'
  | Lit (String c _) :: _ => negb (Js.is_word c)
  | Word _ :: _ => false
  end.

Fixpoint starts_lit (s p : string) (k : string -> option bool) {struct p}
  : option bool :=
  match p with
  | EmptyString => Some true
  | String c' p' =>
      match s with
      | EmptyString => k p
      | String c s' => if Ascii.eqb c' c then starts_lit s' p' k else Some false
      end
  end.

(** [text l] starts with [p]. *)
Fixpoint starts_seg (l : list segment) (p : string) : option bool :=
  match l with
  | [] => Some (match p with EmptyString => true | _ => false end)
  | Lit s :: l' => starts_lit s p (starts_seg l')
  | Word w :: l' =>
      match p with
      | EmptyString => Some true
      | String c' _ =>
          if Js.is_word c' then
            match snd (word_prefix p) with
            | EmptyString => None
            | String _ _ =>
                if stops_word l' then
                  match starts_seg l' (snd (word_prefix p)) with
                  | Some false => Some false
                  | _ => None
                  end
                else None
            end
          else Some false
      end
  end.

Definition or_opt (a b : option bool) : option bool :=
  match a, b with
  | Some true, _ => Some true
  | Some false, _ => b
  | None, Some true => Some true
  | None, _ => None
  end.

Fixpoint incl_lit (s : string) (l' : list segment) (p : string) (k : option bool)
  : option bool :=
  match s with
  | EmptyString => k
  | String c s' => or_opt (starts_seg (Lit s :: l') p) (incl_lit s' l' p k)
  end.

(** [text l] includes [p]. *)
Fixpoint includes_seg (l : list segment) (p : string) : option bool :=
  match l with
  | [] => Some (match p with EmptyString => true | _ => false end)
  | Lit s :: l' => incl_lit s l' p (includes_seg l' p)
  | Word w :: l' =>
      match p with
      | EmptyString => Some true
      | String c' _ => if Js.is_word c' then None else includes_seg l' p
      end
  end.

(** The suffix of [s] that starts at the first occurrence of [p]. *)
Fixpoint skip_until (p s : string) : string :=
  if Js.startsWith s p then s
  else match s with
       | EmptyString => EmptyString
       | String _ s' => skip_until p s'
       end.

Fixpoint skip_lit (s : string) (l' : list segment) (p : string)
         (k : option (list segment)) : option (list segment) :=
  match s with
  | EmptyString => k
  | String c s' =>
      match starts_seg (Lit s :: l') p with
      | Some true => Some (Lit s :: l')
      | Some false => skip_lit s' l' p k
      | None => None
      end
  end.

Fixpoint skip_until_seg (l : list segment) (p : string) : option (list segment) :=
  match l with
  | [] => None
  | Lit s :: l' => skip_lit s l' p (skip_until_seg l' p)
  | Word w :: l' =>
      match p with
      | EmptyString => None
      | String c' _ => if Js.is_word c' then None else skip_until_seg l' p
      end
  end.

(** Every character of the literals of the sequence is in the class. *)
Definition literals_in (p : ascii -> bool) (l : list segment) : bool :=
  forallb (fun g => match g with Lit s => all_chars p s | Word _ => true end) l.


(** The names of the types the reader gives back. *)
Definition reader_types : list string := map snd SchemaReader.typeMap.

(** The options of a column with the given flags, length and foreign
    key, as the reader builds them: a flag that is not set is absent,
    and so is the whole object when nothing is set. *)
Definition plain_options (pk nn : bool) (len : option Z) (ref : option ReferenceDefinition)
  : option ColumnOptions :=
  let o := mkOptions (if nn then Some true else None) (if pk then Some true else None)
                     None len None ref in
  if SchemaReader.has_keys o then Some o else None.

(** The segments of the constructor call of a plain column and of its
    chained qualifiers; [len] is the decimal text of the length. *)
Definition call_segments (F name : string) (len : option string) : list segment :=
  (Word F :: Lit "(" :: Lit "'" :: Word name :: Lit "'"
     :: match len with
        | Some N => [Lit ", "; Lit "{ length: "; Word N; Lit " }"]
        | None => []
        end
     ++ [Lit ")"])%list.

Definition chain_segments (pk nn : bool) (ref : option ReferenceDefinition) : list segment :=
  ((if pk then [Lit ".primaryKey()"] else [])
     ++ (if nn then [Lit ".notNull()"] else [])
     ++ match ref with
        | Some r => [Lit ".references(() => "; Word (ref_table r); Lit ".";
                     Word (ref_column r); Lit ")"]
        | None => []
        end)%list.

Definition definition_segments (F name : string) (len : option string) (pk nn : bool)
           (ref : option ReferenceDefinition) : list segment :=
  (call_segments F name len ++ chain_segments pk nn ref)%list.

(* ================================================================== *)
(** ** Reading a project from disk (SchemaReader.readSchema)           *)
(* ================================================================== *)

(** What the reader sees of the file system during one call. Each
    operation resolves or rejects: [fs_access] tells whether
    [fs.access] resolves, [fs_readdir] and [fs_stat] give [None] when
    they reject, [fs_readFile] gives the text of the error. [path_join]
    is [path.join] and [clock] the value of [new Date()]. *)
Record FileSystem : Type := mkFileSystem {
  fs_access : string -> bool;
  fs_readdir : string -> option (list string);
  fs_readFile : string -> string + string;
  fs_stat : string -> option Z;
  path_join : list string -> string;
  clock : Z
}.

(** The [files] property of [SchemaReaderResult]. *)
Record ReaderFiles : Type := mkReaderFiles {
  files_enums : list string;
  files_helpers : list string;
  files_tables : list string;
  files_indexes : list string
}.

(** The [metadata] property of [SchemaReaderResult]. *)
Record ReaderMetadata : Type := mkReaderMetadata {
  lastModified : Z;
  totalFiles : nat;
  reader_projectPath : string
}.

(** [SchemaReaderResult] *)
Record SchemaReaderResult : Type := mkReaderResult {
  reader_success : bool;
  reader_message : string;
  reader_schema : option ProjectGeneratorConfig;
  reader_files : ReaderFiles;
  reader_errors : option (list string);
  reader_metadata : ReaderMetadata
}.

(** [s.endsWith(p)] *)
Fixpoint endsWith (s p : string) : bool :=
  String.eqb s p
  || match s with
     | String _ s' => endsWith s' p
     | EmptyString => false
     end.

(** [checkProjectExists] *)
Definition checkProjectExists (fs : FileSystem) (projectPath : string) : bool :=
  if fs_access fs projectPath then
    if fs_access fs (path_join fs [projectPath; "index.ts"]) then true
    else existsb (fun dir => fs_access fs (path_join fs [projectPath; dir]))
                 ["enums"; "helpers"; "tables"]
  else false.

(** One of the three directory blocks of [getFileStructure]: the [.ts]
    files of the directory other than [index.ts], and nothing when the
    directory cannot be read. *)
Definition source_files (fs : FileSystem) (projectPath dir : string) : list string :=
  let d := path_join fs [projectPath; dir] in
  if fs_access fs d then
    match fs_readdir fs d with
    | Some l => filter (fun f => endsWith f ".ts" && negb (String.eqb f "index.ts")) l
    | None => []
    end
  else [].

(** [getFileStructure] *)
Definition getFileStructure (fs : FileSystem) (projectPath : string) : ReaderFiles :=
  let enums_ := source_files fs projectPath "enums" in
  let helpers_ := source_files fs projectPath "helpers" in
  let tables_ := source_files fs projectPath "tables" in
  let indexFiles0 := ["index.ts"] in
  let indexFiles1 :=
    if Nat.ltb 0 (List.length enums_) then Js.push indexFiles0 "enums/index.ts"
    else indexFiles0 in
  let indexFiles2 :=
    if Nat.ltb 0 (List.length helpers_) then Js.push indexFiles1 "helpers/index.ts"
    else indexFiles1 in
  let indexFiles3 :=
    if Nat.ltb 0 (List.length tables_) then Js.push indexFiles2 "tables/index.ts"
    else indexFiles2 in
  mkReaderFiles enums_ helpers_ tables_ indexFiles3.

(** [parseEnums]: the loop over the files, with the list built so far
    and the errors of the instance. *)
Fixpoint parseEnums (fs : FileSystem) (projectPath : string) (enumFiles : list string)
         (enums_ : list EnumDefinition) (errors : list string)
  : list EnumDefinition * list string :=
  match enumFiles with
  | [] => (enums_, errors)
  | file :: rest =>
      match fs_readFile fs (path_join fs [projectPath; "enums"; file]) with
      | inl content =>
          match SchemaReader.parseEnumContent content file errors with
          | (Some enumDef, errors1) =>
              parseEnums fs projectPath rest (Js.push enums_ enumDef) errors1
          | (None, errors1) => parseEnums fs projectPath rest enums_ errors1
          end
      | inr error =>
          parseEnums fs projectPath rest enums_
            (Js.push errors ("Error parsing enum file " ++ file ++ ": " ++ error))
      end
  end.

(** [parseHelpers] *)
Fixpoint parseHelpers (fs : FileSystem) (projectPath : string) (helperFiles : list string)
         (helpers_ : list HelperDefinition) (errors : list string)
  : list HelperDefinition * list string :=
  match helperFiles with
  | [] => (helpers_, errors)
  | file :: rest =>
      match fs_readFile fs (path_join fs [projectPath; "helpers"; file]) with
      | inl content =>
          match SchemaReader.parseHelperContent content file errors with
          | (Some helperDef, errors1) =>
              parseHelpers fs projectPath rest (Js.push helpers_ helperDef) errors1
          | (None, errors1) => parseHelpers fs projectPath rest helpers_ errors1
          end
      | inr error =>
          parseHelpers fs projectPath rest helpers_
            (Js.push errors ("Error parsing helper file " ++ file ++ ": " ++ error))
      end
  end.

(** [parseTables] *)
Fixpoint parseTables (fs : FileSystem) (projectPath : string) (tableFiles : list string)
         (tables_ : list TableDefinition) (errors : list string)
  : list TableDefinition * list string :=
  match tableFiles with
  | [] => (tables_, errors)
  | file :: rest =>
      match fs_readFile fs (path_join fs [projectPath; "tables"; file]) with
      | inl content =>
          match SchemaReader.parseTableContent content file errors with
          | (Some tableDef, errors1) =>
              parseTables fs projectPath rest (Js.push tables_ tableDef) errors1
          | (None, errors1) => parseTables fs projectPath rest tables_ errors1
          end
      | inr error =>
          parseTables fs projectPath rest tables_
            (Js.push errors ("Error parsing table file " ++ file ++ ": " ++ error))
      end
  end.

(** [getMetadata] *)
Definition getMetadata (fs : FileSystem) (projectPath : string) (files : ReaderFiles)
  : ReaderMetadata :=
  match fs_stat fs (path_join fs [projectPath; "index.ts"]) with
  | Some mtime =>
      mkReaderMetadata mtime
        (List.length (files_enums files) + List.length (files_helpers files)
         + List.length (files_tables files) + List.length (files_indexes files))
        projectPath
  | None => mkReaderMetadata (clock fs) 0 projectPath
  end.

Definition count_text {E : Type} (l : list E) : string :=
  Js.num_to_string (Z.of_nat (List.length l)).

(** The method [readSchema] of a reader whose list of errors is
    [errors]; the second component is that list after the call. None of
    the steps in its [try] block throws, each catches its own errors. *)
Definition SchemaReader_readSchema (fs : FileSystem) (projectPath : string)
           (errors : list string) : SchemaReaderResult * list string :=
  if negb (checkProjectExists fs projectPath) then
    (mkReaderResult false "Project directory not found or not a valid Drizzle project"
       None (mkReaderFiles [] [] [] [])
       (Some ["Project directory does not exist or is not a valid Drizzle project"])
       (mkReaderMetadata (clock fs) 0 projectPath),
     errors)
  else
    let files := getFileStructure fs projectPath in
    let '(enums_, errors1) := parseEnums fs projectPath (files_enums files) [] errors in
    let '(helpers_, errors2) := parseHelpers fs projectPath (files_helpers files) [] errors1 in
    let '(tables_, errors3) := parseTables fs projectPath (files_tables files) [] errors2 in
    let metadata_ := getMetadata fs projectPath files in
    let schema :=
      mkConfig projectPath
        (if Nat.ltb 0 (List.length enums_) then Some enums_ else None)
        (if Nat.ltb 0 (List.length helpers_) then Some helpers_ else None)
        (if Nat.ltb 0 (List.length tables_) then Some tables_ else None)
        (Some true) in
    (mkReaderResult
       (Nat.eqb (List.length errors3) 0)
       (if Nat.eqb (List.length errors3) 0 then
          "Successfully read schema with " ++ count_text enums_ ++ " enums, "
            ++ count_text helpers_ ++ " helpers, " ++ count_text tables_ ++ " tables"
        else "Read schema with " ++ count_text errors3 ++ " errors")
       (Some schema) files
       (if Nat.ltb 0 (List.length errors3) then Some errors3 else None)
       metadata_,
     errors3).

(** The function [readSchema]: a new reader, then its method. *)
Definition readSchema (fs : FileSystem) (projectPath : string) : SchemaReaderResult :=
  fst (SchemaReader_readSchema fs projectPath []).

(** The definitions of an optional list. *)
Definition listed {E : Type} (o : option (list E)) : list E :=
  match o with Some l => l | None => [] end.

(* ================================================================== *)
(** ** Project generator (ProjectGenerator)                            *)
(* ================================================================== *)

(** What an operation rejects with: the [message] of the error when it
    is an [Error], and its rendering [String(error)]. *)
Record JsError : Type := mkJsError {
  error_message : option string;
  error_text : string
}.

(** The disk as the generator sees it, [W] being its state.
    [disk_access w p] tells whether [fs.access(p)] resolves in the state
    [w]; [disk_mkdir] and [disk_writeFile] give the state they leave, or
    the error they reject with. [disk_join] is [path.join] and
    [disk_dirname] is [path.dirname]. *)
Record Disk (W : Type) : Type := mkDisk {
  disk_access : W -> string -> bool;
  disk_mkdir : W -> string -> W + JsError;
  disk_writeFile : W -> string -> string -> W + JsError;
  disk_join : list string -> string;
  disk_dirname : string -> string
}.
Arguments disk_access {W}.
Arguments disk_mkdir {W}.
Arguments disk_writeFile {W}.
Arguments disk_join {W}.
Arguments disk_dirname {W}.

(** A [ProjectGenerator] instance: its two lists, and the disk. *)
Record ProjectGenerator (W : Type) : Type := mkProjectGenerator {
  disk : W;
  generatedFiles : list string;
  generator_errors : list string
}.
Arguments mkProjectGenerator {W}.
Arguments disk {W}.
Arguments generatedFiles {W}.
Arguments generator_errors {W}.

Record ProjectFiles : Type := mkProjectFiles {
  project_enums : list string;
  project_helpers : list string;
  project_tables : list string;
  project_indexes : list string
}.

Record ProjectStructure : Type := mkProjectStructure {
  enumsDir : string;
  helpersDir : string;
  tablesDir : string;
  structure_files : ProjectFiles
}.

(** [ProjectGeneratorResult] *)
Record ProjectGeneratorResult : Type := mkProjectResult {
  project_success : bool;
  project_message : string;
  project_errors : option (list string);
  project_generatedFiles : list string;
  structure : ProjectStructure
}.

Section ProjectGeneratorMethods.

Context {W : Type}.
Variable fs : Disk W.
Variable config : ProjectGeneratorConfig.

(** [this.errors.push(message)] *)
Definition push_error (g : ProjectGenerator W) (message : string) : ProjectGenerator W :=
  mkProjectGenerator (disk g) (generatedFiles g) (Js.push (generator_errors g) message).

(** [ensureDirectory] *)
Definition ensureDirectory (w : W) (dirPath : string) : W + JsError :=
  if disk_access fs w dirPath then inl w else disk_mkdir fs w dirPath.

(** [writeFile]: the instance it leaves, and the error it throws, if
    any. *)
Definition writeFile (g : ProjectGenerator W) (filePath content : string)
  : option JsError * ProjectGenerator W :=
  if negb (Js.truthy_bool (overwrite config)) && disk_access fs (disk g) filePath then
    (None, push_error g ("File already exists: " ++ filePath
                           ++ " (use overwrite: true to replace)"))
  else
    match ensureDirectory (disk g) (disk_dirname fs filePath) with
    | inr error => (Some error, g)
    | inl w1 =>
        match disk_writeFile fs w1 filePath content with
        | inr error => (Some error, mkProjectGenerator w1 (generatedFiles g) (generator_errors g))
        | inl w2 =>
            (None, mkProjectGenerator w2 (Js.push (generatedFiles g) filePath)
                     (generator_errors g))
        end
    end.

(** The content of a generated file: the import statements of the
    result, then its code. *)
Definition fileContent (imports : ImportMap) (code : string) : string :=
  ImportManager.toString (ImportManager.merge ImportManager.new imports)
    ++ nl ++ nl ++ code ++ nl.

(** The loop of [generateEnums]. *)
Fixpoint generateEnums_loop (enumsDir_ : string) (definitions : list EnumDefinition)
         (enumFiles : list string) (g : ProjectGenerator W)
  : list string * ProjectGenerator W :=
  match definitions with
  | [] => (enumFiles, g)
  | enumDef :: rest =>
      let result := EnumGenerator enumDef in
      if Js.truthy_opt (enum_error result) then
        generateEnums_loop enumsDir_ rest enumFiles
          (push_error g ("Enum '" ++ enum_name enumDef ++ "': "
                           ++ Js.str_or_undefined (enum_error result)))
      else
        let fileName := enum_name enumDef ++ ".ts" in
        let filePath := disk_join fs [enumsDir_; fileName] in
        match writeFile g filePath (fileContent (enum_imports result) (enumCode result)) with
        | (None, g1) => generateEnums_loop enumsDir_ rest (Js.push enumFiles fileName) g1
        | (Some error, g1) =>
            generateEnums_loop enumsDir_ rest enumFiles
              (push_error g1 ("Error generating enum '" ++ enum_name enumDef ++ "': "
                                ++ error_text error))
        end
  end.

(** [generateEnums] *)
Definition generateEnums (enumsDir_ : string) (g : ProjectGenerator W)
  : list string * ProjectGenerator W :=
  match enums config with
  | None => ([], g)
  | Some definitions => generateEnums_loop enumsDir_ definitions [] g
  end.

(** The loop of [generateHelpers]. *)
Fixpoint generateHelpers_loop (helpersDir_ : string) (definitions : list HelperDefinition)
         (helperFiles : list string) (g : ProjectGenerator W)
  : list string * ProjectGenerator W :=
  match definitions with
  | [] => (helperFiles, g)
  | helperDef :: rest =>
      let result := HelperGenerator helperDef in
      if Js.truthy_opt (helper_error result) then
        generateHelpers_loop helpersDir_ rest helperFiles
          (push_error g ("Helper '" ++ helper_name helperDef ++ "': "
                           ++ Js.str_or_undefined (helper_error result)))
      else
        let fileName := helper_name helperDef ++ ".ts" in
        let filePath := disk_join fs [helpersDir_; fileName] in
        match writeFile g filePath
                (fileContent (helper_imports result) (helperCode result)) with
        | (None, g1) => generateHelpers_loop helpersDir_ rest (Js.push helperFiles fileName) g1
        | (Some error, g1) =>
            generateHelpers_loop helpersDir_ rest helperFiles
              (push_error g1 ("Error generating helper '" ++ helper_name helperDef ++ "': "
                                ++ error_text error))
        end
  end.

(** [generateHelpers] *)
Definition generateHelpers (helpersDir_ : string) (g : ProjectGenerator W)
  : list string * ProjectGenerator W :=
  match helpers config with
  | None => ([], g)
  | Some definitions => generateHelpers_loop helpersDir_ definitions [] g
  end.

(** The loop of [generateTables]. *)
Fixpoint generateTables_loop (tablesDir_ : string) (definitions : list TableDefinition)
         (tableFiles : list string) (g : ProjectGenerator W)
  : list string * ProjectGenerator W :=
  match definitions with
  | [] => (tableFiles, g)
  | tableDef :: rest =>
      let result := TableGenerator tableDef in
      if Js.truthy_opt (table_error result) then
        generateTables_loop tablesDir_ rest tableFiles
          (push_error g ("Table '" ++ table_name tableDef ++ "': "
                           ++ Js.str_or_undefined (table_error result)))
      else
        let fileName := table_name tableDef ++ ".ts" in
        let filePath := disk_join fs [tablesDir_; fileName] in
        match writeFile g filePath (fileContent (table_imports result) (tableCode result)) with
        | (None, g1) => generateTables_loop tablesDir_ rest (Js.push tableFiles fileName) g1
        | (Some error, g1) =>
            generateTables_loop tablesDir_ rest tableFiles
              (push_error g1 ("Error generating table '" ++ table_name tableDef ++ "': "
                                ++ error_text error))
        end
  end.

(** [generateTables] *)
Definition generateTables (tablesDir_ : string) (g : ProjectGenerator W)
  : list string * ProjectGenerator W :=
  match tables config with
  | None => ([], g)
  | Some definitions => generateTables_loop tablesDir_ definitions [] g
  end.

(** The exports of the index file of a directory. *)
Definition index_exports (files : list string) : string :=
  Js.join nl
    (map (fun file => "export * from './" ++ Js.remove_first ".ts" file ++ ".js';") files)
    ++ nl.

(** One step of the [try] block of [generateIndexFiles]: when [wanted],
    the file is written and listed under [listed_as]; an error thrown
    ends the block. *)
Definition index_step (wanted : bool) (filePath content listed_as : string)
           (next : list string -> ProjectGenerator W -> list string * ProjectGenerator W)
           (indexFiles : list string) (g : ProjectGenerator W)
  : list string * ProjectGenerator W :=
  if wanted then
    match writeFile g filePath content with
    | (None, g1) => next (Js.push indexFiles listed_as) g1
    | (Some error, g1) =>
        (indexFiles, push_error g1 ("Error generating index files: " ++ error_text error))
    end
  else next indexFiles g.

(** [generateIndexFiles] *)
Definition generateIndexFiles (enumsDir_ helpersDir_ tablesDir_ : string)
           (enumFiles helperFiles tableFiles : list string) (g : ProjectGenerator W)
  : list string * ProjectGenerator W :=
  let has_enums := Nat.ltb 0 (List.length enumFiles) in
  let has_helpers := Nat.ltb 0 (List.length helperFiles) in
  let has_tables := Nat.ltb 0 (List.length tableFiles) in
  let mainExports :=
    ((if has_enums then ["export * from './enums/index.js';"] else [])
       ++ (if has_helpers then ["export * from './helpers/index.js';"] else [])
       ++ (if has_tables then ["export * from './tables/index.js';"] else []))%list in
  index_step has_enums (disk_join fs [enumsDir_; "index.ts"]) (index_exports enumFiles)
    "enums/index.ts"
    (index_step has_helpers (disk_join fs [helpersDir_; "index.ts"])
       (index_exports helperFiles) "helpers/index.ts"
       (index_step has_tables (disk_join fs [tablesDir_; "index.ts"])
          (index_exports tableFiles) "tables/index.ts"
          (index_step (Nat.ltb 0 (List.length mainExports))
             (disk_join fs [outputDir config; "index.ts"])
             (Js.join nl mainExports ++ nl) "index.ts"
             (fun indexFiles g1 => (indexFiles, g1)))))
    [] g.

(** The result of [generate] when one of its own steps throws. *)
Definition generate_failed (error : JsError) (g : ProjectGenerator W)
  : ProjectGeneratorResult * ProjectGenerator W :=
  (mkProjectResult false
     ("Failed to generate project: "
        ++ match error_message error with Some m => m | None => error_text error end)
     (Some [error_text error])
     (generatedFiles g)
     (mkProjectStructure "" "" "" (mkProjectFiles [] [] [] [])),
   g).

(** [generate] *)
Definition generate (g : ProjectGenerator W) : ProjectGeneratorResult * ProjectGenerator W :=
  let at_disk (w : W) := mkProjectGenerator w (generatedFiles g) (generator_errors g) in
  match ensureDirectory (disk g) (outputDir config) with
  | inr error => generate_failed error g
  | inl w1 =>
      let enumsDir_ := disk_join fs [outputDir config; "enums"] in
      let helpersDir_ := disk_join fs [outputDir config; "helpers"] in
      let tablesDir_ := disk_join fs [outputDir config; "tables"] in
      match ensureDirectory w1 enumsDir_ with
      | inr error => generate_failed error (at_disk w1)
      | inl w2 =>
          match ensureDirectory w2 helpersDir_ with
          | inr error => generate_failed error (at_disk w2)
          | inl w3 =>
              match ensureDirectory w3 tablesDir_ with
              | inr error => generate_failed error (at_disk w3)
              | inl w4 =>
                  let '(enumFiles, g1) := generateEnums enumsDir_ (at_disk w4) in
                  let '(helperFiles, g2) := generateHelpers helpersDir_ g1 in
                  let '(tableFiles, g3) := generateTables tablesDir_ g2 in
                  let '(indexFiles, g4) :=
                    generateIndexFiles enumsDir_ helpersDir_ tablesDir_
                      enumFiles helperFiles tableFiles g3 in
                  let no_errors := Nat.eqb (List.length (generator_errors g4)) 0 in
                  (mkProjectResult no_errors
                     (if no_errors then
                        "Successfully generated "
                          ++ Js.num_to_string (Z.of_nat (List.length (generatedFiles g4)))
                          ++ " files"
                      else
                        "Generated with "
                          ++ Js.num_to_string (Z.of_nat (List.length (generator_errors g4)))
                          ++ " errors")
                     (if Nat.ltb 0 (List.length (generator_errors g4))
                      then Some (generator_errors g4) else None)
                     (generatedFiles g4)
                     (mkProjectStructure enumsDir_ helpersDir_ tablesDir_
                        (mkProjectFiles enumFiles helperFiles tableFiles indexFiles)),
                   g4)
              end
          end
      end
  end.

End ProjectGeneratorMethods.

(** What the generator may do to the disk. [touched fs may_replace w l w']:
    the state [w'] comes from [w] by creating directories that were not
    accessible and by writing files; [l] lists the files written, in
    order; and unless [may_replace], a file is written only if it was
    not accessible just before its directory was looked after. *)
Inductive touched {W : Type} (fs : Disk W) (may_replace : bool)
  : W -> list string -> W -> Prop :=
| touched_nothing (w : W) : touched fs may_replace w [] w
| touched_mkdir (w w1 w2 : W) (l : list string) (dirPath : string) :
    touched fs may_replace w l w1 ->
    disk_access fs w1 dirPath = false ->
    disk_mkdir fs w1 dirPath = inl w2 ->
    touched fs may_replace w l w2
| touched_write (w w1 w2 w3 : W) (l : list string) (filePath content : string) :
    touched fs may_replace w l w1 ->
    may_replace = true \/ disk_access fs w1 filePath = false ->
    ensureDirectory fs w1 (disk_dirname fs filePath) = inl w2 ->
    disk_writeFile fs w2 filePath content = inl w3 ->
    touched fs may_replace w (Js.push l filePath) w3.

(* ================================================================== *)
(** * Properties                                                       *)
(* ================================================================== *)

(** ** Strings and arrays *)

Section StringFacts.

Lemma append_empty_r (s : string) : s ++ "" = s.
Proof. induction s; simpl; congruence. Qed.

Lemma append_assoc (a b c : string) : (a ++ b) ++ c = a ++ (b ++ c).
Proof. induction a; simpl; congruence. Qed.

Lemma length_append (a b : string) :
  String.length (a ++ b) = String.length a + String.length b.
Proof. induction a; simpl; congruence. Qed.

Lemma startsWith_append (p s : string) : Js.startsWith (p ++ s) p = true.
Proof.
  induction p as [|c p IH]; simpl; [destruct s; reflexivity|].
  rewrite Ascii.eqb_refl. exact IH.
Qed.

Lemma includes_of_startsWith (s p : string) :
  Js.startsWith s p = true -> Js.includes s p = true.
Proof. destruct s; simpl; intros ->; reflexivity. Qed.

Lemma includes_append_r (a s p : string) :
  Js.includes s p = true -> Js.includes (a ++ s) p = true.
Proof.
  intros H. induction a as [|c a IH]; [exact H|].
  change (String c a ++ s) with (String c (a ++ s)).
  simpl. rewrite IH. apply orb_true_r.
Qed.

Lemma truthy_true (s : string) : Js.truthy s = true <-> s <> "".
Proof. destruct s; simpl; split; congruence. Qed.

Lemma trimStart_spaces (s : string) :
  forallb Js.is_space (list_ascii_of_string s) = true -> Js.trimStart s = "".
Proof.
  induction s as [|c s IH]; simpl; [reflexivity|].
  intros H. apply andb_true_iff in H as [Hc Hs]. rewrite Hc. auto.
Qed.

Lemma trim_spaces (s : string) :
  forallb Js.is_space (list_ascii_of_string s) = true -> Js.trim s = "".
Proof. intros H. unfold Js.trim. rewrite trimStart_spaces by exact H. reflexivity. Qed.

Lemma arr_includes_In (l : list string) (x : string) :
  Js.arr_includes l x = true <-> In x l.
Proof.
  unfold Js.arr_includes. rewrite existsb_exists. split.
  - intros [y [Hy E]]. apply String.eqb_eq in E. subst. exact Hy.
  - intros H. exists x. split; [exact H|apply String.eqb_refl].
Qed.

Lemma set_of_aux_In (l seen : list string) (x : string) :
  In x (Js.set_of_aux seen l) <-> In x seen \/ In x l.
Proof.
  revert seen. induction l as [|y l IH]; intros seen; simpl.
  - tauto.
  - rewrite IH. destruct (Js.arr_includes seen y) eqn:E.
    + apply arr_includes_In in E. split; [tauto|].
      intros [H|[H|H]]; subst; auto.
    + unfold Js.push. rewrite in_app_iff. simpl. tauto.
Qed.

Lemma set_of_In (l : list string) (x : string) : In x (Js.set_of l) <-> In x l.
Proof. unfold Js.set_of. rewrite set_of_aux_In. simpl. tauto. Qed.

End StringFacts.

(** ** Characters and case conversion *)

Ltac all_ascii c :=
  destruct c as [[] [] [] [] [] [] [] []]; vm_compute; intuition congruence.

Lemma lower_upper_char (c : ascii) : Js.lower_char (Js.upper_char c) = Js.lower_char c.
Proof. all_ascii c. Qed.

Lemma upper_char_is_upper (c : ascii) : Js.is_alpha c = true -> Js.is_upper (Js.upper_char c) = true.
Proof. all_ascii c. Qed.

Lemma lower_char_not_upper (c : ascii) : Js.is_upper (Js.lower_char c) = false.
Proof. all_ascii c. Qed.

Lemma alnum_plain (c : ascii) :
  is_alnum c = true ->
  Js.not_char "'" c = true /\ Js.not_char "]" c = true /\ is_sep c = false
  /\ Ascii.eqb c " " = false /\ Ascii.eqb c "_" = false.
Proof. all_ascii c. Qed.

Lemma alnum_case (c : ascii) :
  is_alnum c = true -> is_alnum (Js.upper_char c) = true /\ is_alnum (Js.lower_char c) = true.
Proof. all_ascii c. Qed.

Lemma alpha_alnum (c : ascii) : Js.is_alpha c = true -> is_alnum c = true.
Proof. all_ascii c. Qed.

Lemma word_char_not_quote (c : ascii) :
  Js.is_word c = true -> Js.not_char "'" c = true /\ Js.not_char "'" (Js.lower_char c) = true.
Proof. all_ascii c. Qed.

Section AllChars.
Variable p : ascii -> bool.

Lemma all_chars_append (a b : string) :
  all_chars p (a ++ b) = all_chars p a && all_chars p b.
Proof.
  unfold all_chars. induction a as [|c a IH]; simpl; [reflexivity|].
  now rewrite IH, andb_assoc.
Qed.

Lemma all_chars_cons (c : ascii) (s : string) :
  all_chars p (String c s) = p c && all_chars p s.
Proof. reflexivity. Qed.

Lemma all_chars_weaken (q : ascii -> bool) (s : string) :
  (forall c, p c = true -> q c = true) -> all_chars p s = true -> all_chars q s = true.
Proof.
  intros H. unfold all_chars. induction s as [|c s IH]; simpl; [reflexivity|].
  intros Hs. apply andb_true_iff in Hs as [Hc Hs]. now rewrite (H c Hc), IH.
Qed.

End AllChars.

Lemma toLowerCase_append (a b : string) :
  Js.toLowerCase (a ++ b) = Js.toLowerCase a ++ Js.toLowerCase b.
Proof. unfold Js.toLowerCase. induction a as [|c a IH]; simpl; [reflexivity|now rewrite IH]. Qed.

Lemma toLowerCase_alnum (s : string) :
  all_chars is_alnum s = true -> all_chars is_alnum (Js.toLowerCase s) = true.
Proof.
  unfold all_chars, Js.toLowerCase. induction s as [|c s IH]; simpl; [reflexivity|].
  intros H. apply andb_true_iff in H as [Hc Hs].
  now rewrite (proj2 (alnum_case c Hc)), IH.
Qed.

(** Lower-cased text has no capital letter left to replace. *)
Lemma replace_upper_lower (s rest : string) (offset : nat) :
  replace_upper offset (Js.toLowerCase s ++ rest)
  = Js.toLowerCase s ++ replace_upper (offset + String.length s) rest.
Proof.
  revert offset. unfold Js.toLowerCase.
  induction s as [|c s IH]; intros offset; simpl.
  - now rewrite Nat.add_0_r.
  - rewrite lower_char_not_upper, IH.
    now replace (offset + S (String.length s)) with (S offset + String.length s) by lia.
Qed.

Lemma replace_upper_capitalize (w rest : string) (offset : nat) :
  snake_word w = true ->
  replace_upper offset (capitalize w ++ rest)
  = (if Nat.ltb 0 offset then "_" else "") ++ Js.toLowerCase w
      ++ replace_upper (offset + String.length w) rest.
Proof.
  destruct w as [|c w]; [discriminate|]. simpl. intros H.
  apply andb_true_iff in H as [Hc Hw].
  rewrite (upper_char_is_upper c Hc), lower_upper_char.
  rewrite replace_upper_lower.
  replace (S offset + String.length w) with (offset + S (String.length w)) by lia.
  destruct (Nat.ltb 0 offset); reflexivity.
Qed.

Lemma replace_upper_not_quote (s : string) (offset : nat) :
  all_chars Js.is_word s = true ->
  all_chars (Js.not_char "'") (replace_upper offset s) = true.
Proof.
  revert offset. induction s as [|c s IH]; intros offset; [reflexivity|].
  rewrite all_chars_cons. intros H. apply andb_true_iff in H as [Hc Hs].
  destruct (word_char_not_quote c Hc) as [H1 H2].
  simpl. destruct (Js.is_upper c).
  - rewrite all_chars_append, all_chars_cons, H2, (IH _ Hs).
    destruct (Nat.ltb 0 offset); reflexivity.
  - now rewrite all_chars_cons, H1, (IH _ Hs).
Qed.

Lemma replace_upper_nonempty (s : string) (offset : nat) :
  s <> "" -> replace_upper offset s <> "".
Proof.
  destruct s as [|c s]; [congruence|]. intros _. simpl.
  destruct (Js.is_upper c); [destruct (Nat.ltb 0 offset)|]; discriminate.
Qed.

(** ** Splitting and joining words *)

Lemma join_head (sep w : string) (ws : list string) :
  Js.join sep (w :: ws) = w ++ match ws with [] => "" | _ :: _ => sep ++ Js.join sep ws end.
Proof. destruct ws; simpl; [now rewrite append_empty_r|reflexivity]. Qed.

Lemma join_empty_cons (w : string) (ws : list string) :
  Js.join "" (w :: ws) = w ++ Js.join "" ws.
Proof. rewrite join_head. destruct ws; reflexivity. Qed.

Lemma split_char_not_nil (sep : ascii) (s : string) : Js.split_char sep s <> [].
Proof.
  induction s as [|c s IH]; simpl; [discriminate|].
  destruct (Ascii.eqb c sep); [discriminate|].
  destruct (Js.split_char sep s); discriminate.
Qed.

Lemma join_split_char (sep : ascii) (s : string) :
  Js.join (String sep "") (Js.split_char sep s) = s.
Proof.
  induction s as [|c s IH]; [reflexivity|]. simpl.
  pose proof (split_char_not_nil sep s) as Hn. revert IH Hn.
  generalize (Js.split_char sep s). intros l IH Hn.
  destruct l as [|h t]; [congruence|].
  destruct (Ascii.eqb c sep) eqn:E.
  - apply Ascii.eqb_eq in E. subst c. rewrite (join_head _ ""). now rewrite IH.
  - unfold Js.cons_head. rewrite join_head. rewrite join_head in IH.
    now rewrite <- IH.
Qed.

Lemma split_char_plain (sep : ascii) (w : string) :
  all_chars (fun c => negb (Ascii.eqb c sep)) w = true -> Js.split_char sep w = [w].
Proof.
  induction w as [|c w IH]; [reflexivity|].
  rewrite all_chars_cons. intros H. apply andb_true_iff in H as [Hc Hw].
  simpl. apply negb_true_iff in Hc. rewrite Hc, (IH Hw). reflexivity.
Qed.

Lemma snake_word_facts (w : string) :
  snake_word w = true -> w <> "" /\ all_chars is_alnum w = true.
Proof.
  destruct w as [|c w]; [discriminate|]. simpl. intros H.
  apply andb_true_iff in H as [Hc Hw]. split; [discriminate|].
  rewrite all_chars_cons, (alpha_alnum c Hc). exact Hw.
Qed.

Lemma split_runs_not_nil (p : ascii -> bool) (b : bool) (s : string) :
  Js.split_runs p b s <> [].
Proof.
  revert b. induction s as [|c s IH]; intros b; simpl; [discriminate|].
  destruct (p c).
  - destruct b; [apply IH|discriminate].
  - destruct (Js.split_runs p false s); discriminate.
Qed.

Lemma split_runs_word (p : ascii -> bool) (w rest : string) :
  all_chars (fun c => negb (p c)) w = true ->
  Js.split_runs p false (w ++ rest) = prepend_head w (Js.split_runs p false rest).
Proof.
  induction w as [|c w IH].
  - intros _. simpl. pose proof (split_runs_not_nil p false rest).
    destruct (Js.split_runs p false rest); [congruence|reflexivity].
  - rewrite all_chars_cons. intros H. apply andb_true_iff in H as [Hc Hw].
    apply negb_true_iff in Hc. simpl. rewrite Hc, (IH Hw).
    destruct (Js.split_runs p false rest); reflexivity.
Qed.

Lemma split_runs_after_separator (p : ascii -> bool) (w rest : string) :
  w <> "" -> all_chars (fun c => negb (p c)) w = true ->
  Js.split_runs p true (w ++ rest) = Js.split_runs p false (w ++ rest).
Proof.
  destruct w as [|c w]; [congruence|]. intros _.
  rewrite all_chars_cons. intros H. apply andb_true_iff in H as [Hc _].
  apply negb_true_iff in Hc. simpl. now rewrite Hc.
Qed.

Lemma snake_word_no_separator (w : string) :
  snake_word w = true -> all_chars (fun c => negb (is_sep c)) w = true.
Proof.
  intros H. apply snake_word_facts in H as [_ H].
  revert H. apply all_chars_weaken. intros c Hc.
  destruct (alnum_plain c Hc) as (_ & _ & Hs & _). now rewrite Hs.
Qed.

Lemma split_runs_tokens (ws : list string) :
  ws <> [] -> Forall (fun w => snake_word w = true) ws ->
  Js.split_runs is_sep false (Js.join "_" ws) = ws.
Proof.
  induction ws as [|w ws IH]; [congruence|]. intros _ H.
  inversion H as [|? ? Hw Hws]; subst.
  pose proof (snake_word_no_separator w Hw) as Hsep.
  rewrite join_head. destruct ws as [|w2 ws].
  - rewrite split_runs_word by exact Hsep. simpl. now rewrite append_empty_r.
  - rewrite split_runs_word by exact Hsep.
    change ("_" ++ Js.join "_" (w2 :: ws)) with (String "_" (Js.join "_" (w2 :: ws))).
    cbn [Js.split_runs]. change (is_sep "_") with true. cbv iota.
    inversion Hws as [|? ? Hw2 _]; subst.
    rewrite join_head.
    rewrite split_runs_after_separator;
      [|apply (snake_word_facts w2 Hw2)|apply (snake_word_no_separator w2 Hw2)].
    rewrite <- join_head. rewrite IH; [|discriminate|exact Hws].
    simpl. now rewrite append_empty_r.
Qed.

Lemma PascalCase_tokens (ws : list string) :
  ws <> [] -> Forall (fun w => snake_word w = true) ws ->
  PascalCase (Js.join "_" ws) = Js.join "" (map capitalize ws).
Proof.
  intros Hne H. unfold PascalCase. rewrite (split_runs_tokens ws Hne H).
  f_equal. apply map_ext_in. intros w Hw.
  rewrite Forall_forall in H. specialize (H w Hw).
  rewrite split_char_plain; [reflexivity|].
  apply snake_word_facts in H as [_ H]. revert H. apply all_chars_weaken.
  intros c Hc. destruct (alnum_plain c Hc) as (_ & _ & _ & Hs & _). now rewrite Hs.
Qed.

Lemma replace_upper_words (ws : list string) (offset : nat) :
  0 < offset -> Forall (fun w => snake_word w = true) ws ->
  replace_upper offset (Js.join "" (map capitalize ws))
  = Js.join "" (map (fun w => "_" ++ Js.toLowerCase w) ws).
Proof.
  revert offset. induction ws as [|w ws IH]; intros offset Hpos H; [reflexivity|].
  inversion H as [|? ? Hw Hws]; subst.
  cbn [map]. rewrite !join_empty_cons, (replace_upper_capitalize w _ offset Hw).
  rewrite (proj2 (Nat.ltb_lt 0 offset) Hpos).
  rewrite IH; [|lia|exact Hws]. reflexivity.
Qed.

Lemma toLowerCase_join (w : string) (ws : list string) :
  Js.toLowerCase (Js.join "_" (w :: ws))
  = Js.toLowerCase w ++ Js.join "" (map (fun w => "_" ++ Js.toLowerCase w) ws).
Proof.
  revert w. induction ws as [|w2 ws IH]; intros w.
  - simpl. now rewrite append_empty_r.
  - rewrite join_head, toLowerCase_append, toLowerCase_append, IH.
    cbn [map]. rewrite join_empty_cons. reflexivity.
Qed.

Lemma forallb_all {X : Type} (f : X -> bool) (l : list X) :
  forallb f l = true -> Forall (fun x => f x = true) l.
Proof.
  induction l as [|x l IH]; simpl; [constructor|].
  intros H. apply andb_true_iff in H as [Hx Hl]. constructor; auto.
Qed.

(** Rendering a token in Pascal case and replacing the capitals again
    gives the token in lower case. *)
Lemma snake_of_pascal_token (v : string) :
  snake_token v = true -> replace_upper 0 (PascalCase v) = Js.toLowerCase v.
Proof.
  unfold snake_token. intros H. apply forallb_all in H.
  pose proof (split_char_not_nil "_" v) as Hne.
  rewrite <- (join_split_char "_" v) at 1 2.
  destruct (Js.split_char "_" v) as [|w ws]; [congruence|].
  rewrite PascalCase_tokens by (discriminate || exact H).
  inversion H as [|? ? Hw Hws]; subst.
  cbn [map]. rewrite join_empty_cons, (replace_upper_capitalize w _ 0 Hw).
  rewrite replace_upper_words; [|destruct w; [discriminate|simpl; lia]|exact Hws].
  rewrite toLowerCase_join. reflexivity.
Qed.

Lemma capitalize_alnum (w : string) :
  snake_word w = true -> capitalize w <> "" /\ all_chars is_alnum (capitalize w) = true.
Proof.
  destruct w as [|c w]; [discriminate|]. simpl. intros H.
  apply andb_true_iff in H as [Hc Hw]. split; [discriminate|].
  rewrite all_chars_cons, (proj1 (alnum_case c (alpha_alnum c Hc))).
  now apply toLowerCase_alnum.
Qed.

Lemma PascalCase_token_alnum (v : string) :
  snake_token v = true ->
  PascalCase v <> "" /\ all_chars is_alnum (PascalCase v) = true.
Proof.
  unfold snake_token. intros H. apply forallb_all in H.
  pose proof (split_char_not_nil "_" v) as Hne.
  rewrite <- (join_split_char "_" v).
  destruct (Js.split_char "_" v) as [|w ws]; [congruence|].
  rewrite PascalCase_tokens by (discriminate || exact H).
  inversion H as [|? ? Hw Hws]; subst. cbn [map]. rewrite join_empty_cons.
  destruct (capitalize_alnum w Hw) as [Hn Ha]. split.
  - destruct (capitalize w); [congruence|discriminate].
  - rewrite all_chars_append, Ha. simpl.
    clear - Hws. induction Hws as [|w2 ws Hw2 _ IH]; [reflexivity|].
    cbn [map]. rewrite join_empty_cons, all_chars_append, IH.
    now rewrite (proj2 (capitalize_alnum w2 Hw2)).
Qed.

(** ** Maps keyed by name *)

Section MapFacts.
Import SchemaChangeDetector.
Context {V : Type}.
Implicit Types (m : list (string * V)) (k : string) (v : V).

Lemma map_get_set_same m k v : Js.map_get (Js.map_set m k v) k = Some v.
Proof.
  induction m as [|[k' v'] m IH]; simpl.
  - now rewrite String.eqb_refl.
  - destruct (String.eqb k' k) eqn:E; simpl; rewrite E; auto.
Qed.

Lemma map_get_set_other m k v k' :
  k <> k' -> Js.map_get (Js.map_set m k v) k' = Js.map_get m k'.
Proof.
  intros Hne. induction m as [|[k0 v0] m IH]; simpl.
  - apply String.eqb_neq in Hne. now rewrite Hne.
  - destruct (String.eqb k0 k) eqn:E; simpl.
    + apply String.eqb_eq in E. subst k0.
      apply String.eqb_neq in Hne. now rewrite Hne.
    + now rewrite IH.
Qed.

Lemma map_set_keys m k v :
  map fst (Js.map_set m k v)
  = if Js.map_has m k then map fst m else (map fst m ++ [k])%list.
Proof.
  unfold Js.map_has. induction m as [|[k0 v0] m IH]; simpl; [reflexivity|].
  destruct (String.eqb k0 k) eqn:E; simpl; [reflexivity|].
  rewrite IH. destruct (Js.map_get m k); reflexivity.
Qed.

Lemma map_has_In m k : Js.map_has m k = true <-> In k (map fst m).
Proof.
  unfold Js.map_has. induction m as [|[k0 v0] m IH]; simpl.
  - split; [discriminate|tauto].
  - destruct (String.eqb k0 k) eqn:E.
    + apply String.eqb_eq in E. subst. split; auto.
    + apply String.eqb_neq in E. rewrite IH. split; [auto|]. intros [H|H]; [congruence|auto].
Qed.

Lemma map_has_false m k : Js.map_has m k = false <-> ~ In k (map fst m).
Proof. rewrite <- map_has_In. destruct (Js.map_has m k); split; congruence. Qed.

Lemma map_set_NoDup m k v : NoDup (map fst m) -> NoDup (map fst (Js.map_set m k v)).
Proof.
  intros H. rewrite map_set_keys. destruct (Js.map_has m k) eqn:E; [exact H|].
  apply map_has_false in E.
  apply NoDup_rev in H. rewrite <- (rev_involutive (map fst m ++ [k])).
  apply NoDup_rev. rewrite rev_app_distr. simpl. constructor; [|exact H].
  now rewrite <- in_rev.
Qed.

Lemma map_get_In m k v : Js.map_get m k = Some v -> In (k, v) m.
Proof.
  induction m as [|[k0 v0] m IH]; simpl; [discriminate|].
  destruct (String.eqb k0 k) eqn:E.
  - apply String.eqb_eq in E. intros [= ->]. subst. auto.
  - auto.
Qed.

Lemma In_map_get m k v : NoDup (map fst m) -> In (k, v) m -> Js.map_get m k = Some v.
Proof.
  induction m as [|[k0 v0] m IH]; simpl; [tauto|].
  intros Hnd [H|H].
  - injection H as -> ->. now rewrite String.eqb_refl.
  - inversion Hnd as [|? ? Hnot Hnd']; subst.
    destruct (String.eqb k0 k) eqn:E.
    + apply String.eqb_eq in E. subst k0. exfalso. apply Hnot.
      change k with (fst (k, v)). now apply in_map.
    + auto.
Qed.

End MapFacts.

Section ColumnMapFacts.
Import SchemaChangeDetector.

Let add (m : list (string * ColumnDefinition)) (c : ColumnDefinition) :=
  Js.map_set m (col_name c) c.

Lemma column_fold_NoDup (cols : list ColumnDefinition) m :
  NoDup (map fst m) -> NoDup (map fst (fold_left add cols m)).
Proof.
  revert m. induction cols as [|c cols IH]; intros m H; simpl; [exact H|].
  apply IH. now apply map_set_NoDup.
Qed.

Lemma column_fold_has (cols : list ColumnDefinition) m k :
  Js.map_has (fold_left add cols m) k = true
  <-> Js.map_has m k = true \/ In k (map col_name cols).
Proof.
  revert m. induction cols as [|c cols IH]; intros m; simpl; [tauto|].
  rewrite IH. unfold add. rewrite !map_has_In, map_set_keys.
  destruct (Js.map_has m (col_name c)) eqn:E.
  - apply map_has_In in E. split; [tauto|]. intros [H|[H|H]]; subst; auto.
  - rewrite in_app_iff. simpl. tauto.
Qed.

Lemma column_fold_entries (cols : list ColumnDefinition) m k c :
  In (k, c) (fold_left add cols m) ->
  (forall k' c', In (k', c') m -> col_name c' = k') ->
  In (k, c) m \/ (In c cols /\ col_name c = k).
Proof.
  revert m. induction cols as [|c0 cols IH]; intros m H Hinv; simpl in *; [auto|].
  assert (Hset : forall k' c', In (k', c') (add m c0) ->
                               In (k', c') m \/ (k', c') = (col_name c0, c0)).
  { unfold add. clear. induction m as [|[k1 c1] m IHm]; simpl; intros k' c'.
    - intros [H|[]]. right. now symmetry.
    - destruct (String.eqb k1 (col_name c0)) eqn:E; simpl.
      + apply String.eqb_eq in E. subst k1. intros [H|H]; [right; now symmetry|auto].
      + intros [H|H]; [auto|]. destruct (IHm _ _ H); auto. }
  destruct (IH (add m c0) H) as [H1|[H1 H2]].
  - intros k' c' Hin. destruct (Hset _ _ Hin) as [H'|H'].
    + now apply Hinv.
    + now injection H' as -> ->.
  - destruct (Hset _ _ H1) as [H'|H']; [auto|]. injection H' as -> ->. auto.
  - auto.
Qed.

Lemma column_map_NoDup (cols : list ColumnDefinition) :
  NoDup (map fst (column_map cols)).
Proof. apply column_fold_NoDup. constructor. Qed.

Lemma column_map_has (cols : list ColumnDefinition) (k : string) :
  Js.map_has (column_map cols) k = true <-> In k (map col_name cols).
Proof.
  unfold column_map. fold add. rewrite column_fold_has.
  unfold Js.map_has. simpl. split; [intros [H|H]; [discriminate|exact H]|auto].
Qed.

Lemma column_map_entry (cols : list ColumnDefinition) (k : string) (c : ColumnDefinition) :
  In (k, c) (column_map cols) -> In c cols /\ col_name c = k.
Proof.
  intros H. destruct (column_fold_entries cols [] k c H) as [[]|H']; [|exact H'].
  intros ? ? [].
Qed.

End ColumnMapFacts.

(** ** Regular-expression matching on generated text *)

Section RegexFacts.
Import Regex.
Context {A : Type}.

Lemma rmatch_RLit (l s : string) (caps : list string)
      (k : string -> list string -> option A) :
  rmatch (RLit l) (l ++ s) caps k = k s caps.
Proof.
  induction l as [|c l IH]; simpl; [reflexivity|].
  rewrite Ascii.eqb_refl. exact IH.
Qed.

Lemma star_greedy_run (p : ascii -> bool) (w s : string) (k : string -> option A) (r : A) :
  all_chars p w = true -> stops p s -> k s = Some r ->
  star_greedy p (w ++ s) k = Some r.
Proof.
  intros Hw Hs Hk. induction w as [|c w IH]; simpl in *.
  - destruct s as [|c s]; simpl in *; [exact Hk|]. now rewrite Hs.
  - apply andb_true_iff in Hw as [Hc Hw]. rewrite Hc, (IH Hw). reflexivity.
Qed.

Lemma take_append (w s : string) : Js.take (String.length w) (w ++ s) = w.
Proof. induction w as [|c w IH]; simpl; [destruct s; reflexivity|now rewrite IH]. Qed.

Lemma consumed_append (w s : string) : consumed (w ++ s) s = w.
Proof.
  unfold consumed. rewrite length_append, Nat.add_sub. apply take_append.
Qed.

Lemma rmatch_group_plus (p : ascii -> bool) (w s : string) (caps : list string)
      (k : string -> list string -> option A) (r : A) :
  w <> "" -> all_chars p w = true -> stops p s ->
  k s (Js.push caps w) = Some r ->
  rmatch (RGroup (RPlus p)) (w ++ s) caps k = Some r.
Proof.
  intros Hne Hw Hs Hk. destruct w as [|c w]; [congruence|].
  simpl in Hw. apply andb_true_iff in Hw as [Hc Hw].
  cbn [rmatch]. change (String c w ++ s) with (String c (w ++ s)) at 1.
  cbv iota. rewrite Hc.
  apply star_greedy_run; [exact Hw|exact Hs|].
  change (String c (w ++ s)) with (String c w ++ s).
  now rewrite consumed_append.
Qed.

End RegexFacts.

(** ** The matcher consumes its input from the left *)

Section MatcherFacts.
Import Regex.

Lemma suffix_refl (s : string) : suffix s s.
Proof. now exists "". Qed.

Lemma suffix_cons (c : ascii) (s' s : string) : suffix s' s -> suffix s' (String c s).
Proof. intros [p ->]. now exists (String c p). Qed.

Lemma suffix_trans (a b c : string) : suffix a b -> suffix b c -> suffix a c.
Proof. intros [p ->] [q ->]. exists (q ++ p). now rewrite append_assoc. Qed.

Lemma suffix_length (s' s : string) : suffix s' s -> String.length s' <= String.length s.
Proof. intros [p ->]. rewrite length_append. lia. Qed.

Lemma star_greedy_suffix {A : Type} (p : ascii -> bool) (s : string)
      (k : string -> option A) (x : A) :
  star_greedy p s k = Some x -> exists s', k s' = Some x /\ suffix s' s.
Proof.
  induction s as [|c s IH]; simpl.
  - intros H. exists "". split; [exact H|apply suffix_refl].
  - destruct (p c).
    + destruct (star_greedy p s k) as [y|] eqn:E; simpl.
      * intros [= <-]. destruct (IH eq_refl) as (s' & Hk & Hs).
        exists s'. split; [exact Hk|now apply suffix_cons].
      * intros H. exists (String c s). split; [exact H|apply suffix_refl].
    + intros H. exists (String c s). split; [exact H|apply suffix_refl].
Qed.

Lemma star_lazy_suffix {A : Type} (p : ascii -> bool) (s : string)
      (k : string -> option A) (x : A) :
  star_lazy p s k = Some x -> exists s', k s' = Some x /\ suffix s' s.
Proof.
  induction s as [|c s IH]; simpl.
  - destruct (k "") eqn:E; [|discriminate].
    intros [= <-]. exists "". split; [exact E|apply suffix_refl].
  - destruct (k (String c s)) eqn:E.
    + intros [= <-]. exists (String c s). split; [exact E|apply suffix_refl].
    + destruct (p c); [|discriminate]. intros H.
      destruct (IH H) as (s' & Hk & Hs). exists s'. split; [exact Hk|now apply suffix_cons].
Qed.

Lemma rmatch_suffix {A : Type} (r : regex) :
  forall (s : string) (caps : list string) (k : string -> list string -> option A) (x : A),
    rmatch r s caps k = Some x ->
    exists s' caps', k s' caps' = Some x /\ suffix s' s.
Proof.
  induction r as [c|p| |r1 IH1 r2 IH2|p|p|p|r1 IH1|r1 IH1| ]; intros s caps k x; simpl.
  - destruct s as [|c' s]; [discriminate|]. destruct (Ascii.eqb c c'); [|discriminate].
    intros H. exists s, caps. split; [exact H|apply suffix_cons, suffix_refl].
  - destruct s as [|c' s]; [discriminate|]. destruct (p c'); [|discriminate].
    intros H. exists s, caps. split; [exact H|apply suffix_cons, suffix_refl].
  - intros H. exists s, caps. split; [exact H|apply suffix_refl].
  - intros H. destruct (IH1 _ _ _ _ H) as (s1 & caps1 & H1 & Hs1).
    destruct (IH2 _ _ _ _ H1) as (s2 & caps2 & H2 & Hs2).
    exists s2, caps2. split; [exact H2|exact (suffix_trans _ _ _ Hs2 Hs1)].
  - intros H. destruct (star_greedy_suffix _ _ _ _ H) as (s' & Hk & Hs). now exists s', caps.
  - destruct s as [|c' s]; [discriminate|]. destruct (p c'); [|discriminate].
    intros H. destruct (star_greedy_suffix _ _ _ _ H) as (s' & Hk & Hs).
    exists s', caps. split; [exact Hk|now apply suffix_cons].
  - intros H. destruct (star_lazy_suffix _ _ _ _ H) as (s' & Hk & Hs). now exists s', caps.
  - destruct (rmatch r1 s caps k) as [y|] eqn:E; simpl.
    + intros [= <-]. exact (IH1 _ _ _ _ E).
    + intros H. exists s, caps. split; [exact H|apply suffix_refl].
  - intros H. destruct (IH1 _ _ _ _ H) as (s' & caps' & Hk & Hs).
    exists s', (Js.push caps' (consumed s s')). now split.
  - destruct s; [|discriminate]. intros H. exists "", caps. split; [exact H|apply suffix_refl].
Qed.

(** A match splits its input into the matched text and the rest. *)
Lemma match_here_splits (r : regex) (s : string) (m : match_result) :
  match_here r s = Some m -> s = matched m ++ rest m.
Proof.
  unfold match_here. intros H.
  destruct (rmatch_suffix r _ _ _ _ H) as (s' & caps' & Hk & [p ->]).
  injection Hk as <-. cbn [matched rest]. now rewrite consumed_append.
Qed.

Lemma search_splits (r : regex) (s : string) (m : match_result) :
  search r s = Some m -> suffix (matched m ++ rest m) s.
Proof.
  induction s as [|c s IH]; simpl.
  - destruct (match_here r "") eqn:E; [|discriminate].
    intros [= <-]. rewrite <- (match_here_splits _ _ _ E). apply suffix_refl.
  - destruct (match_here r (String c s)) eqn:E.
    + intros [= <-]. rewrite <- (match_here_splits _ _ _ E). apply suffix_refl.
    + intros H. apply suffix_cons. now apply IH.
Qed.

(** The fuel that [match_all] provides is never used up: more fuel gives
    the same matches. *)
Lemma match_all_fuel_enough (r : regex) (n : nat) :
  forall (s : string) (f1 f2 : nat),
    String.length s <= n -> String.length s < f1 -> String.length s < f2 ->
    match_all_fuel f1 r s = match_all_fuel f2 r s.
Proof.
  induction n as [|n IH]; intros s f1 f2 Hn H1 H2.
  - destruct f1 as [|f1]; [lia|]. destruct f2 as [|f2]; [lia|]. simpl.
    destruct (search r s) as [m|] eqn:E; [|reflexivity]. f_equal.
    apply search_splits, suffix_length in E. rewrite length_append in E.
    destruct (matched m) as [|c w]; destruct (rest m) as [|c' s'];
      simpl in E; try reflexivity; lia.
  - destruct f1 as [|f1]; [lia|]. destruct f2 as [|f2]; [lia|]. simpl.
    destruct (search r s) as [m|] eqn:E; [|reflexivity]. f_equal.
    apply search_splits, suffix_length in E. rewrite length_append in E.
    destruct (matched m) as [|c w]; destruct (rest m) as [|c' s'];
      simpl in E; try reflexivity; apply IH; simpl; lia.
Qed.

Lemma match_all_more_fuel (r : regex) (s : string) (fuel : nat) :
  String.length s < fuel ->
  match_all_fuel fuel r s = match_all_fuel (S (String.length s)) r s.
Proof. intros H. apply (match_all_fuel_enough r (String.length s)); lia. Qed.

End MatcherFacts.

(** ** Enum columns *)

Lemma toLowerCase_enum_nonempty (t : string) : Js.toLowerCase t = "enum" -> Js.truthy t = true.
Proof. destruct t; [discriminate|reflexivity]. Qed.

Lemma ColumnGenerator_enum_type_ignored (name : string) (ty : option string)
      (opts : ColumnOptions) (e : string) :
  enumValues opts = Some e -> e <> "" ->
  match ty with None => True | Some t => t = "" \/ Js.toLowerCase t = "enum" end ->
  ColumnGenerator (mkColumn name ty (Some opts)) = ColumnGenerator (mkColumn name None (Some opts)).
Proof.
  intros He Hne Hty. unfold ColumnGenerator. cbn [col_name col_type col_options].
  destruct ty as [t|]; [|reflexivity].
  destruct Hty as [->|Hl]; [reflexivity|].
  cbn [Js.truthy_opt]. rewrite (toLowerCase_enum_nonempty t Hl).
  rewrite He. cbn [Js.truthy_opt]. apply truthy_true in Hne. rewrite Hne.
  rewrite Hl. reflexivity.
Qed.

(** C2 (amended). When [options.enumValues] is set and [type] is absent,
    empty or "enum" in any letter case, the column is rendered as an enum
    column: the constructor is the enum's own name applied to the quoted
    column name, followed by the chained qualifiers; the enum is imported
    from the enums namespace and nothing is imported from the column
    constructors' module; the result does not depend on [type].  When
    [type] is any other non-empty string it takes precedence: the result
    is the one for the same definition without [enumValues]. *)
Theorem enum_column_rendering (name : string) (ty : option string) (opts : ColumnOptions)
        (e : string)
        (He : enumValues opts = Some e) (Hne : e <> "")
        (Hty : match ty with None => True | Some t => t = "" \/ Js.toLowerCase t = "enum" end) :
  let r := ColumnGenerator (mkColumn name ty (Some opts)) in
  column_error r = None
  /\ column r = name ++ ": " ++ e ++ "('" ++ name ++ "')" ++ enum_chain opts ++ ","
  /\ Js.map_get (column_imports r) "../enums/index.js" = Some [e]
  /\ Js.map_get (column_imports r) "drizzle-orm/pg-core" = None
  /\ r = ColumnGenerator (mkColumn name None (Some opts))
  /\ (forall t, t <> "" -> Js.toLowerCase t <> "enum" ->
                ColumnGenerator (mkColumn name (Some t) (Some opts))
                = ColumnGenerator (mkColumn name (Some t) (Some (without_enum opts)))).
Proof.
  cbv zeta. rewrite (ColumnGenerator_enum_type_ignored name ty opts e He Hne Hty).
  assert (Hshape :
            let r := ColumnGenerator (mkColumn name None (Some opts)) in
            column_error r = None
            /\ column r = name ++ ": " ++ e ++ "('" ++ name ++ "')" ++ enum_chain opts ++ ","
            /\ Js.map_get (column_imports r) "../enums/index.js" = Some [e]
            /\ Js.map_get (column_imports r) "drizzle-orm/pg-core" = None).
  { cbv zeta. unfold ColumnGenerator, enum_chain.
    cbn [col_name col_type col_options Js.truthy_opt].
    rewrite He. cbn [Js.truthy_opt]. apply truthy_true in Hne. rewrite Hne.
    change (property TypeMap (Js.toLowerCase "enum")) with (Some "pgEnum").
    cbv iota beta.
    change (String.eqb (Js.toLowerCase "enum") "enum") with true.
    change (String.eqb "pgEnum" "varchar") with false.
    cbn [andb negb]. cbv zeta. cbn [column column_error column_imports Js.join]. unfold quoted.
    destruct (references opts) as [r|]; destruct (default opts) as [d|];
      cbn [option_map]; try destruct (snd (render_default true d));
      destruct (Js.truthy_bool (primaryKey opts)); destruct (Js.truthy_bool (notNull opts));
      (split; [reflexivity|]);
      (split; [rewrite !append_assoc; reflexivity|]);
      split; reflexivity. }
  destruct Hshape as (H1 & H2 & H3 & H4).
  split; [exact H1|]. split; [exact H2|]. split; [exact H3|]. split; [exact H4|].
  split; [reflexivity|].
  intros t Ht Hl. unfold ColumnGenerator.
  cbn [col_name col_type col_options Js.truthy_opt without_enum
       notNull primaryKey default length enumValues references].
  apply truthy_true in Ht. rewrite Ht.
  destruct (property TypeMap (Js.toLowerCase t)); [|reflexivity].
  apply String.eqb_neq in Hl. rewrite Hl.
  cbn [andb negb]. rewrite !andb_false_r. reflexivity.
Qed.

(** C2 as stated fails: with [type] "string" and [enumValues] both set,
    the column is rendered by the type's constructor, imported from the
    column constructors' module; the enum is not used. *)
Lemma type_takes_precedence_counterexample :
  let d := mkColumn "status" (Some "string")
             (Some (mkOptions None None None None (Some "UserStatus") None)) in
  col_type d = Some "string"
  /\ enumValues (mkOptions None None None None (Some "UserStatus") None) = Some "UserStatus"
  /\ column (ColumnGenerator d) = "status: varchar('status'),"
  /\ column_imports (ColumnGenerator d) = [("drizzle-orm/pg-core", ["varchar"])].
Proof. cbv zeta. repeat split. Qed.

(** C2 (amended), at an enum column whose type is spelled "ENUM". *)
Lemma enum_column_rendering_witness :
  let opts := mkOptions (Some true) None (Some (DString "in_progress")) None
                (Some "TaskStatus") None in
  enumValues opts = Some "TaskStatus" /\ "TaskStatus" <> ""
  /\ (Js.toLowerCase "ENUM" = "enum")
  /\ column (ColumnGenerator (mkColumn "status" (Some "ENUM") (Some opts)))
     = "status: TaskStatus('status').notNull().default('InProgress'),"
  /\ column_imports (ColumnGenerator (mkColumn "status" (Some "ENUM") (Some opts)))
     = [("../enums/index.js", ["TaskStatus"])].
Proof.
  intros opts.
  assert (H1 : enumValues opts = Some "TaskStatus") by reflexivity.
  assert (H2 : "TaskStatus" <> "") by discriminate.
  assert (H3 : Js.toLowerCase "ENUM" = "enum") by reflexivity.
  destruct (enum_column_rendering "status" (Some "ENUM") opts "TaskStatus" H1 H2 (or_intror H3))
    as (_ & Hc & _ & _ & Hr & _).
  split; [exact H1|]. split; [exact H2|]. split; [exact H3|].
  split; [rewrite Hc; reflexivity|rewrite Hr; reflexivity].
Defined.

(** ** Helper generation fails fast *)

Lemma ColumnGenerator_error_truthy (d : ColumnDefinition) (e : string) :
  column_error (ColumnGenerator d) = Some e -> Js.truthy e = true.
Proof.
  unfold ColumnGenerator.
  destruct (if Js.truthy_opt (col_type d) then _ else _) as [inferredType|].
  - destruct (property TypeMap (Js.toLowerCase inferredType)) as [drizzleFunc|].
    + simpl. discriminate.
    + simpl. intros [= <-]. reflexivity.
  - simpl. intros [= <-]. reflexivity.
Qed.

Lemma trim_nonempty (s : string) : Js.trim s <> "" -> s <> "".
Proof. intros H ->. apply H. reflexivity. Qed.

Lemma column_loop_fail (clean : string -> string) (pre : list ColumnDefinition)
      (bad : ColumnDefinition) (post : list ColumnDefinition) (reason : string) (st : loop_state) :
  Forall (fun c => column_error (ColumnGenerator c) = None) pre ->
  column_error (ColumnGenerator bad) = Some reason ->
  exists st',
    column_loop clean (pre ++ bad :: post) st
    = (st', Some ("Error in column '" ++ col_name bad ++ "': " ++ reason))
    /\ encoded st' = (encoded st ++ pre ++ [bad])%list.
Proof.
  intros Hpre Hbad. revert st. induction Hpre as [|c pre Hc Hpre IH]; intros st.
  - simpl. rewrite Hbad. simpl. rewrite (ColumnGenerator_error_truthy _ _ Hbad).
    eexists. split; [reflexivity|]. reflexivity.
  - simpl. rewrite Hc. simpl.
    destruct (IH (mkLoop (ImportManager.merge (importManager st) (column_imports (ColumnGenerator c)))
                  (allTables st ++ column_tables (ColumnGenerator c))%list
                  (Js.push (columnCodes st) ("    " ++ clean (column (ColumnGenerator c))))
                  (Js.push (encoded st) c))) as (st' & E & He).
    exists st'. split; [exact E|]. rewrite He. simpl. unfold Js.push.
    now rewrite <- app_assoc.
Qed.

(** C9 (amended). For a helper definition whose name consists of ASCII
    characters and is not blank (not empty after trimming) and whose
    columns are accepted by the column codec up to a first rejected one,
    [HelperGenerator] hands to
    [ColumnGenerator] exactly the columns up to and including the rejected
    one, returns the error "Error in column '<name>': <reason>" and leaves
    [helperCode], [imports] and [tables] empty. *)
Theorem HelperGenerator_fails_fast
        (name : string) (pre : list ColumnDefinition) (bad : ColumnDefinition)
        (post : list ColumnDefinition) (reason : string)
        (Hascii : ascii_text name = true)
        (Hname : Js.trim name <> "")
        (Hpre : Forall (fun c => column_error (ColumnGenerator c) = None) pre)
        (Hbad : column_error (ColumnGenerator bad) = Some reason) :
  HelperGenerator_run (mkHelper name (pre ++ bad :: post))
  = (mkHelperResult "" [] [] (Some ("Error in column '" ++ col_name bad ++ "': " ++ reason)),
     (pre ++ [bad])%list)
  /\ HelperGenerator (mkHelper name (pre ++ bad :: post))
     = mkHelperResult "" [] [] (Some ("Error in column '" ++ col_name bad ++ "': " ++ reason)).
Proof.
  assert (E : HelperGenerator_run (mkHelper name (pre ++ bad :: post))
  = (mkHelperResult "" [] [] (Some ("Error in column '" ++ col_name bad ++ "': " ++ reason)),
     (pre ++ [bad])%list)).
  { unfold HelperGenerator_run. simpl helper_name. simpl helper_columns.
    pose proof (trim_nonempty _ Hname) as Hn.
    apply truthy_true in Hn. apply truthy_true in Hname. rewrite Hn, Hname. simpl.
    replace (Nat.eqb (List.length (pre ++ bad :: post)) 0) with false
      by (symmetry; apply Nat.eqb_neq; rewrite length_app; simpl; lia).
    destruct (column_loop_fail Js.strip_one_trailing_comma pre bad post reason
                (mkLoop ImportManager.new [] [] []) Hpre Hbad) as (st' & E & He).
    rewrite E, He. reflexivity. }
  split; [exact E|]. unfold HelperGenerator. now rewrite E.
Qed.

(** C9 as stated fails for a name made of spaces: the name is not empty,
    the only column is rejected by the codec, and the error is the one
    about the name. *)
Lemma HelperGenerator_blank_name_counterexample :
  let bad := mkColumn "id" None None in
  let definition := mkHelper "   " [bad] in
  helper_name definition <> ""
  /\ column_error (ColumnGenerator bad)
     = Some "Type is required for column 'id'. Provide either 'type' property or 'enumValues' in options."
  /\ helper_error (HelperGenerator definition) = Some "Helper name is required."
  /\ helper_error (HelperGenerator definition)
     <> Some "Error in column 'id': Type is required for column 'id'. Provide either 'type' property or 'enumValues' in options.".
Proof.
  cbv zeta. split; [discriminate|]. split; [reflexivity|]. split; [reflexivity|].
  vm_compute. discriminate.
Qed.

(** C9 (amended), at a helper whose second column has an unsupported type. *)
Lemma HelperGenerator_fails_fast_witness :
  let good := mkColumn "id" (Some "serial") None in
  let bad := mkColumn "data" (Some "unsupported") None in
  let last := mkColumn "createdAt" (Some "date") None in
  ascii_text "Broken" = true
  /\ Js.trim "Broken" <> ""
  /\ Forall (fun c => column_error (ColumnGenerator c) = None) [good]
  /\ column_error (ColumnGenerator bad)
     = Some "Unsupported type 'unsupported' for column 'data'."
  /\ HelperGenerator_run (mkHelper "Broken" [good; bad; last])
     = (mkHelperResult "" [] []
          (Some "Error in column 'data': Unsupported type 'unsupported' for column 'data'."),
        [good; bad]).
Proof.
  intros good bad last.
  assert (H0 : ascii_text "Broken" = true) by reflexivity.
  assert (H1 : Js.trim "Broken" <> "") by (vm_compute; discriminate).
  assert (H2 : Forall (fun c => column_error (ColumnGenerator c) = None) [good])
    by (constructor; [reflexivity|constructor]).
  assert (H3 : column_error (ColumnGenerator bad)
               = Some "Unsupported type 'unsupported' for column 'data'.") by reflexivity.
  split; [exact H0|]. split; [exact H1|]. split; [exact H2|]. split; [exact H3|].
  exact (proj1 (HelperGenerator_fails_fast "Broken" [good] bad [last] _ H0 H1 H2 H3)).
Defined.

(** ** Validation of entity names *)

(** C10. For a name that is not empty and consists of white space only,
    [HelperGenerator] and [TableGenerator] return their name-validation
    error and no code, whatever the rest of the definition is, while
    [EnumGenerator], which only tests that the name is not falsy, accepts
    the name: with at least one value it returns the enum code and no
    error. *)
Theorem name_validation_asymmetry (name : string)
        (Hne : name <> "")
        (Hws : forallb Js.is_space (list_ascii_of_string name) = true) :
  (forall columns,
      HelperGenerator (mkHelper name columns)
      = mkHelperResult "" [] [] (Some "Helper name is required."))
  /\ (forall db columns refs pk,
         TableGenerator (mkTable name db columns refs pk)
         = mkTableResult "" [] [] (Some "Table name is required."))
  /\ (forall values, values <> [] ->
         let r := EnumGenerator (mkEnum name values) in
         enum_error r = None
         /\ enumCode r <> ""
         /\ enumCode r
            = "export const " ++ name ++ " = pgEnum('" ++ SnakeCase name ++ "', ["
                ++ Js.join ", " (map (fun v => "'" ++ PascalCase v ++ "'") values)
                ++ "] as const);").
Proof.
  pose proof (trim_spaces name Hws) as Htrim.
  apply truthy_true in Hne.
  split; [|split].
  - intros columns. unfold HelperGenerator, HelperGenerator_run. simpl helper_name.
    rewrite Hne, Htrim. reflexivity.
  - intros db columns refs pk. unfold TableGenerator. simpl table_name.
    rewrite Hne, Htrim. reflexivity.
  - intros values Hv. cbv zeta. unfold EnumGenerator. simpl enum_name. simpl enum_values.
    rewrite Hne. destruct values as [|v values]; [congruence|]. simpl negb. simpl orb.
    cbv iota. split; [reflexivity|]. split; [discriminate|reflexivity].
Qed.

(** C10, at the name of three spaces used by the generators' tests. *)
Lemma name_validation_asymmetry_witness :
  "   " <> ""
  /\ forallb Js.is_space (list_ascii_of_string "   ") = true
  /\ helper_error (HelperGenerator (mkHelper "   " [mkColumn "id" (Some "serial") None]))
     = Some "Helper name is required."
  /\ table_error (TableGenerator (mkTable "   " None [mkColumn "id" (Some "serial") None] None None))
     = Some "Table name is required."
  /\ enum_error (EnumGenerator (mkEnum "   " ["active"])) = None.
Proof.
  assert (H1 : "   " <> "") by discriminate.
  assert (H2 : forallb Js.is_space (list_ascii_of_string "   ") = true) by reflexivity.
  destruct (name_validation_asymmetry "   " H1 H2) as (Hh & Ht & He).
  split; [exact H1|]. split; [exact H2|].
  split; [now rewrite Hh|]. split; [now rewrite Ht|].
  apply (He ["active"]). discriminate.
Defined.

(** ** Imports of generated tables *)

Lemma map_set_entries {V : Type} (m : list (string * V)) (k : string) (v : V)
      (k' : string) (v' : V) :
  In (k', v') (Js.map_set m k v) -> In (k', v') m \/ (k', v') = (k, v).
Proof.
  induction m as [|[k1 v1] m IH]; simpl.
  - intros [H|[]]. right. now symmetry.
  - destruct (String.eqb k1 k) eqn:E; simpl.
    + apply String.eqb_eq in E. subst k1. intros [H|H]; [right; now symmetry|auto].
    + intros [H|H]; [auto|]. destruct (IH H); auto.
Qed.

Section ImportFacts.

Variables (path bad : string).

Let lacks := lacks path bad.

Lemma lacks_nil : lacks [].
Proof. intros p names []. Qed.

Lemma addImportToMap_lacks (m : ImportMap) (q n : string) :
  lacks m -> (q = path -> n <> bad) -> lacks (addImportToMap m q n).
Proof.
  intros Hm Hn. unfold addImportToMap.
  destruct (Js.map_get m q) as [names0|] eqn:E.
  - rewrite E. destruct (Js.arr_includes names0 n); [exact Hm|].
    intros p names Hin Hp. apply map_set_entries in Hin as [Hin|Hin].
    + now apply (Hm p names).
    + injection Hin as -> ->. unfold Js.push. rewrite in_app_iff. simpl.
      intros [H|[H|[]]].
      * apply map_get_In in E. now apply (Hm q names0).
      * now apply Hn.
  - rewrite map_get_set_same. simpl.
    intros p names Hin Hp. apply map_set_entries in Hin as [Hin|Hin].
    + apply map_set_entries in Hin as [Hin|Hin].
      * now apply (Hm p names).
      * injection Hin as -> ->. simpl. tauto.
    + injection Hin as -> ->. simpl. intros [H|[]]. now apply Hn.
Qed.

Lemma addImports_lacks (names : list string) (m : ImportMap) (q : string) :
  lacks m -> (q = path -> ~ In bad names) -> lacks (ImportManager.addImports m q names).
Proof.
  unfold ImportManager.addImports. revert m.
  induction names as [|n names IH]; intros m Hm Hq; simpl; [exact Hm|].
  apply IH.
  - apply addImportToMap_lacks; [exact Hm|]. intros Hp E. apply (Hq Hp). simpl. auto.
  - intros Hp H. apply (Hq Hp). simpl. auto.
Qed.

Lemma merge_lacks (other m : ImportMap) :
  lacks m -> lacks other -> lacks (ImportManager.merge m other).
Proof.
  unfold ImportManager.merge. revert m.
  induction other as [|[q names] other IH]; intros m Hm Ho; simpl; [exact Hm|].
  apply IH.
  - apply addImports_lacks; [exact Hm|]. intros Hp. apply (Ho q names); simpl; auto.
  - intros p ns Hin. apply (Ho p ns). simpl. auto.
Qed.

End ImportFacts.

Lemma TypeMap_never_primaryKey (key drizzleFunc : string) :
  property TypeMap key = Some drizzleFunc -> drizzleFunc <> "primaryKey".
Proof.
  unfold property, TypeMap, Object_prototype. cbn [own_property].
  repeat (destruct (String.eqb _ key); [intros [= <-]; discriminate|]).
  discriminate.
Qed.

Lemma ColumnGenerator_lacks_primaryKey (d : ColumnDefinition) :
  lacks "drizzle-orm/pg-core" "primaryKey" (column_imports (ColumnGenerator d)).
Proof.
  unfold ColumnGenerator.
  destruct (if Js.truthy_opt (col_type d) then _ else _) as [inferredType|];
    [|apply lacks_nil].
  destruct (property TypeMap (Js.toLowerCase inferredType)) as [drizzleFunc|] eqn:E;
    [|apply lacks_nil].
  apply TypeMap_never_primaryKey in E.
  cbv zeta. cbn [column_imports].
  repeat match goal with
         | |- lacks _ _ (match ?o with Some _ => _ | None => _ end) => destruct o
         | |- lacks _ _ (if ?b then _ else _) => destruct b
         | |- lacks _ _ [] => apply lacks_nil
         | |- lacks _ _ (addImportToMap _ _ _) =>
             apply addImportToMap_lacks; [|first [intros _; exact E | discriminate]]
         end.
Qed.

Lemma column_loop_ok (clean : string -> string) (columns : list ColumnDefinition)
      (st st' : loop_state) :
  column_loop clean columns st = (st', None) ->
  columnCodes st'
  = List.app (columnCodes st)
             (map (fun c => "    " ++ clean (column (ColumnGenerator c))) columns)
  /\ (lacks "drizzle-orm/pg-core" "primaryKey" (importManager st) ->
      lacks "drizzle-orm/pg-core" "primaryKey" (importManager st')).
Proof.
  revert st. induction columns as [|c columns IH]; intros st; simpl.
  - intros [= <-]. now rewrite app_nil_r.
  - destruct (Js.truthy_opt (column_error (ColumnGenerator c))); [discriminate|].
    intros H. apply IH in H as [Hc Hi]. simpl in Hc, Hi. split.
    + rewrite Hc. unfold Js.push. now rewrite <- app_assoc.
    + intros Hst. apply Hi. apply merge_lacks; [exact Hst|].
      apply ColumnGenerator_lacks_primaryKey.
Qed.

Lemma column_loop_succeeds (clean : string -> string) (columns : list ColumnDefinition)
      (st : loop_state) :
  Forall (fun c => column_error (ColumnGenerator c) = None) columns ->
  exists st', column_loop clean columns st = (st', None).
Proof.
  intros H. revert st. induction H as [|c columns Hc _ IH]; intros st; simpl.
  - now exists st.
  - rewrite Hc. simpl. apply IH.
Qed.

(** C8 (amended). For a table definition whose [compositePrimaryKey] has
    exactly one element and which is valid otherwise (a name of ASCII
    characters that is not blank, at least one column or helper
    reference, every column accepted by the column codec),
    [TableGenerator] succeeds; the table code is the
    plain [pgTable] call on the column entries and helper spreads, with
    nothing after the closing brace of the structure, hence no
    [primaryKey] constraint block; no name imported from
    [drizzle-orm/pg-core] is [primaryKey]; and the result is the one for
    the same definition without the key. *)
Theorem single_composite_key_ignored (d : TableDefinition) (c : string)
        (Hkey : compositePrimaryKey d = Some [c])
        (Hascii : ascii_text (table_name d) = true)
        (Hname : Js.trim (table_name d) <> "")
        (Hsome : table_columns d <> [] \/ exists h hs, helperReferences d = Some (h :: hs))
        (Hcols : Forall (fun col => column_error (ColumnGenerator col) = None)
                        (table_columns d)) :
  let r := TableGenerator d in
  let entries :=
    List.app
      (map (fun col => "    " ++ Js.strip_trailing_commas (column (ColumnGenerator col)))
           (table_columns d))
      (map (fun h => "    ..." ++ h)
           (match helperReferences d with Some l => l | None => [] end)) in
  let tableName :=
    match dbName d with
    | Some (String a n) => String a n
    | _ => SnakeCase (table_name d)
    end in
  table_error r = None
  /\ tableCode r
     = "export const " ++ Js.toLowerCase (table_name d) ++ " = pgTable('" ++ tableName
         ++ "', {" ++ nl ++ Js.join ("," ++ nl) entries ++ nl ++ "});"
  /\ (forall names, Js.map_get (table_imports r) "drizzle-orm/pg-core" = Some names ->
                    ~ In "primaryKey" names)
  /\ r = TableGenerator (without_key d).
Proof.
  cbv zeta. unfold TableGenerator.
  cbn [table_name dbName table_columns helperReferences compositePrimaryKey without_key].
  rewrite Hkey.
  pose proof (trim_nonempty _ Hname) as Hn.
  apply truthy_true in Hn. apply truthy_true in Hname. rewrite Hn, Hname.
  cbn [negb orb].
  set (refs := match helperReferences d with Some l => l | None => [] end).
  assert (Hlen : Nat.eqb (List.length (table_columns d)) 0
                 && Nat.eqb (List.length refs) 0 = false).
  { destruct Hsome as [H|(h & hs & H)].
    - destruct (table_columns d); [congruence|reflexivity].
    - subst refs. rewrite H. simpl. apply andb_false_r. }
  rewrite Hlen.
  destruct (column_loop_succeeds Js.strip_trailing_commas (table_columns d)
              (mkLoop (ImportManager.addImport ImportManager.new "drizzle-orm/pg-core" "pgTable")
                      [] [] []) Hcols) as [st Hst].
  rewrite Hst.
  apply column_loop_ok in Hst as [Hcodes Himports]. simpl in Hcodes, Himports.
  change (Nat.ltb 1 (List.length [c])) with false. cbv iota.
  assert (Hentries : Nat.ltb 0 (List.length
            (List.app (columnCodes st) (map (fun helper => "    ..." ++ helper) refs))) = true).
  { rewrite Hcodes, length_app, !length_map. apply Nat.ltb_lt.
    apply andb_false_iff in Hlen as [H|H]; apply Nat.eqb_neq in H; lia. }
  assert (Hname_db : (if Js.truthy_opt (dbName d)
                      then match dbName d with Some d0 => d0 | None => "" end
                      else SnakeCase (table_name d))
                     = match dbName d with
                       | Some (String a n) => String a n
                       | _ => SnakeCase (table_name d)
                       end).
  { destruct (dbName d) as [[|a n]|]; reflexivity. }
  destruct refs as [|h hs] eqn:Hrefs.
  - cbn [List.length Nat.ltb Nat.leb map]. cbn [List.length Nat.ltb Nat.leb map] in Hentries.
    cbn [table_error tableCode table_imports].
    rewrite Hentries, Hname_db, Hcodes. rewrite !app_nil_r.
    split; [reflexivity|]. split.
    { rewrite !append_assoc. reflexivity. }
    split; [|reflexivity].
    intros names Hget. apply map_get_In in Hget.
    refine (Himports _ _ _ Hget eq_refl).
    apply addImportToMap_lacks; [apply lacks_nil|discriminate].
  - change (Nat.ltb 0 (List.length (h :: hs))) with true. cbv iota.
    cbn [table_error tableCode table_imports].
    rewrite Hentries, Hname_db, Hcodes.
    split; [reflexivity|]. split.
    { rewrite !append_assoc. reflexivity. }
    split; [|reflexivity].
    intros names Hget. apply map_get_In in Hget.
    refine (addImports_lacks _ _ _ _ _ _ _ _ _ Hget eq_refl).
    + apply Himports. apply addImportToMap_lacks; [apply lacks_nil|discriminate].
    + discriminate.
Qed.

(** C8 as stated fails on both counts.  A table with a name of three
    spaces, which is not empty, one accepted column and a key of one
    element does not succeed: [TableGenerator] returns the error about
    the name and no code.  And a table that does succeed imports a
    [primaryKey] when one of its helper references bears that name: it
    comes from the helpers namespace. *)
Lemma single_composite_key_counterexample :
  let blank := mkTable "   " None [mkColumn "id" (Some "serial") None] None (Some ["id"]) in
  let named := mkTable "Users" None [mkColumn "id" (Some "serial") None]
                 (Some ["primaryKey"]) (Some ["id"]) in
  (table_name blank <> ""
   /\ table_columns blank <> []
   /\ Forall (fun col => column_error (ColumnGenerator col) = None) (table_columns blank)
   /\ compositePrimaryKey blank = Some ["id"]
   /\ table_error (TableGenerator blank) = Some "Table name is required."
   /\ tableCode (TableGenerator blank) = "")
  /\ (compositePrimaryKey named = Some ["id"]
      /\ table_error (TableGenerator named) = None
      /\ Js.map_get (table_imports (TableGenerator named)) "../helpers/index.js"
         = Some ["primaryKey"]).
Proof.
  cbv zeta. split.
  - split; [discriminate|]. split; [discriminate|].
    split; [constructor; [reflexivity|constructor]|]. repeat split.
  - repeat split.
Qed.

(** C8 (amended), at the table of the generator's own test. *)
Lemma single_composite_key_ignored_witness :
  let d := mkTable "Users" None [mkColumn "id" (Some "serial") None] None (Some ["id"]) in
  compositePrimaryKey d = Some ["id"]
  /\ ascii_text (table_name d) = true
  /\ Js.trim (table_name d) <> ""
  /\ (table_columns d <> [] \/ exists h hs, helperReferences d = Some (h :: hs))
  /\ Forall (fun col => column_error (ColumnGenerator col) = None) (table_columns d)
  /\ table_error (TableGenerator d) = None
  /\ forall names, Js.map_get (table_imports (TableGenerator d)) "drizzle-orm/pg-core"
                   = Some names -> ~ In "primaryKey" names.
Proof.
  intros d.
  assert (H1 : compositePrimaryKey d = Some ["id"]) by reflexivity.
  assert (H0 : ascii_text (table_name d) = true) by reflexivity.
  assert (H2 : Js.trim (table_name d) <> "") by (vm_compute; discriminate).
  assert (H3 : table_columns d <> [] \/ exists h hs, helperReferences d = Some (h :: hs))
    by (left; discriminate).
  assert (H4 : Forall (fun col => column_error (ColumnGenerator col) = None) (table_columns d))
    by (constructor; [reflexivity|constructor]).
  destruct (single_composite_key_ignored d "id" H1 H0 H2 H3 H4) as (He & _ & Hi & _).
  exact (conj H1 (conj H0 (conj H2 (conj H3 (conj H4 (conj He Hi)))))).
Defined.

(** ** Reading a generated enum back *)

Section EnumRoundTrip.
Import Regex.

Lemma rmatch_lit_group {A : Type} (l : string) (p : ascii -> bool) (R : regex)
      (w s : string) (caps : list string) (k : string -> list string -> option A) (r : A) :
  w <> "" -> all_chars p w = true -> stops p s ->
  rmatch R s (Js.push caps w) k = Some r ->
  rmatch (RSeq (RLit l) (RSeq (RGroup (RPlus p)) R)) (l ++ w ++ s) caps k = Some r.
Proof.
  intros Hne Hw Hs Hk.
  change (rmatch (RSeq (RLit l) (RSeq (RGroup (RPlus p)) R)) (l ++ w ++ s) caps k)
    with (rmatch (RLit l) (l ++ w ++ s) caps
            (fun s1 caps1 =>
               rmatch (RGroup (RPlus p)) s1 caps1 (fun s2 caps2 => rmatch R s2 caps2 k))).
  rewrite rmatch_RLit. now apply rmatch_group_plus.
Qed.

Lemma rmatch_lit_end {A : Type} (l s : string) (caps : list string)
      (k : string -> list string -> option A) :
  rmatch (RSeq (RLit l) REps) (l ++ s) caps k = k s caps.
Proof.
  change (rmatch (RSeq (RLit l) REps) (l ++ s) caps k)
    with (rmatch (RLit l) (l ++ s) caps (fun s1 caps1 => k s1 caps1)).
  now rewrite rmatch_RLit.
Qed.

Lemma consumed_all (s : string) : consumed s "" = s.
Proof. rewrite <- (append_empty_r s) at 1. apply consumed_append. Qed.

Lemma search_here (r : regex) (s : string) (m : match_result) :
  match_here r s = Some m -> search r s = Some m.
Proof. intros H. destruct s; simpl; now rewrite H. Qed.

Lemma match_here_enum_value (P rest : string) :
  P <> "" -> all_chars (Js.not_char "'") P = true ->
  match_here SchemaReader.re_enum_value (quoted P ++ rest)
  = Some (mkMatch (quoted P) [P] rest).
Proof.
  intros Hne HP. unfold match_here, SchemaReader.re_enum_value, quoted. cbn [RCat].
  rewrite !append_assoc.
  apply rmatch_lit_group; [exact Hne|exact HP|reflexivity|].
  rewrite rmatch_lit_end. rewrite <- !append_assoc. now rewrite consumed_append.
Qed.

Lemma search_enum_value_skip (c : ascii) (s : string) :
  Ascii.eqb "'" c = false ->
  search SchemaReader.re_enum_value (String c s) = search SchemaReader.re_enum_value s.
Proof.
  intros Hc. cbn [search]. unfold match_here at 1, SchemaReader.re_enum_value at 1.
  cbn [RCat RLit rmatch]. now rewrite Hc.
Qed.

Lemma match_all_fuel_end (fuel : nat) (r : regex) :
  match_here r "" = None -> match_all_fuel fuel r "" = [].
Proof. intros H. destruct fuel; [reflexivity|]. simpl. now rewrite H. Qed.

Lemma match_all_fuel_values (Ps : list string) (fuel : nat) :
  List.length Ps < fuel ->
  Forall (fun P => P <> "" /\ all_chars (Js.not_char "'") P = true) Ps ->
  match_all_fuel fuel SchemaReader.re_enum_value (Js.join ", " (map quoted Ps))
  = map quoted Ps.
Proof.
  revert fuel. induction Ps as [|P Ps IH]; intros fuel Hfuel H.
  - destruct fuel; [lia|]. reflexivity.
  - inversion H as [|? ? [Hne HP] HPs]; subst.
    destruct fuel as [|fuel]; [lia|]. simpl in Hfuel.
    cbn [map]. rewrite join_head. cbn [match_all_fuel].
    rewrite (search_here _ _ _ (match_here_enum_value P _ Hne HP)).
    cbn [matched rest]. f_equal.
    change (quoted P) with (String "'" (P ++ "'")). cbv iota.
    destruct Ps as [|P2 Ps].
    + apply match_all_fuel_end. reflexivity.
    + destruct fuel as [|fuel]; [lia|].
      assert (Hskip : forall X, match_all_fuel (S fuel) SchemaReader.re_enum_value (", " ++ X)
                                = match_all_fuel (S fuel) SchemaReader.re_enum_value X).
      { intros X. cbn [match_all_fuel append].
        now rewrite !search_enum_value_skip by reflexivity. }
      cbn [map]. change (quoted P2 :: map quoted Ps) with (map quoted (P2 :: Ps)).
      rewrite Hskip. apply IH; [lia|exact HPs].
Qed.

Lemma join_quoted_length (Ps : list string) :
  List.length Ps <= String.length (Js.join ", " (map quoted Ps)).
Proof.
  induction Ps as [|P Ps IH]; [simpl; lia|].
  cbn [map]. rewrite join_head, length_append. unfold quoted at 1. simpl String.length.
  destruct Ps as [|P2 Ps]; [simpl; lia|].
  rewrite length_append. simpl in *. lia.
Qed.

Lemma match_all_values (Ps : list string) :
  Ps <> [] ->
  Forall (fun P => P <> "" /\ all_chars (Js.not_char "'") P = true) Ps ->
  match_all SchemaReader.re_enum_value (Js.join ", " (map quoted Ps))
  = Some (map quoted Ps).
Proof.
  intros Hne H. unfold match_all.
  rewrite match_all_fuel_values; [|pose proof (join_quoted_length Ps); lia|exact H].
  destruct Ps; [congruence|reflexivity].
Qed.

Lemma remove_quotes_clean (P s : string) :
  all_chars (Js.not_char "'") P = true ->
  Js.remove_quotes (P ++ s) = P ++ Js.remove_quotes s.
Proof.
  induction P as [|c P IH]; [reflexivity|].
  rewrite all_chars_cons. intros H. apply andb_true_iff in H as [Hc HP].
  unfold Js.not_char in Hc. apply negb_true_iff in Hc. rewrite Ascii.eqb_sym in Hc.
  simpl. now rewrite Hc, IH.
Qed.

Lemma remove_quotes_quoted (P : string) :
  all_chars (Js.not_char "'") P = true -> Js.remove_quotes (quoted P) = P.
Proof.
  intros H. unfold quoted. cbn [append Js.remove_quotes]. change (Ascii.eqb "'" "'") with true.
  cbv iota. rewrite remove_quotes_clean by exact H. simpl. apply append_empty_r.
Qed.

Lemma values_no_bracket (Ps : list string) :
  Forall (fun P => all_chars is_alnum P = true) Ps ->
  all_chars (Js.not_char "]") (Js.join ", " (map quoted Ps)) = true.
Proof.
  induction 1 as [|P Ps HP _ IH]; [reflexivity|].
  cbn [map]. rewrite join_head. unfold quoted at 1.
  rewrite !all_chars_append.
  assert (HPb : all_chars (Js.not_char "]") P = true).
  { revert HP. apply all_chars_weaken. intros c Hc. apply (alnum_plain c Hc). }
  rewrite HPb. destruct Ps as [|P2 Ps]; [reflexivity|].
  cbn [map] in *. rewrite all_chars_append, IH. reflexivity.
Qed.

Lemma identifier_facts (s : string) :
  identifier s = true -> s <> "" /\ all_chars Js.is_word s = true.
Proof.
  unfold identifier. intros H. apply andb_true_iff in H as [H1 H2].
  split; [now apply truthy_true|exact H2].
Qed.

(** The reader on the source the generator writes for an enum whose name
    is an identifier and whose values render as non-empty alphanumeric
    texts. *)
Lemma parseEnumContent_generated (name : string) (values : list string)
      (filename : string) (errors : list string) :
  identifier name = true -> values <> [] ->
  Forall (fun v => PascalCase v <> "" /\ all_chars is_alnum (PascalCase v) = true) values ->
  SchemaReader.parseEnumContent (enumCode (EnumGenerator (mkEnum name values))) filename errors
  = (Some (mkEnum name (map (fun v => replace_upper 0 (PascalCase v)) values)), errors).
Proof.
  intros Hid Hne Hvals. destruct (identifier_facts name Hid) as [Hname Hword].
  set (Ps := map PascalCase values).
  assert (HPs : Forall (fun P => P <> "" /\ all_chars (Js.not_char "'") P = true) Ps).
  { subst Ps. apply Forall_map. revert Hvals. apply Forall_impl. intros v [H1 H2].
    split; [exact H1|]. revert H2. apply all_chars_weaken.
    intros c Hc. apply (alnum_plain c Hc). }
  assert (HPa : Forall (fun P => all_chars is_alnum P = true) Ps).
  { subst Ps. apply Forall_map. revert Hvals. apply Forall_impl. intros v [_ H2]. exact H2. }
  assert (HPne : Ps <> []) by (subst Ps; destruct values; [congruence|discriminate]).
  set (vals := Js.join ", " (map quoted Ps)).
  assert (Hcode : enumCode (EnumGenerator (mkEnum name values))
                  = "export const " ++ name ++ " = pgEnum('" ++ SnakeCase name
                      ++ "', [" ++ vals ++ "] as const);" ++ "").
  { unfold EnumGenerator. cbn [enum_name enum_values].
    apply truthy_true in Hname. rewrite Hname.
    destruct values as [|v values]; [congruence|]. cbn [negb orb List.length Nat.eqb enumCode].
    subst vals Ps. rewrite map_map. reflexivity. }
  assert (Hvne : vals <> "").
  { subst vals. destruct Ps as [|P Ps']; [congruence|]. cbn [map]. rewrite join_head.
    discriminate. }
  assert (Hsearch : search SchemaReader.re_enum (enumCode (EnumGenerator (mkEnum name values)))
                    = Some (mkMatch (enumCode (EnumGenerator (mkEnum name values)))
                                    [name; SnakeCase name; vals] "")).
  { apply search_here. rewrite Hcode. unfold match_here, SchemaReader.re_enum.
    cbn [RCat].
    apply rmatch_lit_group; [exact Hname|exact Hword|reflexivity|].
    apply rmatch_lit_group;
      [unfold SnakeCase; rewrite (proj2 (truthy_true name) Hname);
       apply replace_upper_nonempty; exact Hname
      |unfold SnakeCase; rewrite (proj2 (truthy_true name) Hname);
       apply replace_upper_not_quote; exact Hword
      |reflexivity|].
    apply rmatch_lit_group; [exact Hvne|apply values_no_bracket; exact HPa|reflexivity|].
    rewrite rmatch_lit_end. rewrite consumed_all. reflexivity. }
  unfold SchemaReader.parseEnumContent. rewrite Hsearch.
  change (group _ 1) with name. change (group _ 3) with vals.
  subst vals. rewrite (match_all_values Ps HPne HPs).
  do 3 f_equal. subst Ps. rewrite !map_map. apply map_ext_in. intros v Hv.
  rewrite remove_quotes_quoted; [reflexivity|].
  rewrite Forall_forall in Hvals. destruct (Hvals v Hv) as [_ H2].
  revert H2. apply all_chars_weaken. intros c Hc. apply (alnum_plain c Hc).
Qed.

End EnumRoundTrip.

(** C7 (amended). For an enum definition whose name is an identifier and
    whose non-empty list of values holds snake-case tokens in any letter
    case (words of letters and digits, each starting with a letter,
    joined by single underscores), reading the generated enum source back
    gives the same name and the values in lower case -- their canonical
    snake case -- in the original order. *)
Theorem enum_round_trip_canonical (e : EnumDefinition) (filename : string)
        (Hname : identifier (enum_name e) = true)
        (Hvalues : enum_values e <> [])
        (Htokens : forallb snake_token (enum_values e) = true) :
  enum_round_trip e filename
  = Some (mkEnum (enum_name e) (map Js.toLowerCase (enum_values e))).
Proof.
  unfold enum_round_trip. destruct e as [name values]. cbn [enum_name enum_values] in *.
  apply forallb_all in Htokens.
  rewrite parseEnumContent_generated; [|exact Hname|exact Hvalues|].
  - cbn [fst]. do 2 f_equal. apply map_ext_in. intros v Hv.
    rewrite Forall_forall in Htokens. now apply snake_of_pascal_token, Htokens.
  - revert Htokens. apply Forall_impl. intros v Hv. now apply PascalCase_token_alnum.
Qed.

(** C7 as stated fails, whichever way the canonical snake case of a value
    is read: a word that starts with a digit loses its underscore, and a
    camel-case value comes back without one. The values read back are
    neither [SnakeCase] of the original values nor their lower case. *)
Lemma enum_round_trip_counterexample :
  let e := mkEnum "Step" ["user_1_name"; "inProgress"] in
  enum_name e <> "" /\ enum_values e <> []
  /\ enum_round_trip e "Step.ts" = Some (mkEnum "Step" ["user1_name"; "inprogress"])
  /\ map SnakeCase (enum_values e) = ["user_1_name"; "in_progress"]
  /\ map Js.toLowerCase (enum_values e) = ["user_1_name"; "inprogress"]
  /\ enum_round_trip e "Step.ts" <> Some (mkEnum "Step" (map SnakeCase (enum_values e)))
  /\ enum_round_trip e "Step.ts" <> Some (mkEnum "Step" (map Js.toLowerCase (enum_values e))).
Proof.
  cbv zeta. split; [discriminate|]. split; [discriminate|].
  split; [vm_compute; reflexivity|]. split; [reflexivity|]. split; [reflexivity|].
  split; vm_compute; discriminate.
Qed.

(** C7 (amended), at values written in three different letter cases. *)
Lemma enum_round_trip_canonical_witness :
  let e := mkEnum "TaskStatus" ["TO_DO"; "In_Progress"; "done"] in
  identifier (enum_name e) = true
  /\ enum_values e <> []
  /\ forallb snake_token (enum_values e) = true
  /\ enum_round_trip e "TaskStatus.ts"
     = Some (mkEnum "TaskStatus" ["to_do"; "in_progress"; "done"]).
Proof.
  intros e.
  assert (H1 : identifier (enum_name e) = true) by reflexivity.
  assert (H2 : enum_values e <> []) by discriminate.
  assert (H3 : forallb snake_token (enum_values e) = true) by reflexivity.
  split; [exact H1|]. split; [exact H2|]. split; [exact H3|].
  exact (enum_round_trip_canonical e "TaskStatus.ts" H1 H2 H3).
Defined.

(** ** Round trips through the reader *)

(** C1, at an enum column with a two-word default. The encoder renders
    the default [in_progress] as ['InProgress']; the decoder lower-cases
    it to [inprogress] (it does not go back to snake case, as the decoder
    of enum values does); encoding the decoded column gives
    ['Inprogress'], which is not the original fragment. *)
Theorem enum_default_round_trip_differs :
  let d := mkColumn "status" None
             (Some (mkOptions None None (Some (DString "in_progress")) None
                      (Some "TaskStatus") None)) in
  let decoded := mkColumn "status" None
                   (Some (mkOptions None None (Some (DString "inprogress")) None
                            (Some "TaskStatus") None)) in
  column_error (ColumnGenerator d) = None
  /\ column (ColumnGenerator d) = "status: TaskStatus('status').default('InProgress'),"
  /\ SchemaReader.parseColumnDefinition (column (ColumnGenerator d)) "tasks.ts" = Some decoded
  /\ column (ColumnGenerator decoded) = "status: TaskStatus('status').default('Inprogress'),"
  /\ column (ColumnGenerator decoded) <> column (ColumnGenerator d).
Proof.
  cbv zeta. split; [reflexivity|]. split; [reflexivity|]. split; [vm_compute; reflexivity|].
  split; [reflexivity|]. vm_compute. discriminate.
Qed.

(** The decoder of enum values does go back to snake case: the same two
    words survive the round trip as an enum value. *)
Lemma enum_value_round_trip_snake_case :
  let e := mkEnum "TaskStatus" ["to_do"; "in_progress"] in
  fst (SchemaReader.parseEnumContent (enumCode (EnumGenerator e)) "TaskStatus.ts" []) = Some e.
Proof. vm_compute. reflexivity. Qed.

(** A default of [sql.now()] does not survive the round trip either: the
    pattern for the argument of [default] stops at the first closing
    parenthesis, the template is cut before its closing backquote, and the
    decoder records no default at all. *)
Lemma sql_default_round_trip_differs :
  let d := mkColumn "createdAt" (Some "date")
             (Some (mkOptions (Some true) None (Some (DString "sql.now()")) None None None)) in
  let decoded := mkColumn "createdAt" (Some "date")
                   (Some (mkOptions (Some true) None None None None None)) in
  column (ColumnGenerator d) = "createdAt: timestamp('createdAt').notNull().default(sql`now()`),"
  /\ SchemaReader.parseColumnDefinition (column (ColumnGenerator d)) "BaseFields.ts"
     = Some decoded
  /\ column (ColumnGenerator decoded) = "createdAt: timestamp('createdAt').notNull(),".
Proof. cbv zeta. split; [reflexivity|]. split; vm_compute; reflexivity. Qed.

(** What [parseTableContent] records: the name is the file name with its
    first [.ts] removed, and [dbName] is kept exactly when the identifier
    in the source differs from the lower-cased name. *)
Lemma parseTableContent_name_and_dbName (content filename : string) (errors : list string)
      (t : TableDefinition) :
  fst (SchemaReader.parseTableContent content filename errors) = Some t ->
  table_name t = Js.remove_first ".ts" filename
  /\ exists m, Regex.search SchemaReader.re_table content = Some m
               /\ dbName t = if String.eqb (Regex.group m 2) (Js.toLowerCase (table_name t))
                             then None else Some (Regex.group m 2).
Proof.
  unfold SchemaReader.parseTableContent.
  destruct (Regex.search SchemaReader.re_table content) as [m|]; [|discriminate].
  destruct (SchemaReader.parseTableBody _ _) as [columns helperRefs].
  simpl. intros [= <-]. simpl. split; [reflexivity|].
  exists m. split; [reflexivity|].
  now destruct (String.eqb _ _).
Qed.

(** C3, at the file [userRoles.ts] that the table generator writes for a
    table named [userRoles]. The identifier in the source, [user_roles],
    is the lower-cased snake case of the name, and the reader still
    records it as [dbName], because it compares with the lower-cased name
    [userroles]. In the other direction a [dbName] given as [userroles]
    is dropped by the reader, so that generating again would name the
    table [user_roles]. *)
Theorem dbName_recorded_for_snake_case_default :
  let t := mkTable "userRoles" None [mkColumn "id" (Some "serial") None] None None in
  let content := tableCode (TableGenerator t) in
  let renamed := mkTable "userRoles" (Some "userroles")
                   [mkColumn "id" (Some "serial") None] None None in
  content = "export const userroles = pgTable('user_roles', {" ++ nl
              ++ "    id: serial('id')" ++ nl ++ "});"
  /\ Js.toLowerCase (SnakeCase "userRoles") = "user_roles"
  /\ fst (SchemaReader.parseTableContent content "userRoles.ts" [])
     = Some (mkTable "userRoles" (Some "user_roles")
               [mkColumn "id" (Some "serial") None] None None)
  /\ fst (SchemaReader.parseTableContent (tableCode (TableGenerator renamed)) "userRoles.ts" [])
     = Some t.
Proof. cbv zeta. repeat split; vm_compute; reflexivity. Qed.

(** ** Added table columns *)

Section TableColumns.
Import SchemaChangeDetector.

Lemma compareColumnDefinitions_types (a b : ColumnDefinition) (ty nm : string) (c : SchemaChange) :
  In c (compareColumnDefinitions a b ty nm) ->
  In (change_type c)
     ["column_type_changed"; "column_primary_key_changed";
      "column_not_null_changed"; "column_default_changed"].
Proof.
  unfold compareColumnDefinitions. rewrite !in_app_iff.
  intros [H|[H|[H|H]]];
    match type of H with In _ (if ?g then _ else _) => destruct g end;
    simpl in H; try contradiction; destruct H as [<-|[]]; simpl; tauto.
Qed.

Lemma column_added_change_facts (tableName name : string) (col : ColumnDefinition) :
  let c := column_added_change tableName name col in
  change_type c = "table_column_added"
  /\ category c = SchemaChangeCategory.ADDITION
  /\ target c = mkTarget "table" tableName (Some name)
  /\ (if column_notNull col
      then impact c = SchemaChangeImpact.WARNING
           /\ Js.includes (description c) "NOT NULL" = true
      else impact c = SchemaChangeImpact.SAFE).
Proof.
  cbv zeta. unfold column_added_change.
  cbn [change_type category target impact description].
  repeat split. destruct (column_notNull col); [split; [reflexivity|]|reflexivity].
  do 5 apply includes_append_r. reflexivity.
Qed.

End TableColumns.

(** C6. When the new table has a column name that the old table lacks,
    [compareTableColumns] reports it by one [table_column_added] change,
    the only such change aimed at that name; its category is [addition];
    its impact is [warning] and its description contains "NOT NULL" when
    the added column has [options.notNull] set, and its impact is [safe]
    otherwise.  The added column is the entry that the [Map] built from
    the new table's columns holds under that name. *)
Theorem table_column_added_classification
        (currentTable newTable : TableDefinition) (name : string)
        (Hnew : In name (map col_name (table_columns newTable)))
        (Hold : ~ In name (map col_name (table_columns currentTable))) :
  exists (col : ColumnDefinition) (c : SchemaChange),
    In col (table_columns newTable) /\ col_name col = name
    /\ Js.map_get
         (SchemaChangeDetector.column_map (table_columns newTable)) name = Some col
    /\ In c (SchemaChangeDetector.compareTableColumns currentTable newTable)
    /\ change_type c = "table_column_added"
    /\ target c = mkTarget "table" (table_name newTable) (Some name)
    /\ category c = "addition"
    /\ (match col_options col with
        | Some {| notNull := Some true |} =>
            impact c = "warning" /\ Js.includes (description c) "NOT NULL" = true
        | _ => impact c = "safe"
        end)
    /\ (forall c', In c' (SchemaChangeDetector.compareTableColumns currentTable newTable) ->
                   change_type c' = "table_column_added" ->
                   target_column (target c') = Some name -> c' = c).
Proof.
  set (newColumns := SchemaChangeDetector.column_map (table_columns newTable)).
  set (currentColumns := SchemaChangeDetector.column_map (table_columns currentTable)).
  assert (Hhas : Js.map_has newColumns name = true)
    by now apply column_map_has.
  assert (Habs : Js.map_has currentColumns name = false).
  { apply map_has_false. intros H. apply Hold. apply column_map_has.
    now apply map_has_In. }
  unfold Js.map_has in Hhas.
  destruct (Js.map_get newColumns name) as [col|] eqn:Hget; [|discriminate].
  pose proof (map_get_In _ _ _ Hget) as Hin.
  destruct (column_map_entry _ _ _ Hin) as [Hcol Hname].
  exists col, (SchemaChangeDetector.column_added_change (table_name newTable) name col).
  destruct (column_added_change_facts (table_name newTable) name col) as (Ht & Hc & Htg & Hi).
  split; [exact Hcol|]. split; [exact Hname|]. split; [reflexivity|].
  split.
  { unfold SchemaChangeDetector.compareTableColumns. apply in_or_app. left.
    apply in_flat_map. exists (name, col). split; [exact Hin|].
    simpl. fold currentColumns. rewrite Habs. simpl. auto. }
  split; [exact Ht|]. split; [exact Htg|]. split; [exact Hc|].
  split.
  { unfold SchemaChangeDetector.column_notNull in Hi.
    destruct (col_options col) as [[[[|]|] ? ? ? ? ?]|]; simpl in Hi; exact Hi. }
  intros c' Hc' Hty Htc.
  unfold SchemaChangeDetector.compareTableColumns in Hc'.
  fold newColumns currentColumns in Hc'.
  apply in_app_or in Hc' as [Hc'|Hc'].
  - apply in_flat_map in Hc' as [[k v] [Hkv Hc']]. simpl in Hc'.
    destruct (negb (Js.map_has currentColumns k)); [|destruct Hc'].
    destruct Hc' as [<-|[]]. simpl in Htc. injection Htc as ->.
    pose proof (In_map_get _ _ _ (column_map_NoDup (table_columns newTable)) Hkv) as Hv.
    fold newColumns in Hv. rewrite Hget in Hv. now injection Hv as ->.
  - apply in_app_or in Hc' as [Hc'|Hc'].
    + apply in_flat_map in Hc' as [[k v] [_ Hc']]. simpl in Hc'.
      destruct (negb (Js.map_has newColumns k)); [|destruct Hc'].
      destruct Hc' as [<-|[]]. discriminate.
    + apply in_flat_map in Hc' as [[k v] [_ Hc']]. simpl in Hc'.
      destruct (Js.map_get currentColumns k); [|destruct Hc'].
      apply compareColumnDefinitions_types in Hc'. rewrite Hty in Hc'.
      simpl in Hc'. repeat (destruct Hc' as [Hc'|Hc']; [discriminate|]). destruct Hc'.
Qed.

(** C6, for a table gaining a NOT NULL column. *)
Lemma table_column_added_classification_witness :
  let currentTable := mkTable "users" None [mkColumn "id" (Some "serial") None] None None in
  let newTable :=
    mkTable "users" None
      [mkColumn "id" (Some "serial") None;
       mkColumn "email" (Some "string")
         (Some (mkOptions (Some true) None None None None None))] None None in
  In "email" (map col_name (table_columns newTable))
  /\ ~ In "email" (map col_name (table_columns currentTable))
  /\ exists c, In c (SchemaChangeDetector.compareTableColumns currentTable newTable)
               /\ change_type c = "table_column_added" /\ category c = "addition".
Proof.
  intros currentTable newTable.
  assert (Hnew : In "email" (map col_name (table_columns newTable))) by (simpl; auto).
  assert (Hold : ~ In "email" (map col_name (table_columns currentTable))).
  { simpl. intros [H|[]]. discriminate. }
  split; [exact Hnew|]. split; [exact Hold|].
  destruct (table_column_added_classification currentTable newTable "email" Hnew Hold)
    as (col & c & _ & _ & _ & Hin & Hty & _ & Hcat & _).
  exists c. exact (conj Hin (conj Hty Hcat)).
Defined.

(** ** Comparing a schema with itself *)

Section SelfComparison.
Import SchemaChangeDetector.

Lemma flat_map_nil {A B : Type} (f : A -> list B) (l : list A) :
  (forall x, In x l -> f x = []) -> flat_map f l = [].
Proof.
  induction l as [|x l IH]; intros H; simpl; [reflexivity|].
  rewrite (H x) by (simpl; auto). apply IH. intros y Hy. apply H. simpl. auto.
Qed.

Lemma find_by_name_NoDup {E : Type} (name_of : E -> string) (l : list E) (e : E) :
  NoDup (map name_of l) -> In e l -> find_by_name name_of l (name_of e) = Some e.
Proof.
  unfold find_by_name. induction l as [|x l IH]; simpl; [tauto|].
  intros Hnd [->|Hin].
  - now rewrite String.eqb_refl.
  - inversion Hnd as [|? ? Hnot Hnd']; subst.
    destruct (String.eqb (name_of x) (name_of e)) eqn:Heq.
    + apply String.eqb_eq in Heq. exfalso. apply Hnot. rewrite Heq. now apply in_map.
    + now apply IH.
Qed.

Lemma set_of_includes (l : list string) (x : string) :
  In x l -> Js.arr_includes (Js.set_of l) x = true.
Proof. intros H. apply arr_includes_In. now apply set_of_In. Qed.

Lemma compareEnumValues_same (e : EnumDefinition) : compareEnumValues e e = [].
Proof.
  unfold compareEnumValues.
  rewrite !flat_map_nil; [reflexivity| |];
    intros v Hv; now rewrite (set_of_includes _ _ Hv).
Qed.

Lemma compareEnums_same (l : list EnumDefinition) :
  NoDup (map enum_name l) -> compareEnums l l = [].
Proof.
  intros Hnd. unfold compareEnums.
  rewrite !flat_map_nil; [reflexivity| | |].
  - intros e He. rewrite (find_by_name_NoDup enum_name l e Hnd He).
    apply compareEnumValues_same.
  - intros e He. rewrite set_of_includes; [reflexivity|now apply in_map].
  - intros e He. rewrite set_of_includes; [reflexivity|now apply in_map].
Qed.

Lemma opt_string_eqb_refl (o : option string) : opt_string_eqb o o = true.
Proof. destruct o; simpl; [apply String.eqb_refl|reflexivity]. Qed.

Lemma opt_bool_eqb_refl (o : option bool) : opt_bool_eqb o o = true.
Proof. destruct o as [[|]|]; reflexivity. Qed.

Lemma compareColumnDefinitions_same (c : ColumnDefinition) (ty nm : string) :
  compareColumnDefinitions c c ty nm = [].
Proof.
  unfold compareColumnDefinitions.
  now rewrite !opt_string_eqb_refl, !opt_bool_eqb_refl.
Qed.

Lemma column_map_self (cols : list ColumnDefinition) (k : string) (v : ColumnDefinition) :
  In (k, v) (column_map cols) ->
  Js.map_has (column_map cols) k = true /\ Js.map_get (column_map cols) k = Some v.
Proof.
  intros H. pose proof (In_map_get _ _ _ (column_map_NoDup cols) H) as Hget.
  split; [|exact Hget]. unfold Js.map_has. now rewrite Hget.
Qed.

Lemma compareHelperColumns_same (h : HelperDefinition) : compareHelperColumns h h = [].
Proof.
  unfold compareHelperColumns.
  rewrite !flat_map_nil; [reflexivity| | |]; intros [k v] Hin;
    destruct (column_map_self _ _ _ Hin) as [Hhas Hget]; simpl.
  - rewrite Hget. apply compareColumnDefinitions_same.
  - now rewrite Hhas.
  - now rewrite Hhas.
Qed.

Lemma compareHelpers_same (l : list HelperDefinition) :
  NoDup (map helper_name l) -> compareHelpers l l = [].
Proof.
  intros Hnd. unfold compareHelpers.
  rewrite !flat_map_nil; [reflexivity| | |].
  - intros e He. rewrite (find_by_name_NoDup helper_name l e Hnd He).
    apply compareHelperColumns_same.
  - intros e He. rewrite set_of_includes; [reflexivity|now apply in_map].
  - intros e He. rewrite set_of_includes; [reflexivity|now apply in_map].
Qed.

Lemma compareTableColumns_same (t : TableDefinition) : compareTableColumns t t = [].
Proof.
  unfold compareTableColumns.
  rewrite !flat_map_nil; [reflexivity| | |]; intros [k v] Hin;
    destruct (column_map_self _ _ _ Hin) as [Hhas Hget]; simpl.
  - rewrite Hget. apply compareColumnDefinitions_same.
  - now rewrite Hhas.
  - now rewrite Hhas.
Qed.

Lemma compareHelperReferences_same (t : TableDefinition) : compareHelperReferences t t = [].
Proof.
  unfold compareHelperReferences.
  rewrite !flat_map_nil; [reflexivity| |];
    intros r Hr; apply arr_includes_In in Hr; now rewrite Hr.
Qed.

Lemma compareCompositePrimaryKeys_same (t : TableDefinition) :
  compareCompositePrimaryKeys t t = [].
Proof.
  unfold compareCompositePrimaryKeys. rewrite Nat.eqb_refl. simpl.
  replace (existsb _ _) with false; [reflexivity|].
  symmetry. apply not_true_is_false. intros H.
  apply existsb_exists in H as [x [Hx Hn]].
  apply arr_includes_In in Hx. now rewrite Hx in Hn.
Qed.

Lemma compareTables_same (l : list TableDefinition) :
  NoDup (map table_name l) -> compareTables l l = [].
Proof.
  intros Hnd. unfold compareTables.
  rewrite !flat_map_nil; [reflexivity| | |].
  - intros e He. rewrite (find_by_name_NoDup table_name l e Hnd He).
    unfold compareTableStructure.
    now rewrite compareTableColumns_same, compareHelperReferences_same,
      compareCompositePrimaryKeys_same.
  - intros e He. rewrite set_of_includes; [reflexivity|now apply in_map].
  - intros e He. rewrite set_of_includes; [reflexivity|now apply in_map].
Qed.

End SelfComparison.

(** C5 (amended). For a schema whose enums, helpers and tables each have
    pairwise distinct names, [compareSchemas(s, s)] returns an empty list
    of changes and the single "no changes" recommendation (and no tier
    can be applied). *)
Theorem compareSchemas_identical (s : ProjectGeneratorConfig)
        (He : NoDup (map enum_name (match enums s with Some l => l | None => [] end)))
        (Hh : NoDup (map helper_name (match helpers s with Some l => l | None => [] end)))
        (Ht : NoDup (map table_name (match tables s with Some l => l | None => [] end))) :
  changes (SchemaChangeDetector.compareSchemas s s) = []
  /\ recommendations (SchemaChangeDetector.compareSchemas s s)
     = [SchemaChangeDetector.msg_no_changes]
  /\ totalChanges (summary (SchemaChangeDetector.compareSchemas s s)) = 0
  /\ canApply (SchemaChangeDetector.compareSchemas s s) = mkCanApply false false false.
Proof.
  unfold SchemaChangeDetector.compareSchemas, SchemaChangeDetector.or_nil.
  rewrite (compareEnums_same _ He), (compareHelpers_same _ Hh), (compareTables_same _ Ht).
  repeat split.
Qed.

(** C5 as stated fails for a schema that lists two enums under one name:
    the second is compared with the first, which [find] returns, so the
    schema differs from itself by two changes. *)
Lemma compareSchemas_duplicate_names_counterexample :
  let s := mkConfig "./schema" (Some [mkEnum "Status" ["active"]; mkEnum "Status" ["archived"]])
             None None None in
  List.length (changes (SchemaChangeDetector.compareSchemas s s)) = 2
  /\ changes (SchemaChangeDetector.compareSchemas s s) <> []
  /\ recommendations (SchemaChangeDetector.compareSchemas s s)
     <> [SchemaChangeDetector.msg_no_changes].
Proof. cbv zeta. split; [reflexivity|]. split; vm_compute; discriminate. Qed.

(** C5 (amended), at the schema of the reader's tests. *)
Lemma compareSchemas_identical_witness :
  let s := mkConfig "./schema"
             (Some [mkEnum "UserStatus" ["active"; "inactive"; "pending"]])
             (Some [mkHelper "BaseFields"
                      [mkColumn "id" (Some "serial")
                         (Some (mkOptions None (Some true) None None None None))]])
             (Some [mkTable "users" None
                      [mkColumn "name" (Some "string")
                         (Some (mkOptions (Some true) None None (Some 255%Z) None None))]
                      (Some ["BaseFields"]) None])
             (Some true) in
  NoDup (map enum_name (match enums s with Some l => l | None => [] end))
  /\ NoDup (map helper_name (match helpers s with Some l => l | None => [] end))
  /\ NoDup (map table_name (match tables s with Some l => l | None => [] end))
  /\ changes (SchemaChangeDetector.compareSchemas s s) = []
  /\ recommendations (SchemaChangeDetector.compareSchemas s s)
     = [SchemaChangeDetector.msg_no_changes].
Proof.
  intros s.
  assert (H1 : NoDup (map enum_name (match enums s with Some l => l | None => [] end)))
    by (repeat constructor; simpl; tauto).
  assert (H2 : NoDup (map helper_name (match helpers s with Some l => l | None => [] end)))
    by (repeat constructor; simpl; tauto).
  assert (H3 : NoDup (map table_name (match tables s with Some l => l | None => [] end)))
    by (repeat constructor; simpl; tauto).
  destruct (compareSchemas_identical s H1 H2 H3) as (Hc & Hr & _).
  exact (conj H1 (conj H2 (conj H3 (conj Hc Hr)))).
Defined.

(** ** The policy gate *)

Section PolicyGate.
Import SchemaChangeDetector.

Variables (allowBreaking_ allowWarning_ : bool).

Let decide (c : SchemaChange) : bool := shouldApplyChange c allowBreaking_ allowWarning_.

Let step (acc : list SchemaChange * list SchemaChange) (change : SchemaChange) :=
  if shouldApplyChange change allowBreaking_ allowWarning_
  then (Js.push (fst acc) change, snd acc)
  else (fst acc, Js.push (snd acc) change).

Lemma apply_loop_filter (chs a r : list SchemaChange) :
  fold_left step chs (a, r)
  = ((a ++ filter decide chs)%list, (r ++ filter (fun c => negb (decide c)) chs)%list).
Proof.
  revert a r. induction chs as [|c chs IH]; intros a r; simpl.
  - now rewrite !app_nil_r.
  - unfold step at 2. unfold decide. simpl.
    destruct (shouldApplyChange c allowBreaking_ allowWarning_); simpl;
      rewrite IH; unfold Js.push; now rewrite <- app_assoc.
Qed.

Lemma filter_partition_perm (chs : list SchemaChange) :
  Permutation (filter decide chs ++ filter (fun c => negb (decide c)) chs) chs.
Proof.
  induction chs as [|c chs IH]; simpl; [constructor|].
  destruct (decide c); simpl.
  - now constructor.
  - apply Permutation_sym. apply Permutation_cons_app. now apply Permutation_sym.
Qed.

End PolicyGate.

Lemma applySafeChanges_lists (projectPath : string) (comparison : SchemaComparison)
      (options : ApplyOptions) :
  let ab := SchemaChangeDetector.or_default (allowBreaking options) false in
  let aw := SchemaChangeDetector.or_default (allowWarning options) true in
  let r := fst (SchemaChangeDetector.applySafeChanges projectPath comparison options) in
  applied r = filter (fun c => SchemaChangeDetector.shouldApplyChange c ab aw)
                     (changes comparison)
  /\ rejected r = filter (fun c => negb (SchemaChangeDetector.shouldApplyChange c ab aw))
                         (changes comparison).
Proof.
  cbv zeta. unfold SchemaChangeDetector.applySafeChanges.
  rewrite apply_loop_filter. simpl. split; reflexivity.
Qed.

(** C4. [applySafeChanges] splits [comparison.changes] into [applied] and
    [rejected]: every change lands in exactly one of the two lists, in
    its original order, and the side is decided by its impact alone --
    safe: applied; warning: applied iff [allowWarning] (default true);
    breaking: applied iff [allowBreaking] (default false); any other
    impact: rejected.  For a comparison holding one safe change [s] and
    one breaking change [b], the default options apply exactly [s] and
    reject [b]; with [allowBreaking: true] both are applied. *)
Theorem applySafeChanges_policy
        (projectPath : string) (comparison : SchemaComparison) (options : ApplyOptions)
        (s b : SchemaChange) (sm : Summary) (recs : list string) (ca : CanApply)
        (Hs : impact s = SchemaChangeImpact.SAFE)
        (Hb : impact b = SchemaChangeImpact.BREAKING) :
  let ab := match allowBreaking options with Some v => v | None => false end in
  let aw := match allowWarning options with Some v => v | None => true end in
  let r := fst (SchemaChangeDetector.applySafeChanges projectPath comparison options) in
  let decision (c : SchemaChange) : bool :=
    if String.eqb (impact c) "safe" then true
    else if String.eqb (impact c) "warning" then aw
    else if String.eqb (impact c) "breaking" then ab
    else false in
  Permutation (applied r ++ rejected r) (changes comparison)
  /\ applied r = filter decision (changes comparison)
  /\ rejected r = filter (fun c => negb (decision c)) (changes comparison)
  /\ (forall c, In c (applied r) -> In c (rejected r) -> False)
  /\ (forall c, impact c <> "safe" -> impact c <> "warning" -> impact c <> "breaking" ->
                decision c = false)
  /\ (let two := mkComparison [s; b] sm recs ca in
      let r0 := fst (SchemaChangeDetector.applySafeChanges projectPath two
                       (mkApplyOptions None None None)) in
      let r1 := fst (SchemaChangeDetector.applySafeChanges projectPath two
                       (mkApplyOptions (Some true) None None)) in
      applied r0 = [s] /\ rejected r0 = [b] /\ applied r1 = [s; b] /\ rejected r1 = []).
Proof.
  cbv zeta.
  destruct (applySafeChanges_lists projectPath comparison options) as [Ha Hr].
  cbv zeta in Ha, Hr. rewrite Ha, Hr.
  assert (Htwo : forall o,
             let r := fst (SchemaChangeDetector.applySafeChanges projectPath
                             (mkComparison [s; b] sm recs ca) o) in
             applied r = filter (fun c => SchemaChangeDetector.shouldApplyChange c
                                   (SchemaChangeDetector.or_default (allowBreaking o) false)
                                   (SchemaChangeDetector.or_default (allowWarning o) true))
                                [s; b]
             /\ rejected r = filter (fun c => negb (SchemaChangeDetector.shouldApplyChange c
                                   (SchemaChangeDetector.or_default (allowBreaking o) false)
                                   (SchemaChangeDetector.or_default (allowWarning o) true)))
                                [s; b]).
  { intros o. exact (applySafeChanges_lists projectPath (mkComparison [s; b] sm recs ca) o). }
  split; [apply filter_partition_perm|].
  split; [reflexivity|].
  split; [reflexivity|].
  split.
  { intros c H1 H2. apply filter_In in H1 as [_ H1]. apply filter_In in H2 as [_ H2].
    rewrite H1 in H2. discriminate. }
  split.
  { intros c H1 H2 H3.
    apply String.eqb_neq in H1, H2, H3. now rewrite H1, H2, H3. }
  destruct (Htwo (mkApplyOptions None None None)) as [Ha0 Hr0].
  destruct (Htwo (mkApplyOptions (Some true) None None)) as [Ha1 Hr1].
  cbv zeta in Ha0, Hr0, Ha1, Hr1. rewrite Ha0, Hr0, Ha1, Hr1.
  simpl. unfold SchemaChangeDetector.shouldApplyChange. rewrite Hs, Hb.
  simpl. repeat split; reflexivity.
Qed.

(** C4, at a concrete comparison. *)
Lemma applySafeChanges_policy_witness :
  let s := mkChange "table_added" "addition" "safe" "Added table 'posts' with 1 columns"
             (mkTarget "table" "posts" None) None in
  let b := mkChange "table_removed" "removal" "breaking" "Removed table 'legacy'"
             (mkTarget "table" "legacy" None) None in
  let two := mkComparison [s; b] (SchemaChangeDetector.generateSummary [s; b])
               (SchemaChangeDetector.generateRecommendations [s; b])
               (mkCanApply true false true) in
  impact s = SchemaChangeImpact.SAFE /\ impact b = SchemaChangeImpact.BREAKING
  /\ applied (fst (SchemaChangeDetector.applySafeChanges "./schema" two
                     (mkApplyOptions None None None))) = [s]
  /\ rejected (fst (SchemaChangeDetector.applySafeChanges "./schema" two
                      (mkApplyOptions None None None))) = [b]
  /\ applied (fst (SchemaChangeDetector.applySafeChanges "./schema" two
                     (mkApplyOptions (Some true) None None))) = [s; b].
Proof.
  intros s b two.
  split; [reflexivity|]. split; [reflexivity|].
  pose proof (applySafeChanges_policy "./schema" two (mkApplyOptions None None None) s b
                (SchemaChangeDetector.generateSummary [s; b])
                (SchemaChangeDetector.generateRecommendations [s; b])
                (mkCanApply true false true) eq_refl eq_refl) as H.
  cbv zeta in H.
  destruct H as (_ & _ & _ & _ & _ & H0 & H1 & H2 & _).
  exact (conj H0 (conj H1 H2)).
Defined.


(** ** Classification of the detected changes *)

Section Classification.
Import SchemaChangeDetector.

Lemma forallb_flat_map {X Y : Type} (p : Y -> bool) (f : X -> list Y) (l : list X) :
  (forall x, forallb p (f x) = true) -> forallb p (flat_map f l) = true.
Proof.
  intros H. induction l as [|x l IH]; simpl; [reflexivity|].
  now rewrite forallb_app, H, IH.
Qed.

Lemma compareEnumValues_classified (a b : EnumDefinition) :
  forallb classified (compareEnumValues a b) = true.
Proof.
  unfold compareEnumValues. rewrite forallb_app.
  rewrite !forallb_flat_map; [reflexivity| |]; intros v;
    match goal with |- context [if ?c then _ else _] => destruct c end; reflexivity.
Qed.

Lemma compareEnums_classified (a b : list EnumDefinition) :
  forallb classified (compareEnums a b) = true.
Proof.
  unfold compareEnums. rewrite !forallb_app.
  rewrite !forallb_flat_map; [reflexivity| | |]; intros v.
  - destruct (find_by_name _ _ _); [apply compareEnumValues_classified|reflexivity].
  - match goal with |- context [if ?c then _ else _] => destruct c end; reflexivity.
  - match goal with |- context [if ?c then _ else _] => destruct c end; reflexivity.
Qed.

Lemma compareColumnDefinitions_classified (a b : ColumnDefinition) (ty nm : string) :
  forallb classified (compareColumnDefinitions a b ty nm) = true.
Proof.
  unfold compareColumnDefinitions. rewrite !forallb_app.
  repeat match goal with
         | |- context [if negb ?c then _ else _] => destruct c; cbn [negb]
         end;
    repeat match goal with
           | |- context [Js.truthy_bool ?x] => destruct (Js.truthy_bool x)
           end;
    reflexivity.
Qed.

Lemma compareHelperColumns_classified (a b : HelperDefinition) :
  forallb classified (compareHelperColumns a b) = true.
Proof.
  unfold compareHelperColumns. rewrite !forallb_app.
  rewrite !forallb_flat_map; [reflexivity| | |]; intros v.
  - destruct (Js.map_get _ _); [apply compareColumnDefinitions_classified|reflexivity].
  - match goal with |- context [if ?c then _ else _] => destruct c end; reflexivity.
  - match goal with |- context [if ?c then _ else _] => destruct c end; reflexivity.
Qed.

Lemma compareHelpers_classified (a b : list HelperDefinition) :
  forallb classified (compareHelpers a b) = true.
Proof.
  unfold compareHelpers. rewrite !forallb_app.
  rewrite !forallb_flat_map; [reflexivity| | |]; intros v.
  - destruct (find_by_name _ _ _); [apply compareHelperColumns_classified|reflexivity].
  - match goal with |- context [if ?c then _ else _] => destruct c end; reflexivity.
  - match goal with |- context [if ?c then _ else _] => destruct c end; reflexivity.
Qed.

Lemma compareTableColumns_classified (a b : TableDefinition) :
  forallb classified (compareTableColumns a b) = true.
Proof.
  unfold compareTableColumns. rewrite !forallb_app.
  rewrite !forallb_flat_map; [reflexivity| | |]; intros v.
  - destruct (Js.map_get _ _); [apply compareColumnDefinitions_classified|reflexivity].
  - match goal with |- context [if ?c then _ else _] => destruct c end; reflexivity.
  - match goal with |- context [if ?c then _ else _] => destruct c end; [|reflexivity].
    unfold column_added_change. destruct (column_notNull _); reflexivity.
Qed.

Lemma compareHelperReferences_classified (a b : TableDefinition) :
  forallb classified (compareHelperReferences a b) = true.
Proof.
  unfold compareHelperReferences. rewrite forallb_app.
  rewrite !forallb_flat_map; [reflexivity| |]; intros v;
    match goal with |- context [if ?c then _ else _] => destruct c end; reflexivity.
Qed.

Lemma compareCompositePrimaryKeys_classified (a b : TableDefinition) :
  forallb classified (compareCompositePrimaryKeys a b) = true.
Proof.
  unfold compareCompositePrimaryKeys.
  match goal with |- context [if ?c then _ else _] => destruct c end; reflexivity.
Qed.

Lemma compareTables_classified (a b : list TableDefinition) :
  forallb classified (compareTables a b) = true.
Proof.
  unfold compareTables. rewrite !forallb_app.
  rewrite !forallb_flat_map; [reflexivity| | |]; intros v.
  - destruct (find_by_name _ _ _); [|reflexivity].
    unfold compareTableStructure. rewrite !forallb_app.
    now rewrite compareTableColumns_classified, compareHelperReferences_classified,
      compareCompositePrimaryKeys_classified.
  - match goal with |- context [if ?c then _ else _] => destruct c end; reflexivity.
  - match goal with |- context [if ?c then _ else _] => destruct c end; reflexivity.
Qed.

Lemma compareSchemas_classified (a b : ProjectGeneratorConfig) :
  forallb classified (changes (compareSchemas a b)) = true.
Proof.
  unfold compareSchemas. cbn [changes]. rewrite !forallb_app.
  now rewrite compareEnums_classified, compareHelpers_classified, compareTables_classified.
Qed.

(** What a classified change can be. *)
Lemma classified_cases (c : SchemaChange) :
  classified c = true ->
  In (change_type c, (category c, impact c))
     (flat_map (fun e => map (fun i => (fst e, (fst (snd e), i))) (snd (snd e)))
               classification).
Proof.
  unfold classified.
  destruct c as [ty cat imp d t dt]. cbn [change_type category impact].
  destruct (Js.map_get classification ty) as [[cat0 imps]|] eqn:E; [|discriminate].
  intros H. apply andb_prop in H as [Hc Hi]. apply String.eqb_eq in Hc. subst cat0.
  apply map_get_In in E. apply arr_includes_In in Hi.
  unfold classification in E. cbn [In] in E.
  repeat (destruct E as [E|E];
          [inversion E; subst; cbn [In] in Hi;
           repeat (destruct Hi as [<-|Hi]; [cbn; tauto|]); contradiction|]).
  contradiction.
Qed.

Lemma classified_impact (c : SchemaChange) :
  classified c = true ->
  impact c = SchemaChangeImpact.SAFE \/ impact c = SchemaChangeImpact.WARNING
  \/ impact c = SchemaChangeImpact.BREAKING.
Proof.
  intros H. apply classified_cases in H. cbn in H.
  repeat (destruct H as [H|H]; [inversion H; auto|]). contradiction.
Qed.

Lemma classified_category (c : SchemaChange) :
  classified c = true ->
  category c = SchemaChangeCategory.ADDITION \/ category c = SchemaChangeCategory.MODIFICATION
  \/ category c = SchemaChangeCategory.REMOVAL.
Proof.
  intros H. apply classified_cases in H. cbn in H.
  repeat (destruct H as [H|H]; [inversion H; auto|]). contradiction.
Qed.

End Classification.

(** X1. Every change reported by [compareSchemas] has one of the nineteen
    change types, the category fixed for that type, and an impact allowed
    for it: additions are safe (an added table column can be a warning),
    removals are breaking for enums, enum values, tables and table columns
    and warnings for helpers, helper columns and helper references,
    modifications are breaking for a column type, a primary key or a
    composite key, safe for a default, safe or warning for NOT NULL.  In
    particular no addition is breaking and no removal is safe. *)
Theorem compareSchemas_classification (currentSchema newSchema : ProjectGeneratorConfig) :
  let chs := changes (SchemaChangeDetector.compareSchemas currentSchema newSchema) in
  forallb classified chs = true
  /\ forallb (fun c => negb (String.eqb (category c) "addition"
                             && String.eqb (impact c) "breaking")) chs = true
  /\ forallb (fun c => negb (String.eqb (category c) "removal"
                             && String.eqb (impact c) "safe")) chs = true.
Proof.
  cbv zeta.
  pose proof (compareSchemas_classified currentSchema newSchema) as H.
  split; [exact H|].
  rewrite forallb_forall in H.
  split; apply forallb_forall; intros c Hc; specialize (H c Hc);
    apply classified_cases in H; cbn in H;
    repeat (destruct H as [H|H];
            [injection H as H1 H2 H3; rewrite <- H2, <- H3; reflexivity|]);
    contradiction.
Qed.

(** ** The summary of a comparison *)

Section SummaryFacts.
Import SchemaChangeDetector.

Lemma total_map_set (m : list (string * nat)) (k : string) (n : nat) :
  total (Js.map_set m k n)
  = total m + n - match Js.map_get m k with Some v => v | None => 0 end.
Proof.
  unfold total. induction m as [|[k' v'] m IH]; simpl; [lia|].
  destruct (String.eqb k' k); simpl; [lia|].
  rewrite IH.
  assert (match Js.map_get m k with Some v => v | None => 0 end <= list_sum (map snd m)).
  { clear. induction m as [|[k1 v1] m IH]; simpl; [lia|].
    destruct (String.eqb k1 k); lia. }
  lia.
Qed.

Lemma total_count_type (m : list (string * nat)) (ty : string) :
  total (count_type m ty) = S (total m).
Proof.
  unfold count_type. rewrite total_map_set.
  assert (match Js.map_get m ty with Some v => v | None => 0 end <= total m).
  { unfold total. clear. induction m as [|[k1 v1] m IH]; simpl; [lia|].
    destruct (String.eqb k1 ty); lia. }
  lia.
Qed.

Lemma total_byType (chs : list SchemaChange) (m : list (string * nat)) :
  total (fold_left (fun m c => count_type m (change_type c)) chs m)
  = total m + List.length chs.
Proof.
  revert m. induction chs as [|c chs IH]; intros m; simpl; [lia|].
  rewrite IH, total_count_type. lia.
Qed.

Lemma get_count_type (m : list (string * nat)) (ty k : string) :
  Js.map_get (count_type m ty) k
  = if String.eqb ty k
    then Some (match Js.map_get m k with Some n => n | None => 0 end + 1)
    else Js.map_get m k.
Proof.
  unfold count_type. destruct (String.eqb_spec ty k) as [->|Hne].
  - apply map_get_set_same.
  - apply map_get_set_other. congruence.
Qed.

Lemma get_byType (chs : list SchemaChange) (m : list (string * nat)) (k : string) :
  Js.map_get (fold_left (fun m c => count_type m (change_type c)) chs m) k
  = match Js.map_get m k, changes_of_type k chs with
    | None, 0 => None
    | None, n => Some n
    | Some v, n => Some (v + n)
    end.
Proof.
  unfold changes_of_type.
  revert m. induction chs as [|c chs IH]; intros m; simpl.
  - destruct (Js.map_get m k); [f_equal; lia|reflexivity].
  - rewrite IH, get_count_type.
    destruct (String.eqb (change_type c) k); simpl.
    + destruct (Js.map_get m k); f_equal; lia.
    + reflexivity.
Qed.

Lemma count_partition (f : SchemaChange -> string) (a b c : string) (chs : list SchemaChange) :
  a <> b -> a <> c -> b <> c ->
  (forall x, In x chs -> f x = a \/ f x = b \/ f x = c) ->
  count_where (fun x => String.eqb (f x) a) chs
  + (count_where (fun x => String.eqb (f x) b) chs
     + (count_where (fun x => String.eqb (f x) c) chs + 0))
  = List.length chs.
Proof.
  intros Hab Hac Hbc. unfold count_where.
  induction chs as [|x chs IH]; intros H; [reflexivity|].
  specialize (IH (fun y Hy => H y (or_intror Hy))).
  cbn [filter].
  destruct (H x (or_introl eq_refl)) as [E|[E|E]]; rewrite E;
    rewrite ?String.eqb_refl;
    repeat match goal with
           | |- context [String.eqb ?u ?v] =>
               destruct (String.eqb_spec u v); [congruence|]
           end;
    cbn [List.length]; lia.
Qed.

End SummaryFacts.

(** X2. The summary of a comparison counts every change once in each of
    its three tables: [totalChanges] is the number of changes, the
    counters by category add up to it, so do the counters by impact and
    the counters by type; and [byType] has an entry for a type exactly
    when a change of that type was found, holding their number. *)
Theorem generateSummary_counts (currentSchema newSchema : ProjectGeneratorConfig) :
  let comparison := SchemaChangeDetector.compareSchemas currentSchema newSchema in
  let s := summary comparison in
  totalChanges s = List.length (changes comparison)
  /\ total (byCategory s) = totalChanges s
  /\ total (byImpact s) = totalChanges s
  /\ total (byType s) = totalChanges s
  /\ forall ty, Js.map_get (byType s) ty
                = match changes_of_type ty (changes comparison) with
                  | 0 => None
                  | n => Some n
                  end.
Proof.
  cbv zeta.
  pose proof (compareSchemas_classified currentSchema newSchema) as H.
  rewrite forallb_forall in H.
  unfold SchemaChangeDetector.compareSchemas in *. cbn [changes summary] in *.
  set (chs := (_ ++ _ ++ _)%list) in *.
  unfold SchemaChangeDetector.generateSummary.
  cbn [totalChanges byCategory byImpact byType].
  split; [reflexivity|].
  split.
  { unfold total. cbn [map SchemaChangeCategory.values snd list_sum fold_right].
    apply (count_partition category); try discriminate.
    intros x Hx. now apply classified_category, H. }
  split.
  { unfold total. cbn [map SchemaChangeImpact.values snd list_sum fold_right].
    apply (count_partition impact); try discriminate.
    intros x Hx. now apply classified_impact, H. }
  split.
  { now rewrite total_byType. }
  intros ty. now rewrite get_byType.
Qed.

(** ** The recommendations of a comparison *)

Section RecommendationFacts.
Import SchemaChangeDetector.

Lemma length_pos_exists {X : Type} (p : X -> bool) (l : list X) :
  Nat.ltb 0 (List.length (filter p l)) = true <-> exists x, In x l /\ p x = true.
Proof.
  rewrite Nat.ltb_lt. split.
  - intros H. destruct (filter p l) as [|x r] eqn:E; [simpl in H; lia|].
    exists x. apply filter_In. rewrite E. now left.
  - intros (x & Hx & Hp).
    assert (Hin : In x (filter p l)) by (apply filter_In; auto).
    destruct (filter p l); [contradiction|simpl; lia].
Qed.

Lemma length_pos_filter {X : Type} (p : X -> bool) (l : list X) :
  Nat.ltb 0 (List.length (filter p l)) = true -> Nat.ltb 0 (List.length l) = true.
Proof.
  intros H. apply length_pos_exists in H as (x & Hx & _).
  destruct l; [contradiction|reflexivity].
Qed.

(** A classified change of a given type has the impact of the table. *)
Lemma classified_type_impact (c : SchemaChange) (ty imp : string) :
  classified c = true -> change_type c = ty ->
  (forall e, In e classification -> fst e = ty -> snd (snd e) = [imp]) ->
  impact c = imp.
Proof.
  unfold classified. intros H Ht Htab.
  destruct (Js.map_get classification (change_type c)) as [[cat imps]|] eqn:E;
    [|discriminate].
  apply map_get_In in E. rewrite Ht in E.
  specialize (Htab _ E eq_refl). cbn [snd] in Htab. subst imps.
  apply andb_prop in H as [_ H]. cbn in H. rewrite orb_false_r in H.
  now apply String.eqb_eq in H.
Qed.

End RecommendationFacts.

(** X3. The recommendations of a comparison are never empty: they are
    the single no-changes line exactly when no change was found, and
    otherwise do not contain it.  The advice to back up data is given
    exactly when a table was removed, and the advice to plan a data
    migration exactly when a table column was removed -- the removal of
    a helper column, a warning, does not give it. *)
Theorem generateRecommendations_report (currentSchema newSchema : ProjectGeneratorConfig) :
  let comparison := SchemaChangeDetector.compareSchemas currentSchema newSchema in
  let chs := changes comparison in
  let recs := recommendations comparison in
  recs <> []
  /\ (chs = [] <-> recs = [SchemaChangeDetector.msg_no_changes])
  /\ (In SchemaChangeDetector.msg_no_changes recs <-> chs = [])
  /\ (In SchemaChangeDetector.msg_backup recs
      <-> exists c, In c chs /\ change_type c = "table_removed")
  /\ (In SchemaChangeDetector.msg_migration recs
      <-> exists c, In c chs /\ change_type c = "table_column_removed").
Proof.
  cbv zeta.
  pose proof (compareSchemas_classified currentSchema newSchema) as H.
  rewrite forallb_forall in H.
  unfold SchemaChangeDetector.compareSchemas in *. cbn [changes recommendations] in *.
  set (chs := (_ ++ _ ++ _)%list) in *. clearbody chs.
  unfold SchemaChangeDetector.generateRecommendations.
  set (B := filter (fun c => String.eqb (impact c) SchemaChangeImpact.BREAKING) chs).
  set (W := filter (fun c => String.eqb (impact c) SchemaChangeImpact.WARNING) chs).
  set (S_ := filter (fun c => String.eqb (impact c) SchemaChangeImpact.SAFE) chs).
  set (TR := filter (fun c => String.eqb (change_type c) "table_removed") B).
  set (CR := filter (fun c => Js.includes (change_type c) "column_removed") B).
  set (NN := filter (fun c => Js.includes (description c) "NOT NULL") W).
  assert (HTRB : Nat.ltb 0 (List.length TR) = true -> Nat.ltb 0 (List.length B) = true)
    by apply length_pos_filter.
  assert (HCRB : Nat.ltb 0 (List.length CR) = true -> Nat.ltb 0 (List.length B) = true)
    by apply length_pos_filter.
  assert (HTR : (exists c, In c chs /\ change_type c = "table_removed")
                <-> Nat.ltb 0 (List.length TR) = true).
  { unfold TR. rewrite length_pos_exists. split.
    - intros (c & Hc & Ht). exists c. split; [|now rewrite Ht].
      apply filter_In. split; [exact Hc|]. apply String.eqb_eq.
      apply (classified_type_impact c "table_removed"); auto.
      intros e He Hf. unfold classification in He. cbn [In] in He.
      repeat (destruct He as [He|He]; [subst e; first [discriminate Hf|reflexivity]|]).
      contradiction.
    - intros (c & Hc & Ht). apply filter_In in Hc as [Hc _].
      exists c. split; [exact Hc|]. now apply String.eqb_eq. }
  assert (HCR : (exists c, In c chs /\ change_type c = "table_column_removed")
                <-> Nat.ltb 0 (List.length CR) = true).
  { unfold CR. rewrite length_pos_exists. split.
    - intros (c & Hc & Ht). exists c. split; [|now rewrite Ht].
      apply filter_In. split; [exact Hc|]. apply String.eqb_eq.
      apply (classified_type_impact c "table_column_removed"); auto.
      intros e He Hf. unfold classification in He. cbn [In] in He.
      repeat (destruct He as [He|He]; [subst e; first [discriminate Hf|reflexivity]|]).
      contradiction.
    - intros (c & Hc & Ht). apply filter_In in Hc as [Hc Hb].
      exists c. split; [exact Hc|].
      specialize (H c Hc). apply classified_cases in H. apply String.eqb_eq in Hb.
      cbn in H.
      repeat (destruct H as [H|H];
              [injection H as H1 H2 H3; rewrite <- H1 in *; rewrite <- H3 in Hb;
               first [discriminate Hb | discriminate Ht | reflexivity]|]).
      contradiction. }
  assert (Himp : chs <> [] ->
                 Nat.ltb 0 (List.length B) = true \/ Nat.ltb 0 (List.length W) = true
                 \/ Nat.ltb 0 (List.length S_) = true).
  { intros Hne. destruct chs as [|c chs']; [congruence|].
    unfold B, W, S_. rewrite !length_pos_exists.
    destruct (classified_impact c (H c (or_introl eq_refl))) as [E|[E|E]];
      [right; right|right; left|left]; exists c; (split; [now left|]); now rewrite E. }
  assert (Hnone : chs = [] ->
                 Nat.ltb 0 (List.length B) = false /\ Nat.ltb 0 (List.length W) = false
                 /\ Nat.ltb 0 (List.length S_) = false).
  { intros ->. repeat split. }
  rewrite HTR, HCR.
  assert (Hnil : Nat.eqb (List.length chs) 0 = true <-> chs = []).
  { destruct chs; simpl; split; congruence. }
  clearbody TR CR NN. clearbody B W S_. clear HTR HCR H.
  destruct (Nat.eqb (List.length chs) 0) eqn:E0.
  - destruct (Hnone (proj1 Hnil eq_refl)) as (EB & EW & ES). rewrite EB, EW, ES.
    cbn [app In].
    repeat split; try tauto; try discriminate.
    + intros [E|[]]. discriminate E.
    + intros E. rewrite (HTRB E) in EB. discriminate EB.
    + intros [E|[]]. discriminate E.
    + intros E. rewrite (HCRB E) in EB. discriminate EB.
  - assert (Hne : chs <> []) by (intros E; apply Hnil in E; congruence).
    specialize (Himp Hne). clear Hnone.
    destruct (Nat.ltb 0 (List.length B)); destruct (Nat.ltb 0 (List.length W));
      destruct (Nat.ltb 0 (List.length S_));
      try (exfalso; destruct Himp as [?|[?|?]]; discriminate);
      destruct (Nat.ltb 0 (List.length TR)); destruct (Nat.ltb 0 (List.length CR));
      destruct (Nat.ltb 0 (List.length NN));
      try (exfalso; specialize (HTRB eq_refl); discriminate);
      try (exfalso; specialize (HCRB eq_refl); discriminate);
      cbn [app In];
      (split; [discriminate|]);
      (split; [split; [intros E; congruence|intros E; discriminate E]|]);
      (split; [split; [intros Hin; exfalso;
                       repeat (destruct Hin as [Hin|Hin]; [discriminate Hin|]);
                       contradiction
                      |intros E; congruence]|]);
      (split; split; try reflexivity; try tauto;
        intros Hin; exfalso;
        repeat (destruct Hin as [Hin|Hin]; [discriminate Hin|]);
        contradiction).
Qed.

(** ** Accounting of the policy gate *)

(** X4. The metadata of [applySafeChanges] agree with its lists: the
    applied and the rejected counts are the lengths of the two lists and
    add up to the number of changes of the comparison.  Files are touched
    (here: one line on the console, naming the number of applied changes
    and the project path) only when the run is not a dry run and at least
    one change was applied. *)
Theorem applySafeChanges_accounting
        (projectPath : string) (comparison : SchemaComparison) (options : ApplyOptions) :
  let r := fst (SchemaChangeDetector.applySafeChanges projectPath comparison options) in
  let console := snd (SchemaChangeDetector.applySafeChanges projectPath comparison options) in
  let dry := match dryRun options with Some b => b | None => false end in
  meta_totalChanges (metadata r) = List.length (changes comparison)
  /\ appliedCount (metadata r) = List.length (applied r)
  /\ rejectedCount (metadata r) = List.length (rejected r)
  /\ appliedCount (metadata r) + rejectedCount (metadata r) = meta_totalChanges (metadata r)
  /\ meta_dryRun (metadata r) = dry
  /\ console
     = if dry || Nat.eqb (List.length (applied r)) 0 then []
       else ["Would apply " ++ SchemaChangeDetector.nat_to_string (appliedCount (metadata r))
               ++ " changes to " ++ projectPath].
Proof.
  cbv zeta.
  pose proof (filter_partition_perm
                (SchemaChangeDetector.or_default (allowBreaking options) false)
                (SchemaChangeDetector.or_default (allowWarning options) true)
                (changes comparison)) as Hperm.
  apply Permutation_length in Hperm. rewrite length_app in Hperm.
  unfold SchemaChangeDetector.applySafeChanges.
  rewrite apply_loop_filter. cbn [app fst snd applied rejected metadata meta_totalChanges
                                  appliedCount rejectedCount meta_dryRun].
  repeat split; try reflexivity.
  - exact Hperm.
  - unfold SchemaChangeDetector.or_default.
    destruct (dryRun options) as [[]|]; cbn [negb andb orb]; try reflexivity;
      destruct (filter _ (changes comparison)); reflexivity.
Qed.

(** X5. When warnings and breaking changes are both allowed, nothing
    that [compareSchemas] reports is rejected: every change it produces
    carries one of the three impacts the gate knows, so the applied list
    is the whole change list, in order. *)
Theorem applySafeChanges_applies_all_when_allowed
        (projectPath : string) (currentSchema newSchema : ProjectGeneratorConfig)
        (dry : option bool) :
  let comparison := SchemaChangeDetector.compareSchemas currentSchema newSchema in
  let r := fst (SchemaChangeDetector.applySafeChanges projectPath comparison
                  (mkApplyOptions (Some true) (Some true) dry)) in
  let r' := fst (SchemaChangeDetector.applySafeChanges projectPath comparison
                   (mkApplyOptions (Some true) None dry)) in
  applied r = changes comparison /\ rejected r = []
  /\ applied r' = changes comparison /\ rejected r' = [].
Proof.
  cbv zeta.
  pose proof (compareSchemas_classified currentSchema newSchema) as H.
  rewrite forallb_forall in H.
  assert (Hall : forall c, In c (changes (SchemaChangeDetector.compareSchemas
                                            currentSchema newSchema)) ->
                           SchemaChangeDetector.shouldApplyChange c true true = true).
  { intros c Hc. unfold SchemaChangeDetector.shouldApplyChange.
    destruct (classified_impact c (H c Hc)) as [E|[E|E]]; rewrite E; reflexivity. }
  assert (Hf : filter (fun c => SchemaChangeDetector.shouldApplyChange c true true)
                 (changes (SchemaChangeDetector.compareSchemas currentSchema newSchema))
               = changes (SchemaChangeDetector.compareSchemas currentSchema newSchema)).
  { revert Hall. generalize (changes (SchemaChangeDetector.compareSchemas
                                        currentSchema newSchema)).
    induction l as [|c l IH]; intros Hall; simpl; [reflexivity|].
    rewrite (Hall c (or_introl eq_refl)). f_equal. apply IH.
    intros x Hx. apply Hall. now right. }
  assert (Hg : filter (fun c => negb (SchemaChangeDetector.shouldApplyChange c true true))
                 (changes (SchemaChangeDetector.compareSchemas currentSchema newSchema))
               = []).
  { revert Hall. generalize (changes (SchemaChangeDetector.compareSchemas
                                        currentSchema newSchema)).
    induction l as [|c l IH]; intros Hall; simpl; [reflexivity|].
    rewrite (Hall c (or_introl eq_refl)). simpl. apply IH.
    intros x Hx. apply Hall. now right. }
  destruct (applySafeChanges_lists projectPath
              (SchemaChangeDetector.compareSchemas currentSchema newSchema)
              (mkApplyOptions (Some true) (Some true) dry)) as [Ha Hr].
  destruct (applySafeChanges_lists projectPath
              (SchemaChangeDetector.compareSchemas currentSchema newSchema)
              (mkApplyOptions (Some true) None dry)) as [Ha' Hr'].
  cbv zeta in Ha, Hr, Ha', Hr'. cbn [allowBreaking allowWarning SchemaChangeDetector.or_default] in *.
  rewrite Ha, Hr, Ha', Hr'. now rewrite Hf, Hg.
Qed.

(** ** Helper references and composite keys are compared as sets *)

Section SetComparison.
Import SchemaChangeDetector.

Lemma set_of_aux_NoDup (l seen : list string) :
  NoDup seen -> NoDup (Js.set_of_aux seen l).
Proof.
  revert seen. induction l as [|x l IH]; intros seen Hnd; simpl; [exact Hnd|].
  apply IH. destruct (Js.arr_includes seen x) eqn:E; [exact Hnd|].
  unfold Js.push. apply NoDup_app; [exact Hnd|repeat constructor; simpl; tauto|].
  intros y Hy [<-|[]]. apply arr_includes_In in Hy. congruence.
Qed.

Lemma set_of_NoDup (l : list string) : NoDup (Js.set_of l).
Proof. apply set_of_aux_NoDup. constructor. Qed.

Lemma arr_includes_false (l : list string) (x : string) :
  Js.arr_includes l x = false <-> ~ In x l.
Proof.
  rewrite <- arr_includes_In. destruct (Js.arr_includes l x); split; congruence.
Qed.

(** The sets of two arrays are equal as sets exactly when the test of
    [compareCompositePrimaryKeys] finds no difference. *)
Lemma set_difference_test (a b : list string) :
  negb (Nat.eqb (List.length (Js.set_of a)) (List.length (Js.set_of b)))
  || existsb (fun col => negb (Js.arr_includes (Js.set_of b) col)) (Js.set_of a) = false
  <-> same_elements a b.
Proof.
  rewrite orb_false_iff, negb_false_iff, Nat.eqb_eq.
  pose proof (set_of_NoDup a) as Ha. pose proof (set_of_NoDup b) as Hb.
  split.
  - intros [Hlen Hex].
    assert (Hincl : incl (Js.set_of a) (Js.set_of b)).
    { intros x Hx. destruct (Js.arr_includes (Js.set_of b) x) eqn:E.
      - now apply arr_includes_In.
      - exfalso. assert (existsb (fun col => negb (Js.arr_includes (Js.set_of b) col))
                                 (Js.set_of a) = true).
        { apply existsb_exists. exists x. split; [exact Hx|]. now rewrite E. }
        congruence. }
    assert (Hincl' : incl (Js.set_of b) (Js.set_of a)).
    { apply NoDup_length_incl; [exact Ha|lia|exact Hincl]. }
    intros x. rewrite <- (set_of_In a), <- (set_of_In b). split; auto.
  - intros Hsame.
    assert (Hincl : incl (Js.set_of a) (Js.set_of b)).
    { intros x Hx. apply set_of_In. apply (proj1 (Hsame x)). now apply set_of_In. }
    assert (Hincl' : incl (Js.set_of b) (Js.set_of a)).
    { intros x Hx. apply set_of_In. apply (proj2 (Hsame x)). now apply set_of_In. }
    split.
    + apply Nat.le_antisymm; apply NoDup_incl_length; assumption.
    + destruct (existsb _ (Js.set_of a)) eqn:E; [|reflexivity].
      apply existsb_exists in E as (x & Hx & Hn).
      apply negb_true_iff, arr_includes_false in Hn. exfalso. apply Hn. now apply Hincl.
Qed.

Lemma flat_map_nil_iff {X Y : Type} (f : X -> list Y) (l : list X) :
  flat_map f l = [] <-> forall x, In x l -> f x = [].
Proof.
  induction l as [|x l IH]; simpl; [tauto|]. split.
  - intros H. apply app_eq_nil in H as [H1 H2]. intros y [<-|Hy]; [exact H1|].
    now apply IH.
  - intros H. rewrite (H x (or_introl eq_refl)). apply IH. intros y Hy. apply H. now right.
Qed.

End SetComparison.

(** X6. The composite primary keys of two versions of a table are
    compared as sets: no change is reported exactly when the two key
    arrays have the same elements, whatever their order and repetitions
    (an absent key counts as the empty array); otherwise exactly one
    breaking modification is reported, whose details give the two keys
    without repetitions. *)
Theorem compareCompositePrimaryKeys_as_sets (currentTable newTable : TableDefinition) :
  let cur := match compositePrimaryKey currentTable with Some l => l | None => [] end in
  let new := match compositePrimaryKey newTable with Some l => l | None => [] end in
  let chs := SchemaChangeDetector.compareCompositePrimaryKeys currentTable newTable in
  (chs = [] <-> same_elements cur new)
  /\ (chs <> [] ->
      exists c, chs = [c]
        /\ change_type c = "table_composite_primary_key_changed"
        /\ category c = "modification" /\ impact c = "breaking"
        /\ target c = mkTarget "table" (table_name newTable) None
        /\ details c = Some (DetailKeyChange (Js.set_of cur) (Js.set_of new))).
Proof.
  cbv zeta. unfold SchemaChangeDetector.compareCompositePrimaryKeys.
  change (match compositePrimaryKey currentTable with Some l => l | None => [] end)
    with (SchemaChangeDetector.or_empty (compositePrimaryKey currentTable)).
  change (match compositePrimaryKey newTable with Some l => l | None => [] end)
    with (SchemaChangeDetector.or_empty (compositePrimaryKey newTable)).
  rewrite <- set_difference_test.
  destruct (negb _ || existsb _ _).
  - split; [split; discriminate|]. intros _. eexists. split; [reflexivity|].
    repeat split; reflexivity.
  - split; [tauto|congruence].
Qed.

(** X7. The helper references of two versions of a table are compared
    as sets: no change is reported exactly when the two arrays have the
    same elements, whatever their order and repetitions; a reference is
    reported as added exactly when it occurs in the new array and not in
    the current one, and as removed in the converse case. *)
Theorem compareHelperReferences_as_sets (currentTable newTable : TableDefinition) :
  let cur := match helperReferences currentTable with Some l => l | None => [] end in
  let new := match helperReferences newTable with Some l => l | None => [] end in
  let chs := SchemaChangeDetector.compareHelperReferences currentTable newTable in
  (chs = [] <-> same_elements cur new)
  /\ (forall ref,
        (exists c, In c chs /\ change_type c = "table_helper_reference_added"
                   /\ details c = Some (DetailHelperReference ref))
        <-> In ref new /\ ~ In ref cur)
  /\ (forall ref,
        (exists c, In c chs /\ change_type c = "table_helper_reference_removed"
                   /\ details c = Some (DetailHelperReference ref))
        <-> In ref cur /\ ~ In ref new).
Proof.
  cbv zeta. unfold SchemaChangeDetector.compareHelperReferences.
  change (match helperReferences currentTable with Some l => l | None => [] end)
    with (SchemaChangeDetector.or_empty (helperReferences currentTable)).
  change (match helperReferences newTable with Some l => l | None => [] end)
    with (SchemaChangeDetector.or_empty (helperReferences newTable)).
  set (cur := SchemaChangeDetector.or_empty (helperReferences currentTable)).
  set (new := SchemaChangeDetector.or_empty (helperReferences newTable)).
  split; [|split].
  - split.
    + intros H. apply app_eq_nil in H as [H1 H2].
      rewrite flat_map_nil_iff in H1, H2.
      intros x. split; intros Hx.
      * apply set_of_In in Hx. specialize (H2 x Hx).
        destruct (Js.arr_includes (Js.set_of new) x) eqn:E; [|discriminate H2].
        apply arr_includes_In in E. exact (proj1 (set_of_In _ _) E).
      * apply set_of_In in Hx. specialize (H1 x Hx).
        destruct (Js.arr_includes (Js.set_of cur) x) eqn:E; [|discriminate H1].
        apply arr_includes_In in E. exact (proj1 (set_of_In _ _) E).
    + intros Hsame.
      rewrite !flat_map_nil; [reflexivity| |]; intros x Hx; apply (proj1 (set_of_In _ _)) in Hx.
      * rewrite set_of_includes; [reflexivity|].
        first [now apply (proj2 (Hsame x)) | now apply (proj1 (Hsame x))].
      * rewrite set_of_includes; [reflexivity|].
        first [now apply (proj2 (Hsame x)) | now apply (proj1 (Hsame x))].
  - intros ref. split.
    + intros (c & Hc & Ht & Hd). apply in_app_or in Hc as [Hc|Hc];
        apply in_flat_map in Hc as (x & Hx & Hc);
        match type of Hc with context [Js.arr_includes ?l x] =>
          destruct (Js.arr_includes l x) eqn:E end;
        cbn [negb In] in Hc; try contradiction;
        destruct Hc as [<-|[]]; cbn in Ht, Hd; try discriminate Ht.
      injection Hd as <-. apply (proj1 (set_of_In _ _)) in Hx. split; [exact Hx|].
      apply arr_includes_false in E. now rewrite set_of_In in E.
    + intros [Hn Hc]. eexists. split.
      { apply in_or_app. left. apply in_flat_map. exists ref.
        split; [exact (proj2 (set_of_In _ _) Hn)|].
        rewrite (proj2 (arr_includes_false (Js.set_of cur) ref)); [now left|].
        now rewrite set_of_In. }
      split; reflexivity.
  - intros ref. split.
    + intros (c & Hc & Ht & Hd). apply in_app_or in Hc as [Hc|Hc];
        apply in_flat_map in Hc as (x & Hx & Hc);
        match type of Hc with context [Js.arr_includes ?l x] =>
          destruct (Js.arr_includes l x) eqn:E end;
        cbn [negb In] in Hc; try contradiction;
        destruct Hc as [<-|[]]; cbn in Ht, Hd; try discriminate Ht.
      injection Hd as <-. apply (proj1 (set_of_In _ _)) in Hx. split; [exact Hx|].
      apply arr_includes_false in E. now rewrite set_of_In in E.
    + intros [Hn Hc]. eexists. split.
      { apply in_or_app. right. apply in_flat_map. exists ref.
        split; [exact (proj2 (set_of_In _ _) Hn)|].
        rewrite (proj2 (arr_includes_false (Js.set_of new) ref)); [now left|].
        now rewrite set_of_In. }
      split; reflexivity.
Qed.

(** ** What the comparison does not look at *)

Section Undetected.
Import SchemaChangeDetector.

Variable g : ColumnDefinition -> ColumnOptions.

Let f (c : ColumnDefinition) : ColumnDefinition := retouch_column (g c) c.
Let F (e : string * ColumnDefinition) : string * ColumnDefinition := (fst e, f (snd e)).

Lemma map_set_retouched (m : list (string * ColumnDefinition)) (c : ColumnDefinition) :
  Js.map_set (map F m) (col_name c) (f c) = map F (Js.map_set m (col_name c) c).
Proof.
  induction m as [|[k v] m IH]; simpl; [reflexivity|].
  destruct (String.eqb k (col_name c)); simpl; [reflexivity|].
  f_equal. exact IH.
Qed.

Lemma column_fold_retouched (cols : list ColumnDefinition) (m : list (string * ColumnDefinition)) :
  fold_left (fun m c => Js.map_set m (col_name c) c) (map f cols) (map F m)
  = map F (fold_left (fun m c => Js.map_set m (col_name c) c) cols m).
Proof.
  revert m. induction cols as [|c cols IH]; intros m; cbn [map fold_left]; [reflexivity|].
  change (col_name (f c)) with (col_name c).
  rewrite map_set_retouched. apply IH.
Qed.

Lemma column_map_retouched (cols : list ColumnDefinition) :
  column_map (map f cols) = map F (column_map cols).
Proof. exact (column_fold_retouched cols []). Qed.

Lemma compareColumnDefinitions_retouched (c : ColumnDefinition) (ty nm : string) :
  compareColumnDefinitions c (f c) ty nm = [].
Proof.
  unfold compareColumnDefinitions, f, retouch_column.
  cbn [col_type col_options notNull primaryKey default].
  now rewrite !opt_string_eqb_refl, !opt_bool_eqb_refl.
Qed.

Lemma retouched_has (cols : list ColumnDefinition) (k : string) :
  Js.map_has (map F (column_map cols)) k = Js.map_has (column_map cols) k.
Proof.
  unfold Js.map_has. induction (column_map cols) as [|[k1 v1] m IH]; simpl; [reflexivity|].
  destruct (String.eqb k1 k); [reflexivity|exact IH].
Qed.

Lemma compareHelperColumns_retouched (h : HelperDefinition) :
  compareHelperColumns h (retouch_helper g h) = [].
Proof.
  unfold compareHelperColumns, retouch_helper. cbn [helper_columns helper_name].
  fold f. rewrite column_map_retouched.
  rewrite !flat_map_nil; [reflexivity| | |].
  - intros e He. apply in_map_iff in He as ([k v] & <- & Hin).
    destruct (column_map_self _ _ _ Hin) as [_ Hget]. cbn [F fst snd].
    rewrite Hget. apply compareColumnDefinitions_retouched.
  - intros [k v] Hin. destruct (column_map_self _ _ _ Hin) as [Hhas _]. cbn [fst].
    now rewrite retouched_has, Hhas.
  - intros e He. apply in_map_iff in He as ([k v] & <- & Hin).
    destruct (column_map_self _ _ _ Hin) as [Hhas _]. cbn [F fst snd].
    now rewrite Hhas.
Qed.

Variable db : TableDefinition -> option string.

Lemma compareTableStructure_retouched (t : TableDefinition) :
  compareTableStructure t (retouch_table g db t) = [].
Proof.
  unfold compareTableStructure.
  change (compareHelperReferences t (retouch_table g db t))
    with (compareHelperReferences t t).
  change (compareCompositePrimaryKeys t (retouch_table g db t))
    with (compareCompositePrimaryKeys t t).
  rewrite compareHelperReferences_same, compareCompositePrimaryKeys_same.
  rewrite !app_nil_r.
  unfold compareTableColumns, retouch_table. cbn [table_columns table_name].
  fold f. rewrite column_map_retouched.
  rewrite !flat_map_nil; [reflexivity| | |].
  - intros e He. apply in_map_iff in He as ([k v] & <- & Hin).
    destruct (column_map_self _ _ _ Hin) as [_ Hget]. cbn [F fst snd].
    rewrite Hget. apply compareColumnDefinitions_retouched.
  - intros [k v] Hin. destruct (column_map_self _ _ _ Hin) as [Hhas _]. cbn [fst].
    now rewrite retouched_has, Hhas.
  - intros e He. apply in_map_iff in He as ([k v] & <- & Hin).
    destruct (column_map_self _ _ _ Hin) as [Hhas _]. cbn [F fst snd].
    now rewrite Hhas.
Qed.

Lemma compareHelpers_retouched (l : list HelperDefinition) :
  NoDup (map helper_name l) -> compareHelpers l (map (retouch_helper g) l) = [].
Proof.
  intros Hnd. unfold compareHelpers.
  assert (Hnames : map helper_name (map (retouch_helper g) l) = map helper_name l).
  { rewrite map_map. reflexivity. }
  rewrite Hnames.
  rewrite !flat_map_nil; [reflexivity| | |].
  - intros e He. apply in_map_iff in He as (h & <- & Hin).
    change (helper_name (retouch_helper g h)) with (helper_name h).
    rewrite (find_by_name_NoDup helper_name l h Hnd Hin).
    apply compareHelperColumns_retouched.
  - intros e He. rewrite set_of_includes; [reflexivity|now apply in_map].
  - intros e He. apply in_map_iff in He as (h & <- & Hin).
    change (helper_name (retouch_helper g h)) with (helper_name h).
    rewrite set_of_includes; [reflexivity|now apply in_map].
Qed.

Lemma compareTables_retouched (l : list TableDefinition) :
  NoDup (map table_name l) -> compareTables l (map (retouch_table g db) l) = [].
Proof.
  intros Hnd. unfold compareTables.
  assert (Hnames : map table_name (map (retouch_table g db) l) = map table_name l).
  { rewrite map_map. reflexivity. }
  rewrite Hnames.
  rewrite !flat_map_nil; [reflexivity| | |].
  - intros e He. apply in_map_iff in He as (t & <- & Hin).
    change (table_name (retouch_table g db t)) with (table_name t).
    rewrite (find_by_name_NoDup table_name l t Hnd Hin).
    apply compareTableStructure_retouched.
  - intros e He. rewrite set_of_includes; [reflexivity|now apply in_map].
  - intros e He. apply in_map_iff in He as (t & <- & Hin).
    change (table_name (retouch_table g db t)) with (table_name t).
    rewrite set_of_includes; [reflexivity|now apply in_map].
Qed.

End Undetected.

(** X8. The comparison does not look at the [length], the [enumValues]
    or the [references] of a column, nor at the [dbName] of a table, nor
    at the output directory: in a schema whose entities have pairwise
    distinct names within their category, replacing these in any helper
    and table column, and giving every table another [dbName], yields a
    schema that [compareSchemas] reports as identical. *)
Theorem compareSchemas_untracked_properties
        (s : ProjectGeneratorConfig) (g : ColumnDefinition -> ColumnOptions)
        (db : TableDefinition -> option string) (dir : string) (ow : option bool)
        (Henums : NoDup (map enum_name (match enums s with Some l => l | None => [] end)))
        (Hhelpers : NoDup (map helper_name (match helpers s with Some l => l | None => [] end)))
        (Htables : NoDup (map table_name (match tables s with Some l => l | None => [] end))) :
  let s' := mkConfig dir (enums s)
              (option_map (map (retouch_helper g)) (helpers s))
              (option_map (map (retouch_table g db)) (tables s)) ow in
  changes (SchemaChangeDetector.compareSchemas s s') = []
  /\ recommendations (SchemaChangeDetector.compareSchemas s s')
     = [SchemaChangeDetector.msg_no_changes].
Proof.
  cbv zeta.
  assert (Hc : changes (SchemaChangeDetector.compareSchemas s
                 (mkConfig dir (enums s)
                    (option_map (map (retouch_helper g)) (helpers s))
                    (option_map (map (retouch_table g db)) (tables s)) ow)) = []).
  { unfold SchemaChangeDetector.compareSchemas. cbn [changes enums helpers tables].
    rewrite compareEnums_same by exact Henums.
    destruct (helpers s) as [hs|]; destruct (tables s) as [ts|];
      cbn [option_map SchemaChangeDetector.or_nil] in *;
      rewrite ?compareHelpers_retouched, ?compareTables_retouched by assumption;
      reflexivity. }
  split; [exact Hc|].
  unfold SchemaChangeDetector.compareSchemas in *. cbn [changes recommendations] in *.
  rewrite Hc. reflexivity.
Qed.

(** X8, for a table whose varchar column is widened, gains a foreign
    key, and whose database name is changed. *)
Lemma compareSchemas_untracked_properties_witness :
  let s := mkConfig "./schema" None None
             (Some [mkTable "users" None
                      [mkColumn "name" (Some "string")
                         (Some (mkOptions (Some true) None None (Some 50%Z) None None))]
                      None None])
             None in
  let s' := mkConfig "./out" None None
             (Some [mkTable "users" (Some "app_users")
                      [mkColumn "name" (Some "string")
                         (Some (mkOptions (Some true) None None (Some 255%Z) None
                                  (Some (mkReference "people" "name"))))]
                      None None])
             None in
  changes (SchemaChangeDetector.compareSchemas s s') = [].
Proof.
  intros s s'.
  assert (Hn : NoDup (@nil string)) by constructor.
  assert (Ht : NoDup ["users"]) by (repeat constructor; simpl; tauto).
  exact (proj1 (compareSchemas_untracked_properties s
           (fun _ => mkOptions None None None (Some 255%Z) None
                       (Some (mkReference "people" "name")))
           (fun _ => Some "app_users") "./out" None Hn Hn Ht)).
Defined.

(** ** Additions and removals mirror each other *)

Section Mirror.
Import SchemaChangeDetector.

Ltac branch :=
  match goal with |- context [if ?c then _ else _] => destruct c end.

Lemma type_in_weaken (tys tys' : list string) (l : list SchemaChange) :
  incl tys tys' -> forallb (type_in tys) l = true -> forallb (type_in tys') l = true.
Proof.
  intros Hi H. rewrite forallb_forall in *. intros c Hc. specialize (H c Hc).
  unfold type_in in *. apply arr_includes_In. apply Hi. now apply arr_includes_In.
Qed.

Lemma compareColumnDefinitions_type_in (a b : ColumnDefinition) (ty nm : string) :
  forallb (type_in column_types) (compareColumnDefinitions a b ty nm) = true.
Proof.
  unfold compareColumnDefinitions. rewrite !forallb_app.
  repeat match goal with
         | |- context [if negb ?c then _ else _] => destruct c; cbn [negb]
         end; reflexivity.
Qed.

Lemma compareEnumValues_type_in (a b : EnumDefinition) :
  forallb (type_in ["enum_value_added"; "enum_value_removed"]) (compareEnumValues a b) = true.
Proof.
  unfold compareEnumValues. rewrite forallb_app.
  rewrite !forallb_flat_map; [reflexivity| |]; intros w; branch; reflexivity.
Qed.

Lemma compareEnums_type_in (a b : list EnumDefinition) :
  forallb (type_in ["enum_added"; "enum_removed"; "enum_value_added"; "enum_value_removed"])
          (compareEnums a b) = true.
Proof.
  unfold compareEnums. rewrite !forallb_app.
  rewrite !forallb_flat_map; [reflexivity| | |]; intros v.
  - destruct (find_by_name _ _ _); [|reflexivity].
    eapply type_in_weaken; [|apply compareEnumValues_type_in].
    intros x Hx; simpl in *; tauto.
  - branch; reflexivity.
  - branch; reflexivity.
Qed.

Lemma compareHelperColumns_type_in (a b : HelperDefinition) :
  forallb (type_in ("helper_column_added" :: "helper_column_removed" :: column_types))
          (compareHelperColumns a b) = true.
Proof.
  unfold compareHelperColumns. rewrite !forallb_app.
  rewrite !forallb_flat_map; [reflexivity| | |]; intros w.
  - destruct (Js.map_get _ _); [|reflexivity].
    eapply type_in_weaken; [|apply compareColumnDefinitions_type_in].
    intros x Hx; simpl in *; tauto.
  - branch; reflexivity.
  - branch; reflexivity.
Qed.

Lemma compareHelpers_type_in (a b : list HelperDefinition) :
  forallb (type_in ("helper_added" :: "helper_removed" :: "helper_column_added"
                      :: "helper_column_removed" :: column_types))
          (compareHelpers a b) = true.
Proof.
  unfold compareHelpers. rewrite !forallb_app.
  rewrite !forallb_flat_map; [reflexivity| | |]; intros v.
  - destruct (find_by_name _ _ _); [|reflexivity].
    eapply type_in_weaken; [|apply compareHelperColumns_type_in].
    intros x Hx; simpl in *; tauto.
  - branch; reflexivity.
  - branch; reflexivity.
Qed.

Lemma compareTableStructure_type_in (a b : TableDefinition) :
  forallb (type_in structure_types) (compareTableStructure a b) = true.
Proof.
  unfold compareTableStructure. rewrite !forallb_app.
  assert (H1 : forallb (type_in structure_types) (compareTableColumns a b) = true).
  { unfold compareTableColumns. rewrite !forallb_app.
    rewrite !forallb_flat_map; [reflexivity| | |]; intros w.
    - destruct (Js.map_get _ _); [|reflexivity].
      eapply type_in_weaken; [|apply compareColumnDefinitions_type_in].
      intros x Hx; simpl in *; tauto.
    - branch; reflexivity.
    - branch; reflexivity. }
  assert (H2 : forallb (type_in structure_types) (compareHelperReferences a b) = true).
  { unfold compareHelperReferences. rewrite forallb_app.
    rewrite !forallb_flat_map; [reflexivity| |]; intros w; branch; reflexivity. }
  assert (H3 : forallb (type_in structure_types) (compareCompositePrimaryKeys a b) = true).
  { unfold compareCompositePrimaryKeys. branch; reflexivity. }
  now rewrite H1, H2, H3.
Qed.

Lemma compareTables_type_in (a b : list TableDefinition) :
  forallb (type_in ("table_added" :: "table_removed" :: structure_types))
          (compareTables a b) = true.
Proof.
  unfold compareTables. rewrite !forallb_app.
  rewrite !forallb_flat_map; [reflexivity| | |]; intros v.
  - destruct (find_by_name _ _ _); [|reflexivity].
    eapply type_in_weaken; [|apply compareTableStructure_type_in].
    intros x Hx; simpl in *; tauto.
  - branch; reflexivity.
  - branch; reflexivity.
Qed.

Lemma targets_of_type_app (ty : string) (a b : list SchemaChange) :
  targets_of_type ty (a ++ b) = (targets_of_type ty a ++ targets_of_type ty b)%list.
Proof. unfold targets_of_type. now rewrite filter_app, map_app. Qed.

Lemma targets_of_type_none (ty : string) (tys : list string) (l : list SchemaChange) :
  forallb (type_in tys) l = true -> Js.arr_includes tys ty = false ->
  targets_of_type ty l = [].
Proof.
  intros H Hp. unfold targets_of_type.
  induction l as [|c l IH]; simpl; [reflexivity|].
  simpl in H. apply andb_prop in H as [Hc Hl].
  destruct (String.eqb_spec (change_type c) ty) as [E|_].
  - unfold type_in in Hc. rewrite E in Hc. congruence.
  - now apply IH.
Qed.

Lemma targets_of_type_flat_map {X : Type} (ty : string) (f : X -> list SchemaChange)
      (name : X -> string) (keep : X -> bool) (l : list X) :
  (forall x, targets_of_type ty (f x) = if keep x then [name x] else []) ->
  targets_of_type ty (flat_map f l) = map name (filter keep l).
Proof.
  intros H. induction l as [|x l IH]; simpl; [reflexivity|].
  rewrite targets_of_type_app, H, IH. destruct (keep x); reflexivity.
Qed.

Lemma targets_of_type_flat_map_none {X : Type} (ty : string) (f : X -> list SchemaChange)
      (l : list X) :
  (forall x, targets_of_type ty (f x) = []) ->
  targets_of_type ty (flat_map f l) = [].
Proof.
  intros H. induction l as [|x l IH]; simpl; [reflexivity|].
  now rewrite targets_of_type_app, H, IH.
Qed.

Lemma filter_names (current : list string) {X : Type} (name : X -> string) (l : list X) :
  map name (filter (fun e => negb (Js.arr_includes (Js.set_of current) (name e))) l)
  = names_missing_from current (map name l).
Proof.
  unfold names_missing_from. induction l as [|x l IH]; simpl; [reflexivity|].
  assert (E : Js.arr_includes (Js.set_of current) (name x) = Js.arr_includes current (name x)).
  { destruct (Js.arr_includes current (name x)) eqn:E1.
    - apply arr_includes_In. apply set_of_In. now apply arr_includes_In.
    - apply arr_includes_false. rewrite set_of_In. now apply arr_includes_false. }
  rewrite E. destruct (Js.arr_includes current (name x)); simpl; now rewrite IH.
Qed.

Lemma compareEnums_added (a b : list EnumDefinition) :
  targets_of_type "enum_added" (compareEnums a b)
  = names_missing_from (map enum_name a) (map enum_name b).
Proof.
  unfold compareEnums. rewrite !targets_of_type_app.
  rewrite (targets_of_type_flat_map "enum_added" _ enum_name
             (fun e => negb (Js.arr_includes (Js.set_of (map enum_name a)) (enum_name e)))).
  2:{ intros x. destruct (negb _); reflexivity. }
  rewrite (targets_of_type_flat_map_none "enum_added").
  2:{ intros x. branch; reflexivity. }
  rewrite (targets_of_type_flat_map_none "enum_added").
  2:{ intros x. destruct (find_by_name _ _ _); [|reflexivity].
      now apply (targets_of_type_none _ _ _ (compareEnumValues_type_in _ _)). }
  rewrite !app_nil_r. apply filter_names.
Qed.

Lemma compareEnums_removed (a b : list EnumDefinition) :
  targets_of_type "enum_removed" (compareEnums a b)
  = names_missing_from (map enum_name b) (map enum_name a).
Proof.
  unfold compareEnums. rewrite !targets_of_type_app.
  rewrite (targets_of_type_flat_map_none "enum_removed").
  2:{ intros x. branch; reflexivity. }
  rewrite (targets_of_type_flat_map "enum_removed" _ enum_name
             (fun e => negb (Js.arr_includes (Js.set_of (map enum_name b)) (enum_name e)))).
  2:{ intros x. destruct (negb _); reflexivity. }
  rewrite (targets_of_type_flat_map_none "enum_removed").
  2:{ intros x. destruct (find_by_name _ _ _); [|reflexivity].
      now apply (targets_of_type_none _ _ _ (compareEnumValues_type_in _ _)). }
  rewrite !app_nil_r. cbn [app]. apply filter_names.
Qed.

Lemma compareHelpers_added (a b : list HelperDefinition) :
  targets_of_type "helper_added" (compareHelpers a b)
  = names_missing_from (map helper_name a) (map helper_name b).
Proof.
  unfold compareHelpers. rewrite !targets_of_type_app.
  rewrite (targets_of_type_flat_map "helper_added" _ helper_name
             (fun e => negb (Js.arr_includes (Js.set_of (map helper_name a)) (helper_name e)))).
  2:{ intros x. destruct (negb _); reflexivity. }
  rewrite (targets_of_type_flat_map_none "helper_added").
  2:{ intros x. branch; reflexivity. }
  rewrite (targets_of_type_flat_map_none "helper_added").
  2:{ intros x. destruct (find_by_name _ _ _); [|reflexivity].
      now apply (targets_of_type_none _ _ _ (compareHelperColumns_type_in _ _)). }
  rewrite !app_nil_r. apply filter_names.
Qed.

Lemma compareHelpers_removed (a b : list HelperDefinition) :
  targets_of_type "helper_removed" (compareHelpers a b)
  = names_missing_from (map helper_name b) (map helper_name a).
Proof.
  unfold compareHelpers. rewrite !targets_of_type_app.
  rewrite (targets_of_type_flat_map_none "helper_removed").
  2:{ intros x. branch; reflexivity. }
  rewrite (targets_of_type_flat_map "helper_removed" _ helper_name
             (fun e => negb (Js.arr_includes (Js.set_of (map helper_name b)) (helper_name e)))).
  2:{ intros x. destruct (negb _); reflexivity. }
  rewrite (targets_of_type_flat_map_none "helper_removed").
  2:{ intros x. destruct (find_by_name _ _ _); [|reflexivity].
      now apply (targets_of_type_none _ _ _ (compareHelperColumns_type_in _ _)). }
  rewrite !app_nil_r. cbn [app]. apply filter_names.
Qed.

Lemma compareTables_added (a b : list TableDefinition) :
  targets_of_type "table_added" (compareTables a b)
  = names_missing_from (map table_name a) (map table_name b).
Proof.
  unfold compareTables. rewrite !targets_of_type_app.
  rewrite (targets_of_type_flat_map "table_added" _ table_name
             (fun e => negb (Js.arr_includes (Js.set_of (map table_name a)) (table_name e)))).
  2:{ intros x. destruct (negb _); reflexivity. }
  rewrite (targets_of_type_flat_map_none "table_added").
  2:{ intros x. branch; reflexivity. }
  rewrite (targets_of_type_flat_map_none "table_added").
  2:{ intros x. destruct (find_by_name _ _ _); [|reflexivity].
      now apply (targets_of_type_none _ _ _ (compareTableStructure_type_in _ _)). }
  rewrite !app_nil_r. apply filter_names.
Qed.

Lemma compareTables_removed (a b : list TableDefinition) :
  targets_of_type "table_removed" (compareTables a b)
  = names_missing_from (map table_name b) (map table_name a).
Proof.
  unfold compareTables. rewrite !targets_of_type_app.
  rewrite (targets_of_type_flat_map_none "table_removed").
  2:{ intros x. branch; reflexivity. }
  rewrite (targets_of_type_flat_map "table_removed" _ table_name
             (fun e => negb (Js.arr_includes (Js.set_of (map table_name b)) (table_name e)))).
  2:{ intros x. destruct (negb _); reflexivity. }
  rewrite (targets_of_type_flat_map_none "table_removed").
  2:{ intros x. destruct (find_by_name _ _ _); [|reflexivity].
      now apply (targets_of_type_none _ _ _ (compareTableStructure_type_in _ _)). }
  rewrite !app_nil_r. cbn [app]. apply filter_names.
Qed.

End Mirror.

(** X9. The entities reported as added are those of the new schema
    whose name occurs in no entity of the current one, one report per
    entity in the order of the new schema; the entities reported as
    removed are those of the current schema whose name is missing from
    the new one.  Hence swapping the two schemas turns the additions
    into the removals: the names reported as added by
    [compareSchemas(a, b)] are the names reported as removed by
    [compareSchemas(b, a)], for enums, helpers and tables alike. *)
Theorem compareSchemas_added_removed_mirror (a b : ProjectGeneratorConfig) :
  let names {E : Type} (name : E -> string) (o : option (list E)) :=
    map name (match o with Some l => l | None => [] end) in
  let ab := changes (SchemaChangeDetector.compareSchemas a b) in
  let ba := changes (SchemaChangeDetector.compareSchemas b a) in
  targets_of_type "enum_added" ab
    = names_missing_from (names enum_name (enums a)) (names enum_name (enums b))
  /\ targets_of_type "helper_added" ab
    = names_missing_from (names helper_name (helpers a)) (names helper_name (helpers b))
  /\ targets_of_type "table_added" ab
    = names_missing_from (names table_name (tables a)) (names table_name (tables b))
  /\ targets_of_type "enum_removed" ba = targets_of_type "enum_added" ab
  /\ targets_of_type "helper_removed" ba = targets_of_type "helper_added" ab
  /\ targets_of_type "table_removed" ba = targets_of_type "table_added" ab.
Proof.
  cbv zeta.
  unfold SchemaChangeDetector.compareSchemas. cbn [changes].
  rewrite !targets_of_type_app.
  change (match enums a with Some l => l | None => [] end)
    with (SchemaChangeDetector.or_nil (enums a)).
  change (match enums b with Some l => l | None => [] end)
    with (SchemaChangeDetector.or_nil (enums b)).
  change (match helpers a with Some l => l | None => [] end)
    with (SchemaChangeDetector.or_nil (helpers a)).
  change (match helpers b with Some l => l | None => [] end)
    with (SchemaChangeDetector.or_nil (helpers b)).
  change (match tables a with Some l => l | None => [] end)
    with (SchemaChangeDetector.or_nil (tables a)).
  change (match tables b with Some l => l | None => [] end)
    with (SchemaChangeDetector.or_nil (tables b)).
  rewrite !compareEnums_added, !compareEnums_removed, !compareHelpers_added,
    !compareHelpers_removed, !compareTables_added, !compareTables_removed.
  rewrite !(targets_of_type_none "enum_added" _ _ (compareHelpers_type_in _ _)) by reflexivity.
  rewrite !(targets_of_type_none "enum_added" _ _ (compareTables_type_in _ _)) by reflexivity.
  rewrite !(targets_of_type_none "enum_removed" _ _ (compareHelpers_type_in _ _)) by reflexivity.
  rewrite !(targets_of_type_none "enum_removed" _ _ (compareTables_type_in _ _)) by reflexivity.
  rewrite !(targets_of_type_none "helper_added" _ _ (compareEnums_type_in _ _)) by reflexivity.
  rewrite !(targets_of_type_none "helper_added" _ _ (compareTables_type_in _ _)) by reflexivity.
  rewrite !(targets_of_type_none "helper_removed" _ _ (compareEnums_type_in _ _)) by reflexivity.
  rewrite !(targets_of_type_none "helper_removed" _ _ (compareTables_type_in _ _)) by reflexivity.
  rewrite !(targets_of_type_none "table_added" _ _ (compareEnums_type_in _ _)) by reflexivity.
  rewrite !(targets_of_type_none "table_added" _ _ (compareHelpers_type_in _ _)) by reflexivity.
  rewrite !(targets_of_type_none "table_removed" _ _ (compareEnums_type_in _ _)) by reflexivity.
  rewrite !(targets_of_type_none "table_removed" _ _ (compareHelpers_type_in _ _)) by reflexivity.
  rewrite !app_nil_r. cbn [app].
  repeat split; reflexivity.
Qed.


(** ** The import registry *)

Section ImportRegistry.

Lemma map_set_twice {V : Type} (m : list (string * V)) (k : string) (v v' : V) :
  Js.map_set (Js.map_set m k v) k v' = Js.map_set m k v'.
Proof.
  induction m as [|[k1 v1] m IH]; simpl.
  - now rewrite String.eqb_refl.
  - destruct (String.eqb k1 k) eqn:E; simpl; rewrite E; [reflexivity|now rewrite IH].
Qed.

Lemma map_set_same_value {V : Type} (m : list (string * V)) (k : string) (v : V) :
  Js.map_get m k = Some v -> Js.map_set m k v = m.
Proof.
  induction m as [|[k1 v1] m IH]; simpl; [discriminate|].
  destruct (String.eqb k1 k) eqn:E.
  - intros H. injection H as ->. reflexivity.
  - intros H. now rewrite IH.
Qed.

Lemma addImportToMap_eq (m : ImportMap) (p n : string) :
  addImportToMap m p n
  = if Js.arr_includes (names_at m p) n then m
    else Js.map_set m p (Js.push (names_at m p) n).
Proof.
  unfold addImportToMap, names_at.
  destruct (Js.map_get m p) as [names|] eqn:E.
  - rewrite E. reflexivity.
  - rewrite map_get_set_same. cbn [Js.arr_includes existsb]. apply map_set_twice.
Qed.

Lemma names_at_addImportToMap (m : ImportMap) (p n q : string) :
  names_at (addImportToMap m p n) q
  = if String.eqb p q
    then (if Js.arr_includes (names_at m p) n then names_at m p
          else Js.push (names_at m p) n)
    else names_at m q.
Proof.
  rewrite addImportToMap_eq.
  destruct (String.eqb_spec p q) as [<-|Hne].
  - destruct (Js.arr_includes (names_at m p) n); [reflexivity|].
    unfold names_at at 1. now rewrite map_get_set_same.
  - destruct (Js.arr_includes (names_at m p) n); [reflexivity|].
    unfold names_at at 1 3. rewrite map_get_set_other by congruence. reflexivity.
Qed.

Lemma In_names_at (m : ImportMap) (p : string) (names : list string) :
  NoDup (map fst m) -> In (p, names) m -> names_at m p = names.
Proof. intros Hnd Hin. unfold names_at. now rewrite (In_map_get _ _ _ Hnd Hin). Qed.

Lemma addImportToMap_well_formed (m : ImportMap) (p n : string) :
  well_formed m -> well_formed (addImportToMap m p n).
Proof.
  intros [Hk Hn]. rewrite addImportToMap_eq.
  destruct (Js.arr_includes (names_at m p) n) eqn:E; [now split|].
  split; [now apply map_set_NoDup|].
  intros q names Hin. apply map_set_entries in Hin as [Hin|Hin]; [now apply (Hn q)|].
  injection Hin as -> ->. unfold Js.push.
  apply NoDup_app.
  - unfold names_at. destruct (Js.map_get m p) as [names|] eqn:G; [|constructor].
    apply (Hn p). now apply map_get_In.
  - repeat constructor. simpl. tauto.
  - intros x Hx [<-|[]]. apply arr_includes_In in Hx. congruence.
Qed.

Lemma addImports_well_formed (names : list string) (m : ImportMap) (p : string) :
  well_formed m -> well_formed (ImportManager.addImports m p names).
Proof.
  unfold ImportManager.addImports. revert m.
  induction names as [|n names IH]; intros m H; simpl; [exact H|].
  apply IH. now apply addImportToMap_well_formed.
Qed.

Lemma merge_well_formed (other m : ImportMap) :
  well_formed m -> well_formed (ImportManager.merge m other).
Proof.
  unfold ImportManager.merge. revert m.
  induction other as [|e other IH]; intros m H; simpl; [exact H|].
  apply IH. now apply addImports_well_formed.
Qed.

Lemma In_names_at_addImports (names : list string) (m : ImportMap) (p q x : string) :
  In x (names_at (ImportManager.addImports m p names) q)
  <-> In x (names_at m q) \/ (q = p /\ In x names).
Proof.
  unfold ImportManager.addImports. revert m.
  induction names as [|n names IH]; intros m; simpl; [tauto|].
  rewrite IH. unfold ImportManager.addImport. rewrite names_at_addImportToMap.
  destruct (String.eqb_spec p q) as [<-|Hne].
  - destruct (Js.arr_includes (names_at m p) n) eqn:E.
    + apply arr_includes_In in E. split; [intuition|].
      intros [H|[_ [<-|H]]]; auto.
    + unfold Js.push. rewrite in_app_iff. simpl. intuition.
  - split; [intuition|]. intros [H|[H _]]; [auto|congruence].
Qed.

Lemma In_names_at_merge (other m : ImportMap) (q x : string) :
  In x (names_at (ImportManager.merge m other) q)
  <-> In x (names_at m q) \/ exists names, In (q, names) other /\ In x names.
Proof.
  unfold ImportManager.merge. revert m.
  induction other as [|[p names] other IH]; intros m; simpl.
  - split; [auto|]. intros [H|(? & [] & _)]. exact H.
  - rewrite IH, In_names_at_addImports. cbn [fst snd]. split.
    + intros [[H|[-> H]]|(ns & H1 & H2)]; eauto 6.
    + intros [H|(ns & [H1|H1] & H2)]; eauto 6.
      injection H1 as -> ->. auto.
Qed.

Lemma addImports_absorbed (names : list string) (m : ImportMap) (p : string) :
  (forall x, In x names -> In x (names_at m p)) ->
  ImportManager.addImports m p names = m.
Proof.
  unfold ImportManager.addImports.
  induction names as [|n names IH]; intros H; simpl; [reflexivity|].
  unfold ImportManager.addImport at 2. rewrite addImportToMap_eq.
  rewrite (proj2 (arr_includes_In _ _) (H n (or_introl eq_refl))).
  apply IH. intros x Hx. apply H. now right.
Qed.

Lemma merge_absorbed (other m : ImportMap) :
  (forall p names, In (p, names) other -> forall x, In x names -> In x (names_at m p)) ->
  ImportManager.merge m other = m.
Proof.
  unfold ImportManager.merge.
  induction other as [|[p names] other IH]; intros H; simpl; [reflexivity|].
  rewrite (addImports_absorbed names m p (H p names (or_introl eq_refl))).
  apply IH. intros q ns Hin. apply H. now right.
Qed.

End ImportRegistry.

(** X10. Registering an import keeps the registry well formed (one
    entry per path, no name twice under a path), makes the name present
    under its path, leaves the names of every other path as they were,
    keeps the names already under the path in their positions, and is
    idempotent: registering the same import again changes nothing. *)
Theorem addImport_registers (m : ImportMap) (importPath importName : string)
        (Hpath : inherited importPath = false)
        (Hname : importName <> "")
        (Hm : well_formed m) :
  let m' := ImportManager.addImport m importPath importName in
  well_formed m'
  /\ ImportManager.hasImport m' importPath (Some importName) = true
  /\ ImportManager.hasImport m' importPath None = true
  /\ (forall q, q <> importPath -> names_at m' q = names_at m q)
  /\ (exists added, names_at m' importPath = (names_at m importPath ++ added)%list
                    /\ (added = [] \/ added = [importName]))
  /\ ImportManager.addImport m' importPath importName = m'
  /\ addImportToMap m importPath importName = m'.
Proof.
  cbv zeta. unfold ImportManager.addImport.
  assert (Hin : In importName (names_at (addImportToMap m importPath importName) importPath)).
  { rewrite names_at_addImportToMap, String.eqb_refl.
    destruct (Js.arr_includes (names_at m importPath) importName) eqn:E.
    - now apply arr_includes_In.
    - unfold Js.push. apply in_or_app. right. now left. }
  assert (Hkey : exists names, Js.map_get (addImportToMap m importPath importName) importPath
                               = Some names /\ In importName names).
  { unfold names_at in Hin.
    destruct (Js.map_get (addImportToMap m importPath importName) importPath) as [ns|];
      [eauto|contradiction]. }
  destruct Hkey as (ns & Hget & Hns).
  split; [now apply addImportToMap_well_formed|].
  split.
  { unfold ImportManager.hasImport. rewrite Hget.
    destruct importName; [congruence|]. cbn [Js.truthy]. now apply arr_includes_In. }
  split.
  { unfold ImportManager.hasImport. now rewrite Hget. }
  split.
  { intros q Hq. rewrite names_at_addImportToMap.
    destruct (String.eqb_spec importPath q); [congruence|reflexivity]. }
  split.
  { rewrite names_at_addImportToMap, String.eqb_refl.
    destruct (Js.arr_includes (names_at m importPath) importName).
    - exists []. rewrite app_nil_r. auto.
    - exists [importName]. auto. }
  split; [|reflexivity].
  rewrite (addImportToMap_eq (addImportToMap m importPath importName)).
  now rewrite (proj2 (arr_includes_In _ _) Hin).
Qed.

(** X10, on a registry holding one import. *)
Lemma addImport_registers_witness :
  let m := [("drizzle-orm/pg-core", ["pgTable"])] in
  ImportManager.addImport m "drizzle-orm/pg-core" "serial"
  = [("drizzle-orm/pg-core", ["pgTable"; "serial"])]
  /\ ImportManager.addImport (ImportManager.addImport m "drizzle-orm/pg-core" "serial")
       "drizzle-orm/pg-core" "serial"
     = ImportManager.addImport m "drizzle-orm/pg-core" "serial".
Proof.
  intros m. split; [reflexivity|].
  assert (Hm : well_formed m).
  { split; [repeat constructor; simpl; tauto|].
    intros p names [H|[]]. injection H as <- <-. repeat constructor; simpl; tauto. }
  assert (Hn : "serial" <> "") by discriminate.
  exact (proj1 (proj2 (proj2 (proj2 (proj2 (proj2
           (addImport_registers m "drizzle-orm/pg-core" "serial" eq_refl Hn Hm))))))).
Defined.

(** X11. Merging import maps loses and invents nothing: a name is
    under a path after [merge] exactly when it was there before or is
    listed under that path in the merged map.  The registry stays well
    formed, [mergeImportMaps] computes the same map, and merging a
    well-formed registry into itself changes nothing. *)
Theorem merge_membership (m other : ImportMap)
        (Hpaths : forall p names, In (p, names) other -> inherited p = false)
        (Hm : well_formed m) :
  let m' := ImportManager.merge m other in
  well_formed m'
  /\ (forall path name,
        In name (names_at m' path)
        <-> In name (names_at m path)
            \/ exists names, In (path, names) other /\ In name names)
  /\ mergeImportMaps m other = m'
  /\ ImportManager.merge m m = m
  /\ ImportManager.merge m' other = m'.
Proof.
  cbv zeta.
  split; [now apply merge_well_formed|].
  split; [intros path name; apply In_names_at_merge|].
  split; [reflexivity|].
  split.
  - apply merge_absorbed. intros p names Hin x Hx. destruct Hm as [Hk Hn].
    now rewrite (In_names_at m p names Hk Hin).
  - apply merge_absorbed. intros p names Hin x Hx.
    apply In_names_at_merge. right. eauto.
Qed.

(** X11, merging the imports of a column into those of a table. *)
Lemma merge_membership_witness :
  let m := [("drizzle-orm/pg-core", ["pgTable"])] in
  let other := [("drizzle-orm/pg-core", ["serial"]); ("drizzle-orm", ["sql"])] in
  ImportManager.merge m other
  = [("drizzle-orm/pg-core", ["pgTable"; "serial"]); ("drizzle-orm", ["sql"])]
  /\ mergeImportMaps m other = ImportManager.merge m other
  /\ ImportManager.merge (ImportManager.merge m other) other = ImportManager.merge m other.
Proof.
  intros m other. split; [reflexivity|].
  assert (Hm : well_formed m).
  { split; [repeat constructor; simpl; tauto|].
    intros p names [H|[]]. injection H as <- <-. repeat constructor; simpl; tauto. }
  assert (Hp : forall p names, In (p, names) other -> inherited p = false).
  { intros p names [H|[H|[]]]; injection H as <- <-; reflexivity. }
  destruct (merge_membership m other Hp Hm) as (_ & _ & H1 & _ & H2).
  exact (conj H1 H2).
Defined.

(** ** Import statements *)

Section Sorting.

Lemma ascii_compare_refl (a : ascii) : Ascii.compare a a = Eq.
Proof. unfold Ascii.compare. apply N.compare_refl. Qed.

Lemma string_compare_refl (s : string) : String.compare s s = Eq.
Proof. induction s as [|c s IH]; simpl; [reflexivity|]. now rewrite ascii_compare_refl. Qed.

Lemma string_compare_trans (a b c : string) (o : comparison) :
  String.compare a b = o -> String.compare b c = o -> String.compare a c = o.
Proof.
  revert b c. induction a as [|x a IH]; intros [|y b] [|z c]; simpl; try congruence.
  unfold Ascii.compare.
  destruct (N.compare_spec (N_of_ascii x) (N_of_ascii y)) as [E1|L1|G1];
    destruct (N.compare_spec (N_of_ascii y) (N_of_ascii z)) as [E2|L2|G2];
    intros H1 H2; subst o; try congruence.
  - rewrite E1, E2, N.compare_refl. now apply (IH b c).
  - rewrite E1. now apply N.compare_lt_iff in L2 as ->.
  - rewrite E1. now apply N.compare_gt_iff in G2 as ->.
  - rewrite <- E2. now apply N.compare_lt_iff in L1 as ->.
  - assert (L : (N_of_ascii x < N_of_ascii z)%N) by now apply (N.lt_trans _ _ _ L1).
    now apply N.compare_lt_iff in L as ->.
  - rewrite <- E2. now apply N.compare_gt_iff in G1 as ->.
  - assert (L : (N_of_ascii z < N_of_ascii x)%N) by now apply (N.lt_trans _ _ _ G2).
    now apply N.compare_gt_iff in L as ->.
Qed.

Lemma ltb_trans (a b c : string) :
  String.ltb a b = true -> String.ltb b c = true -> String.ltb a c = true.
Proof.
  unfold String.ltb. intros H1 H2.
  destruct (String.compare a b) eqn:E1; try discriminate.
  destruct (String.compare b c) eqn:E2; try discriminate.
  now rewrite (string_compare_trans a b c Lt E1 E2).
Qed.

Lemma leb_ltb (a b : string) : String.leb a b = true -> a <> b -> String.ltb a b = true.
Proof.
  unfold String.leb, String.ltb. intros H Hne.
  destruct (String.compare a b) eqn:E; try discriminate; [|reflexivity].
  apply String.compare_eq_iff in E. contradiction.
Qed.

Lemma leb_false_ltb (a b : string) : String.leb a b = false -> String.ltb b a = true.
Proof.
  unfold String.leb, String.ltb. rewrite (String.compare_antisym b a).
  destruct (String.compare a b); simpl; congruence.
Qed.

Lemma ltb_irrefl (a : string) : String.ltb a a = false.
Proof. unfold String.ltb. now rewrite string_compare_refl. Qed.

Lemma ltb_asym (a b : string) : String.ltb a b = true -> String.ltb b a = true -> False.
Proof.
  intros H1 H2. pose proof (ltb_trans a b a H1 H2) as H. rewrite ltb_irrefl in H. discriminate.
Qed.

Lemma sort_insert_In (x y : string) (l : list string) :
  In y (Js.sort_insert x l) <-> y = x \/ In y l.
Proof.
  induction l as [|z l IH]; simpl; [intuition|].
  destruct (String.leb x z); simpl; [intuition|]. rewrite IH. intuition.
Qed.

Lemma sort_In (x : string) (l : list string) : In x (Js.sort l) <-> In x l.
Proof.
  induction l as [|y l IH]; simpl; [tauto|].
  rewrite sort_insert_In, IH. intuition.
Qed.

Lemma sort_insert_ascending (x : string) (l : list string) :
  ascending l -> ~ In x l -> ascending (Js.sort_insert x l).
Proof.
  unfold ascending. induction l as [|y l IH]; intros Hs Hn; simpl.
  - repeat constructor.
  - apply StronglySorted_inv in Hs as [Hs Hy].
    destruct (String.leb x y) eqn:E.
    + assert (Hxy : String.ltb x y = true).
      { apply leb_ltb; [exact E|]. intros ->. apply Hn. now left. }
      constructor; [now constructor|].
      constructor; [exact Hxy|].
      rewrite Forall_forall in *. intros z Hz. apply (ltb_trans x y z Hxy). now apply Hy.
    + constructor.
      * apply IH; [exact Hs|]. intros H. apply Hn. now right.
      * rewrite Forall_forall in *. intros z Hz. apply sort_insert_In in Hz as [->|Hz].
        -- now apply leb_false_ltb.
        -- now apply Hy.
Qed.

Lemma sort_ascending (l : list string) : NoDup l -> ascending (Js.sort l).
Proof.
  induction l as [|x l IH]; intros Hnd; simpl; [constructor|].
  inversion Hnd as [|? ? Hx Hl]; subst.
  apply sort_insert_ascending; [now apply IH|]. now rewrite sort_In.
Qed.

(** An ascending list is determined by its elements. *)
Lemma ascending_unique (l l' : list string) :
  ascending l -> ascending l' -> same_elements l l' -> l = l'.
Proof.
  unfold ascending, same_elements. revert l'.
  induction l as [|x l IH]; intros [|y l'] Hs Hs' Hsame.
  - reflexivity.
  - exfalso. apply (proj2 (Hsame y)). now left.
  - exfalso. apply (proj1 (Hsame x)). now left.
  - apply StronglySorted_inv in Hs as [Hs Hx].
    apply StronglySorted_inv in Hs' as [Hs' Hy].
    rewrite Forall_forall in Hx, Hy.
    assert (Exy : x = y).
    { destruct (proj1 (Hsame x) (or_introl eq_refl)) as [E|Hxin]; [now symmetry|].
      destruct (proj2 (Hsame y) (or_introl eq_refl)) as [E|Hyin]; [exact E|].
      exfalso. apply (ltb_asym x y); [now apply Hx|now apply Hy]. }
    subst y. f_equal. apply IH; [exact Hs|exact Hs'|].
    intros z. split; intros Hz.
    + destruct (proj1 (Hsame z) (or_intror Hz)) as [E|H]; [|exact H].
      subst z. specialize (Hx x Hz). rewrite ltb_irrefl in Hx. discriminate.
    + destruct (proj2 (Hsame z) (or_intror Hz)) as [E|H]; [|exact H].
      subst z. specialize (Hy x Hz). rewrite ltb_irrefl in Hy. discriminate.
Qed.

Lemma unique_names_canonical (names names' : list string) :
  same_elements names names' ->
  Js.sort (Js.set_of names) = Js.sort (Js.set_of names').
Proof.
  intros H. apply ascending_unique.
  - apply sort_ascending, set_of_NoDup.
  - apply sort_ascending, set_of_NoDup.
  - intros x. rewrite !sort_In, !set_of_In. apply H.
Qed.

End Sorting.

(** X12. An import statement lists the names of its path in strictly
    ascending order, each once, whatever the order in which they were
    registered and however often: two import maps with the same paths
    in the same order and the same names under each path give the same
    statements.  There is one statement per path that has a name, in
    the order of the paths. *)
Theorem generateImportStatements_canonical (m m' : ImportMap)
        (Hsame : Forall2 same_entry m m') :
  ImportManager.generateImportStatements m = ImportManager.generateImportStatements m'
  /\ ImportManager.toString m = ImportManager.toString m'
  /\ ImportManager.generateImportStatements m
     = map (fun e => "import { " ++ Js.join ", " (Js.sort (Js.set_of (snd e)))
                       ++ " } from '" ++ fst e ++ "';")
           (filter (fun e => match snd e with [] => false | _ => true end) m)
  /\ forall path names, In (path, names) m ->
       ascending (Js.sort (Js.set_of names))
       /\ same_elements (Js.sort (Js.set_of names)) names.
Proof.
  assert (H1 : ImportManager.generateImportStatements m
               = ImportManager.generateImportStatements m').
  { unfold ImportManager.generateImportStatements.
    induction Hsame as [|[p ns] [p' ns'] m m' [Hp Hn] _ IH]; [reflexivity|].
    cbn [fst snd] in Hp, Hn. subst p'. cbn [filter fst snd].
    assert (He : Nat.ltb 0 (List.length ns) = Nat.ltb 0 (List.length ns')).
    { destruct ns as [|a ns], ns' as [|b ns']; try reflexivity; exfalso.
      - apply (proj2 (Hn b)). now left.
      - apply (proj1 (Hn a)). now left. }
    rewrite <- He. destruct (Nat.ltb 0 (List.length ns)); [|exact IH].
    cbn [map fst snd]. rewrite IH. now rewrite (unique_names_canonical ns ns' Hn). }
  split; [exact H1|].
  split; [unfold ImportManager.toString; now rewrite H1|].
  split.
  { unfold ImportManager.generateImportStatements. f_equal.
    apply filter_ext. intros [p [|n ns]]; reflexivity. }
  intros path names _. split.
  - apply sort_ascending, set_of_NoDup.
  - intros x. now rewrite sort_In, set_of_In.
Qed.

(** X12, for two registration orders of the same names. *)
Lemma generateImportStatements_canonical_witness :
  ImportManager.generateImportStatements
    [("drizzle-orm/pg-core", ["varchar"; "serial"; "pgTable"; "serial"])]
  = ["import { pgTable, serial, varchar } from 'drizzle-orm/pg-core';"]
  /\ ImportManager.generateImportStatements
       [("drizzle-orm/pg-core", ["pgTable"; "serial"; "varchar"])]
     = ImportManager.generateImportStatements
         [("drizzle-orm/pg-core", ["varchar"; "serial"; "pgTable"; "serial"])].
Proof.
  split; [reflexivity|].
  apply (generateImportStatements_canonical
           [("drizzle-orm/pg-core", ["pgTable"; "serial"; "varchar"])]
           [("drizzle-orm/pg-core", ["varchar"; "serial"; "pgTable"; "serial"])]).
  constructor; [|constructor].
  split; [reflexivity|]. intros x. simpl. tauto.
Defined.

(** ** Copying an import map into a new registry *)

Section ImportCopy.

Lemma map_get_app_fresh {V : Type} (m : list (string * V)) (k : string) (v : V) :
  ~ In k (map fst m) -> Js.map_get (List.app m [(k, v)]) k = Some v.
Proof.
  induction m as [|[k1 v1] m IH]; simpl; intros H.
  - now rewrite String.eqb_refl.
  - destruct (String.eqb_spec k1 k) as [->|Hne]; [tauto|]. apply IH. tauto.
Qed.

Lemma map_set_app_fresh {V : Type} (m : list (string * V)) (k : string) (v v' : V) :
  ~ In k (map fst m) -> Js.map_set (List.app m [(k, v)]) k v' = List.app m [(k, v')].
Proof.
  induction m as [|[k1 v1] m IH]; simpl; intros H.
  - now rewrite String.eqb_refl.
  - destruct (String.eqb_spec k1 k) as [->|Hne]; [tauto|]. f_equal. apply IH. tauto.
Qed.

Lemma map_set_fresh {V : Type} (m : list (string * V)) (k : string) (v : V) :
  ~ In k (map fst m) -> Js.map_set m k v = (m ++ [(k, v)])%list.
Proof.
  induction m as [|[k1 v1] m IH]; simpl; intros H; [reflexivity|].
  destruct (String.eqb_spec k1 k) as [->|Hne]; [tauto|]. f_equal. apply IH. tauto.
Qed.

Lemma addImports_extend (rest pre : list string) (m : ImportMap) (p : string) :
  ~ In p (map fst m) -> NoDup (List.app pre rest) ->
  ImportManager.addImports (List.app m [(p, pre)]) p rest = List.app m [(p, List.app pre rest)].
Proof.
  unfold ImportManager.addImports. revert pre.
  induction rest as [|n rest IH]; intros pre Hp Hnd; simpl.
  - now rewrite app_nil_r.
  - unfold ImportManager.addImport at 2. rewrite addImportToMap_eq.
    unfold names_at. rewrite (map_get_app_fresh m p pre Hp).
    assert (Hn : Js.arr_includes pre n = false).
    { apply arr_includes_false. intros Hin.
      apply NoDup_remove_2 in Hnd. apply Hnd. apply in_or_app. now left. }
    rewrite Hn. rewrite (map_set_app_fresh m p pre _ Hp).
    unfold Js.push. rewrite (IH (pre ++ [n])%list Hp).
    + now rewrite <- app_assoc.
    + now rewrite <- app_assoc.
Qed.

Lemma addImports_fresh (names : list string) (m : ImportMap) (p : string) :
  ~ In p (map fst m) -> NoDup names -> names <> [] ->
  ImportManager.addImports m p names = (m ++ [(p, names)])%list.
Proof.
  intros Hp Hnd Hne. destruct names as [|n rest]; [congruence|].
  unfold ImportManager.addImports. cbn [fold_left].
  unfold ImportManager.addImport at 2. rewrite addImportToMap_eq.
  assert (Hnone : names_at m p = []).
  { unfold names_at. destruct (Js.map_get m p) eqn:E; [|reflexivity].
    exfalso. apply Hp. apply map_has_In. unfold Js.map_has. now rewrite E. }
  rewrite Hnone. cbn [Js.arr_includes existsb Js.push app].
  rewrite (map_set_fresh m p [n] Hp).
  exact (addImports_extend rest [n] m p Hp Hnd).
Qed.

Lemma merge_copy (other m : ImportMap) :
  NoDup (map fst (List.app m other)) ->
  (forall p names, In (p, names) other -> NoDup names /\ names <> []) ->
  ImportManager.merge m other = (m ++ other)%list.
Proof.
  unfold ImportManager.merge. revert m.
  induction other as [|[p names] other IH]; intros m Hnd H; simpl.
  - now rewrite app_nil_r.
  - destruct (H p names (or_introl eq_refl)) as [Hn Hne].
    rewrite addImports_fresh; [| |exact Hn|exact Hne].
    + rewrite IH.
      * now rewrite <- app_assoc.
      * now rewrite <- app_assoc.
      * intros q ns Hin. apply (H q ns). now right.
    + rewrite map_app in Hnd. simpl in Hnd. apply NoDup_remove_2 in Hnd.
      intros Hin. apply Hnd. apply in_or_app. now left.
Qed.

Lemma addImportToMap_populated (m : ImportMap) (p n : string) :
  populated m -> populated (addImportToMap m p n).
Proof.
  intros H. rewrite addImportToMap_eq.
  destruct (Js.arr_includes (names_at m p) n); [exact H|].
  intros q names Hin. apply map_set_entries in Hin as [Hin|Hin]; [now apply (H q names)|].
  injection Hin as -> ->. unfold Js.push. intros E. apply app_eq_nil in E as [_ E]. discriminate E.
Qed.

Lemma addImports_populated (names : list string) (m : ImportMap) (p : string) :
  populated m -> populated (ImportManager.addImports m p names).
Proof.
  unfold ImportManager.addImports. revert m.
  induction names as [|n names IH]; intros m H; simpl; [exact H|].
  apply IH. now apply addImportToMap_populated.
Qed.

Lemma merge_populated (other m : ImportMap) :
  populated m -> populated (ImportManager.merge m other).
Proof.
  unfold ImportManager.merge. revert m.
  induction other as [|e other IH]; intros m H; simpl; [exact H|].
  apply IH. now apply addImports_populated.
Qed.

Lemma merges_invariant (l : list ImportMap) (m : ImportMap) :
  well_formed m -> populated m ->
  well_formed (fold_left ImportManager.merge l m)
  /\ populated (fold_left ImportManager.merge l m).
Proof.
  revert m. induction l as [|o l IH]; intros m Hw Hp; simpl; [now split|].
  apply IH; [now apply merge_well_formed|now apply merge_populated].
Qed.

(** A registry filled from a well-formed, populated map is that map. *)
Lemma merge_new (m : ImportMap) :
  well_formed m -> populated m -> ImportManager.merge ImportManager.new m = m.
Proof.
  intros [Hk Hn] Hp. unfold ImportManager.new. rewrite merge_copy; [reflexivity|exact Hk|].
  intros p names Hin. split; [now apply (Hn p names)|now apply (Hp p names)].
Qed.

End ImportCopy.

(** ** The column loop of the helper and table generators *)

Section ColumnLoop.

Variable clean : string -> string.

Lemma column_ok_truthy (c : ColumnDefinition) :
  Js.truthy_opt (column_error (ColumnGenerator c)) = negb (column_ok c).
Proof.
  unfold column_ok. destruct (column_error (ColumnGenerator c)) as [e|] eqn:E; [|reflexivity].
  cbn [Js.truthy_opt negb]. now apply ColumnGenerator_error_truthy in E.
Qed.

(** A loop over accepted columns runs to its end. *)
Lemma column_loop_all_ok (columns : list ColumnDefinition) (st : loop_state) :
  forallb column_ok columns = true ->
  column_loop clean columns st
  = (mkLoop (merged_imports (importManager st) columns)
            (List.app (allTables st)
                      (flat_map (fun c => column_tables (ColumnGenerator c)) columns))
            (List.app (columnCodes st)
                      (map (fun c => "    " ++ clean (column (ColumnGenerator c))) columns))
            (List.app (encoded st) columns),
     None).
Proof.
  revert st. induction columns as [|c columns IH]; intros st H; cbn [column_loop].
  - cbn [map flat_map merged_imports fold_left]. rewrite !app_nil_r. now destruct st.
  - cbn [forallb] in H. apply andb_prop in H as [Hc Hr].
    rewrite column_ok_truthy, Hc. cbn [negb].
    rewrite (IH _ Hr). cbn [importManager allTables columnCodes encoded].
    unfold Js.push, merged_imports. cbn [map flat_map fold_left].
    now rewrite <- !app_assoc.
Qed.

(** A loop with a rejected column stops with an error. *)
Lemma column_loop_some_bad (columns : list ColumnDefinition) (st : loop_state) :
  forallb column_ok columns = false ->
  exists st' e, column_loop clean columns st = (st', Some e) /\ Js.truthy e = true.
Proof.
  revert st. induction columns as [|c columns IH]; intros st H; cbn [column_loop].
  - discriminate.
  - cbn [forallb] in H. rewrite column_ok_truthy.
    destruct (column_ok c); cbn [negb andb] in *.
    + now apply IH.
    + eexists. eexists. split; reflexivity.
Qed.

End ColumnLoop.

Lemma trim_truthy (s : string) :
  negb (Js.truthy s) || negb (Js.truthy (Js.trim s)) = negb (Js.truthy (Js.trim s)).
Proof.
  destruct (Js.truthy (Js.trim s)) eqn:E; [|now rewrite orb_true_r].
  rewrite orb_false_r. apply truthy_true in E. apply trim_nonempty in E.
  apply truthy_true in E. now rewrite E.
Qed.

(** X13. [HelperGenerator] accepts a definition whose name consists of
    ASCII characters exactly when the name is not blank, it has a column,
    and every column is accepted by [ColumnGenerator].  The code of an accepted helper lists one entry
    per column, in order: the column fragment without its trailing comma,
    indented by four spaces; its imports are those of the columns,
    merged in order, and its tables those referenced by the columns,
    each once. *)
Theorem HelperGenerator_accepts (definition : HelperDefinition)
        (Hascii : ascii_text (helper_name definition) = true) :
  let r := HelperGenerator definition in
  let name := helper_name definition in
  let columns := helper_columns definition in
  let accepted :=
    Js.truthy (Js.trim name) && negb (Nat.eqb (List.length columns) 0)
      && forallb column_ok columns in
  helper_ok definition = accepted
  /\ (accepted = true ->
      helperCode r
      = "export const " ++ name ++ " = {" ++ nl
          ++ Js.join ("," ++ nl)
               (map (fun c => "    " ++ Js.strip_one_trailing_comma (column (ColumnGenerator c)))
                    columns)
          ++ nl ++ "};"
      /\ helper_imports r = merged_imports [] columns
      /\ helper_tables r
         = Js.set_of (flat_map (fun c => column_tables (ColumnGenerator c)) columns))
  /\ (accepted = false ->
      helperCode r = "" /\ helper_imports r = [] /\ helper_tables r = []
      /\ exists e, helper_error r = Some e /\ e <> "").
Proof.
  cbv zeta. unfold helper_ok, HelperGenerator, HelperGenerator_run.
  rewrite trim_truthy.
  destruct (Js.truthy (Js.trim (helper_name definition))); cbn [negb andb fst].
  2:{ split; [reflexivity|]. split; [discriminate|]. intros _.
      repeat split. eexists. split; [reflexivity|discriminate]. }
  destruct (Nat.eqb (List.length (helper_columns definition)) 0); cbn [negb andb fst].
  { split; [reflexivity|]. split; [discriminate|]. intros _.
    repeat split. eexists. split; [reflexivity|discriminate]. }
  destruct (forallb column_ok (helper_columns definition)) eqn:E.
  - rewrite (column_loop_all_ok _ _ _ E). cbn.
    split; [reflexivity|]. split; [|discriminate]. intros _. repeat split.
  - destruct (column_loop_some_bad Js.strip_one_trailing_comma _
                (mkLoop ImportManager.new [] [] []) E) as (st' & e & -> & He).
    cbn. split; [reflexivity|]. split; [discriminate|]. intros _.
    repeat split. exists e. split; [reflexivity|]. now apply truthy_true.
Qed.

(** X13, at a helper with two columns and at one with a name of two
    spaces. *)
Lemma HelperGenerator_accepts_witness :
  let columns := [mkColumn "createdAt" (Some "date") (Some (mkOptions (Some true) None None
                                                             None None None));
                  mkColumn "updatedAt" (Some "date") None] in
  ascii_text "AuditColumns" = true
  /\ helper_ok (mkHelper "AuditColumns" columns) = true
  /\ helperCode (HelperGenerator (mkHelper "AuditColumns" columns))
     = "export const AuditColumns = {" ++ nl
         ++ "    createdAt: timestamp('createdAt').notNull()," ++ nl
         ++ "    updatedAt: timestamp('updatedAt')" ++ nl ++ "};"
  /\ ascii_text "  " = true
  /\ helper_ok (mkHelper "  " columns) = false.
Proof.
  intros columns.
  assert (H1 : ascii_text (helper_name (mkHelper "AuditColumns" columns)) = true)
    by reflexivity.
  assert (H2 : ascii_text (helper_name (mkHelper "  " columns)) = true) by reflexivity.
  destruct (HelperGenerator_accepts (mkHelper "AuditColumns" columns) H1) as (Hok & Hcode & _).
  destruct (HelperGenerator_accepts (mkHelper "  " columns) H2) as (Hno & _).
  split; [exact H1|]. split; [rewrite Hok; reflexivity|].
  split; [rewrite (proj1 (Hcode eq_refl)); reflexivity|].
  split; [exact H2|]. rewrite Hno. reflexivity.
Defined.

(** X14. [TableGenerator] accepts a definition whose name consists of
    ASCII characters exactly when the name is not blank, it has a column
    or a helper reference, and every column is accepted by
    [ColumnGenerator].  An accepted table is rendered
    with a body of one entry per column and one spread per helper
    reference -- the empty body [{}] is never produced --, under the
    given [dbName] or else the snake-case form of the name; [pgTable] is
    always imported, the helper references are imported from the helpers
    namespace, and a composite key of two or more columns adds the key
    block and the import of [primaryKey]. *)
Theorem TableGenerator_accepts (definition : TableDefinition)
        (Hascii : ascii_text (table_name definition) = true) :
  let r := TableGenerator definition in
  let name := table_name definition in
  let columns := table_columns definition in
  let helperRefs := match helperReferences definition with Some l => l | None => [] end in
  let pk := match compositePrimaryKey definition with Some l => l | None => [] end in
  let accepted :=
    Js.truthy (Js.trim name)
      && negb (Nat.eqb (List.length columns) 0 && Nat.eqb (List.length helperRefs) 0)
      && forallb column_ok columns in
  let tableName :=
    match dbName definition with
    | Some d => if Js.truthy d then d else SnakeCase name
    | None => SnakeCase name
    end in
  let entries :=
    List.app (map (fun c => "    " ++ Js.strip_trailing_commas (column (ColumnGenerator c)))
                  columns)
             (map (fun helper => "    ..." ++ helper) helperRefs) in
  let keyBlock :=
    if Nat.ltb 1 (List.length pk) then
      ", (" ++ Js.toLowerCase name ++ ") => ({" ++ nl
        ++ "    compositePK: primaryKey({ columns: ["
        ++ Js.join ", " (map (fun c => Js.toLowerCase name ++ "." ++ c) pk) ++ "] })"
        ++ nl ++ "})"
    else "" in
  table_ok definition = accepted
  /\ (accepted = true ->
      tableCode r
      = "export const " ++ Js.toLowerCase name ++ " = pgTable('" ++ tableName ++ "', {" ++ nl
          ++ Js.join ("," ++ nl) entries ++ nl ++ "}" ++ keyBlock ++ ");"
      /\ entries <> []
      /\ table_imports r
         = (let im0 := merged_imports [("drizzle-orm/pg-core", ["pgTable"])] columns in
            let im1 := ImportManager.addImports im0 "../helpers/index.js" helperRefs in
            if Nat.ltb 1 (List.length pk)
            then ImportManager.addImport im1 "drizzle-orm/pg-core" "primaryKey"
            else im1)
      /\ table_tables r
         = Js.set_of (flat_map (fun c => column_tables (ColumnGenerator c)) columns))
  /\ (accepted = false ->
      tableCode r = "" /\ table_imports r = [] /\ table_tables r = []
      /\ exists e, table_error r = Some e /\ e <> "").
Proof.
  cbv zeta. unfold table_ok, TableGenerator.
  rewrite trim_truthy.
  destruct (Js.truthy (Js.trim (table_name definition))); cbn [negb andb].
  2:{ split; [reflexivity|]. split; [discriminate|]. intros _.
      repeat split. eexists. split; [reflexivity|discriminate]. }
  destruct (Nat.eqb (List.length (table_columns definition)) 0
            && Nat.eqb (List.length match helperReferences definition with
                                    | Some l => l | None => [] end) 0) eqn:Hempty;
    cbn [negb andb].
  { split; [reflexivity|]. split; [discriminate|]. intros _.
    repeat split. eexists. split; [reflexivity|discriminate]. }
  destruct (forallb column_ok (table_columns definition)) eqn:E.
  2:{ destruct (column_loop_some_bad Js.strip_trailing_commas _
                  (mkLoop (ImportManager.addImport ImportManager.new
                             "drizzle-orm/pg-core" "pgTable") [] [] []) E)
        as (st' & e & -> & He).
      cbn. split; [reflexivity|]. split; [discriminate|]. intros _.
      repeat split. exists e. split; [reflexivity|]. now apply truthy_true. }
  rewrite (column_loop_all_ok _ _ _ E).
  cbn [importManager allTables columnCodes encoded app].
  assert (Hname : (if Js.truthy_opt (dbName definition)
                   then match dbName definition with Some d => d | None => "" end
                   else SnakeCase (table_name definition))
                  = match dbName definition with
                    | Some d => if Js.truthy d then d else SnakeCase (table_name definition)
                    | None => SnakeCase (table_name definition)
                    end).
  { destruct (dbName definition) as [d|]; reflexivity. }
  rewrite Hname. clear Hname.
  assert (Hentries :
            List.app (map (fun c => "    " ++ Js.strip_trailing_commas (column (ColumnGenerator c)))
                          (table_columns definition))
                     (map (fun helper => "    ..." ++ helper)
                          match helperReferences definition with Some l => l | None => [] end)
            <> []).
  { intros Hnil. apply app_eq_nil in Hnil as [H1 H2].
    apply map_eq_nil in H1. apply map_eq_nil in H2.
    rewrite H1, H2 in Hempty. discriminate. }
  destruct (table_columns definition) as [|c0 cols];
    destruct (match helperReferences definition with Some l => l | None => [] end)
      as [|h0 refs];
    try (exfalso; apply Hentries; reflexivity);
    (split; [destruct (compositePrimaryKey definition) as [pk|];
             [destruct (Nat.ltb 1 (List.length pk))|]; reflexivity|]);
    (split; [|discriminate]); intros _;
    (destruct (compositePrimaryKey definition) as [pk|];
     [destruct (Nat.ltb 1 (List.length pk))|]);
    cbn [List.length Nat.ltb Nat.leb app map tableCode table_imports table_tables
         ImportManager.getImports];
    (split; [rewrite ?append_assoc; cbn [append]; rewrite ?append_assoc; reflexivity|]);
    (split; [discriminate|]); split; reflexivity.
Qed.

(** X14, at a table with a column, a helper reference and a key of two
    columns. *)
Lemma TableGenerator_accepts_witness :
  let d := mkTable "UserRoles" None [mkColumn "userId" (Some "number") None]
             (Some ["AuditColumns"]) (Some ["userId"; "roleId"]) in
  ascii_text (table_name d) = true
  /\ table_ok d = true
  /\ tableCode (TableGenerator d)
     = "export const userroles = pgTable('user_roles', {" ++ nl
         ++ "    userId: integer('userId')," ++ nl
         ++ "    ...AuditColumns" ++ nl
         ++ "}, (userroles) => ({" ++ nl
         ++ "    compositePK: primaryKey({ columns: [userroles.userId, userroles.roleId] })"
         ++ nl ++ "}));"
  /\ table_imports (TableGenerator d)
     = [("drizzle-orm/pg-core", ["pgTable"; "integer"; "primaryKey"]);
        ("../helpers/index.js", ["AuditColumns"])].
Proof.
  intros d.
  assert (H1 : ascii_text (table_name d) = true) by reflexivity.
  destruct (TableGenerator_accepts d H1) as (Hok & Hacc & _).
  split; [exact H1|]. split; [rewrite Hok; reflexivity|].
  destruct (Hacc eq_refl) as (Hcode & _ & Himports & _).
  split; [rewrite Hcode; reflexivity|rewrite Himports; reflexivity].
Defined.

(** ** Batch generation *)

Section BatchLoop.

Variable D : Type.
Variables (code : D -> string) (imps : D -> ImportMap) (tabs : D -> list string)
          (err : D -> option string) (msg : D -> string).

Let failed (d : D) : bool := Js.truthy_opt (err d).

Let step (st : batch_state) (d : D) : batch_state :=
  if Js.truthy_opt (err d) then
    mkBatch (batch_imports st) (batch_tables st) (batch_codes st)
            (Js.push (batch_errors st) (msg d))
  else
    mkBatch (ImportManager.merge (batch_imports st) (imps d))
            (batch_tables st ++ tabs d)%list
            (Js.push (batch_codes st) (code d))
            (batch_errors st).

Lemma batch_fold (defs : list D) (st : batch_state) :
  fold_left step defs st
  = mkBatch
      (fold_left ImportManager.merge (map imps (filter (fun d => negb (failed d)) defs))
                 (batch_imports st))
      (batch_tables st ++ flat_map tabs (filter (fun d => negb (failed d)) defs))%list
      (batch_codes st ++ map code (filter (fun d => negb (failed d)) defs))%list
      (batch_errors st ++ map msg (filter failed defs))%list.
Proof.
  revert st. induction defs as [|d defs IH]; intros st; cbn [fold_left filter].
  - cbn [map flat_map fold_left]. rewrite !app_nil_r. now destruct st.
  - rewrite IH.
    assert (Hs : step st d
                 = if failed d then
                     mkBatch (batch_imports st) (batch_tables st) (batch_codes st)
                             (Js.push (batch_errors st) (msg d))
                   else
                     mkBatch (ImportManager.merge (batch_imports st) (imps d))
                             (batch_tables st ++ tabs d)%list
                             (Js.push (batch_codes st) (code d))
                             (batch_errors st)) by reflexivity.
    rewrite Hs. clear Hs.
    destruct (failed d); cbn [negb map flat_map fold_left batch_imports
      batch_tables batch_codes batch_errors]; unfold Js.push;
      rewrite <- ?app_assoc; reflexivity.
Qed.

End BatchLoop.

Lemma HelperGenerator_error_truthy (d : HelperDefinition) :
  Js.truthy_opt (helper_error (HelperGenerator d)) = negb (helper_ok d).
Proof.
  unfold helper_ok, HelperGenerator, HelperGenerator_run.
  destruct (negb (Js.truthy (helper_name d)) || negb (Js.truthy (Js.trim (helper_name d))));
    [reflexivity|].
  destruct (Nat.eqb (List.length (helper_columns d)) 0); [reflexivity|].
  destruct (forallb column_ok (helper_columns d)) eqn:E.
  - now rewrite (column_loop_all_ok _ _ _ E).
  - destruct (column_loop_some_bad Js.strip_one_trailing_comma _
                (mkLoop ImportManager.new [] [] []) E) as (st' & e & -> & He).
    cbn. exact He.
Qed.

Lemma TableGenerator_error_truthy (d : TableDefinition) :
  Js.truthy_opt (table_error (TableGenerator d)) = negb (table_ok d).
Proof.
  unfold table_ok, TableGenerator.
  destruct (negb (Js.truthy (table_name d)) || negb (Js.truthy (Js.trim (table_name d))));
    [reflexivity|].
  destruct (Nat.eqb (List.length (table_columns d)) 0 && _); [reflexivity|].
  destruct (forallb column_ok (table_columns d)) eqn:E.
  - rewrite (column_loop_all_ok _ _ _ E).
    destruct (if Nat.ltb 0 _ then _ else _) as [im1 spreads].
    destruct (match compositePrimaryKey d with Some _ => _ | None => _ end) as [im2 code].
    reflexivity.
  - destruct (column_loop_some_bad Js.strip_trailing_commas _
                (mkLoop (ImportManager.addImport ImportManager.new
                           "drizzle-orm/pg-core" "pgTable") [] [] []) E)
      as (st' & e & -> & He).
    cbn. exact He.
Qed.

Lemma filter_negb_ok {X : Type} (ok failed : X -> bool) (l : list X) :
  (forall x, failed x = negb (ok x)) ->
  filter (fun d => negb (failed d)) l = filter ok l
  /\ filter failed l = filter (fun d => negb (ok d)) l.
Proof.
  intros H. split; apply filter_ext; intros x; rewrite H; [apply negb_involutive|reflexivity].
Qed.

(** X15. [generateMultipleHelpers] does not stop at a helper that
    [HelperGenerator] rejects: the codes, imports, import statements,
    tables and file it returns are those of the accepted definitions
    alone, in order, and [errors] holds one message per rejected
    definition, in order, naming it -- or is absent when every
    definition is accepted. *)
Theorem generateMultipleHelpers_collects (definitions : list HelperDefinition) :
  let r := generateMultipleHelpers definitions in
  let accepted := filter helper_ok definitions in
  let rejected := filter (fun d => negb (helper_ok d)) definitions in
  r = with_errors (generateMultipleHelpers accepted) (errors r)
  /\ errors (generateMultipleHelpers accepted) = None
  /\ codes r = map (fun d => helperCode (HelperGenerator d)) accepted
  /\ errors r
     = match rejected with
       | [] => None
       | _ => Some (map (fun d => "Error in helper '" ++ helper_name d ++ "': "
                                    ++ Js.str_or_undefined (helper_error (HelperGenerator d)))
                        rejected)
       end
  /\ List.length (codes r) + List.length rejected = List.length definitions
  /\ fullFile r = importStatements r ++ nl ++ nl ++ Js.join (nl ++ nl) (codes r).
Proof.
  cbv zeta. unfold generateMultipleHelpers.
  pose proof (batch_fold HelperDefinition
                (fun d => helperCode (HelperGenerator d))
                (fun d => helper_imports (HelperGenerator d))
                (fun d => helper_tables (HelperGenerator d))
                (fun d => helper_error (HelperGenerator d))
                (fun d => "Error in helper '" ++ helper_name d ++ "': "
                            ++ Js.str_or_undefined (helper_error (HelperGenerator d))))
    as Hfold.
  cbv zeta beta in Hfold.
  destruct (filter_negb_ok helper_ok
              (fun d => Js.truthy_opt (helper_error (HelperGenerator d))) definitions
              HelperGenerator_error_truthy) as [Hg Hb].
  destruct (filter_negb_ok helper_ok
              (fun d => Js.truthy_opt (helper_error (HelperGenerator d)))
              (filter helper_ok definitions)
              HelperGenerator_error_truthy) as [Hg' Hb'].
  assert (Hff : filter helper_ok (filter helper_ok definitions) = filter helper_ok definitions).
  { clear. induction definitions as [|x l IH]; simpl; [reflexivity|].
    destruct (helper_ok x) eqn:E; simpl; [rewrite E, IH|]; auto. }
  assert (Hfn : filter (fun d => negb (helper_ok d)) (filter helper_ok definitions) = []).
  { clear. induction definitions as [|x l IH]; simpl; [reflexivity|].
    destruct (helper_ok x) eqn:E; simpl; [rewrite E|]; auto. }
  assert (Hlen : List.length (filter helper_ok definitions)
                 + List.length (filter (fun d => negb (helper_ok d)) definitions)
                 = List.length definitions).
  { clear. induction definitions as [|x l IH]; simpl; [reflexivity|].
    destruct (helper_ok x); simpl; lia. }
  rewrite (Hfold definitions), (Hfold (filter helper_ok definitions)).
  rewrite Hg, Hb, Hg', Hb', Hff, Hfn.
  unfold batch_result, with_errors.
  cbn [batch_imports batch_tables batch_codes batch_errors codes batch_result_imports
       importStatements batch_result_tables errors fullFile app map List.length Nat.ltb
       Nat.leb].
  split; [reflexivity|]. split; [reflexivity|]. split; [reflexivity|].
  split.
  { destruct (filter (fun d => negb (helper_ok d)) definitions); reflexivity. }
  split; [|reflexivity].
  rewrite length_map. exact Hlen.
Qed.

(** X16. [generateMultipleTables] does not stop at a table that
    [TableGenerator] rejects: what it returns is what it returns for the
    accepted definitions alone, plus one error message per rejected
    definition, in order.  [generateCompleteSchema] without additional
    imports returns the same codes, imports, import statements, tables
    and errors, and its file is the file of [generateMultipleTables]
    after the header. *)
Theorem generateMultipleTables_collects (definitions : list TableDefinition) :
  let r := generateMultipleTables definitions in
  let accepted := filter table_ok definitions in
  let rejected := filter (fun d => negb (table_ok d)) definitions in
  let s := generateCompleteSchema definitions None in
  r = with_errors (generateMultipleTables accepted) (errors r)
  /\ errors (generateMultipleTables accepted) = None
  /\ codes r = map (fun d => tableCode (TableGenerator d)) accepted
  /\ errors r
     = match rejected with
       | [] => None
       | _ => Some (map (fun d => "Error in table '" ++ table_name d ++ "': "
                                    ++ Js.str_or_undefined (table_error (TableGenerator d)))
                        rejected)
       end
  /\ List.length (codes r) + List.length rejected = List.length definitions
  /\ fullFile r = importStatements r ++ nl ++ nl ++ Js.join (nl ++ nl) (codes r)
  /\ codes s = codes r /\ errors s = errors r
  /\ batch_result_imports s = batch_result_imports r
  /\ batch_result_tables s = batch_result_tables r
  /\ importStatements s = importStatements r
  /\ fullFile s = fileHeader ++ nl ++ fullFile r.
Proof.
  cbv zeta.
  pose proof (batch_fold TableDefinition
                (fun d => tableCode (TableGenerator d))
                (fun d => table_imports (TableGenerator d))
                (fun d => table_tables (TableGenerator d))
                (fun d => table_error (TableGenerator d))
                (fun d => "Error in table '" ++ table_name d ++ "': "
                            ++ Js.str_or_undefined (table_error (TableGenerator d))))
    as Hfold.
  cbv zeta beta in Hfold.
  assert (Hcopy : ImportManager.merge ImportManager.new
                    (batch_result_imports (generateMultipleTables definitions))
                  = batch_result_imports (generateMultipleTables definitions)).
  { unfold generateMultipleTables. rewrite (Hfold definitions).
    unfold batch_result. cbn [batch_result_imports batch_imports ImportManager.getImports].
    assert (Hw : well_formed (@nil (string * list string))).
    { split; [constructor|]. intros p names []. }
    assert (Hp : populated (@nil (string * list string))) by (intros p names []).
    destruct (merges_invariant
                (map (fun d => table_imports (TableGenerator d))
                     (filter (fun d => negb (Js.truthy_opt (table_error (TableGenerator d))))
                             definitions))
                [] Hw Hp) as [Hw' Hp'].
    now apply merge_new. }
  assert (Hschema :
            codes (generateCompleteSchema definitions None)
            = codes (generateMultipleTables definitions)
            /\ errors (generateCompleteSchema definitions None)
               = errors (generateMultipleTables definitions)
            /\ batch_result_imports (generateCompleteSchema definitions None)
               = batch_result_imports (generateMultipleTables definitions)
            /\ batch_result_tables (generateCompleteSchema definitions None)
               = batch_result_tables (generateMultipleTables definitions)
            /\ importStatements (generateCompleteSchema definitions None)
               = importStatements (generateMultipleTables definitions)
            /\ fullFile (generateCompleteSchema definitions None)
               = fileHeader ++ nl ++ fullFile (generateMultipleTables definitions)).
  { unfold generateCompleteSchema.
    cbn [codes errors batch_result_imports batch_result_tables importStatements fullFile
         fold_left].
    rewrite Hcopy. unfold generateMultipleTables, batch_result.
    cbn [fullFile codes batch_result_imports importStatements ImportManager.getImports].
    repeat split; rewrite ?append_assoc; reflexivity. }
  revert Hschema. generalize (generateCompleteSchema definitions None). intros s Hschema.
  clear Hcopy.
  destruct (filter_negb_ok table_ok
              (fun d => Js.truthy_opt (table_error (TableGenerator d))) definitions
              TableGenerator_error_truthy) as [Hg Hb].
  destruct (filter_negb_ok table_ok
              (fun d => Js.truthy_opt (table_error (TableGenerator d)))
              (filter table_ok definitions)
              TableGenerator_error_truthy) as [Hg' Hb'].
  assert (Hff : filter table_ok (filter table_ok definitions) = filter table_ok definitions).
  { clear. induction definitions as [|x l IH]; simpl; [reflexivity|].
    destruct (table_ok x) eqn:E; simpl; [rewrite E, IH|]; auto. }
  assert (Hfn : filter (fun d => negb (table_ok d)) (filter table_ok definitions) = []).
  { clear. induction definitions as [|x l IH]; simpl; [reflexivity|].
    destruct (table_ok x) eqn:E; simpl; [rewrite E|]; auto. }
  assert (Hlen : List.length (filter table_ok definitions)
                 + List.length (filter (fun d => negb (table_ok d)) definitions)
                 = List.length definitions).
  { clear. induction definitions as [|x l IH]; simpl; [reflexivity|].
    destruct (table_ok x); simpl; lia. }
  revert Hschema. unfold generateMultipleTables.
  rewrite (Hfold definitions), (Hfold (filter table_ok definitions)).
  rewrite Hg, Hb, Hg', Hb', Hff, Hfn.
  unfold batch_result, with_errors.
  cbn [batch_imports batch_tables batch_codes batch_errors codes batch_result_imports
       importStatements batch_result_tables errors fullFile app map List.length Nat.ltb
       Nat.leb].
  intros Hschema.
  split; [reflexivity|]. split; [reflexivity|]. split; [reflexivity|].
  split.
  { destruct (filter (fun d => negb (table_ok d)) definitions); reflexivity. }
  split; [rewrite length_map; exact Hlen|].
  split; [reflexivity|].
  exact Hschema.
Qed.


(** ** What the column generator accepts *)

Section ColumnAcceptance.

Lemma toLowerCase_no_upper (s : string) : all_chars no_upper (Js.toLowerCase s) = true.
Proof.
  unfold all_chars. induction s as [|c s IH]; [reflexivity|].
  cbn [Js.toLowerCase Js.smap list_ascii_of_string forallb].
  unfold no_upper at 1. rewrite lower_char_not_upper. exact IH.
Qed.

Lemma property_TypeMap_accepted (k : string) :
  all_chars no_upper k = true ->
  (exists f, property TypeMap k = Some f) <-> In k accepted_types.
Proof.
  intros Hk. unfold accepted_types, property, TypeMap, Object_prototype.
  cbn [own_property map fst app In].
  repeat match goal with
         | |- context [String.eqb ?l k] =>
             destruct (String.eqb_spec l k) as [E|?];
             [subst k; first [vm_compute in Hk; discriminate Hk | split; [intros _; repeat (first [left; reflexivity | right]) | intros _; eexists; reflexivity]]|]
         end.
  split; [intros [f Hf]; simpl in Hf; discriminate Hf|].
  intros H. exfalso. repeat (destruct H as [H|H]; [contradiction|]).
  exact H.
Qed.

Lemma ColumnGenerator_inferred (d : ColumnDefinition) :
  (if Js.truthy_opt (col_type d) then col_type d
   else if Js.truthy_opt
             (enumValues match col_options d with Some o => o | None => no_options end)
        then Some "enum" else None)
  = inferred_type d.
Proof.
  unfold inferred_type. destruct (Js.truthy_opt (col_type d)); [reflexivity|].
  destruct (col_options d); reflexivity.
Qed.

Lemma column_error_none_iff (d : ColumnDefinition) :
  column_error (ColumnGenerator d) = None
  <-> exists t, inferred_type d = Some t /\ In (Js.toLowerCase t) accepted_types.
Proof.
  unfold ColumnGenerator. rewrite ColumnGenerator_inferred.
  destruct (inferred_type d) as [t|];
    [|split; [discriminate|intros (t & Ht & _); discriminate Ht]].
  pose proof (property_TypeMap_accepted (Js.toLowerCase t) (toLowerCase_no_upper t)) as Hacc.
  destruct (property TypeMap (Js.toLowerCase t)) as [f|].
  - split; [intros _; exists t; split; [reflexivity|apply Hacc; eauto]|reflexivity].
  - split; [discriminate|]. intros (t' & [= <-] & Hin).
    apply Hacc in Hin as [f Hf]. discriminate Hf.
Qed.

End ColumnAcceptance.

(** X17. [ColumnGenerator] accepts a definition exactly when it has a
    type, given or inferred from [enumValues], whose lower-case form is a
    key of [TypeMap] -- or one of [constructor] and [__proto__], which
    every object inherits.  A rejected definition yields an empty
    fragment, no imports and no tables, with a message that names the
    column and, for an unsupported type, the type as it was given; an
    accepted one yields a fragment that starts with the column name and a
    colon and ends with a comma. *)
Theorem ColumnGenerator_accepts (definition : ColumnDefinition) :
  let r := ColumnGenerator definition in
  let name := col_name definition in
  (column_error r = None
   <-> exists t, inferred_type definition = Some t /\ In (Js.toLowerCase t) accepted_types)
  /\ (inferred_type definition = None ->
      r = mkColumnResult "" [] []
            (Some ("Type is required for column '" ++ name
                   ++ "'. Provide either 'type' property or 'enumValues' in options.")))
  /\ (forall t, inferred_type definition = Some t ->
      ~ In (Js.toLowerCase t) accepted_types ->
      r = mkColumnResult "" [] []
            (Some ("Unsupported type '" ++ t ++ "' for column '" ++ name ++ "'.")))
  /\ (column_error r = None ->
      exists body, column r = name ++ ": " ++ body ++ ",").
Proof.
  cbv zeta. unfold ColumnGenerator. rewrite ColumnGenerator_inferred.
  destruct (inferred_type definition) as [t|].
  2:{ split; [split; [discriminate|intros (t & Ht & _); discriminate Ht]|].
      split; [reflexivity|]. split; [discriminate|]. discriminate. }
  pose proof (property_TypeMap_accepted (Js.toLowerCase t) (toLowerCase_no_upper t)) as Hacc.
  destruct (property TypeMap (Js.toLowerCase t)) as [f|].
  - assert (Hin : In (Js.toLowerCase t) accepted_types) by (apply Hacc; eauto).
    split; [split; [intros _; eauto|reflexivity]|].
    split; [discriminate|].
    split; [intros t' [= <-] Hn; contradiction|].
    intros _. cbn [column].
    assert (Happ : forall s x, (exists b, s = col_name definition ++ ": " ++ b) ->
                               exists b, s ++ x = col_name definition ++ ": " ++ b).
    { intros s x [b ->]. exists (b ++ x). now rewrite !append_assoc. }
    assert (Hend : forall s, (exists b, s = col_name definition ++ ": " ++ b) ->
                             exists b, s ++ "," = col_name definition ++ ": " ++ b ++ ",").
    { intros s [b ->]. exists b. now rewrite !append_assoc. }
    apply Hend.
    repeat match goal with
           | |- exists b, (if ?c then _ else _) = _ => destruct c
           | |- exists b, match ?x with _ => _ end = _ => destruct x
           | |- exists b, (_ ++ _) = _ => first [eexists; reflexivity | apply Happ]
           end.
  - assert (Hnot : ~ In (Js.toLowerCase t) accepted_types).
    { intros Hin. apply Hacc in Hin as [f Hf]. discriminate Hf. }
    split; [split; [discriminate|intros (t' & [= <-] & Hin); contradiction]|].
    split; [discriminate|].
    split; [intros t' [= <-] _; reflexivity|]. discriminate.
Qed.

(** X18. Type names are case-insensitive: two definitions that differ
    only in the letter case of a non-empty [type] are both accepted or
    both rejected, and when accepted give the same fragment, imports and
    tables. *)
Theorem ColumnGenerator_type_case_insensitive
        (name t t' : string) (options : option ColumnOptions)
        (Ht : t <> "") (Ht' : t' <> "")
        (Hcase : Js.toLowerCase t = Js.toLowerCase t') :
  let r := ColumnGenerator (mkColumn name (Some t) options) in
  let r' := ColumnGenerator (mkColumn name (Some t') options) in
  column r = column r' /\ column_imports r = column_imports r'
  /\ column_tables r = column_tables r'
  /\ (column_error r = None <-> column_error r' = None)
  /\ (column_error r = None -> r = r').
Proof.
  cbv zeta. unfold ColumnGenerator. cbn [col_name col_type col_options].
  apply truthy_true in Ht, Ht'. cbn [Js.truthy_opt]. rewrite Ht, Ht', <- Hcase.
  destruct (property TypeMap (Js.toLowerCase t)) as [f|].
  - repeat split; reflexivity.
  - repeat split; try reflexivity; discriminate.
Qed.

(** X18, for [STRING] and [string]. *)
Lemma ColumnGenerator_type_case_insensitive_witness :
  ColumnGenerator (mkColumn "title" (Some "STRING")
                     (Some (mkOptions (Some true) None None (Some 80%Z) None None)))
  = ColumnGenerator (mkColumn "title" (Some "string")
                       (Some (mkOptions (Some true) None None (Some 80%Z) None None)))
  /\ column (ColumnGenerator (mkColumn "title" (Some "STRING")
                                (Some (mkOptions (Some true) None None (Some 80%Z) None None))))
     = "title: varchar('title', { length: 80 }).notNull(),".
Proof.
  assert (H1 : "STRING" <> "") by discriminate.
  assert (H2 : "string" <> "") by discriminate.
  split; [|reflexivity].
  apply (ColumnGenerator_type_case_insensitive "title" "STRING" "string"
           (Some (mkOptions (Some true) None None (Some 80%Z) None None)) H1 H2 eq_refl).
  reflexivity.
Defined.

(** X19. A foreign key of an accepted column is rendered last in its
    fragment, names the referenced table as the fragment's only table
    and imports it from the tables namespace; a column without
    [references] names no table and imports nothing from that
    namespace. *)
Theorem ColumnGenerator_references (definition : ColumnDefinition)
        (Hok : column_error (ColumnGenerator definition) = None) :
  let r := ColumnGenerator definition in
  let options := match col_options definition with Some o => o | None => no_options end in
  match references options with
  | Some ref =>
      column_tables r = [ref_table ref]
      /\ In (ref_table ref) (names_at (column_imports r) "../tables/index.js")
      /\ exists before,
           column r = before ++ ".references(() => " ++ ref_table ref ++ "."
                        ++ ref_column ref ++ "),"
  | None =>
      column_tables r = [] /\ names_at (column_imports r) "../tables/index.js" = []
  end.
Proof.
  cbv zeta. revert Hok. unfold ColumnGenerator.
  destruct (if Js.truthy_opt (col_type definition) then _ else _) as [t|]; [|discriminate].
  destruct (property TypeMap (Js.toLowerCase t)) as [f|]; [|discriminate].
  intros _. cbn [column column_tables column_imports].
  set (o := match col_options definition with Some o => o | None => no_options end).
  destruct (references o) as [ref|].
  - split; [reflexivity|]. split.
    + rewrite names_at_addImportToMap, String.eqb_refl.
      match goal with |- context [Js.arr_includes ?l ?x] =>
        destruct (Js.arr_includes l x) eqn:E end.
      * now apply arr_includes_In.
      * unfold Js.push. apply in_or_app. right. now left.
    + match goal with |- exists b, (?c6 ++ ?x) ++ "," = _ => exists c6 end.
      rewrite !append_assoc. reflexivity.
  - split; [reflexivity|].
    repeat match goal with
           | |- context [match ?x with Some _ => _ | None => _ end] => destruct x
           | |- context [if ?c then _ else _] => destruct c
           end;
      rewrite ?names_at_addImportToMap; reflexivity.
Qed.

(** X19, for a column referencing [users.id]. *)
Lemma ColumnGenerator_references_witness :
  let d := mkColumn "user_id" (Some "number")
             (Some (mkOptions (Some true) None None None None
                      (Some (mkReference "users" "id")))) in
  column (ColumnGenerator d) = "user_id: integer('user_id').notNull().references(() => users.id),"
  /\ column_tables (ColumnGenerator d) = ["users"]
  /\ In "users" (names_at (column_imports (ColumnGenerator d)) "../tables/index.js").
Proof.
  intros d. split; [reflexivity|].
  pose proof (ColumnGenerator_references d eq_refl) as H. cbv zeta in H.
  change (references match col_options d with Some o => o | None => no_options end)
    with (Some (mkReference "users" "id")) in H.
  cbv iota in H. cbn [ref_table] in H.
  exact (conj (proj1 H) (proj1 (proj2 H))).
Defined.

(** ** Case conversions *)

Section CaseConversions.

Lemma replace_upper_no_upper (s : string) (offset : nat) :
  all_chars no_upper (replace_upper offset s) = true.
Proof.
  revert offset. induction s as [|c s IH]; intros offset; [reflexivity|].
  cbn [replace_upper]. destruct (Js.is_upper c) eqn:E.
  - rewrite all_chars_append, all_chars_cons, IH.
    unfold no_upper at 2. rewrite lower_char_not_upper.
    destruct (Nat.ltb 0 offset); reflexivity.
  - rewrite all_chars_cons, IH. unfold no_upper. now rewrite E.
Qed.

Lemma replace_upper_fixed (s : string) (offset : nat) :
  all_chars no_upper s = true -> replace_upper offset s = s.
Proof.
  revert offset. induction s as [|c s IH]; intros offset; [reflexivity|].
  rewrite all_chars_cons. intros H. apply andb_true_iff in H as [Hc Hs].
  cbn [replace_upper]. unfold no_upper in Hc. apply negb_true_iff in Hc.
  now rewrite Hc, (IH _ Hs).
Qed.

Lemma replace_upper_length (s : string) (offset : nat) :
  String.length (replace_upper offset s)
  = String.length s + (if Nat.ltb 0 offset then capitals s
                       else capitals (Js.drop 1 s)).
Proof.
  unfold capitals. revert offset. induction s as [|c s IH]; intros offset.
  - destruct (Nat.ltb 0 offset); reflexivity.
  - cbn [replace_upper]. destruct (Js.is_upper c) eqn:E.
    + rewrite length_append. cbn [String.length]. rewrite (IH (S offset)).
      cbn [Nat.ltb Nat.leb list_ascii_of_string filter Js.drop]. rewrite E.
      destruct offset; cbn [String.length List.length]; lia.
    + cbn [String.length]. rewrite (IH (S offset)).
      cbn [Nat.ltb Nat.leb list_ascii_of_string filter Js.drop]. rewrite E.
      destruct offset; lia.
Qed.

Lemma case_keeps_no_sep (c : ascii) :
  no_sep c = true -> no_sep (Js.upper_char c) = true /\ no_sep (Js.lower_char c) = true.
Proof. all_ascii c. Qed.

Lemma capitalize_no_sep (w : string) :
  all_chars no_sep w = true -> all_chars no_sep (capitalize w) = true.
Proof.
  destruct w as [|c w]; [reflexivity|].
  rewrite all_chars_cons. intros H. apply andb_true_iff in H as [Hc Hw].
  cbn [capitalize]. rewrite all_chars_cons, (proj1 (case_keeps_no_sep c Hc)).
  cbn [andb]. clear c Hc. unfold Js.toLowerCase. induction w as [|c w IH]; [reflexivity|].
  rewrite all_chars_cons in Hw. apply andb_true_iff in Hw as [Hc Hw].
  cbn [Js.smap]. now rewrite all_chars_cons, (proj2 (case_keeps_no_sep c Hc)), IH.
Qed.

Lemma cons_head_all (p : ascii -> bool) (c : ascii) (l : list string) :
  p c = true -> forallb (all_chars p) l = true ->
  forallb (all_chars p) (Js.cons_head c l) = true.
Proof.
  intros Hc Hl. destruct l as [|w ws]; cbn [Js.cons_head forallb].
  - rewrite all_chars_cons, Hc. reflexivity.
  - cbn [forallb] in Hl. apply andb_true_iff in Hl as [Hw Hws].
    now rewrite all_chars_cons, Hc, Hw, Hws.
Qed.

Lemma split_runs_no_sep (b : bool) (s : string) :
  forallb (all_chars no_sep) (Js.split_runs is_sep b s) = true.
Proof.
  revert b. induction s as [|c s IH]; intros b; [reflexivity|].
  cbn [Js.split_runs]. destruct (is_sep c) eqn:E.
  - destruct b; [apply IH|]. cbn [forallb]. now rewrite IH.
  - apply cons_head_all; [unfold no_sep; now rewrite E|apply IH].
Qed.

Lemma split_char_all (p : ascii -> bool) (sep : ascii) (s : string) :
  all_chars p s = true -> forallb (all_chars p) (Js.split_char sep s) = true.
Proof.
  induction s as [|c s IH]; [reflexivity|].
  rewrite all_chars_cons. intros H. apply andb_true_iff in H as [Hc Hs].
  cbn [Js.split_char]. destruct (Ascii.eqb c sep).
  - cbn [forallb]. now rewrite IH.
  - apply cons_head_all; [exact Hc|now apply IH].
Qed.

Lemma join_all (p : ascii -> bool) (sep : string) (l : list string) :
  all_chars p sep = true -> forallb (all_chars p) l = true ->
  all_chars p (Js.join sep l) = true.
Proof.
  intros Hsep. induction l as [|w ws IH]; [reflexivity|].
  cbn [forallb]. intros H. apply andb_true_iff in H as [Hw Hws].
  rewrite join_head. rewrite all_chars_append, Hw.
  destruct ws as [|w2 ws']; [reflexivity|].
  now rewrite all_chars_append, Hsep, (IH Hws).
Qed.

Lemma forallb_map {X Y : Type} (p : Y -> bool) (f : X -> Y) (l : list X) :
  forallb p (map f l) = forallb (fun x => p (f x)) l.
Proof. induction l as [|x l IH]; simpl; [reflexivity|]. now rewrite IH. Qed.

Lemma forallb_impl {X : Type} (p q : X -> bool) (l : list X) :
  (forall x, p x = true -> q x = true) -> forallb p l = true -> forallb q l = true.
Proof.
  intros H. induction l as [|x l IH]; simpl; [reflexivity|].
  intros Hl. apply andb_true_iff in Hl as [Hx Hl]. now rewrite (H x Hx), IH.
Qed.

End CaseConversions.

(** X20. The result of [SnakeCase] has no capital letter; a string
    without capital letters is returned as it is, so [SnakeCase] is
    idempotent; and the result is longer than the input by one character
    for every capital letter after the first position. *)
Theorem SnakeCase_lower_case (str : string) :
  all_chars no_upper (SnakeCase str) = true
  /\ (all_chars no_upper str = true -> SnakeCase str = str)
  /\ SnakeCase (SnakeCase str) = SnakeCase str
  /\ String.length (SnakeCase str) = String.length str + capitals (Js.drop 1 str).
Proof.
  assert (H1 : all_chars no_upper (SnakeCase str) = true).
  { unfold SnakeCase. destruct (negb (Js.truthy str)); [reflexivity|].
    apply replace_upper_no_upper. }
  assert (H2 : forall s, all_chars no_upper s = true -> SnakeCase s = s).
  { intros s Hs. unfold SnakeCase. destruct s as [|c s]; [reflexivity|].
    cbn [Js.truthy negb]. now apply replace_upper_fixed. }
  split; [exact H1|]. split; [apply H2|]. split; [now apply H2|].
  unfold SnakeCase. destruct str as [|c s]; [reflexivity|].
  cbn [Js.truthy negb]. now rewrite replace_upper_length.
Qed.

(** X21. The result of [PascalCase] contains neither an underscore nor
    a hyphen: every run of these separators is removed, and the words are
    capitalized without introducing one. *)
Theorem PascalCase_no_separator (value : string) :
  all_chars no_sep (PascalCase value) = true.
Proof.
  unfold PascalCase. apply join_all; [reflexivity|].
  rewrite forallb_map.
  apply (forallb_impl (all_chars no_sep)); [|apply split_runs_no_sep].
  intros word Hw. apply join_all; [reflexivity|].
  rewrite forallb_map.
  apply (forallb_impl (all_chars no_sep)); [apply capitalize_no_sep|].
  now apply split_char_all.
Qed.

(** ** What a successful match tells about the input *)

Section MatchInversion.
Import Regex.

Lemma rmatch_RLit_inv {A : Type} (l s : string) (caps : list string)
      (k : string -> list string -> option A) (x : A) :
  rmatch (RLit l) s caps k = Some x -> exists s', s = l ++ s' /\ k s' caps = Some x.
Proof.
  revert s. induction l as [|c l IH]; intros s; cbn [RLit rmatch].
  - intros H. now exists s.
  - destruct s as [|c' s]; [discriminate|].
    destruct (Ascii.eqb_spec c c') as [<-|_]; [|discriminate].
    intros H. destruct (IH _ H) as (s' & -> & Hk). now exists s'.
Qed.

Lemma star_greedy_inv {A : Type} (p : ascii -> bool) (s : string)
      (k : string -> option A) (x : A) :
  star_greedy p s k = Some x ->
  exists w s', s = w ++ s' /\ all_chars p w = true /\ k s' = Some x.
Proof.
  induction s as [|c s IH]; cbn [star_greedy].
  - intros H. now exists "", "".
  - destruct (p c) eqn:Hc.
    + destruct (star_greedy p s k) as [y|] eqn:E; cbn [or_else].
      * intros [= <-]. destruct (IH eq_refl) as (w & s' & -> & Hw & Hk).
        exists (String c w), s'. repeat split; [|exact Hk].
        now rewrite all_chars_cons, Hc, Hw.
      * intros H. now exists "", (String c s).
    + intros H. now exists "", (String c s).
Qed.

Lemma rmatch_group_plus_inv {A : Type} (p : ascii -> bool) (s : string) (caps : list string)
      (k : string -> list string -> option A) (x : A) :
  rmatch (RGroup (RPlus p)) s caps k = Some x ->
  exists w s', s = w ++ s' /\ w <> "" /\ all_chars p w = true
               /\ k s' (Js.push caps w) = Some x.
Proof.
  cbn [rmatch]. destruct s as [|c s]; [discriminate|].
  destruct (p c) eqn:Hc; [|discriminate].
  intros H. apply star_greedy_inv in H as (w & s' & -> & Hw & Hk).
  exists (String c w), s'. split; [reflexivity|]. split; [discriminate|].
  split; [now rewrite all_chars_cons, Hc, Hw|].
  change (String c (w ++ s')) with (String c w ++ s') in Hk.
  now rewrite consumed_append in Hk.
Qed.

Lemma rmatch_plus_inv {A : Type} (p : ascii -> bool) (s : string) (caps : list string)
      (k : string -> list string -> option A) (x : A) :
  rmatch (RPlus p) s caps k = Some x ->
  exists w s', s = w ++ s' /\ w <> "" /\ all_chars p w = true /\ k s' caps = Some x.
Proof.
  cbn [rmatch]. destruct s as [|c s]; [discriminate|].
  destruct (p c) eqn:Hc; [|discriminate].
  intros H. apply star_greedy_inv in H as (w & s' & -> & Hw & Hk).
  exists (String c w), s'. split; [reflexivity|]. split; [discriminate|].
  split; [now rewrite all_chars_cons, Hc, Hw|exact Hk].
Qed.

Lemma search_inv (r : regex) (s : string) (m : match_result) :
  search r s = Some m -> exists before s0, s = before ++ s0 /\ match_here r s0 = Some m.
Proof.
  induction s as [|c s IH]; cbn [search].
  - destruct (match_here r "") eqn:E; [|discriminate]. intros [= <-]. now exists "", "".
  - destruct (match_here r (String c s)) eqn:E.
    + intros [= <-]. now exists "", (String c s).
    + intros H. destruct (IH H) as (b & s0 & -> & Hm). now exists (String c b), s0.
Qed.

Lemma match_all_fuel_inv (fuel : nat) (r : regex) (s v : string) :
  In v (match_all_fuel fuel r s) ->
  exists s0 m, match_here r s0 = Some m /\ matched m = v.
Proof.
  revert s. induction fuel as [|fuel IH]; intros s; cbn [match_all_fuel]; [intros []|].
  destruct (search r s) as [m|] eqn:E; [|intros []].
  intros [Hv|Hv].
  - apply search_inv in E as (b & s0 & _ & Hm). now exists s0, m.
  - destruct (matched m); destruct (rest m); try contradiction; now apply IH in Hv.
Qed.

Lemma match_all_inv (r : regex) (s : string) (l : list string) :
  match_all r s = Some l ->
  l <> [] /\ forall v, In v l -> exists s0 m, match_here r s0 = Some m /\ matched m = v.
Proof.
  unfold match_all. destruct (match_all_fuel _ r s) as [|v0 l0] eqn:E; [discriminate|].
  intros [= <-]. split; [discriminate|]. intros v Hv. rewrite <- E in Hv.
  now apply match_all_fuel_inv in Hv.
Qed.

Lemma rmatch_lit_seq_inv {A : Type} (l : string) (r : regex) (s : string)
      (caps : list string) (k : string -> list string -> option A) (x : A) :
  rmatch (RSeq (RLit l) r) s caps k = Some x ->
  exists s', s = l ++ s' /\ rmatch r s' caps k = Some x.
Proof. exact (rmatch_RLit_inv l s caps (fun s1 caps1 => rmatch r s1 caps1 k) x). Qed.

Lemma rmatch_group_seq_inv {A : Type} (p : ascii -> bool) (r : regex) (s : string)
      (caps : list string) (k : string -> list string -> option A) (x : A) :
  rmatch (RSeq (RGroup (RPlus p)) r) s caps k = Some x ->
  exists w s', s = w ++ s' /\ w <> "" /\ all_chars p w = true
               /\ rmatch r s' (Js.push caps w) k = Some x.
Proof. exact (rmatch_group_plus_inv p s caps (fun s1 caps1 => rmatch r s1 caps1 k) x). Qed.

Lemma rmatch_plus_seq_inv {A : Type} (p : ascii -> bool) (r : regex) (s : string)
      (caps : list string) (k : string -> list string -> option A) (x : A) :
  rmatch (RSeq (RPlus p) r) s caps k = Some x ->
  exists w s', s = w ++ s' /\ w <> "" /\ all_chars p w = true
               /\ rmatch r s' caps k = Some x.
Proof. exact (rmatch_plus_inv p s caps (fun s1 caps1 => rmatch r s1 caps1 k) x). Qed.

Lemma rmatch_star_seq_inv {A : Type} (p : ascii -> bool) (r : regex) (s : string)
      (caps : list string) (k : string -> list string -> option A) (x : A) :
  rmatch (RSeq (RStar p) r) s caps k = Some x ->
  exists w s', s = w ++ s' /\ all_chars p w = true /\ rmatch r s' caps k = Some x.
Proof. exact (star_greedy_inv p s (fun s1 => rmatch r s1 caps k) x). Qed.

End MatchInversion.

(** X22. Reading the source of an enum either yields an enum and leaves
    the error list as it is, or yields nothing and appends exactly one
    error, which names the file.  An enum that is read has an identifier
    as its name and at least one value, its values are non-empty and have
    no capital letter, and [EnumGenerator] accepts it. *)
Theorem parseEnumContent_outcome (content filename : string) (errors_ : list string) :
  match SchemaReader.parseEnumContent content filename errors_ with
  | (Some e, errors') =>
      errors' = errors_
      /\ identifier (enum_name e) = true
      /\ enum_values e <> []
      /\ Forall (fun v => v <> "" /\ all_chars no_upper v = true) (enum_values e)
      /\ enum_error (EnumGenerator e) = None
  | (None, errors') =>
      errors' = Js.push errors_ ("Could not parse enum in " ++ filename)
      \/ errors' = Js.push errors_ ("Could not parse enum values in " ++ filename)
  end.
Proof.
  unfold SchemaReader.parseEnumContent.
  destruct (Regex.search SchemaReader.re_enum content) as [m|] eqn:Es; [|now left].
  destruct (Regex.match_all SchemaReader.re_enum_value (Regex.group m 3)) as [vs|] eqn:Ev;
    [|now right].
  split; [reflexivity|]. cbn [enum_name enum_values].
  (* the name *)
  apply search_inv in Es as (before & s0 & _ & Hm).
  unfold Regex.match_here, SchemaReader.re_enum in Hm. cbn [Regex.RCat] in Hm.
  apply rmatch_lit_seq_inv in Hm as (s1 & -> & Hm).
  apply rmatch_group_seq_inv in Hm as (w1 & s2 & -> & Hw1 & Hp1 & Hm).
  apply rmatch_lit_seq_inv in Hm as (s3 & -> & Hm).
  apply rmatch_group_seq_inv in Hm as (w2 & s4 & -> & Hw2 & Hp2 & Hm).
  apply rmatch_lit_seq_inv in Hm as (s5 & -> & Hm).
  apply rmatch_group_seq_inv in Hm as (w3 & s6 & -> & Hw3 & Hp3 & Hm).
  apply rmatch_lit_seq_inv in Hm as (s7 & -> & Hm).
  cbn [Regex.rmatch] in Hm. injection Hm as <-.
  assert (Hname : identifier w1 = true).
  { unfold identifier. apply andb_true_iff. split; [now apply truthy_true|exact Hp1]. }
  (* the values *)
  apply match_all_inv in Ev as [Hne Hvs].
  assert (Hvalues : Forall (fun v => v <> "" /\ all_chars no_upper v = true)
                           (map (fun v => replace_upper 0 (Js.remove_quotes v)) vs)).
  { apply Forall_forall. intros v Hv. apply in_map_iff in Hv as (q & <- & Hq).
    destruct (Hvs q Hq) as (t0 & mq & Hmq & <-).
    unfold Regex.match_here, SchemaReader.re_enum_value in Hmq.
    cbn [Regex.RCat] in Hmq.
    apply rmatch_lit_seq_inv in Hmq as (t1 & -> & Hmq).
    apply rmatch_group_seq_inv in Hmq as (w & t2 & -> & Hw & Hpw & Hmq).
    apply rmatch_lit_seq_inv in Hmq as (t3 & -> & Hmq).
    cbn [Regex.rmatch] in Hmq. injection Hmq as <-. cbn [Regex.matched].
    match goal with
    | |- context [Regex.consumed ?a ?b] =>
        assert (Hc : Regex.consumed a b = quoted w)
    end.
    { unfold quoted. rewrite <- (consumed_append ("'" ++ w ++ "'") t3).
      now rewrite !append_assoc. }
    rewrite Hc, (remove_quotes_quoted w Hpw).
    split; [now apply replace_upper_nonempty|apply replace_upper_no_upper]. }
  split; [exact Hname|]. split.
  { intros E. apply map_eq_nil in E. contradiction. }
  split; [exact Hvalues|].
  unfold EnumGenerator. cbn [enum_name enum_values Regex.group Regex.groups Js.push app nth
                             Nat.sub].
  apply identifier_facts in Hname as [Hn _]. apply truthy_true in Hn. rewrite Hn.
  destruct vs; [congruence|]. reflexivity.
Qed.

(** ** The shape of a column that is read *)

Section ColumnShape.
Import Regex SchemaReader.

Lemma first_type_In (entries : list (string * string)) (definition t : string) :
  first_type entries definition = Some t -> In t (map snd entries).
Proof.
  induction entries as [|[k v] entries IH]; cbn [first_type map snd In]; [discriminate|].
  destruct (Js.startsWith definition (k ++ "(")).
  - intros [= <-]. now left.
  - intros H. right. now apply IH.
Qed.

Lemma parseColumnType_cases (definition : string) :
  (exists e, e <> ""
     /\ fst (parseColumnType definition) = None
     /\ enumValues (snd (parseColumnType definition)) = Some e
     /\ primaryKey (snd (parseColumnType definition)) = None
     /\ length (snd (parseColumnType definition)) = None
     /\ references (snd (parseColumnType definition)) = None)
  \/ (enumValues (snd (parseColumnType definition)) = None
      /\ forall t, fst (parseColumnType definition) = Some t -> In t (map snd typeMap)).
Proof.
  unfold parseColumnType.
  destruct (match_start re_leading_call definition) as [m|] eqn:Em.
  - destruct (property typeMap (group m 1)) eqn:Ep.
    + right. split; [reflexivity|]. cbn [fst]. apply first_type_In.
    + left. exists (group m 1). split; [|repeat split].
      unfold match_start, match_here, re_leading_call in Em. cbn [RCat] in Em.
      apply rmatch_group_seq_inv in Em as (w & s' & -> & Hw & _ & Em).
      apply rmatch_lit_seq_inv in Em as (s'' & -> & Em).
      cbn [rmatch] in Em. injection Em as <-. exact Hw.
  - right. split; [reflexivity|]. cbn [fst]. apply first_type_In.
Qed.

End ColumnShape.

(** X23. A column that the reader returns has an identifier as its
    name.  If it has a type, the type is one of the nine names the reader
    knows and the column has no [enumValues]; if it is an enum column, it
    has no type and never a [primaryKey], a [length] or [references],
    whatever the source said.  [ColumnGenerator] accepts the column
    exactly when it has a type or [enumValues]. *)
Theorem parseColumnDefinition_shape (line filename : string) (c : ColumnDefinition)
        (Hread : SchemaReader.parseColumnDefinition line filename = Some c) :
  let o := match col_options c with Some o => o | None => no_options end in
  identifier (col_name c) = true
  /\ (forall t, col_type c = Some t ->
        In t ["serial"; "string"; "text"; "number"; "bigint"; "boolean"; "date"; "json"; "uuid"]
        /\ enumValues o = None)
  /\ (forall e, enumValues o = Some e ->
        e <> "" /\ col_type c = None /\ primaryKey o = None /\ length o = None
        /\ references o = None)
  /\ (column_error (ColumnGenerator c) = None
      <-> col_type c <> None \/ enumValues o <> None).
Proof.
  cbv zeta. revert Hread. unfold SchemaReader.parseColumnDefinition.
  destruct (Regex.search SchemaReader.re_column (Js.strip_one_trailing_comma line))
    as [m|] eqn:Es; [|discriminate].
  intros [= <-]. cbn [col_name col_type col_options].
  (* the name *)
  assert (Hname : identifier (Regex.group m 1) = true).
  { apply search_inv in Es as (before & s0 & _ & Hm).
    unfold Regex.match_here, SchemaReader.re_column in Hm. cbn [Regex.RCat] in Hm.
    apply rmatch_group_seq_inv in Hm as (w1 & s1 & -> & Hw1 & Hp1 & Hm).
    apply rmatch_lit_seq_inv in Hm as (s2 & -> & Hm).
    apply rmatch_star_seq_inv in Hm as (w2 & s3 & -> & Hp2 & Hm).
    apply rmatch_group_seq_inv in Hm as (w3 & s4 & -> & Hw3 & Hp3 & Hm).
    cbn [Regex.rmatch] in Hm. injection Hm as <-.
    cbn [Regex.group Regex.groups Js.push app nth Nat.sub].
    unfold identifier. apply andb_true_iff. split; [now apply truthy_true|exact Hp1]. }
  split; [exact Hname|].
  pose proof (parseColumnType_cases (Regex.group m 2)) as Hcases.
  remember (SchemaReader.parseColumnType (Regex.group m 2)) as tr eqn:Etr. clear Etr.
  assert (Hopt : match (if SchemaReader.has_keys (snd tr) then Some (snd tr) else None) with
                 | Some o => o | None => no_options end = snd tr).
  { destruct (snd tr) as [[nn|] [pk|] [df|] [ln|] [ev|] [rf|]]; reflexivity. }
  rewrite Hopt. clear Hopt.
  assert (Hty : (if Js.truthy_opt (fst tr) then fst tr else None) = None
                \/ (exists t, (if Js.truthy_opt (fst tr) then fst tr else None) = Some t
                              /\ fst tr = Some t /\ t <> "")).
  { destruct (fst tr) as [[|ch t]|]; cbn [Js.truthy_opt Js.truthy]; auto.
    right. exists (String ch t). repeat split. discriminate. }
  destruct Hcases as [(e & He & Ht & Hev & Hpk & Hln & Hrf)|[Hev Hin]].
  - (* an enum column *)
    rewrite Ht in *. cbn [Js.truthy_opt]. rewrite Hev, Hpk, Hln, Hrf.
    split; [intros t [=]|].
    split; [intros e' [= <-]; repeat split; exact He|].
    rewrite column_error_none_iff. unfold inferred_type.
    cbn [col_type col_options Js.truthy_opt].
    assert (Hk : SchemaReader.has_keys (snd tr) = true).
    { destruct (snd tr) as [[nn|] [pk|] [df|] [ln|] [ev|] [rf|]];
        try reflexivity; discriminate Hev. }
    rewrite Hk, Hev. cbn [Js.truthy_opt]. apply truthy_true in He. rewrite He.
    split; [intros _; right; discriminate|].
    intros _. exists "enum". split; [reflexivity|]. cbn. tauto.
  - (* a typed or untyped column *)
    rewrite Hev.
    destruct Hty as [Hnone|(t & Hsome & Hfst & Hne)].
    + rewrite Hnone. split; [intros t [=]|]. split; [intros e [=]|].
      rewrite column_error_none_iff. unfold inferred_type.
      cbn [col_type col_options Js.truthy_opt].
      split.
      * intros (t & Ht & _). exfalso.
        destruct (SchemaReader.has_keys (snd tr)); [rewrite Hev in Ht|]; discriminate Ht.
      * intros [H|H]; congruence.
    + rewrite Hsome. specialize (Hin t Hfst).
      split; [intros t' [= <-]; split; [exact Hin|reflexivity]|].
      split; [intros e [=]|].
      rewrite column_error_none_iff. unfold inferred_type.
      cbn [col_type col_options Js.truthy_opt]. apply truthy_true in Hne. rewrite Hne.
      split; [intros _; left; discriminate|].
      intros _. exists t. split; [reflexivity|].
      cbn [map snd SchemaReader.typeMap In] in Hin.
      repeat (destruct Hin as [<-|Hin]; [cbn; tauto|]). contradiction.
Qed.

(** X23, for an enum column written with a primary key. *)
Lemma parseColumnDefinition_shape_witness :
  SchemaReader.parseColumnDefinition "status: TaskStatus('status').primaryKey().notNull()," "tasks.ts"
  = Some (mkColumn "status" None
            (Some (mkOptions (Some true) None None None (Some "TaskStatus") None)))
  /\ column_error (ColumnGenerator
                     (mkColumn "status" None
                        (Some (mkOptions (Some true) None None None (Some "TaskStatus") None))))
     = None.
Proof.
  assert (H : SchemaReader.parseColumnDefinition
                "status: TaskStatus('status').primaryKey().notNull()," "tasks.ts"
              = Some (mkColumn "status" None
                        (Some (mkOptions (Some true) None None None (Some "TaskStatus") None))))
    by (vm_compute; reflexivity).
  split; [exact H|].
  destruct (parseColumnDefinition_shape _ _ _ H) as (_ & _ & _ & Hok).
  apply Hok. right. discriminate.
Defined.


(** ** Decimal numerals *)

Section Numerals.

Let step (acc : Z) (c : ascii) : Z := (10 * acc + Js.digit_val c)%Z.

Lemma parse_uint_acc (d : Decimal.uint) (acc : positive) :
  fold_left step (list_ascii_of_string (NilEmpty.string_of_uint d)) (Zpos acc)
  = Zpos (Pos.of_uint_acc d acc).
Proof.
  revert acc. induction d as [|d IH|d IH|d IH|d IH|d IH|d IH|d IH|d IH|d IH|d IH];
    intros acc; cbn [NilEmpty.string_of_uint list_ascii_of_string fold_left Pos.of_uint_acc];
    [reflexivity|..];
    rewrite <- IH; f_equal; unfold step;
    match goal with
    | |- context [Js.digit_val ?c] =>
        let v := eval vm_compute in (Js.digit_val c) in change (Js.digit_val c) with v
    end; lia.
Qed.

Lemma parse_uint (d : Decimal.uint) :
  fold_left step (list_ascii_of_string (NilEmpty.string_of_uint d)) 0%Z
  = Z.of_N (Pos.of_uint d).
Proof.
  induction d as [|d IH|d IH|d IH|d IH|d IH|d IH|d IH|d IH|d IH|d IH];
    cbn [NilEmpty.string_of_uint list_ascii_of_string fold_left Pos.of_uint];
    [reflexivity|exact IH|..];
    match goal with
    | |- fold_left step _ ?z = Z.of_N (Npos (Pos.of_uint_acc d ?a)) =>
        change z with (Zpos a)
    end; apply parse_uint_acc.
Qed.

Lemma uint_digits (d : Decimal.uint) :
  all_chars Js.is_digit (NilEmpty.string_of_uint d) = true.
Proof.
  induction d; cbn [NilEmpty.string_of_uint]; [reflexivity|..];
    rewrite all_chars_cons; rewrite IHd; reflexivity.
Qed.

Lemma num_to_string_facts (z : Z) :
  (0 <= z)%Z ->
  Js.parseInt (Js.num_to_string z) = z
  /\ Js.num_to_string z <> ""
  /\ all_chars Js.is_digit (Js.num_to_string z) = true.
Proof.
  intros Hz. unfold Js.parseInt, Js.num_to_string. fold step.
  destruct z as [|p|p]; [repeat split; discriminate| |lia].
  cbn [Z.to_int NilZero.string_of_int]. unfold NilZero.string_of_uint.
  pose proof (Unsigned.to_uint_nonnil p) as Hn.
  pose proof (Unsigned.of_to p) as Hof.
  destruct (Pos.to_uint p) as [|d|d|d|d|d|d|d|d|d|d] eqn:E; [congruence|..];
    rewrite <- E in *; (split; [now rewrite parse_uint, Hof|]);
    (split; [rewrite E; discriminate|apply uint_digits]).
Qed.

Lemma digit_word (c : ascii) : Js.is_digit c = true -> Js.is_word c = true.
Proof. all_ascii c. Qed.

End Numerals.

(** ** String tests on generated text *)

Section Segments.

Lemma word_prefix_spec (p : string) :
  p = fst (word_prefix p) ++ snd (word_prefix p)
  /\ all_chars Js.is_word (fst (word_prefix p)) = true
  /\ stops Js.is_word (snd (word_prefix p)).
Proof.
  induction p as [|c p IH]; [repeat split|].
  cbn [word_prefix]. destruct (Js.is_word c) eqn:E; cbn [fst snd].
  - destruct IH as (H1 & H2 & H3). split; [cbn [append]; now rewrite <- H1|].
    split; [now rewrite all_chars_cons, E, H2|exact H3].
  - repeat split. exact E.
Qed.

Lemma stops_word_sound (l : list segment) :
  words_ok l -> stops_word l = true -> stops Js.is_word (text l).
Proof.
  induction l as [|[s|w] l IH]; intros Hw Hs; [exact I| |discriminate Hs].
  inversion Hw as [|? ? _ Hl]; subst. cbn [text seg_text].
  destruct s as [|c s]; cbn [stops_word] in Hs.
  - apply IH; assumption.
  - cbn [append stops]. now apply negb_true_iff.
Qed.

(** Word runs of the text and of the pattern have to end together. *)
Lemma startsWith_aligned (w u rest p : string) :
  all_chars Js.is_word w = true -> all_chars Js.is_word u = true ->
  stops Js.is_word rest -> stops Js.is_word p -> p <> "" ->
  Js.startsWith rest p = false ->
  Js.startsWith (w ++ rest) (u ++ p) = false.
Proof.
  intros Hw Hu Hrest Hp Hne Hf. revert u Hu.
  induction w as [|b w IH]; intros u Hu.
  - cbn [append]. destruct u as [|a u]; [exact Hf|].
    rewrite all_chars_cons in Hu. apply andb_true_iff in Hu as [Ha _].
    destruct rest as [|c1 rest]; [reflexivity|]. cbn [append Js.startsWith stops] in *.
    destruct (Ascii.eqb_spec a c1) as [->|_]; [congruence|reflexivity].
  - rewrite all_chars_cons in Hw. apply andb_true_iff in Hw as [Hb Hw].
    destruct u as [|a u].
    + destruct p as [|c2 p]; [congruence|]. cbn [append Js.startsWith stops] in *.
      destruct (Ascii.eqb_spec c2 b) as [->|_]; [congruence|reflexivity].
    + rewrite all_chars_cons in Hu. apply andb_true_iff in Hu as [_ Hu].
      cbn [append Js.startsWith]. rewrite (IH Hw u Hu). apply andb_false_r.
Qed.

Lemma starts_lit_sound (s p rest : string) (k : string -> option bool) (b : bool) :
  (forall q b', k q = Some b' -> Js.startsWith rest q = b') ->
  starts_lit s p k = Some b -> Js.startsWith (s ++ rest) p = b.
Proof.
  intros Hk. revert s. induction p as [|c' p IH]; intros s; cbn [starts_lit].
  - intros [= <-]. now destruct (s ++ rest).
  - destruct s as [|c s]; [cbn [append]; apply Hk|].
    cbn [append Js.startsWith]. destruct (Ascii.eqb c' c); [apply IH|].
    now intros [= <-].
Qed.

Lemma starts_seg_sound (l : list segment) :
  words_ok l -> forall p b, starts_seg l p = Some b -> Js.startsWith (text l) p = b.
Proof.
  induction l as [|[s|w] l IH]; intros Hw p b; cbn [starts_seg text seg_text].
  - intros [= <-]. now destruct p.
  - inversion Hw as [|? ? _ Hl]; subst. apply starts_lit_sound. exact (IH Hl).
  - inversion Hw as [|? ? Hid Hl]; subst.
    apply identifier_facts in Hid as [Hne Hall].
    destruct p as [|c' p]; [intros [= <-]; now destruct (w ++ text l)|].
    destruct (Js.is_word c') eqn:Ec.
    + destruct (word_prefix_spec (String c' p)) as (Hsplit & Hu & Hstop).
      destruct (snd (word_prefix (String c' p))) as [|c2 p2] eqn:Ep; [discriminate|].
      destruct (stops_word l) eqn:Es; [|discriminate].
      destruct (starts_seg l (String c2 p2)) as [[|]|] eqn:Er; try discriminate.
      intros [= <-]. rewrite Hsplit.
      apply startsWith_aligned; try assumption.
      * now apply stops_word_sound.
      * discriminate.
      * now apply (IH Hl).
    + intros [= <-]. destruct w as [|c w]; [congruence|].
      rewrite all_chars_cons in Hall. apply andb_true_iff in Hall as [Hc _].
      cbn [append Js.startsWith].
      destruct (Ascii.eqb_spec c' c) as [->|_]; [congruence|reflexivity].
Qed.

Lemma or_opt_sound (a b : option bool) (x y r : bool) :
  (forall v, a = Some v -> x = v) -> (forall v, b = Some v -> y = v) ->
  or_opt a b = Some r -> x || y = r.
Proof.
  intros Ha Hb. destruct a as [[|]|]; cbn [or_opt].
  - intros [= <-]. now rewrite (Ha true eq_refl).
  - intros H. rewrite (Ha false eq_refl). now apply Hb.
  - destruct b as [[|]|]; try discriminate. intros [= <-].
    rewrite (Hb true eq_refl). apply orb_true_r.
Qed.

Lemma includes_skip_word (w rest p : string) (c' : ascii) (p' : string) :
  all_chars Js.is_word w = true -> p = String c' p' -> Js.is_word c' = false ->
  Js.includes (w ++ rest) p = Js.includes rest p.
Proof.
  intros Hw -> Hc. induction w as [|c w IH]; [reflexivity|].
  rewrite all_chars_cons in Hw. apply andb_true_iff in Hw as [Hcw Hw].
  cbn [append Js.includes Js.startsWith].
  destruct (Ascii.eqb_spec c' c) as [->|_]; [congruence|].
  cbn [andb orb]. now apply IH.
Qed.

Lemma incl_lit_sound (s : string) (l : list segment) (p : string) (k : option bool) :
  words_ok l -> (forall v, k = Some v -> Js.includes (text l) p = v) ->
  forall b, incl_lit s l p k = Some b -> Js.includes (s ++ text l) p = b.
Proof.
  intros Hl Hk. induction s as [|c s IHs]; intros b; cbn [incl_lit append]; [apply Hk|].
  change (Js.includes (String c (s ++ text l)) p)
    with (Js.startsWith (String c (s ++ text l)) p || Js.includes (s ++ text l) p).
  apply or_opt_sound.
  - intros v Hv.
    assert (Hw : words_ok (Lit (String c s) :: l)) by (constructor; [exact I|exact Hl]).
    exact (starts_seg_sound (Lit (String c s) :: l) Hw p v Hv).
  - intros v Hv. now apply IHs.
Qed.

Lemma includes_seg_sound (l : list segment) :
  words_ok l -> forall p b, includes_seg l p = Some b -> Js.includes (text l) p = b.
Proof.
  induction l as [|[s|w] l IH]; intros Hw p b; cbn [includes_seg text seg_text].
  - intros [= <-]. now destruct p.
  - inversion Hw as [|? ? _ Hl]; subst.
    apply incl_lit_sound; [exact Hl|]. intros v. apply (IH Hl).
  - inversion Hw as [|? ? Hid Hl]; subst.
    apply identifier_facts in Hid as [Hne Hall].
    destruct p as [|c' p]; [intros [= <-]; now destruct (w ++ text l)|].
    destruct (Js.is_word c') eqn:Ec; [discriminate|].
    intros H. rewrite (includes_skip_word w (text l) _ c' p Hall eq_refl Ec).
    now apply (IH Hl).
Qed.

Lemma skip_lit_sound (s : string) (l : list segment) (p : string)
      (k : option (list segment)) :
  words_ok l ->
  (forall l2, k = Some l2 -> skip_until p (text l) = text l2 /\ words_ok l2) ->
  forall l2, skip_lit s l p k = Some l2 ->
             skip_until p (s ++ text l) = text l2 /\ words_ok l2.
Proof.
  intros Hl Hk. induction s as [|c s IHs]; intros l2; cbn [skip_lit append]; [apply Hk|].
  assert (Hw : words_ok (Lit (String c s) :: l)) by (constructor; [exact I|exact Hl]).
  destruct (starts_seg (Lit (String c s) :: l) p) as [[|]|] eqn:E; [| |discriminate].
  - intros [= <-]. apply (starts_seg_sound _ Hw) in E. cbn [text seg_text append] in E.
    cbn [skip_until]. rewrite E. split; [reflexivity|exact Hw].
  - intros H. apply (starts_seg_sound _ Hw) in E. cbn [text seg_text append] in E.
    cbn [skip_until]. rewrite E. now apply IHs.
Qed.

Lemma skip_until_seg_sound (l : list segment) :
  words_ok l -> forall p l2, skip_until_seg l p = Some l2 ->
  skip_until p (text l) = text l2 /\ words_ok l2.
Proof.
  induction l as [|[s|w] l IH]; intros Hw p l2; cbn [skip_until_seg text seg_text].
  - discriminate.
  - inversion Hw as [|? ? _ Hl]; subst.
    apply skip_lit_sound; [exact Hl|]. intros l3. apply (IH Hl).
  - inversion Hw as [|? ? Hid Hl]; subst.
    apply identifier_facts in Hid as [Hne Hall].
    destruct p as [|c' p]; [discriminate|].
    destruct (Js.is_word c') eqn:Ec; [discriminate|].
    intros H. destruct (IH Hl _ _ H) as [<- Hok]. split; [|exact Hok].
    clear - Hall Ec. induction w as [|c w IHw]; [reflexivity|].
    rewrite all_chars_cons in Hall. apply andb_true_iff in Hall as [Hc Hall].
    cbn [append skip_until Js.startsWith].
    destruct (Ascii.eqb_spec c' c) as [->|_]; [congruence|]. cbn [andb]. now apply IHw.
Qed.

Lemma all_chars_text (p : ascii -> bool) (l : list segment) :
  (forall c, Js.is_word c = true -> p c = true) ->
  words_ok l -> literals_in p l = true -> all_chars p (text l) = true.
Proof.
  intros Hp. induction l as [|[s|w] l IH]; intros Hw Hl; [reflexivity| |];
    inversion Hw as [|? ? Hid Hw']; subst; cbn [literals_in forallb] in Hl;
    apply andb_true_iff in Hl as [Hs Hl]; cbn [text seg_text]; rewrite all_chars_append.
  - rewrite Hs. now apply IH.
  - apply identifier_facts in Hid as [_ Hall].
    rewrite (all_chars_weaken Js.is_word p w Hp Hall). now apply IH.
Qed.

End Segments.

(** ** Reading a generated column back *)

Section ColumnRoundTrip.
Import Regex SchemaReader.

Lemma rmatch_lit_fail {A : Type} (L s : string) (caps : list string)
      (k : string -> list string -> option A) :
  Js.startsWith s L = false -> rmatch (RLit L) s caps k = None.
Proof.
  revert s. induction L as [|c L IH]; intros s; cbn [RLit rmatch Js.startsWith].
  - destruct s; discriminate.
  - destruct s as [|c' s]; [reflexivity|]. cbn [Js.startsWith].
    destruct (Ascii.eqb c c'); [apply IH|reflexivity].
Qed.

(** A pattern that begins with a literal is found at the first
    occurrence of the literal, if it matches there. *)
Lemma search_skip (L : string) (r : regex) (s : string) (m : match_result) :
  match_here (RSeq (RLit L) r) (skip_until L s) = Some m ->
  search (RSeq (RLit L) r) s = Some m.
Proof.
  induction s as [|c s IH]; cbn [skip_until search].
  - destruct (Js.startsWith "" L); intros H; now rewrite H.
  - destruct (Js.startsWith (String c s) L) eqn:E.
    + intros H. now rewrite H.
    + intros H. unfold match_here at 1.
      change (rmatch (RSeq (RLit L) r) (String c s) [] ?k)
        with (rmatch (RLit L) (String c s) []
                (fun s1 caps1 => rmatch r s1 caps1 k)).
      rewrite (rmatch_lit_fail L (String c s)) by exact E.
      now apply IH.
Qed.

Lemma strip_one_trailing_comma_append (s : string) :
  Js.strip_one_trailing_comma (s ++ ",") = s.
Proof.
  induction s as [|c s IH]; [reflexivity|].
  cbn [append Js.strip_one_trailing_comma]. rewrite IH.
  destruct s; reflexivity.
Qed.

Lemma word_not_space (c : ascii) : Js.is_word c = true -> Js.is_space c = false.
Proof. all_ascii c. Qed.

Lemma word_dot (c : ascii) : Js.is_word c = true -> dot c = true.
Proof. all_ascii c. Qed.

Lemma identifier_stops_space (w s : string) :
  identifier w = true -> stops Js.is_space (w ++ s).
Proof.
  intros H. apply identifier_facts in H as [Hne Hall].
  destruct w as [|c w]; [congruence|]. rewrite all_chars_cons in Hall.
  apply andb_true_iff in Hall as [Hc _]. cbn [append stops]. now apply word_not_space.
Qed.

Lemma startsWith_empty (s : string) : Js.startsWith s "" = true.
Proof. now destruct s. Qed.

(** The facts about a type name that the reader gives back. *)
Lemma reader_type_facts (t : string) :
  In t reader_types ->
  exists F,
    Js.toLowerCase t = t /\ t <> ""
    /\ property TypeMap t = Some F
    /\ identifier F = true
    /\ property typeMap F = Some t
    /\ (forall rest_, first_type typeMap (F ++ "(" ++ rest_) = Some t)
    /\ String.eqb t "enum" = false
    /\ String.eqb F "varchar" = String.eqb t "string".
Proof.
  unfold reader_types. cbn [typeMap map snd In].
  intros H.
  repeat (destruct H as [<-|H];
          [eexists; split; [reflexivity|]; split; [discriminate|];
           split; [reflexivity|]; split; [reflexivity|]; split; [reflexivity|];
           split; [intros rest_; simpl; rewrite startsWith_empty; reflexivity|];
           split; reflexivity|]).
  contradiction.
Qed.

Lemma rmatch_group_then {A : Type} (p : ascii -> bool) (R : regex) (w s : string)
      (caps : list string) (k : string -> list string -> option A) (r : A) :
  w <> "" -> all_chars p w = true -> stops p s ->
  rmatch R s (Js.push caps w) k = Some r ->
  rmatch (RSeq (RGroup (RPlus p)) R) (w ++ s) caps k = Some r.
Proof.
  intros Hne Hw Hs Hk.
  change (rmatch (RSeq (RGroup (RPlus p)) R) (w ++ s) caps k)
    with (rmatch (RGroup (RPlus p)) (w ++ s) caps (fun s2 caps2 => rmatch R s2 caps2 k)).
  now apply rmatch_group_plus.
Qed.

Lemma match_leading_call (F rest_ : string) :
  identifier F = true ->
  exists m, match_start re_leading_call (F ++ "(" ++ rest_) = Some m /\ group m 1 = F.
Proof.
  intros H. apply identifier_facts in H as [Hne Hall].
  eexists. split.
  - unfold match_start, match_here, re_leading_call. cbn [RCat].
    apply rmatch_group_then; [exact Hne|exact Hall|reflexivity|].
    rewrite rmatch_lit_end. reflexivity.
  - reflexivity.
Qed.

Lemma match_length (N rest_ : string) :
  N <> "" -> all_chars Js.is_digit N = true ->
  exists m, match_here re_length ("{ length: " ++ N ++ " }" ++ rest_) = Some m
            /\ group m 1 = N.
Proof.
  intros Hne Hall. eexists. split.
  - unfold match_here, re_length. cbn [RCat].
    apply rmatch_lit_group; [exact Hne|exact Hall|reflexivity|].
    rewrite rmatch_lit_end. reflexivity.
  - reflexivity.
Qed.

Lemma match_references (T C rest_ : string) :
  identifier T = true -> identifier C = true ->
  exists m, match_here re_references
              (".references(() => " ++ T ++ "." ++ C ++ ")" ++ rest_) = Some m
            /\ group m 1 = T /\ group m 2 = C.
Proof.
  intros HT HC. apply identifier_facts in HT as [HT1 HT2].
  apply identifier_facts in HC as [HC1 HC2].
  eexists. split.
  - unfold match_here, re_references. cbn [RCat].
    apply rmatch_lit_group; [exact HT1|exact HT2|reflexivity|].
    apply rmatch_lit_group; [exact HC1|exact HC2|reflexivity|].
    rewrite rmatch_lit_end. reflexivity.
  - split; reflexivity.
Qed.

Lemma match_column_line (name definition : string) :
  identifier name = true -> definition <> "" -> all_chars dot definition = true ->
  stops Js.is_space definition ->
  exists m, search re_column (name ++ ": " ++ definition) = Some m
            /\ group m 1 = name /\ group m 2 = definition.
Proof.
  intros Hn Hne Hall Hstop. apply identifier_facts in Hn as [Hn1 Hn2].
  eexists. split.
  - apply search_here. unfold match_here, re_column. cbn [RCat].
    apply rmatch_group_then; [exact Hn1|exact Hn2|reflexivity|].
    change (": " ++ definition) with (":" ++ " " ++ definition).
    change (rmatch (RSeq (RLit ":") ?R) (":" ++ ?s) ?caps ?k)
      with (rmatch (RLit ":") (":" ++ s) caps (fun s1 caps1 => rmatch R s1 caps1 k)).
    rewrite rmatch_RLit.
    change (rmatch (RSeq (RStar Js.is_space) ?R) ?s ?caps ?k)
      with (star_greedy Js.is_space s (fun s1 => rmatch R s1 caps k)).
    apply (star_greedy_run Js.is_space " " definition); [reflexivity|exact Hstop|].
    rewrite <- (append_empty_r definition) at 1.
    apply rmatch_group_then; [exact Hne|exact Hall|exact I|].
    cbn [rmatch]. reflexivity.
  - split; reflexivity.
Qed.

Lemma plain_options_value (pk nn : bool) (len : option Z) (ref : option ReferenceDefinition) :
  match plain_options pk nn len ref with Some o => o | None => no_options end
  = mkOptions (if nn then Some true else None) (if pk then Some true else None)
              None len None ref.
Proof. destruct pk, nn, len, ref; reflexivity. Qed.

Lemma has_keys_plain (pk nn : bool) (len : option Z) (ref : option ReferenceDefinition) :
  (if has_keys (mkOptions (if nn then Some true else None) (if pk then Some true else None)
                          None len None ref)
   then Some (mkOptions (if nn then Some true else None) (if pk then Some true else None)
                        None len None ref)
   else None) = plain_options pk nn len ref.
Proof. reflexivity. Qed.

(** The fragment written for a typed definition without a default. *)
Lemma ColumnGenerator_plain (name t F : string) (pk nn : bool) (len : option Z)
      (ref : option ReferenceDefinition) :
  t <> "" -> Js.toLowerCase t = t -> property TypeMap t = Some F ->
  String.eqb t "enum" = false -> String.eqb F "varchar" = String.eqb t "string" ->
  match len with Some n => t = "string" /\ (0 < n)%Z | None => True end ->
  column_error (ColumnGenerator (mkColumn name (Some t) (plain_options pk nn len ref))) = None
  /\ column (ColumnGenerator (mkColumn name (Some t) (plain_options pk nn len ref)))
     = (name ++ ": "
          ++ text (definition_segments F name (option_map Js.num_to_string len) pk nn ref))
       ++ ",".
Proof.
  intros Hne Hlow HF Henum Hvar Hlen.
  apply truthy_true in Hne.
  unfold ColumnGenerator. cbn [col_name col_type col_options].
  rewrite plain_options_value.
  cbn [Js.truthy_opt notNull primaryKey default length enumValues references].
  rewrite Hne, Hlow, HF, Henum, Hvar.
  cbn [andb negb option_map].
  assert (Hwl : String.eqb t "string" && Js.truthy_num len
                = match len with Some _ => true | None => false end).
  { destruct len as [n|]; [|now rewrite andb_false_r].
    destruct Hlen as [-> Hn]. cbn [Js.truthy_num].
    destruct (Z.eqb_spec n 0); [lia|reflexivity]. }
  rewrite Hwl. clear Hwl.
  destruct len as [n|], pk, nn, ref as [[T C]|];
    cbn [column column_error Js.truthy_bool Js.push Js.join app negb
         definition_segments call_segments chain_segments text seg_text option_map
         ref_table ref_column quoted];
    (split; [reflexivity|]);
    unfold quoted; cbn [andb negb];
    repeat (rewrite ?append_assoc; cbn [append]); reflexivity.
Qed.

Lemma definition_segments_words (F name : string) (len : option string) (pk nn : bool)
      (ref : option ReferenceDefinition) :
  identifier F = true -> identifier name = true ->
  match len with Some N => identifier N = true | None => True end ->
  match ref with
  | Some r => identifier (ref_table r) = true /\ identifier (ref_column r) = true
  | None => True
  end ->
  words_ok (definition_segments F name len pk nn ref).
Proof.
  intros HF Hname Hlen Href.
  unfold words_ok, definition_segments, call_segments, chain_segments.
  destruct len as [N|], pk, nn, ref as [[T C]|];
    cbn [app ref_table ref_column] in *;
    repeat constructor; try assumption; tauto.
Qed.

Lemma definition_segments_dot (F name : string) (len : option string) (pk nn : bool)
      (ref : option ReferenceDefinition) :
  literals_in dot (definition_segments F name len pk nn ref) = true.
Proof. destruct len, pk, nn, ref; reflexivity. Qed.

Ltac seg_includes Hw p :=
  match goal with
  | |- context [Js.includes (text ?l) p] =>
      let b := eval vm_compute in (includes_seg l p) in
      match b with
      | Some ?v => rewrite (includes_seg_sound l Hw p v) by (vm_compute; reflexivity)
      end
  end.

Ltac seg_skip Hw L H :=
  match goal with
  | |- context [text ?l] =>
      let r := eval vm_compute in (skip_until_seg l L) in
      match r with
      | Some ?l2 =>
          destruct (skip_until_seg_sound l Hw L l2) as [H _]; [vm_compute; reflexivity|]
      end
  end.

(** The reader's type and options for the call and chain the generator
    writes, whatever the identifiers in it. *)
Lemma parseColumnType_segments (F t name : string) (len : option (string * Z))
      (pk nn : bool) (ref : option ReferenceDefinition) :
  identifier F = true -> identifier name = true ->
  property typeMap F = Some t ->
  (forall rest_, first_type typeMap (F ++ "(" ++ rest_) = Some t) ->
  match len with
  | Some (N, n) => N <> "" /\ all_chars Js.is_digit N = true /\ Js.parseInt N = n
  | None => True
  end ->
  match ref with
  | Some r => identifier (ref_table r) = true /\ identifier (ref_column r) = true
  | None => True
  end ->
  parseColumnType (text (definition_segments F name (option_map fst len) pk nn ref))
  = (Some t, mkOptions (if nn then Some true else None) (if pk then Some true else None)
                       None (option_map snd len) None ref).
Proof.
  intros HF Hname Htm Hft Hlen Href.
  assert (Hw : words_ok (definition_segments F name (option_map fst len) pk nn ref)).
  { apply definition_segments_words; try assumption.
    destruct len as [[N n]|]; [|exact I]. destruct Hlen as (Hne & Hd & _).
    cbn [option_map fst]. unfold identifier. apply andb_true_iff.
    split; [now apply truthy_true|].
    exact (all_chars_weaken Js.is_digit Js.is_word N digit_word Hd). }
  assert (Hcall : exists m,
            match_start re_leading_call
              (text (definition_segments F name (option_map fst len) pk nn ref)) = Some m
            /\ group m 1 = F)
    by exact (match_leading_call F
                (text (tl (tl (definition_segments F name (option_map fst len) pk nn ref))))
                HF).
  destruct Hcall as (m & Em & Gm).
  assert (Hfirst : first_type typeMap
                     (text (definition_segments F name (option_map fst len) pk nn ref))
                   = Some t)
    by exact (Hft (text (tl (tl (definition_segments F name (option_map fst len) pk nn ref))))).
  unfold parseColumnType.
  rewrite Em, Gm, Htm, Hfirst. cbv beta iota zeta.
  destruct len as [[N n]|], pk, nn, ref as [[T C]|];
    cbn [option_map fst snd definition_segments call_segments chain_segments app
         ref_table ref_column] in *;
    seg_includes Hw "{ length:"; seg_includes Hw ".primaryKey()";
    seg_includes Hw ".notNull()"; seg_includes Hw ".default(";
    seg_includes Hw ".references("; cbv beta iota zeta.
  all: try (let H := fresh "Hsk" in
            seg_skip Hw "{ length: " H;
            destruct Hlen as (HNe & HNd & HNp);
            match type of H with
            | _ = text (_ :: _ :: _ :: ?r) =>
                destruct (match_length N (text r) HNe HNd) as (ml & Eml & Gml)
            end;
            unfold re_length; cbn [RCat];
            rewrite (search_skip _ _ _ ml) by (rewrite H; exact Eml);
            rewrite Gml, HNp).
  all: try (let H := fresh "Hsr" in
            seg_skip Hw ".references(() => " H;
            destruct Href as (HT & HC);
            match type of H with
            | _ = text (_ :: _ :: _ :: _ :: _ :: ?r) =>
                destruct (match_references T C (text r) HT HC) as (mr & Emr & GT & GC)
            end;
            unfold re_references; cbn [RCat];
            rewrite (search_skip _ _ _ mr) by (rewrite H; exact Emr);
            rewrite GT, GC).
  all: reflexivity.
Qed.

End ColumnRoundTrip.

(** X24. A typed column definition without a default is read back from
    the fragment the generator writes for it. The name and the names of
    a referenced table and column are identifiers, the type is one of
    the nine types the reader knows, written in lower case, a length is
    a positive integer up to [Number.MAX_SAFE_INTEGER] and given for the
    type [string] only, and the options are
    in the form the reader builds: [notNull] and [primaryKey] are [true]
    or absent, and [options] is absent when it would be empty. Then
    [ColumnGenerator] reports no error and [parseColumnDefinition] on
    its [column] returns the definition itself. *)
Theorem column_round_trip (name t : string) (pk nn : bool) (len : option Z)
      (ref : option ReferenceDefinition) (filename : string)
      (Hname : identifier name = true)
      (Ht : In t reader_types)
      (Hsafe : match len with
               | Some n => t = "string" /\ (0 < n <= MAX_SAFE_INTEGER)%Z
               | None => True
               end)
      (Href : match ref with
              | Some r => identifier (ref_table r) = true /\ identifier (ref_column r) = true
              | None => True
              end) :
  column_error (ColumnGenerator (mkColumn name (Some t) (plain_options pk nn len ref))) = None
  /\ SchemaReader.parseColumnDefinition
       (column (ColumnGenerator (mkColumn name (Some t) (plain_options pk nn len ref))))
       filename
     = Some (mkColumn name (Some t) (plain_options pk nn len ref)).
Proof.
  assert (Hlen : match len with
                 | Some n => t = "string" /\ (0 < n)%Z
                 | None => True
                 end).
  { destruct len as [n|]; [|exact I]. destruct Hsafe as [Ht0 Hn]. split; [exact Ht0|lia]. }
  clear Hsafe.
  destruct (reader_type_facts t Ht)
    as (F & Hlow & Hne & HTM & HidF & Htm & Hft & Henum & Hvar).
  destruct (ColumnGenerator_plain name t F pk nn len ref Hne Hlow HTM Henum Hvar Hlen)
    as [Herr Hcol].
  split; [exact Herr|]. rewrite Hcol. clear Herr Hcol.
  unfold SchemaReader.parseColumnDefinition.
  rewrite strip_one_trailing_comma_append.
  assert (HlenN : match option_map (fun n => (Js.num_to_string n, n)) len with
                  | Some (N, n) =>
                      N <> "" /\ all_chars Js.is_digit N = true /\ Js.parseInt N = n
                  | None => True
                  end).
  { destruct len as [n|]; [|exact I]. destruct Hlen as [_ Hn]. cbn [option_map].
    destruct (num_to_string_facts n) as (H1 & H2 & H3); [lia|]. auto. }
  pose proof (parseColumnType_segments F t name
                (option_map (fun n => (Js.num_to_string n, n)) len) pk nn ref
                HidF Hname Htm Hft HlenN Href) as Hparse.
  replace (option_map fst (option_map (fun n => (Js.num_to_string n, n)) len))
    with (option_map Js.num_to_string len) in Hparse by (now destruct len).
  replace (option_map snd (option_map (fun n => (Js.num_to_string n, n)) len))
    with len in Hparse by (now destruct len).
  assert (Hw : words_ok
                 (definition_segments F name (option_map Js.num_to_string len) pk nn ref)).
  { apply definition_segments_words; try assumption.
    destruct len as [n|]; [|exact I]. destruct Hlen as [_ Hn]. cbn [option_map].
    destruct (num_to_string_facts n) as (_ & H2 & H3); [lia|].
    unfold identifier. apply andb_true_iff. split; [now apply truthy_true|].
    exact (all_chars_weaken Js.is_digit Js.is_word _ digit_word H3). }
  destruct (match_column_line name
              (text (definition_segments F name (option_map Js.num_to_string len) pk nn ref)))
    as (m & Em & G1 & G2).
  - exact Hname.
  - apply identifier_facts in HidF as [HFne _].
    unfold definition_segments, call_segments. cbn [app text seg_text].
    destruct F; [congruence|discriminate].
  - apply all_chars_text; [exact word_dot|exact Hw|apply definition_segments_dot].
  - exact (identifier_stops_space F _ HidF).
  - rewrite Em, G1, G2, Hparse. cbn [fst snd Js.truthy_opt].
    apply truthy_true in Hne. rewrite Hne, has_keys_plain. reflexivity.
Qed.

(** X24, for a [varchar] column with a length, a constraint and a
    reference. *)
Lemma column_round_trip_witness :
  column_error
    (ColumnGenerator
       (mkColumn "owner" (Some "string")
          (plain_options false true (Some 36%Z) (Some (mkReference "users" "id"))))) = None
  /\ SchemaReader.parseColumnDefinition
       (column
          (ColumnGenerator
             (mkColumn "owner" (Some "string")
                (plain_options false true (Some 36%Z) (Some (mkReference "users" "id"))))))
       "tasks.ts"
     = Some (mkColumn "owner" (Some "string")
               (plain_options false true (Some 36%Z) (Some (mkReference "users" "id")))).
Proof.
  apply (column_round_trip "owner" "string" false true (Some 36%Z)
           (Some (mkReference "users" "id")) "tasks.ts").
  - reflexivity.
  - simpl. tauto.
  - split; [reflexivity|unfold MAX_SAFE_INTEGER; lia].
  - split; reflexivity.
Defined.


(** ** Reading a project from disk *)

Section ReaderFacts.
Import Regex SchemaReader.

Variable fs : FileSystem.
Variable projectPath : string.

Lemma parseEnumContent_errors (content file : string) (errors : list string) :
  (exists e, parseEnumContent content file errors = (Some e, errors))
  \/ (exists msg, parseEnumContent content file errors = (None, Js.push errors msg)).
Proof.
  unfold parseEnumContent. destruct (search re_enum content); [|right; eauto].
  destruct (match_all re_enum_value _); [left|right]; eauto.
Qed.

Lemma parseHelperContent_errors (content file : string) (errors : list string) :
  (exists h, parseHelperContent content file errors = (Some h, errors))
  \/ (exists o msg, parseHelperContent content file errors = (o, Js.push errors msg)).
Proof.
  unfold parseHelperContent, parseHelperColumns.
  destruct (search re_helper content); [|right; eauto].
  destruct (match_all re_helper_column _); [left|right]; eauto.
Qed.

Lemma parseTableContent_errors (content file : string) (errors : list string) :
  (exists d, parseTableContent content file errors = (Some d, errors)
             /\ table_name d = Js.remove_first ".ts" file)
  \/ (exists msg, parseTableContent content file errors = (None, Js.push errors msg)).
Proof.
  unfold parseTableContent. destruct (search re_table content); [|right; eauto].
  destruct (parseTableBody _ file) as [columns helperRefs]. left. eauto.
Qed.

(** Every enum file adds one definition or one error. *)
Lemma parseEnums_spec (enumFiles : list string) :
  forall enums_ errors,
  exists new added,
    parseEnums fs projectPath enumFiles enums_ errors
    = (List.app enums_ new, List.app errors added)
    /\ List.length new + List.length added = List.length enumFiles.
Proof.
  induction enumFiles as [|file rest IH]; intros enums_ errors; cbn [parseEnums].
  - exists [], []. now rewrite !app_nil_r.
  - destruct (fs_readFile fs _) as [content|error].
    + destruct (parseEnumContent_errors content file errors) as [[e He]|[msg He]];
        rewrite He.
      * destruct (IH (Js.push enums_ e) errors) as (new & added & Hr & Hl).
        exists (e :: new), added. rewrite Hr. unfold Js.push. rewrite <- app_assoc.
        split; [reflexivity|cbn [List.length]; lia].
      * destruct (IH enums_ (Js.push errors msg)) as (new & added & Hr & Hl).
        exists new, (msg :: added). rewrite Hr. unfold Js.push. rewrite <- app_assoc.
        split; [reflexivity|cbn [List.length]; lia].
    + destruct (IH enums_ (Js.push errors
                             ("Error parsing enum file " ++ file ++ ": " ++ error)))
        as (new & added & Hr & Hl).
      exists new, (("Error parsing enum file " ++ file ++ ": " ++ error) :: added).
      rewrite Hr. unfold Js.push. rewrite <- app_assoc.
      split; [reflexivity|cbn [List.length]; lia].
Qed.

(** Every helper file adds a definition, an error, or both. *)
Lemma parseHelpers_spec (helperFiles : list string) :
  forall helpers_ errors,
  exists new added,
    parseHelpers fs projectPath helperFiles helpers_ errors
    = (List.app helpers_ new, List.app errors added)
    /\ List.length new <= List.length helperFiles
    /\ List.length helperFiles <= List.length new + List.length added.
Proof.
  induction helperFiles as [|file rest IH]; intros helpers_ errors; cbn [parseHelpers].
  - exists [], []. rewrite !app_nil_r. cbn [List.length]. auto.
  - destruct (fs_readFile fs _) as [content|error].
    + destruct (parseHelperContent_errors content file errors)
        as [[h He]|(o & msg & He)]; rewrite He.
      * destruct (IH (Js.push helpers_ h) errors) as (new & added & Hr & Hl).
        exists (h :: new), added. rewrite Hr. unfold Js.push. rewrite <- app_assoc.
        split; [reflexivity|cbn [List.length]; lia].
      * destruct o as [h|].
        -- destruct (IH (Js.push helpers_ h) (Js.push errors msg))
             as (new & added & Hr & Hl).
           exists (h :: new), (msg :: added). rewrite Hr. unfold Js.push.
           rewrite <- !app_assoc. split; [reflexivity|cbn [List.length]; lia].
        -- destruct (IH helpers_ (Js.push errors msg)) as (new & added & Hr & Hl).
           exists new, (msg :: added). rewrite Hr. unfold Js.push.
           rewrite <- app_assoc. split; [reflexivity|cbn [List.length]; lia].
    + destruct (IH helpers_ (Js.push errors
                               ("Error parsing helper file " ++ file ++ ": " ++ error)))
        as (new & added & Hr & Hl).
      exists new, (("Error parsing helper file " ++ file ++ ": " ++ error) :: added).
      rewrite Hr. unfold Js.push. rewrite <- app_assoc.
      split; [reflexivity|cbn [List.length]; lia].
Qed.

(** Every table file adds one definition, named after the file, or one
    error. *)
Lemma parseTables_spec (tableFiles : list string) :
  forall tables_ errors,
  exists new added,
    parseTables fs projectPath tableFiles tables_ errors
    = (List.app tables_ new, List.app errors added)
    /\ List.length new + List.length added = List.length tableFiles
    /\ (added = [] -> map table_name new = map (Js.remove_first ".ts") tableFiles).
Proof.
  induction tableFiles as [|file rest IH]; intros tables_ errors; cbn [parseTables].
  - exists [], []. now rewrite !app_nil_r.
  - destruct (fs_readFile fs _) as [content|error].
    + destruct (parseTableContent_errors content file errors)
        as [(d & He & Hn)|[msg He]]; rewrite He.
      * destruct (IH (Js.push tables_ d) errors) as (new & added & Hr & Hl & Hm).
        exists (d :: new), added. rewrite Hr. unfold Js.push. rewrite <- app_assoc.
        split; [reflexivity|]. split; [cbn [List.length]; lia|].
        intros Ha. cbn [map]. now rewrite Hn, (Hm Ha).
      * destruct (IH tables_ (Js.push errors msg)) as (new & added & Hr & Hl & _).
        exists new, (msg :: added). rewrite Hr. unfold Js.push. rewrite <- app_assoc.
        split; [reflexivity|]. split; [cbn [List.length]; lia|discriminate].
    + destruct (IH tables_ (Js.push errors
                              ("Error parsing table file " ++ file ++ ": " ++ error)))
        as (new & added & Hr & Hl & _).
      exists new, (("Error parsing table file " ++ file ++ ": " ++ error) :: added).
      rewrite Hr. unfold Js.push. rewrite <- app_assoc.
      split; [reflexivity|]. split; [cbn [List.length]; lia|discriminate].
Qed.

Lemma listed_nonempty {E : Type} (l : list E) :
  listed (if Nat.ltb 0 (List.length l) then Some l else None) = l.
Proof. now destruct l. Qed.

(** The three loops of [readSchema] taken together. *)
Lemma SchemaReader_readSchema_found (errors : list string) :
  checkProjectExists fs projectPath = true ->
  exists enums_ helpers_ tables_ added1 added2 added3,
    let files := getFileStructure fs projectPath in
    let errors3 := List.app errors (List.app added1 (List.app added2 added3)) in
    snd (SchemaReader_readSchema fs projectPath errors) = errors3
    /\ reader_success (fst (SchemaReader_readSchema fs projectPath errors))
       = Nat.eqb (List.length errors3) 0
    /\ reader_errors (fst (SchemaReader_readSchema fs projectPath errors))
       = (if Nat.ltb 0 (List.length errors3) then Some errors3 else None)
    /\ reader_files (fst (SchemaReader_readSchema fs projectPath errors)) = files
    /\ reader_schema (fst (SchemaReader_readSchema fs projectPath errors))
       = Some (mkConfig projectPath
                 (if Nat.ltb 0 (List.length enums_) then Some enums_ else None)
                 (if Nat.ltb 0 (List.length helpers_) then Some helpers_ else None)
                 (if Nat.ltb 0 (List.length tables_) then Some tables_ else None)
                 (Some true))
    /\ List.length enums_ + List.length added1 = List.length (files_enums files)
    /\ List.length helpers_ <= List.length (files_helpers files)
    /\ List.length (files_helpers files) <= List.length helpers_ + List.length added2
    /\ List.length tables_ + List.length added3 = List.length (files_tables files)
    /\ (added3 = [] ->
        map table_name tables_ = map (Js.remove_first ".ts") (files_tables files)).
Proof.
  intros Hfound. unfold SchemaReader_readSchema. rewrite Hfound. cbn [negb].
  destruct (parseEnums_spec (files_enums (getFileStructure fs projectPath)) [] errors)
    as (enums_ & added1 & H1 & L1).
  rewrite H1. cbn [List.app].
  destruct (parseHelpers_spec (files_helpers (getFileStructure fs projectPath)) []
              (List.app errors added1))
    as (helpers_ & added2 & H2 & L2 & L2').
  rewrite H2. cbn [List.app].
  destruct (parseTables_spec (files_tables (getFileStructure fs projectPath)) []
              (List.app (List.app errors added1) added2))
    as (tables_ & added3 & H3 & L3 & M3).
  rewrite H3. cbn [List.app].
  exists enums_, helpers_, tables_, added1, added2, added3.
  cbn [fst snd reader_success reader_errors reader_files reader_schema].
  rewrite <- !app_assoc. repeat split; try assumption; reflexivity.
Qed.

End ReaderFacts.

(** X25. The counts of a read that reports success. When [readSchema]
    on a new reader reports success, its result carries a schema and no
    errors, the schema has as many enums as enum files are listed in
    [files], as many helpers as helper files and as many tables as
    table files, and the tables bear, in order, the names of the table
    files without their first [.ts]. Nothing is said of what the
    definitions hold. *)
Theorem readSchema_success_counts (fs : FileSystem) (projectPath : string)
        (Hsuccess : reader_success (readSchema fs projectPath) = true) :
  exists schema,
    reader_schema (readSchema fs projectPath) = Some schema
    /\ reader_errors (readSchema fs projectPath) = None
    /\ List.length (listed (enums schema))
       = List.length (files_enums (reader_files (readSchema fs projectPath)))
    /\ List.length (listed (helpers schema))
       = List.length (files_helpers (reader_files (readSchema fs projectPath)))
    /\ List.length (listed (tables schema))
       = List.length (files_tables (reader_files (readSchema fs projectPath)))
    /\ map table_name (listed (tables schema))
       = map (Js.remove_first ".ts") (files_tables (reader_files (readSchema fs projectPath))).
Proof.
  unfold readSchema in *.
  destruct (checkProjectExists fs projectPath) eqn:Hfound.
  - destruct (SchemaReader_readSchema_found fs projectPath [] Hfound)
      as (enums_ & helpers_ & tables_ & a1 & a2 & a3 & H).
    cbv zeta in H.
    destruct H as (_ & Hs & He & Hf & Hsch & L1 & L2 & L2' & L3 & M3).
    rewrite Hs in Hsuccess. apply Nat.eqb_eq in Hsuccess.
    rewrite He, Hf, Hsch. cbn [List.app] in Hsuccess.
    rewrite !length_app in Hsuccess.
    assert (a1 = []) by (destruct a1; [reflexivity|cbn [List.length] in Hsuccess; lia]).
    assert (a2 = []) by (destruct a2; [reflexivity|cbn [List.length] in Hsuccess; lia]).
    assert (a3 = []) by (destruct a3; [reflexivity|cbn [List.length] in Hsuccess; lia]).
    subst a1 a2 a3. cbn [List.app List.length] in *.
    eexists. split; [reflexivity|]. split; [reflexivity|].
    cbn [enums helpers tables]. rewrite !listed_nonempty.
    split; [lia|]. split; [lia|]. split; [lia|]. now apply M3.
  - unfold SchemaReader_readSchema in Hsuccess. rewrite Hfound in Hsuccess.
    discriminate Hsuccess.
Qed.

(** X25, for a project with one table file beside an index file and a
    file that is not a source file. *)
Lemma readSchema_success_counts_witness :
  let fs := mkFileSystem
              (fun _ => true)
              (fun d => if String.eqb d "db/tables"
                        then Some ["users.ts"; "index.ts"; "notes.txt"] else None)
              (fun _ => inl ("export const users = pgTable('users', {" ++ nl
                             ++ "    id: serial('id').primaryKey()" ++ nl ++ "});"))
              (fun _ => Some 0%Z)
              (Js.join "/")
              0%Z in
  List.length (files_tables (reader_files (readSchema fs "db"))) = 1
  /\ exists schema,
       reader_schema (readSchema fs "db") = Some schema
       /\ reader_errors (readSchema fs "db") = None
       /\ List.length (listed (enums schema))
          = List.length (files_enums (reader_files (readSchema fs "db")))
       /\ List.length (listed (helpers schema))
          = List.length (files_helpers (reader_files (readSchema fs "db")))
       /\ List.length (listed (tables schema))
          = List.length (files_tables (reader_files (readSchema fs "db")))
       /\ map table_name (listed (tables schema))
          = map (Js.remove_first ".ts") (files_tables (reader_files (readSchema fs "db"))).
Proof.
  intros fs. split; [vm_compute; reflexivity|].
  apply (readSchema_success_counts fs "db"). vm_compute. reflexivity.
Defined.

(** X26. The errors of a reader are never reset. On a reader that
    already holds errors, when the project is found, [readSchema]
    reports failure whatever the files contain: the list of the
    instance after the call is the list before it followed by the new
    errors, and that whole list is the [errors] of the result. *)
Theorem SchemaReader_errors_persist (fs : FileSystem) (projectPath : string)
        (errors : list string)
        (Hfound : checkProjectExists fs projectPath = true)
        (Herrors : errors <> []) :
  exists added,
    snd (SchemaReader_readSchema fs projectPath errors) = List.app errors added
    /\ reader_success (fst (SchemaReader_readSchema fs projectPath errors)) = false
    /\ reader_errors (fst (SchemaReader_readSchema fs projectPath errors))
       = Some (List.app errors added).
Proof.
  destruct (SchemaReader_readSchema_found fs projectPath errors Hfound)
    as (enums_ & helpers_ & tables_ & a1 & a2 & a3 & H).
  cbv zeta in H. destruct H as (Hsnd & Hs & He & _).
  exists (List.app a1 (List.app a2 a3)).
  rewrite Hsnd, Hs, He.
  destruct errors as [|e errors]; [congruence|].
  repeat split; reflexivity.
Qed.

(** X26, for an empty project read by a reader that holds one error. *)
Lemma SchemaReader_errors_persist_witness :
  let fs := mkFileSystem (fun _ => true) (fun _ => Some []) (fun _ => inr "ENOENT")
                         (fun _ => None) (Js.join "/") 0%Z in
  exists added,
    snd (SchemaReader_readSchema fs "db" ["Could not parse enum in Status.ts"])
    = List.app ["Could not parse enum in Status.ts"] added
    /\ reader_success (fst (SchemaReader_readSchema fs "db"
                              ["Could not parse enum in Status.ts"])) = false
    /\ reader_errors (fst (SchemaReader_readSchema fs "db"
                             ["Could not parse enum in Status.ts"]))
       = Some (List.app ["Could not parse enum in Status.ts"] added).
Proof.
  intros fs.
  apply (SchemaReader_errors_persist fs "db" ["Could not parse enum in Status.ts"]).
  - reflexivity.
  - discriminate.
Defined.

Lemma source_files_ts (fs : FileSystem) (projectPath dir x : string) :
  In x (source_files fs projectPath dir) -> endsWith x ".ts" = true /\ x <> "index.ts".
Proof.
  unfold source_files. destruct (fs_access fs _); [|intros []].
  destruct (fs_readdir fs _) as [l|]; [|intros []].
  intros H. apply filter_In in H as [_ H]. apply andb_true_iff in H as [H1 H2].
  split; [exact H1|]. apply negb_true_iff in H2. now apply String.eqb_neq.
Qed.

Lemma In_push {E : Type} (l : list E) (x y : E) : In y (Js.push l x) <-> In y l \/ y = x.
Proof.
  unfold Js.push. rewrite in_app_iff. cbn [In]. intuition congruence.
Qed.

Lemma length_pos_nonempty {E : Type} (l : list E) :
  Nat.ltb 0 (List.length l) = true <-> l <> [].
Proof. destruct l; cbn; split; congruence. Qed.

(** X27. The file listing of a read. The enum, helper and table files
    listed by [readSchema] all end in [.ts] and none is [index.ts]. The
    index files are derived from that listing, not read from disk:
    [index.ts] is listed exactly when the project is found, whether or
    not the file exists, and the index file of a directory is listed
    exactly when a source file of that directory is. *)
Theorem readSchema_file_listing (fs : FileSystem) (projectPath : string) :
  let files := reader_files (readSchema fs projectPath) in
  (forall x, In x (files_enums files) \/ In x (files_helpers files)
             \/ In x (files_tables files) ->
             endsWith x ".ts" = true /\ x <> "index.ts")
  /\ (In "index.ts" (files_indexes files) <-> checkProjectExists fs projectPath = true)
  /\ (In "enums/index.ts" (files_indexes files) <-> files_enums files <> [])
  /\ (In "helpers/index.ts" (files_indexes files) <-> files_helpers files <> [])
  /\ (In "tables/index.ts" (files_indexes files) <-> files_tables files <> []).
Proof.
  cbv zeta. unfold readSchema.
  destruct (checkProjectExists fs projectPath) eqn:Hfound.
  - destruct (SchemaReader_readSchema_found fs projectPath [] Hfound)
      as (enums_ & helpers_ & tables_ & a1 & a2 & a3 & H).
    cbv zeta in H. destruct H as (_ & _ & _ & Hf & _). rewrite Hf. clear Hf.
    unfold getFileStructure.
    cbn [files_enums files_helpers files_tables files_indexes].
    split.
    { intros x [H|[H|H]]; exact (source_files_ts _ _ _ _ H). }
    rewrite <- !length_pos_nonempty.
    destruct (Nat.ltb 0 (List.length (source_files fs projectPath "enums")));
      destruct (Nat.ltb 0 (List.length (source_files fs projectPath "helpers")));
      destruct (Nat.ltb 0 (List.length (source_files fs projectPath "tables")));
      cbn [Js.push List.app In];
      repeat split; intros; try reflexivity; try discriminate; auto;
      repeat match goal with H : _ \/ _ |- _ => destruct H end;
      try discriminate; try contradiction.
  - unfold SchemaReader_readSchema. rewrite Hfound.
    cbn [negb fst reader_files files_enums files_helpers files_tables files_indexes In].
    repeat split; intros; try discriminate; try tauto; try congruence.
Qed.

(** ** Columns read from a helper *)

Section HelperColumns.
Import Regex SchemaReader.

Let no_brace (c : ascii) : bool := negb (Ascii.eqb c "}").

Lemma word_no_brace (c : ascii) : Js.is_word c = true -> no_brace c = true.
Proof. all_ascii c. Qed.

Lemma space_no_brace (c : ascii) : Js.is_space c = true -> no_brace c = true.
Proof. all_ascii c. Qed.

Lemma helper_column_char_no_brace (c : ascii) :
  helper_column_char c = true -> no_brace c = true.
Proof. all_ascii c. Qed.

Lemma strip_one_trailing_comma_chars (p : ascii -> bool) (s : string) :
  all_chars p s = true -> all_chars p (Js.strip_one_trailing_comma s) = true.
Proof.
  induction s as [|c s IH]; [reflexivity|].
  rewrite all_chars_cons. intros H. apply andb_true_iff in H as [Hc Hs].
  cbn [Js.strip_one_trailing_comma].
  destruct s as [|c' s'].
  - destruct (Ascii.eqb c ","); [reflexivity|]. now rewrite all_chars_cons, Hc.
  - rewrite all_chars_cons, Hc. now apply IH.
Qed.

(** A text matched by the column pattern of a helper has no closing
    brace. *)
Lemma helper_column_match_no_brace (bodyContent : string) (ms : list string) (m : string) :
  match_all re_helper_column bodyContent = Some ms -> In m ms ->
  all_chars no_brace m = true.
Proof.
  intros Hall Hin. apply match_all_inv in Hall as [_ Hms].
  destruct (Hms m Hin) as (s0 & mm & Hm & <-).
  unfold match_here, re_helper_column in Hm. cbn [RCat] in Hm.
  apply rmatch_group_seq_inv in Hm as (w1 & s1 & -> & _ & Hp1 & Hm).
  apply rmatch_lit_seq_inv in Hm as (s2 & -> & Hm).
  apply rmatch_star_seq_inv in Hm as (w2 & s3 & -> & Hp2 & Hm).
  apply rmatch_group_seq_inv in Hm as (w3 & s4 & -> & _ & Hp3 & Hm).
  cbn [rmatch] in Hm. injection Hm as <-. cbn [matched].
  match goal with
  | |- context [consumed ?a ?b] =>
      assert (Hc : consumed a b = w1 ++ ":" ++ w2 ++ w3)
  end.
  { rewrite <- (consumed_append (w1 ++ ":" ++ w2 ++ w3) s4).
    now rewrite !append_assoc. }
  rewrite Hc, !all_chars_append.
  rewrite (all_chars_weaken _ _ _ word_no_brace Hp1).
  rewrite (all_chars_weaken _ _ _ space_no_brace Hp2).
  rewrite (all_chars_weaken _ _ _ helper_column_char_no_brace Hp3).
  reflexivity.
Qed.

(** The length pattern needs a closing brace. *)
Lemma parseColumnType_no_brace (definition : string) :
  all_chars no_brace definition = true ->
  length (snd (parseColumnType definition)) = None.
Proof.
  intros Hnb. unfold parseColumnType.
  destruct (match match_start re_leading_call definition with
            | Some enumMatch =>
                match property typeMap (group enumMatch 1) with
                | Some _ => None
                | None => Some (group enumMatch 1)
                end
            | None => None
            end); [reflexivity|].
  cbn [snd length].
  destruct (Js.includes definition "{ length:"); [|reflexivity].
  destruct (search re_length definition) as [lm|] eqn:Es; [|reflexivity].
  exfalso. apply search_inv in Es as (before & s0 & -> & Hm).
  unfold match_here, re_length in Hm. cbn [RCat] in Hm.
  apply rmatch_lit_seq_inv in Hm as (s1 & -> & Hm).
  apply rmatch_group_seq_inv in Hm as (w & s2 & -> & _ & _ & Hm).
  apply rmatch_lit_seq_inv in Hm as (s3 & -> & _).
  rewrite !all_chars_append in Hnb.
  apply andb_true_iff in Hnb as [_ Hnb]. apply andb_true_iff in Hnb as [_ Hnb].
  apply andb_true_iff in Hnb as [_ Hnb]. apply andb_true_iff in Hnb as [Hnb _].
  discriminate Hnb.
Qed.

Lemma parseColumnDefinition_no_brace (line filename : string) (c : ColumnDefinition) :
  all_chars no_brace line = true ->
  parseColumnDefinition line filename = Some c ->
  forall o, col_options c = Some o -> length o = None.
Proof.
  intros Hnb. unfold parseColumnDefinition.
  apply (strip_one_trailing_comma_chars no_brace) in Hnb.
  destruct (search re_column (Js.strip_one_trailing_comma line)) as [m|] eqn:Es;
    [|discriminate].
  intros [= <-] o. cbn [col_options].
  destruct (has_keys _); [|discriminate]. intros [= <-].
  apply parseColumnType_no_brace.
  apply search_inv in Es as (before & s0 & E & Hm). rewrite E in Hnb.
  unfold match_here, re_column in Hm. cbn [RCat] in Hm.
  apply rmatch_group_seq_inv in Hm as (w1 & s1 & -> & _ & _ & Hm).
  apply rmatch_lit_seq_inv in Hm as (s2 & -> & Hm).
  apply rmatch_star_seq_inv in Hm as (w2 & s3 & -> & _ & Hm).
  apply rmatch_group_seq_inv in Hm as (w3 & s4 & -> & _ & _ & Hm).
  cbn [rmatch] in Hm. injection Hm as <-.
  cbn [group groups Js.push app nth Nat.sub].
  rewrite !all_chars_append in Hnb.
  repeat (apply andb_true_iff in Hnb as [? Hnb]).
  repeat match goal with H : _ && _ = true |- _ => apply andb_true_iff in H as [? ?] end.
  assumption.
Qed.

Lemma filter_some_In {E : Type} (l : list (option E)) (x : E) :
  In x (filter_some l) <-> In (Some x) l.
Proof.
  unfold filter_some. rewrite in_flat_map. split.
  - intros ([y|] & Hy & Hx); [|contradiction]. destruct Hx as [<-|[]]. exact Hy.
  - intros H. exists (Some x). split; [exact H|now left].
Qed.

End HelperColumns.

(** X28. No column of a helper that is read has a length. The pattern
    that cuts a helper body into columns stops a column at the first
    comma, line end or closing brace, and the pattern for a length needs
    its closing brace; so whatever the source of the helper says, also
    [varchar('name', { length: 255 })], the [length] of every column of
    the result is absent. *)
Theorem parseHelperContent_no_length (content filename : string) (errors_ : list string) :
  match fst (SchemaReader.parseHelperContent content filename errors_) with
  | Some h =>
      Forall (fun c => forall o, col_options c = Some o -> length o = None)
             (helper_columns h)
  | None => True
  end.
Proof.
  unfold SchemaReader.parseHelperContent, SchemaReader.parseHelperColumns.
  destruct (Regex.search SchemaReader.re_helper content) as [hm|]; [|exact I].
  destruct (Regex.match_all SchemaReader.re_helper_column (Regex.group hm 2))
    as [ms|] eqn:Ems; cbn [fst helper_columns]; [|constructor].
  apply Forall_forall. intros c Hc.
  apply filter_some_In in Hc. apply in_map_iff in Hc as (m & Hread & Hm).
  exact (parseColumnDefinition_no_brace m filename c
           (helper_column_match_no_brace _ ms m Ems Hm) Hread).
Qed.

(** ** The shape of a table that is read *)

Section TableShape.
Import Regex SchemaReader.

Lemma word_not_point (c : ascii) :
  Js.is_word c = true -> negb (Ascii.eqb c ".") = true.
Proof. all_ascii c. Qed.

Lemma split_char_two (sep : ascii) (w1 w2 : string) :
  all_chars (fun c => negb (Ascii.eqb c sep)) w1 = true ->
  all_chars (fun c => negb (Ascii.eqb c sep)) w2 = true ->
  Js.split_char sep (w1 ++ String sep w2) = [w1; w2].
Proof.
  intros H1 H2. induction w1 as [|c w1 IH]; cbn [append Js.split_char].
  - rewrite Ascii.eqb_refl. now rewrite split_char_plain.
  - rewrite all_chars_cons in H1. apply andb_true_iff in H1 as [Hc H1].
    apply negb_true_iff in Hc. rewrite Hc, (IH H1). reflexivity.
Qed.

Lemma identifier_intro (w : string) :
  w <> "" -> all_chars Js.is_word w = true -> identifier w = true.
Proof.
  intros Hne Hw. unfold identifier. apply andb_true_iff.
  split; [now apply truthy_true|exact Hw].
Qed.

Lemma parseColumnDefinition_name (line filename : string) (c : ColumnDefinition) :
  parseColumnDefinition line filename = Some c -> identifier (col_name c) = true.
Proof.
  unfold parseColumnDefinition.
  destruct (search re_column (Js.strip_one_trailing_comma line)) as [m|] eqn:Es;
    [|discriminate].
  intros [= <-]. cbn [col_name].
  apply search_inv in Es as (before & s0 & _ & Hm).
  unfold match_here, re_column in Hm. cbn [RCat] in Hm.
  apply rmatch_group_seq_inv in Hm as (w1 & s1 & -> & Hw1 & Hp1 & Hm).
  apply rmatch_lit_seq_inv in Hm as (s2 & -> & Hm).
  apply rmatch_star_seq_inv in Hm as (w2 & s3 & -> & Hp2 & Hm).
  apply rmatch_group_seq_inv in Hm as (w3 & s4 & -> & Hw3 & Hp3 & Hm).
  cbn [rmatch] in Hm. injection Hm as <-.
  cbn [group groups Js.push app nth Nat.sub].
  now apply identifier_intro.
Qed.

Lemma parseTableBody_loop_shape (lines : list string) (filename : string) :
  forall columns helperRefs,
    Forall (fun c => identifier (col_name c) = true) columns ->
    Forall (fun r => identifier r = true) helperRefs ->
    Forall (fun c => identifier (col_name c) = true)
           (fst (parseTableBody_loop lines filename columns helperRefs))
    /\ Forall (fun r => identifier r = true)
              (snd (parseTableBody_loop lines filename columns helperRefs)).
Proof.
  induction lines as [|line rest IH]; intros columns helperRefs Hc Hr;
    cbn [parseTableBody_loop]; [now split|].
  destruct (Js.startsWith line "...").
  - destruct (search re_spread line) as [m|] eqn:Es; [|now apply IH].
    apply IH; [exact Hc|]. unfold Js.push. apply Forall_app. split; [exact Hr|].
    constructor; [|constructor].
    apply search_inv in Es as (before & s0 & _ & Hm).
    unfold match_here, re_spread in Hm. cbn [RCat] in Hm.
    apply rmatch_lit_seq_inv in Hm as (s1 & -> & Hm).
    apply rmatch_group_seq_inv in Hm as (w & s2 & -> & Hw & Hp & Hm).
    cbn [rmatch] in Hm. injection Hm as <-.
    cbn [group groups Js.push app nth Nat.sub]. now apply identifier_intro.
  - destruct (Js.includes line ":"); [|now apply IH].
    destruct (parseColumnDefinition line filename) as [c|] eqn:Ec; [|now apply IH].
    apply IH; [|exact Hr]. unfold Js.push. apply Forall_app. split; [exact Hc|].
    constructor; [|constructor]. exact (parseColumnDefinition_name _ _ _ Ec).
Qed.

Lemma parseCompositePrimaryKey_shape (content : string) :
  Forall (fun k => identifier k = true) (parseCompositePrimaryKey content).
Proof.
  unfold parseCompositePrimaryKey.
  destruct (search re_composite_pk content) as [m|]; [|constructor].
  destruct (match_all re_pk_column (group m 1)) as [ms|] eqn:Ems; [|constructor].
  apply match_all_inv in Ems as [_ Hms].
  apply Forall_forall. intros k Hk. apply in_map_iff in Hk as (v & <- & Hv).
  destruct (Hms v Hv) as (s0 & mm & Hm & <-).
  unfold match_here, re_pk_column in Hm. cbn [RCat] in Hm.
  apply rmatch_plus_seq_inv in Hm as (w1 & s1 & -> & _ & Hp1 & Hm).
  apply rmatch_lit_seq_inv in Hm as (s2 & -> & Hm).
  apply rmatch_group_seq_inv in Hm as (w2 & s3 & -> & Hw2 & Hp2 & Hm).
  cbn [rmatch] in Hm. injection Hm as <-. cbn [matched].
  match goal with
  | |- context [consumed ?a ?b] =>
      assert (Hc : consumed a b = w1 ++ String "." w2)
  end.
  { rewrite <- (consumed_append (w1 ++ String "." w2) s3).
    now rewrite !append_assoc. }
  rewrite Hc. unfold second_part.
  rewrite split_char_two.
  - cbn [nth]. now apply identifier_intro.
  - exact (all_chars_weaken _ _ _ word_not_point Hp1).
  - exact (all_chars_weaken _ _ _ word_not_point Hp2).
Qed.

End TableShape.

(** X29. Reading the source of a table either yields a table and
    leaves the error list as it is, or yields nothing and appends the one
    error that names the file. In a table that is read every column
    name, every helper reference and every column of the composite key
    is an identifier, and a list of helper references or a composite key
    that is present is not empty. *)
Theorem parseTableContent_outcome (content filename : string) (errors_ : list string) :
  match SchemaReader.parseTableContent content filename errors_ with
  | (Some d, errors') =>
      errors' = errors_
      /\ Forall (fun c => identifier (col_name c) = true) (table_columns d)
      /\ (forall refs, helperReferences d = Some refs ->
            refs <> [] /\ Forall (fun r => identifier r = true) refs)
      /\ (forall key, compositePrimaryKey d = Some key ->
            key <> [] /\ Forall (fun k => identifier k = true) key)
  | (None, errors') => errors' = Js.push errors_ ("Could not parse table in " ++ filename)
  end.
Proof.
  unfold SchemaReader.parseTableContent.
  destruct (Regex.search SchemaReader.re_table content) as [m|]; [|reflexivity].
  destruct (SchemaReader.parseTableBody (Regex.group m 3) filename)
    as [columns helperRefs] eqn:Eb.
  cbn [table_columns helperReferences compositePrimaryKey].
  unfold SchemaReader.parseTableBody in Eb.
  destruct (parseTableBody_loop_shape
              (filter Js.truthy
                 (map Js.trim (Js.split_char (ascii_of_nat 10) (Regex.group m 3))))
              filename [] [] (Forall_nil _) (Forall_nil _)) as [Hc Hr].
  rewrite Eb in Hc, Hr. cbn [fst snd] in Hc, Hr.
  pose proof (parseCompositePrimaryKey_shape content) as Hk.
  split; [reflexivity|]. split; [exact Hc|]. split.
  - intros refs. destruct helperRefs as [|r0 rs]; cbn; [discriminate|].
    intros [= <-]. split; [discriminate|exact Hr].
  - intros key. destruct (SchemaReader.parseCompositePrimaryKey content) as [|k0 ks];
      cbn; [discriminate|].
    intros [= <-]. split; [discriminate|exact Hk].
Qed.


(** ** What the project generator does to the disk *)

Section DiskFacts.

Context {W : Type}.
Variable fs : Disk W.
Variable config : ProjectGeneratorConfig.
Variable w0 : W.
Variable base : list string.

(** The disk of the instance comes from [w0] by permitted steps, and
    the files written since are the ones recorded after [base]. *)
Let recorded (g : ProjectGenerator W) : Prop :=
  exists written,
    touched fs (Js.truthy_bool (overwrite config)) w0 written (disk g)
    /\ generatedFiles g = List.app base written.

Lemma ensureDirectory_touched (w w' : W) (l : list string) (dirPath : string) :
  touched fs (Js.truthy_bool (overwrite config)) w0 l w ->
  ensureDirectory fs w dirPath = inl w' ->
  touched fs (Js.truthy_bool (overwrite config)) w0 l w'.
Proof.
  intros Ht. unfold ensureDirectory.
  destruct (disk_access fs w dirPath) eqn:Ea.
  - intros [= <-]. exact Ht.
  - intros Hm. exact (touched_mkdir fs _ w0 w w' l dirPath Ht Ea Hm).
Qed.

Lemma writeFile_recorded (g : ProjectGenerator W) (filePath content : string) :
  recorded g -> recorded (snd (writeFile fs config g filePath content)).
Proof.
  intros (l & Ht & Hg). unfold writeFile.
  destruct (negb (Js.truthy_bool (overwrite config)) && disk_access fs (disk g) filePath)
    eqn:Eskip; cbn [snd].
  - exists l. split; assumption.
  - destruct (ensureDirectory fs (disk g) (disk_dirname fs filePath)) as [w1|error] eqn:Ed;
      cbn [snd]; [|exists l; split; assumption].
    assert (Hfree : Js.truthy_bool (overwrite config) = true
                    \/ disk_access fs (disk g) filePath = false).
    { apply andb_false_iff in Eskip as [E|E]; [left|right; exact E].
      now apply negb_false_iff in E. }
    destruct (disk_writeFile fs w1 filePath content) as [w2|error] eqn:Ew; cbn [snd].
    + exists (Js.push l filePath). cbn [disk generatedFiles]. split.
      * exact (touched_write fs _ w0 (disk g) w1 w2 l filePath content Ht Hfree Ed Ew).
      * rewrite Hg. unfold Js.push. now rewrite app_assoc.
    + exists l. cbn [disk generatedFiles]. split; [|exact Hg].
      exact (ensureDirectory_touched _ _ _ _ Ht Ed).
Qed.

Lemma generateEnums_loop_recorded (enumsDir_ : string) (definitions : list EnumDefinition) :
  forall enumFiles g,
    recorded g ->
    recorded (snd (generateEnums_loop fs config enumsDir_ definitions enumFiles g)).
Proof.
  induction definitions as [|enumDef rest IH]; intros enumFiles g Hg;
    cbn [generateEnums_loop]; [exact Hg|].
  destruct (Js.truthy_opt (enum_error (EnumGenerator enumDef))); [apply IH; exact Hg|].
  pose proof (writeFile_recorded g
                (disk_join fs [enumsDir_; enum_name enumDef ++ ".ts"])
                (fileContent (enum_imports (EnumGenerator enumDef))
                   (enumCode (EnumGenerator enumDef))) Hg) as Hw.
  destruct (writeFile fs config g _ _) as [[error|] g1]; cbn [snd] in Hw;
    apply IH; exact Hw.
Qed.

Lemma generateHelpers_loop_recorded (helpersDir_ : string)
      (definitions : list HelperDefinition) :
  forall helperFiles g,
    recorded g ->
    recorded (snd (generateHelpers_loop fs config helpersDir_ definitions helperFiles g)).
Proof.
  induction definitions as [|helperDef rest IH]; intros helperFiles g Hg;
    cbn [generateHelpers_loop]; [exact Hg|].
  destruct (Js.truthy_opt (helper_error (HelperGenerator helperDef)));
    [apply IH; exact Hg|].
  pose proof (writeFile_recorded g
                (disk_join fs [helpersDir_; helper_name helperDef ++ ".ts"])
                (fileContent (helper_imports (HelperGenerator helperDef))
                   (helperCode (HelperGenerator helperDef))) Hg) as Hw.
  destruct (writeFile fs config g _ _) as [[error|] g1]; cbn [snd] in Hw;
    apply IH; exact Hw.
Qed.

Lemma generateTables_loop_recorded (tablesDir_ : string)
      (definitions : list TableDefinition) :
  forall tableFiles g,
    recorded g ->
    recorded (snd (generateTables_loop fs config tablesDir_ definitions tableFiles g)).
Proof.
  induction definitions as [|tableDef rest IH]; intros tableFiles g Hg;
    cbn [generateTables_loop]; [exact Hg|].
  destruct (Js.truthy_opt (table_error (TableGenerator tableDef)));
    [apply IH; exact Hg|].
  pose proof (writeFile_recorded g
                (disk_join fs [tablesDir_; table_name tableDef ++ ".ts"])
                (fileContent (table_imports (TableGenerator tableDef))
                   (tableCode (TableGenerator tableDef))) Hg) as Hw.
  destruct (writeFile fs config g _ _) as [[error|] g1]; cbn [snd] in Hw;
    apply IH; exact Hw.
Qed.

Lemma index_step_recorded (wanted : bool) (filePath content listed_as : string)
      (next : list string -> ProjectGenerator W -> list string * ProjectGenerator W) :
  (forall indexFiles g, recorded g -> recorded (snd (next indexFiles g))) ->
  forall indexFiles g,
    recorded g ->
    recorded (snd (index_step fs config wanted filePath content listed_as next indexFiles g)).
Proof.
  intros Hnext indexFiles g Hg. unfold index_step.
  destruct wanted; [|now apply Hnext].
  pose proof (writeFile_recorded g filePath content Hg) as Hw.
  destruct (writeFile fs config g filePath content) as [[error|] g1]; cbn [snd] in Hw.
  - exact Hw.
  - now apply Hnext.
Qed.

Lemma generateIndexFiles_recorded (enumsDir_ helpersDir_ tablesDir_ : string)
      (enumFiles helperFiles tableFiles : list string) (g : ProjectGenerator W) :
  recorded g ->
  recorded (snd (generateIndexFiles fs config enumsDir_ helpersDir_ tablesDir_
                   enumFiles helperFiles tableFiles g)).
Proof.
  intros Hg. unfold generateIndexFiles.
  apply index_step_recorded; [|exact Hg]. intros f1 g1 H1.
  apply index_step_recorded; [|exact H1]. intros f2 g2 H2.
  apply index_step_recorded; [|exact H2]. intros f3 g3 H3.
  apply index_step_recorded; [|exact H3]. intros f4 g4 H4.
  exact H4.
Qed.

End DiskFacts.

(** X30. What [generate] does to the disk. Whatever the disk does, the
    state it is left in comes from the state before the call by
    creating directories that were not accessible and by writing files;
    unless [overwrite] is set, a file is written only if it was not
    accessible when the generator looked; and the files written are,
    in order, exactly those that the call adds to the [generatedFiles]
    of the instance, which are the [generatedFiles] of the result also
    when a step of [generate] throws. *)
Theorem generate_respects_existing_files {W : Type} (fs : Disk W)
        (config : ProjectGeneratorConfig) (g : ProjectGenerator W) :
  exists written,
    touched fs (Js.truthy_bool (overwrite config)) (disk g) written
            (disk (snd (generate fs config g)))
    /\ generatedFiles (snd (generate fs config g)) = List.app (generatedFiles g) written
    /\ project_generatedFiles (fst (generate fs config g))
       = generatedFiles (snd (generate fs config g)).
Proof.
  assert (H0 : touched fs (Js.truthy_bool (overwrite config)) (disk g) [] (disk g))
    by constructor.
  assert (Hend : forall r : ProjectGeneratorResult * ProjectGenerator W,
             (exists written,
                 touched fs (Js.truthy_bool (overwrite config)) (disk g) written (disk (snd r))
                 /\ generatedFiles (snd r) = List.app (generatedFiles g) written) ->
             project_generatedFiles (fst r) = generatedFiles (snd r) ->
             exists written,
               touched fs (Js.truthy_bool (overwrite config)) (disk g) written (disk (snd r))
               /\ generatedFiles (snd r) = List.app (generatedFiles g) written
               /\ project_generatedFiles (fst r) = generatedFiles (snd r)).
  { intros r (l & H1 & H2) H3. exists l. auto. }
  apply Hend; clear Hend; unfold generate.
  - destruct (ensureDirectory fs (disk g) (outputDir config)) as [w1|error] eqn:E1.
    2:{ exists []. cbn [generate_failed snd]. rewrite app_nil_r. split; [exact H0|reflexivity]. }
    pose proof (ensureDirectory_touched fs config _ _ _ _ _ H0 E1) as H1.
    destruct (ensureDirectory fs w1 _) as [w2|error] eqn:E2.
    2:{ exists []. cbn [generate_failed snd disk generatedFiles]. rewrite app_nil_r.
        split; [exact H1|reflexivity]. }
    pose proof (ensureDirectory_touched fs config _ _ _ _ _ H1 E2) as H2.
    destruct (ensureDirectory fs w2 _) as [w3|error] eqn:E3.
    2:{ exists []. cbn [generate_failed snd disk generatedFiles]. rewrite app_nil_r.
        split; [exact H2|reflexivity]. }
    pose proof (ensureDirectory_touched fs config _ _ _ _ _ H2 E3) as H3.
    destruct (ensureDirectory fs w3 _) as [w4|error] eqn:E4.
    2:{ exists []. cbn [generate_failed snd disk generatedFiles]. rewrite app_nil_r.
        split; [exact H3|reflexivity]. }
    pose proof (ensureDirectory_touched fs config _ _ _ _ _ H3 E4) as H4.
    assert (Hg0 : exists written,
               touched fs (Js.truthy_bool (overwrite config)) (disk g) written
                       (disk (mkProjectGenerator w4 (generatedFiles g) (generator_errors g)))
               /\ generatedFiles (mkProjectGenerator w4 (generatedFiles g) (generator_errors g))
                  = List.app (generatedFiles g) written).
    { exists []. cbn [disk generatedFiles]. rewrite app_nil_r. split; [exact H4|reflexivity]. }
    unfold generateEnums, generateHelpers, generateTables.
    set (g0 := mkProjectGenerator w4 (generatedFiles g) (generator_errors g)) in *.
    assert (Hg1 : exists written,
               touched fs (Js.truthy_bool (overwrite config)) (disk g) written
                 (disk (snd (match enums config with
                             | Some definitions =>
                                 generateEnums_loop fs config
                                   (disk_join fs [outputDir config; "enums"]) definitions [] g0
                             | None => ([], g0)
                             end)))
               /\ generatedFiles (snd (match enums config with
                                       | Some definitions =>
                                           generateEnums_loop fs config
                                             (disk_join fs [outputDir config; "enums"])
                                             definitions [] g0
                                       | None => ([], g0)
                                       end))
                  = List.app (generatedFiles g) written).
    { destruct (enums config); [|exact Hg0].
      now apply generateEnums_loop_recorded. }
    destruct (match enums config with Some _ => _ | None => _ end) as [enumFiles g1].
    cbn [snd] in Hg1.
    assert (Hg2 : exists written,
               touched fs (Js.truthy_bool (overwrite config)) (disk g) written
                 (disk (snd (match helpers config with
                             | Some definitions =>
                                 generateHelpers_loop fs config
                                   (disk_join fs [outputDir config; "helpers"])
                                   definitions [] g1
                             | None => ([], g1)
                             end)))
               /\ generatedFiles (snd (match helpers config with
                                       | Some definitions =>
                                           generateHelpers_loop fs config
                                             (disk_join fs [outputDir config; "helpers"])
                                             definitions [] g1
                                       | None => ([], g1)
                                       end))
                  = List.app (generatedFiles g) written).
    { destruct (helpers config); [|exact Hg1].
      now apply generateHelpers_loop_recorded. }
    destruct (match helpers config with Some _ => _ | None => _ end) as [helperFiles g2].
    cbn [snd] in Hg2.
    assert (Hg3 : exists written,
               touched fs (Js.truthy_bool (overwrite config)) (disk g) written
                 (disk (snd (match tables config with
                             | Some definitions =>
                                 generateTables_loop fs config
                                   (disk_join fs [outputDir config; "tables"])
                                   definitions [] g2
                             | None => ([], g2)
                             end)))
               /\ generatedFiles (snd (match tables config with
                                       | Some definitions =>
                                           generateTables_loop fs config
                                             (disk_join fs [outputDir config; "tables"])
                                             definitions [] g2
                                       | None => ([], g2)
                                       end))
                  = List.app (generatedFiles g) written).
    { destruct (tables config); [|exact Hg2].
      now apply generateTables_loop_recorded. }
    destruct (match tables config with Some _ => _ | None => _ end) as [tableFiles g3].
    cbn [snd] in Hg3.
    pose proof (generateIndexFiles_recorded fs config (disk g) (generatedFiles g)
                  (disk_join fs [outputDir config; "enums"])
                  (disk_join fs [outputDir config; "helpers"])
                  (disk_join fs [outputDir config; "tables"])
                  enumFiles helperFiles tableFiles g3 Hg3) as Hg4.
    destruct (generateIndexFiles fs config _ _ _ enumFiles helperFiles tableFiles g3)
      as [indexFiles g4].
    exact Hg4.
  - destruct (ensureDirectory fs (disk g) (outputDir config)) as [w1|error];
      [|reflexivity].
    destruct (ensureDirectory fs w1 _) as [w2|error]; [|reflexivity].
    destruct (ensureDirectory fs w2 _) as [w3|error]; [|reflexivity].
    destruct (ensureDirectory fs w3 _) as [w4|error]; [|reflexivity].
    destruct (generateEnums fs config _ _) as [enumFiles g1].
    destruct (generateHelpers fs config _ g1) as [helperFiles g2].
    destruct (generateTables fs config _ g2) as [tableFiles g3].
    destruct (generateIndexFiles fs config _ _ _ enumFiles helperFiles tableFiles g3)
      as [indexFiles g4].
    reflexivity.
Qed.
